(* ===== verification/_CoqProject ===== *)
-Q . S2P
Prelude.v
Effects.v
Json.v
Serde.v
JsonCodec.v
Aws.v
Common.v
Signer.v
Suite.v
IdentityAssertion.v
AuditSeal.v
AuthProof.v
DecisionBinding.v
DecisionSeal.v
Chain.v
AuditChain.v
AuditRecord.v
ClientData.v
Cose.v
Registration.v
Authentication.v
Recovery.v
Calendar.v
PolicyProto.v
Pdp.v
PolicyEngine.v
AuditProto.v
AuditSealerApp.v
Pool.v
PoolSync.v
IdpStore.v
DbRoles.v
IdpGrpc.v
IdpHttp.v
IdpSpec.v
IdpSystem.v
IdpReplay.v
IdpJournal.v
IdpLogin.v
IdpTables.v
IdpEnrol.v
Startup.v
EventContract.v
SignatureText.v
Evidence.v
Availability.v
CedarPolicy.v
TestKit.v
IdpRun.v
Sha256.v
UnitAssertion.v
UnitEvent.v
UnitDecision.v
UnitAudit.v
Base64Url.v
WebauthnKit.v
FuzzTargets.v
UnitAuthentication.v
UnitRegistration.v
UnitServices.v
UnitPdp.v
UnitVectors.v
UnitIntegration.v
