(* ===== verification/Prelude.v ===== *)
(** * Zero-secret: a verification library for the Rust crates and services

    Zero-secret issues short-lived credentials to people who authenticate with WebAuthn, under
    decisions of a policy engine, with every step sealed by a key in an HSM and recorded in
    an audit journal.  This library models its Rust code, under [crates/] and [apps/], and
    proves what each part promises; the last files put the identity provider together
    and prove what holds however its requests interleave.

    ** The program's parts, and the files that model them

    Foundations.
    - [Prelude] (this file): bytes and texts, results with panics ([res], [res_bind]),
      machine integers, tactics, hint databases, lemmas shared by all.
    - [Effects]: programs as trees of calls to their environment ([prog]), a program logic
      over them ([wp]), their executions ([run]), a bound on their calls ([calls_within]).
    - [Json], [Serde], [JsonCodec]: [serde_json] values, derived decoders, canonical JSON
      ([crates/zs-crypto/src/common.rs]: [sort_keys], [canonical_bytes]); the printer and the
      parser are the class [SerdeJson] with laws [SerdeJsonLaws], and [JsonCodec] is an
      instance that satisfies them.
    - [Aws]: the primitives of [aws-lc-rs] as a class [AwsLc]; [Signer]: [zs-hsm]'s trait
      [HsmSigner] and what a client assumes of a key ([signs_for]).

    [crates/zs-crypto].
    - [Common]: validated texts, timestamps, UUIDs, hexadecimal.
    - [Suite]: what the signing suites share; [IdentityAssertion] ([identity_assertion.rs]),
      [AuditSeal] ([audit_seal.rs]), [DecisionSeal] ([decision_seal.rs]): one file per suite,
      sealing and verification, wire documents and errors.
    - [AuthProof] ([authenticator_proof.rs]): keys, proofs and challenges;
      [DecisionBinding] ([decision_binding.rs]): request and corpus digests.

    [crates/zs-audit]: [Chain] ([chain.rs], [verify_chain]), [AuditChain] (the chains of the
    events that [audit_seal::verify] accepts) and [AuditRecord] ([record.rs], [sink.rs], the
    traits as classes).

    [crates/zs-webauthn]: [ClientData] ([client_data.rs], [flags.rs], [policy.rs]), [Cose]
    ([cose.rs]), [Registration], [Authentication] (a ceremony each) and [Recovery]
    ([recovery.rs], and the storage contracts of [store.rs] as classes).

    [crates/zs-policy] and [apps/policy-engine]: [Calendar] (dates), [PolicyProto] (messages),
    [Pdp] ([pdp.rs]: loading, translation, decision) and [PolicyEngine] (both handlers).

    [crates/zs-hsm]: [Pool] ([pool.rs]): sessions, their loss and replacement, waiting;
    [PoolSync]: the same with its mutex, its condition variable and its timeouts as steps.

    [apps/audit-sealer]: [AuditProto] (messages) and [AuditSealerApp] (both handlers).

    [apps/identity-provider]: [IdpStore] ([store.rs] and the tables of
    [deploy/migrations]: each SQL statement as a function of the tables), [DbRoles] (the
    privileges that the migrations leave to the roles of the database), [IdpGrpc]
    ([lib.rs]: assertion verification and the clock), [IdpHttp] ([httpapi.rs]: the four
    WebAuthn endpoints as programs), [IdpSpec] (what one request does), [IdpSystem] (all
    requests over one database, as a step relation), [IdpReplay], [IdpJournal], [IdpLogin],
    [IdpTables] and [IdpEnrol] (what holds of that system), [IdpRun] (one environment of that system,
    as a function that runs requests).

    The binaries: [Startup] (the three [main.rs], from the environment of the process to the
    call that serves).

    Across components: [EventContract] ([contracts/events/audit-event.schema.json] as a
    value with the meaning of its keywords, and sealed events against it), [SignatureText]
    (the texts of a signature that verify), [Evidence] (from a decision of the engine to the
    audit event that records it), [Availability] (a token that fails: what is still
    answered, when a service ends), [CedarPolicy] ([policies/access/*.cedar] as conditions,
    and what the decision point answers with them).

    The tests of the repository, translated and evaluated on the models: [UnitAssertion],
    [UnitEvent], [UnitDecision], [UnitAudit], [UnitAuthentication], [UnitRegistration],
    [UnitServices], [UnitPdp] (the [mod tests] of the crates and services, and the cases of
    [policies/tests]), [UnitVectors] (the frozen audit chain: the model seals the very bytes
    the repository recorded), [UnitIntegration] (both services called from end to end); and
    [FuzzTargets], the fuzz targets, proved to fail on no input.  They use [TestKit] (assertions, a light digest), [WebauthnKit] (authenticators, CBOR),
    [Base64Url] (base64url without padding) and [Sha256] (FIPS 180-4).  A test is a
    computation that panics when an assertion fails, so each file ends with an evaluation
    whose value says that all of them pass.

    ** How they interact

    The suites are proved against the class [HsmSigner], which [Pool] implements; the
    ceremonies against [Base64], [Ciborium] and [Coset]; the services against the
    suites.  The state of the identity provider is its tables ([Db]) and one program per
    request: a handler [await]s calls ([idp_call]), and [IdpSystem.step] lets any thread
    make its next call, which [answers] relates to the tables before and after.  The
    statements, the clock, the generator and the sealers are all such calls, so every
    interleaving the database allows is an execution; an answer may be lost before or after
    the effect, or refused.

    ** What the theorems show

    - Sealing and verification agree: what a suite seals, its verifier accepts, with the
      same contents; a verifier accepts exactly its specification, on every byte string,
      and never panics; an accepted document was sealed, if the signature scheme is
      unforgeable; no message of one suite is a message of another.
    - The journal: [verify_chain] accepts exactly the linked lists; for entries that repeat
      what [audit_seal::verify] read in their bytes, the hash of the head of a domain commits
      to its history, unless two events collide; whatever the interleaving the provider's
      journal stays such a chain, each row verifies and repeats its event.
    - Ceremonies: registration and authentication accept exactly their specifications; a
      challenge is used once and a counter only grows, for any interleaving of requests; no
      login succeeds without its event; every request ends within eleven calls, and panics
      only after an answer that is not healthy; a login that nothing disturbs succeeds where
      the database reads the texts of [append] as [uuid] and [timestamptz], and where it
      refuses them, as PostgreSQL documents, ends with a 503, and then no registration or
      login ever succeeds; the tables keep their types, so nothing is lost when a row is
      read.
    - From enrolment to login: a registration that succeeded binds its credential to the
      subject of its challenge and to the attested key, for good; every login with it is of
      that subject, verified with that key.
    - The database: the statements are within the privileges of their roles; no application
      role can do anything to the journal but add to it.
    - Start: a service serves only when everything it requires is there, else it ends with
      an error.
    - Policy: decisions are total, refused by default, determined by the corpus and the
      request up to the order of their reasons, sealed before they leave; what the policies
      of the repository allow, and that no policy added to them lifts a guardrail.
    - Contracts: every event that the service seals satisfies the published schema.
    - The HSM pool: no session is shared or invented; where sessions are lost; no notification
      is lost, no wait outlasts its deadline, and the steps that show the mutex and the
      condition variable refine those that do not (the queue is not fair:
      [PoolSync.a_waiter_can_be_overtaken]).
    - Dates: the calendar is a bijection, texts are ordered as times, the copies agree.

    ** Parameters

    Code that is not in the repository is a parameter, with laws that are its documented
    behaviour: [SerdeJson] and [SerdeJsonLaws] (serde_json), [AwsLc] (aws-lc-rs: a digest of
    32 bytes, verification predicates; the theorems name the two messages that would collide),
    [HsmSigner] and [Token] (the PKCS#11 token), [HsmOpen], [Base64] (decoding inverts
    encoding), [Ciborium] and [Coset] (CBOR and COSE decoders), [Cedar] (the policy
    evaluator; [CedarSemantics] are the rules of the language that the policies rely on, over
    stores without a hierarchy),
    [SetOrder] (the order in which a hash set is walked), [UuidCrate], [Csprng], [ScanOrder]
    (the order of a [SELECT]), [PgConversions] (which texts the server reads as [uuid] and
    [timestamptz]: none, as PostgreSQL documents it for parameters of type [text]; no law is
    assumed).  Each has an instance on which the theorems are applied at concrete
    inputs.

    ** Bounds

    Integers are [Z] with their width written where it matters ([wrap_u32], [wrap_i64],
    [next_u64], [add_i64]); an overflow is [Panic].  Fuel: the parser of
    [JsonCodec] has twice the length of its input ([need_print]: enough for any text the
    printer makes of a well-formed value), [dec_digits] a bound on the digits it prints.
    Waiting for a session takes a list of wake-ups.  Handlers need no fuel: they are finite
    trees.

    ** Not modelled

    - Transports: HTTP, gRPC, the JSON extractor of axum, sockets, TLS; logs; what a
      connection to the database does beyond being there or not; [audit-sealer] on systems
      that are not Unix, where it only exits.
    - Erasure of memory (zeroize) and timing (constant-time comparison is equality).
    - Writers of the tables other than the provider (revocation is an [UPDATE] that no code
      of the repository makes; [audit-collector], in Go, appends to the same table events of
      the domains its callers name: the theorems are about a table that starts with, and
      gets, rows of the provider's domain only).
    - Expiry of rows, backups, replication, and isolation levels: each statement commits
      alone, as the code uses them.
    - The Go services and the TypeScript console, so neither the requests that [access-broker]
      makes of [PolicyEngine]: only the Rust ends of those exchanges are here.
    - The crates' façades ([lib.rs] of each): module declarations, re-exports, code generated
      from the contracts.
    - Of the roles: passwords, [USAGE] on schemas, rights on the database itself.
    - Of the tests: the one on a ten-mebibyte input (a list of that length), the tool that
      regenerates the frozen chain, the tests of the PKCS#11 token itself, the Wycheproof
      vectors (they test [aws-lc-rs]). *)

From Stdlib Require Export ZArith Lia.
From Stdlib Require Export Ascii.
From stdpp Require Export base list strings gmap sorting.

Export (notations) Ascii.

#[global] Set Default Goal Selector "!".

(** ** Bytes and text *)

(** Rust's [u8] is a Rocq [ascii] (eight bits), a [Vec<u8>] or [&[u8]] a list of
    them; a Rust [String] is the [string] of its UTF-8 bytes. *)
Abbreviation u8 := ascii.
Abbreviation bytes := (list ascii).

Abbreviation as_bytes := String.list_ascii_of_string.
Abbreviation from_utf8_bytes := String.string_of_list_ascii.

(** The numeric value of a byte, and the byte of a number modulo 256. *)
Definition u8_val (b : u8) : Z := Z.of_N (N_of_ascii b).
Definition u8_of (z : Z) : u8 := ascii_of_N (Z.to_N (z mod 256)).

(** [len] is Rust's [usize]-valued length, as an unbounded [Z]. *)
Definition len {A} (l : list A) : Z := Z.of_nat (length l).
Definition str_len (s : string) : Z := Z.of_nat (String.length s).

(** ** Results: a Rust computation returns [Ok], returns [Err], or panics *)

Inductive res (A E : Type) : Type :=
| Ok (a : A)
| Err (e : E)
| Panic.
Arguments Ok {A E} a.
Arguments Err {A E} e.
Arguments Panic {A E}.

Definition res_bind {A B E} (r : res A E) (k : A → res B E) : res B E :=
  match r with
  | Ok a => k a
  | Err e => Err e
  | Panic => Panic
  end.

Definition map_err {A E F} (f : E → F) (r : res A E) : res A F :=
  match r with
  | Ok a => Ok a
  | Err e => Err (f e)
  | Panic => Panic
  end.

Definition map_ok {A B E} (f : A → B) (r : res A E) : res B E :=
  match r with
  | Ok a => Ok (f a)
  | Err e => Err e
  | Panic => Panic
  end.

(** [Option::ok_or], [Option::expect] / [unwrap], [Result::ok]. *)
Definition ok_or {A E} (o : option A) (e : E) : res A E :=
  match o with Some a => Ok a | None => Err e end.
Definition unwrap {A E} (o : option A) : res A E :=
  match o with Some a => Ok a | None => Panic end.
Definition expect {A E F} (r : res A E) : res A F :=
  match r with Ok a => Ok a | Err _ | Panic => Panic end.

Definition is_ok {A E} (r : res A E) : bool :=
  match r with Ok _ => true | _ => false end.

Declare Scope zs_scope.
Delimit Scope zs_scope with zs.
Notation "'let!' x ':=' r 'in' k" := (res_bind r (λ x, k))
  (at level 10, x pattern, r at level 100, k at level 200) : zs_scope.
(** [guard! b 'else' e 'in' k]: the early return [if !b { return Err(e) }]. *)
Notation "'guard!' b 'else' e 'in' k" := (if b then k else Err e)
  (at level 10, b at level 100, e at level 100, k at level 200) : zs_scope.
Open Scope zs_scope.
Open Scope Z_scope.

(** [iter().map(f).collect::<Result<Vec<_>, _>>()] *)
Section try_map.
Context {A B E : Type} (f : A → res B E).
Fixpoint try_map (l : list A) : res (list B) E :=
  match l with
  | [] => Ok []
  | x :: l' => let! y := f x in let! ys := try_map l' in Ok (y :: ys)
  end.
End try_map.

(** [Option<Result<T, E>>::transpose()] after [map]. *)
Definition try_opt {A B E} (f : A → res B E) (o : option A) : res (option B) E :=
  match o with
  | None => Ok None
  | Some a => map_ok Some (f a)
  end.

(** ** Indexing and slicing: out of range is a panic *)

Definition index {A E} (l : list A) (i : Z) : res A E :=
  if (i <? 0) then Panic else unwrap (l !! Z.to_nat i).

Definition slice {A E} (l : list A) (i j : Z) : res (list A) E :=
  if (0 <=? i) && (i <=? j) && (j <=? len l)
  then Ok (take (Z.to_nat (j - i)) (drop (Z.to_nat i) l))
  else Panic.

(** [&l[i..]] *)
Definition slice_from {A E} (l : list A) (i : Z) : res (list A) E :=
  slice l i (len l).

(** ** Machine integers *)

Definition u16_max : Z := 2 ^ 16 - 1.
Definition u32_max : Z := 2 ^ 32 - 1.
Definition u64_max : Z := 2 ^ 64 - 1.
Definition i64_min : Z := - 2 ^ 63.
Definition i64_max : Z := 2 ^ 63 - 1.

Definition wrap_u64 (z : Z) : Z := z mod 2 ^ 64.
(** [as u32] *)
Definition wrap_u32 (z : Z) : Z := z mod 2 ^ 32.
(** [as i64] from any integer: two's complement *)
Definition wrap_i64 (z : Z) : Z := (z + 2 ^ 63) mod 2 ^ 64 - 2 ^ 63.

Definition in_u64 (z : Z) : Prop := 0 ≤ z ≤ u64_max.
Definition in_u32 (z : Z) : Prop := 0 ≤ z ≤ u32_max.
Definition in_i64 (z : Z) : Prop := i64_min ≤ z ≤ i64_max.

(** [from_be_bytes], over any number of bytes. *)
Definition from_be_bytes (bs : bytes) : Z :=
  fold_left (λ acc b, acc * 256 + u8_val b) bs 0.

(** [(n as uNN).to_be_bytes()] on [w] bytes. *)
Fixpoint to_be_bytes (w : nat) (n : Z) : bytes :=
  match w with
  | O => []
  | S w' => to_be_bytes w' (n / 256) ++ [u8_of n]
  end.

(** ** Formatting *)

(** A digit of base at most 16, lower case. *)
Definition digit (d : Z) : ascii :=
  ascii_of_N (Z.to_N (if d <? 10 then 48 + d else 87 + d)).

(** Decimal digits of a non-negative number; [fuel] bounds the number of digits. *)
Fixpoint dec_digits (fuel : nat) (n : Z) : list ascii :=
  match fuel with
  | O => []
  | S f => (if n <? 10 then [] else dec_digits f (n / 10)) ++ [digit (n mod 10)]
  end.

(** Twenty digits hold every 64-bit integer. *)
Definition fmt_nat (n : Z) : list ascii := dec_digits 20 n.

(** [format!("{n}")] *)
Definition fmt_int (n : Z) : list ascii :=
  if n <? 0 then "-"%char :: fmt_nat (- n) else fmt_nat n.

(** [format!("{n:0w}")]: the sign counts in the width. *)
Definition fmt_int_pad (w : nat) (n : Z) : list ascii :=
  let sign := if n <? 0 then ["-"%char] else [] in
  let digits := fmt_nat (Z.abs n) in
  sign ++ replicate (w - length sign - length digits) "0"%char ++ digits.

(** ** Byte classes *)

Definition between (lo b hi : Z) : bool := (lo <=? b) && (b <=? hi).

(** [u8::is_ascii_digit], [u8::is_ascii_hexdigit] *)
Definition is_ascii_digit (b : u8) : bool := between 48 (u8_val b) 57.
Definition is_ascii_hexdigit (b : u8) : bool :=
  is_ascii_digit b || between 65 (u8_val b) 70 || between 97 (u8_val b) 102.

(** ** Tactics *)

(** Case analysis on the computation at the head of a [res] pipeline. *)
Ltac res_case :=
  match goal with
  | H : context [res_bind ?r _] |- _ => destruct r eqn:?; simpl in H; try discriminate
  | |- context [res_bind ?r _] => destruct r eqn:?; simpl
  end.

(** Case analysis on the boolean guard of an early return. *)
Ltac guard_case :=
  match goal with
  | H : context [if ?b then _ else _] |- _ => destruct b eqn:?; try discriminate
  | |- context [if ?b then _ else _] => destruct b eqn:?
  end.

(** The same for the outermost step only, leaving the branch that goes on. *)
Ltac outer_guard H :=
  match goal with
  | |- (if ?b then _ else Err _) = _ → _ => destruct b eqn:H; [|done]
  | |- (if ?b then _ else Err _) ≠ _ => destruct b eqn:H; [|done]
  end.

(** Break every step of a computation assumed to have returned [Ok] (or [Err]). *)
Ltac res_inv :=
  repeat (progress (unfold res_bind, ok_or, map_err, map_ok, unwrap, expect in *)
          || case_match || simplify_eq/=).

Ltac bool_simp :=
  repeat match goal with
  | H : (_ && _) = true |- _ => apply andb_true_iff in H as [??]
  | H : (_ || _) = false |- _ => apply orb_false_iff in H as [??]
  | H : negb _ = true |- _ => apply negb_true_iff in H
  | H : negb _ = false |- _ => apply negb_false_iff in H
  | H : (_ =? _)%Z = true |- _ => apply Z.eqb_eq in H
  | H : (_ =? _)%Z = false |- _ => apply Z.eqb_neq in H
  | H : (_ <? _)%Z = true |- _ => apply Z.ltb_lt in H
  | H : (_ <? _)%Z = false |- _ => apply Z.ltb_ge in H
  | H : (_ <=? _)%Z = true |- _ => apply Z.leb_le in H
  | H : (_ <=? _)%Z = false |- _ => apply Z.leb_gt in H
  | H : (_ >? _)%Z = true |- _ => rewrite Z.gtb_ltb in H
  | H : (_ >? _)%Z = false |- _ => rewrite Z.gtb_ltb in H
  | H : bool_decide _ = true |- _ => apply bool_decide_eq_true in H
  | H : bool_decide _ = false |- _ => apply bool_decide_eq_false in H
  end.

Create HintDb zs.
Create Rewrite HintDb zs.

(** ** Lemmas: results *)

Lemma try_map_Ok {A B E} (f : A → res B E) l ys :
  try_map f l = Ok ys ↔ Forall2 (λ x y, f x = Ok y) l ys.
Proof.
  revert ys. induction l as [|x l IH]; intros ys; simpl.
  - split; [by intros [= <-]; constructor | by inversion 1].
  - split.
    + intros H. destruct (f x) eqn:Hx; simpl in H; try done.
      destruct (try_map f l) eqn:Hl; simpl in H; simplify_eq.
      constructor; [done | by apply IH].
    + inversion 1 as [|?? ?? Hx Hl]; subst. apply IH in Hl. by rewrite Hx, Hl.
Qed.

Lemma try_map_fmap {A B C E} (f : B → res C E) (g : A → B) l :
  try_map f (g <$> l) = try_map (f ∘ g) l.
Proof. induction l as [|x l IH]; csimpl; [done|]. by rewrite IH. Qed.

Lemma try_map_id {A B E} (f : A → res B E) (g : B → A) l :
  (∀ y, y ∈ l → f (g y) = Ok y) → try_map f (g <$> l) = Ok l.
Proof.
  intros H. apply try_map_Ok, Forall2_fmap_l, Forall_Forall2_diag, Forall_forall, H.
Qed.

Lemma map_err_no_panic {A E F} (f : E → F) (r : res A E) : r ≠ Panic → map_err f r ≠ Panic.
Proof. by destruct r. Qed.
Lemma bind_no_panic {A B E} (r : res A E) (k : A → res B E) :
  r ≠ Panic → (∀ x, k x ≠ Panic) → res_bind r k ≠ Panic.
Proof. destruct r; simpl; auto. Qed.
Lemma ok_or_no_panic {A E} (o : option A) (e : E) : ok_or o e ≠ Panic.
Proof. by destruct o. Qed.
Lemma map_ok_no_panic {A B E} (f : A → B) (r : res A E) : r ≠ Panic → map_ok f r ≠ Panic.
Proof. by destruct r. Qed.
Lemma try_map_no_panic {A B E} (f : A → res B E) l : (∀ x, f x ≠ Panic) → try_map f l ≠ Panic.
Proof.
  intros Hf. induction l as [|x l IH]; simpl; [done|].
  apply bind_no_panic; [apply Hf|]. intros y. by apply bind_no_panic.
Qed.
Lemma try_opt_no_panic {A B E} (f : A → res B E) o : (∀ x, f x ≠ Panic) → try_opt f o ≠ Panic.
Proof. intros Hf. destruct o; [by apply map_ok_no_panic | done]. Qed.

Lemma ok_or_Ok {A E} (o : option A) (e : E) a : ok_or o e = Ok a ↔ o = Some a.
Proof. destruct o; naive_solver. Qed.
Lemma bind_Ok {A B E} (r : res A E) (k : A → res B E) b :
  res_bind r k = Ok b ↔ ∃ a, r = Ok a ∧ k a = Ok b.
Proof. destruct r; naive_solver. Qed.
Lemma map_ok_Ok {A B E} (f : A → B) (r : res A E) b : map_ok f r = Ok b ↔ ∃ a, r = Ok a ∧ f a = b.
Proof. destruct r; naive_solver. Qed.
Lemma map_err_Ok {A E F} (f : E → F) (r : res A E) a : map_err f r = Ok a ↔ r = Ok a.
Proof. destruct r; naive_solver. Qed.

(** Walk back through a pipeline that returned. *)
Ltac ok_inv :=
  repeat match goal with
  | H : res_bind _ _ = Ok _ |- _ => apply bind_Ok in H as (? & ? & ?)
  | H : ok_or _ _ = Ok _ |- _ => apply ok_or_Ok in H
  | H : map_ok _ _ = Ok _ |- _ => apply map_ok_Ok in H as (? & ? & ?)
  | H : map_err _ _ = Ok _ |- _ => apply map_err_Ok in H
  end.

(** ** Lemmas: bytes and strings *)

Lemma as_bytes_inj s t : as_bytes s = as_bytes t → s = t.
Proof.
  intros H. rewrite <- (String.string_of_list_ascii_of_string s),
    <- (String.string_of_list_ascii_of_string t). by rewrite H.
Qed.
#[export] Instance as_bytes_Inj : Inj (=) (=) as_bytes := as_bytes_inj.

Lemma as_bytes_cons c s : as_bytes (String c s) = c :: as_bytes s.
Proof. done. Qed.
Lemma as_bytes_app s t : as_bytes (s +:+ t) = as_bytes s ++ as_bytes t.
Proof.
  induction s as [|c s IH]; [done|].
  change (String c s +:+ t) with (String c (s +:+ t)).
  rewrite !as_bytes_cons, IH. done.
Qed.

Lemma as_bytes_of l : as_bytes (from_utf8_bytes l) = l.
Proof. apply String.list_ascii_of_string_of_list_ascii. Qed.
Lemma from_utf8_as_bytes s : from_utf8_bytes (as_bytes s) = s.
Proof. apply String.string_of_list_ascii_of_string. Qed.

Lemma length_as_bytes s : length (as_bytes s) = String.length s.
Proof. induction s as [|c s IH]; [done|]. simpl. by rewrite IH. Qed.
Lemma len_as_bytes s : len (as_bytes s) = str_len s.
Proof. unfold len, str_len. by rewrite length_as_bytes. Qed.

Lemma len_app {A} (l k : list A) : len (l ++ k) = len l + len k.
Proof. unfold len. rewrite length_app. lia. Qed.
Lemma len_cons {A} (x : A) l : len (x :: l) = 1 + len l.
Proof. unfold len. simpl. lia. Qed.
Lemma len_nil {A} : len (@nil A) = 0.
Proof. done. Qed.
Lemma len_nonneg {A} (l : list A) : 0 ≤ len l.
Proof. unfold len. lia. Qed.
Lemma str_len_nonneg s : 0 ≤ str_len s.
Proof. unfold str_len. lia. Qed.

#[export] Hint Rewrite @len_app @len_cons @len_nil len_as_bytes as_bytes_app as_bytes_of : zs.
#[export] Hint Resolve len_nonneg str_len_nonneg : zs.

Lemma u8_val_range b : 0 ≤ u8_val b < 256.
Proof. unfold u8_val. pose proof (N_ascii_bounded b). lia. Qed.
Lemma u8_val_inj a b : u8_val a = u8_val b → a = b.
Proof.
  unfold u8_val. intros H%N2Z.inj.
  by rewrite <- (ascii_N_embedding a), <- (ascii_N_embedding b), H.
Qed.
Lemma u8_val_of z : u8_val (u8_of z) = z mod 256.
Proof.
  unfold u8_val, u8_of. pose proof (Z.mod_pos_bound z 256 ltac:(lia)).
  rewrite N_ascii_embedding by lia. lia.
Qed.
Lemma u8_of_val b : u8_of (u8_val b) = b.
Proof.
  apply u8_val_inj. rewrite u8_val_of. apply Z.mod_small, u8_val_range.
Qed.

(** ** Lemmas: indexing and slicing *)

Lemma index_Ok {A E} (l : list A) i :
  0 ≤ i < len l → ∃ x, l !! Z.to_nat i = Some x ∧ index (E := E) l i = Ok x.
Proof.
  intros Hi. unfold index, len in *.
  destruct (lookup_lt_is_Some_2 l (Z.to_nat i)) as [x Hx]; [lia|].
  exists x. split; [done|]. rewrite (proj2 (Z.ltb_ge i 0)) by lia. by rewrite Hx.
Qed.

Lemma slice_Ok {A E} (l : list A) i j :
  0 ≤ i ≤ j → j ≤ len l →
  slice (E := E) l i j = Ok (take (Z.to_nat (j - i)) (drop (Z.to_nat i) l)).
Proof.
  intros H1 H2. unfold slice.
  destruct (0 <=? i) eqn:?, (i <=? j) eqn:?, (j <=? len l) eqn:?; try done; lia.
Qed.

Lemma len_slice {A E} (l k : list A) i j : slice (E := E) l i j = Ok k → len k = j - i.
Proof.
  unfold slice. case_match; intros ?; simplify_eq. bool_simp.
  unfold len in *. rewrite length_take, length_drop. lia.
Qed.

(** Reading a list by its parts. *)
Lemma slice_app {A E} (a b c : list A) i j :
  len a = i → i + len b = j → slice (E := E) (a ++ b ++ c) i j = Ok b.
Proof.
  intros <- <-. pose proof (len_nonneg a). pose proof (len_nonneg b). pose proof (len_nonneg c).
  rewrite slice_Ok by (rewrite ?len_app; lia). f_equal.
  rewrite drop_app_length' by (unfold len; lia). apply take_app_length'. unfold len. lia.
Qed.
Lemma slice_from_app {A E} (a b : list A) i : len a = i → slice_from (E := E) (a ++ b) i = Ok b.
Proof.
  intros Hi. unfold slice_from. rewrite len_app. rewrite <- (app_nil_r b) at 1.
  apply slice_app; [done | lia].
Qed.
Lemma index_app {A E} (a b : list A) x i : len a = i → index (E := E) (a ++ x :: b) i = Ok x.
Proof.
  intros <-. pose proof (len_nonneg a). unfold index. rewrite (proj2 (Z.ltb_ge _ 0)) by lia.
  unfold len. by rewrite Nat2Z.id, lookup_app_r, Nat.sub_diag by lia.
Qed.
Lemma split_at {A} (l : list A) i : 0 ≤ i ≤ len l → ∃ a b, l = a ++ b ∧ len a = i.
Proof.
  intros Hi. exists (take (Z.to_nat i) l), (drop (Z.to_nat i) l). rewrite take_drop. split; [done|].
  unfold len in *. rewrite length_take. lia.
Qed.
Lemma len_0_inv {A} (l : list A) : len l = 0 → l = [].
Proof. destruct l; [done|]. unfold len. simpl. lia. Qed.
Lemma len_S_inv {A} (l : list A) n : 0 < n → len l = n → ∃ x k, l = x :: k ∧ len k = n - 1.
Proof. destruct l as [|x k]; unfold len; simpl; [lia|]. intros. exists x, k. split; [done | lia]. Qed.

(** ** Lemmas: big-endian integers *)

Lemma from_be_bytes_snoc bs b : from_be_bytes (bs ++ [b]) = from_be_bytes bs * 256 + u8_val b.
Proof. unfold from_be_bytes. by rewrite fold_left_app. Qed.

Lemma from_be_bytes_bounds bs : 0 ≤ from_be_bytes bs < 256 ^ len bs.
Proof.
  induction bs as [|b bs IH] using rev_ind; [change (0 ≤ 0 < 1); lia|].
  rewrite from_be_bytes_snoc, len_app. change (len [b]) with 1.
  rewrite Z.pow_add_r, Z.pow_1_r by (try lia; apply len_nonneg).
  pose proof (u8_val_range b). nia.
Qed.

Lemma length_to_be_bytes w n : length (to_be_bytes w n) = w.
Proof. revert n. induction w; intros n; simpl; [done|]. rewrite length_app, IHw. simpl. lia. Qed.
Lemma len_to_be_bytes w n : len (to_be_bytes w n) = Z.of_nat w.
Proof. unfold len. by rewrite length_to_be_bytes. Qed.

Lemma from_to_be_bytes w n : 0 ≤ n < 256 ^ Z.of_nat w → from_be_bytes (to_be_bytes w n) = n.
Proof.
  revert n. induction w as [|w IH]; intros n Hn; simpl; [cbn in *; lia|].
  rewrite from_be_bytes_snoc, u8_val_of, IH.
  - pose proof (Z.div_mod n 256). lia.
  - replace (Z.of_nat (S w)) with (Z.of_nat w + 1) in Hn by lia.
    rewrite Z.pow_add_r, Z.pow_1_r in Hn by lia. split; [apply Z.div_pos; lia|].
    apply Z.div_lt_upper_bound; lia.
Qed.

Lemma to_be_bytes_inj w m n :
  0 ≤ m < 256 ^ Z.of_nat w → 0 ≤ n < 256 ^ Z.of_nat w →
  to_be_bytes w m = to_be_bytes w n → m = n.
Proof. intros Hm Hn H. rewrite <- (from_to_be_bytes w m), <- (from_to_be_bytes w n); congruence. Qed.

(** ** Lemmas: decimal formatting *)

(** The number a list of decimal digits spells. *)
Definition dec_value (l : list ascii) : Z :=
  fold_left (λ acc b, acc * 10 + (u8_val b - 48)) l 0.

Lemma dec_value_snoc l d : dec_value (l ++ [d]) = dec_value l * 10 + (u8_val d - 48).
Proof. unfold dec_value. by rewrite fold_left_app. Qed.

Lemma u8_val_digit d : 0 ≤ d < 10 → u8_val (digit d) = 48 + d.
Proof.
  intros Hd. unfold digit, u8_val. rewrite (proj2 (Z.ltb_lt d 10)) by lia.
  rewrite N_ascii_embedding by lia. lia.
Qed.

Lemma is_ascii_digit_digit d : 0 ≤ d < 10 → is_ascii_digit (digit d) = true.
Proof. intros Hd. unfold is_ascii_digit, between. rewrite u8_val_digit by done. lia. Qed.

Lemma dec_digits_spec f n :
  0 ≤ n < 10 ^ Z.of_nat f → f ≠ O →
  dec_value (dec_digits f n) = n ∧ forallb is_ascii_digit (dec_digits f n) = true.
Proof.
  revert n. induction f as [|f IH]; intros n Hn Hf; [done|]. simpl.
  pose proof (Z.mod_pos_bound n 10 ltac:(lia)) as Hm.
  rewrite dec_value_snoc, u8_val_digit, forallb_app by lia. simpl.
  rewrite is_ascii_digit_digit by lia.
  destruct (n <? 10) eqn:Hlt; bool_simp.
  - rewrite Z.mod_small by lia. split; [cbn; lia | done].
  - replace (Z.of_nat (S f)) with (Z.of_nat f + 1) in Hn by lia.
    rewrite Z.pow_add_r, Z.pow_1_r in Hn by lia.
    destruct f as [|f]; [cbn in Hn; lia|].
    destruct (IH (n / 10)) as [-> ->]; [|done|].
    + split; [apply Z.div_pos; lia | apply Z.div_lt_upper_bound; lia].
    + split; [|done]. pose proof (Z.div_mod n 10). lia.
Qed.

Lemma length_dec_digits f w n :
  0 ≤ n < 10 ^ Z.of_nat w → w ≠ O → (length (dec_digits f n) ≤ w)%nat.
Proof.
  revert w n. induction f as [|f IH]; intros w n Hn Hw; simpl; [lia|].
  rewrite length_app. simpl. destruct (n <? 10) eqn:Hlt; bool_simp; simpl; [lia|].
  destruct w as [|[|w]]; [done | cbn in Hn; lia |].
  assert (length (dec_digits f (n / 10)) ≤ S w)%nat; [|lia].
  apply IH; [|done]. replace (Z.of_nat (S (S w))) with (Z.of_nat (S w) + 1) in Hn by lia.
  rewrite Z.pow_add_r, Z.pow_1_r in Hn by lia.
  split; [apply Z.div_pos; lia | apply Z.div_lt_upper_bound; lia].
Qed.

Lemma dec_value_zeros k l : dec_value (replicate k "0"%char ++ l) = dec_value l.
Proof.
  unfold dec_value. rewrite fold_left_app. f_equal.
  induction k as [|k IH]; [done|]. simpl. by change (0 * 10 + (u8_val "0" - 48)) with 0.
Qed.

(** A non-negative number below [10 ^ w], padded to width [w], is [w] digits
    that spell it. *)
Lemma fmt_int_pad_spec w n :
  0 ≤ n < 10 ^ Z.of_nat w → w ≠ O → (w ≤ 20)%nat →
  length (fmt_int_pad w n) = w ∧ dec_value (fmt_int_pad w n) = n ∧
  forallb is_ascii_digit (fmt_int_pad w n) = true.
Proof.
  intros Hn Hw Hw20. unfold fmt_int_pad, fmt_nat.
  rewrite (proj2 (Z.ltb_ge n 0)), (Z.abs_eq n) by lia. simpl (length []).
  assert (n < 10 ^ Z.of_nat 20) as Hn20.
  { eapply Z.lt_le_trans; [apply Hn|]. apply Z.pow_le_mono_r; lia. }
  destruct (dec_digits_spec 20 n) as [Hv Hd]; [lia|done|].
  pose proof (length_dec_digits 20 w n Hn Hw) as Hl.
  split_and!.
  - rewrite app_nil_l, length_app, length_replicate. lia.
  - by rewrite app_nil_l, dec_value_zeros.
  - rewrite app_nil_l, forallb_app, Hd, andb_true_r.
    generalize (w - 0 - length (dec_digits 20 n))%nat as k. intros k.
    by induction k as [|k IH].
Qed.

(** Digits of equal number compare like the numbers they spell. *)
Lemma forallb_digit_range l : forallb is_ascii_digit l = true → 0 ≤ dec_value l < 10 ^ len l.
Proof.
  induction l as [|d l IH] using rev_ind; [intros _; change (0 ≤ 0 < 1); lia|].
  rewrite forallb_app. intros [Hl Hd]%andb_true_iff. simpl in Hd. rewrite andb_true_r in Hd.
  unfold is_ascii_digit, between in Hd. bool_simp. specialize (IH Hl).
  rewrite dec_value_snoc, len_app. change (len [d]) with 1.
  rewrite Z.pow_add_r, Z.pow_1_r by (try lia; apply len_nonneg). nia.
Qed.

(** ** Keys that appear once *)

Lemma NoDup_omap_lookup {A B} (f : A → option B) l :
  (∀ i j a b x, l !! i = Some a → l !! j = Some b → f a = Some x → f b = Some x → i = j) →
  NoDup (omap f l).
Proof.
  induction l as [|y l IH]; intros Hl; simpl; [constructor|].
  assert (NoDup (omap f l)) as Hnd.
  { apply IH. intros i j a b x Hi Hj Ha Hb. assert (S i = S j) as [= ?]; [|done].
    by apply (Hl (S i) (S j) a b x). }
  destruct (f y) as [x|] eqn:Hy; [|done]. constructor; [|done].
  rewrite list_elem_of_omap. intros (b & Hb & Hfb). apply list_elem_of_lookup_1 in Hb as [j Hj].
  specialize (Hl 0%nat (S j) y b x eq_refl Hj Hy Hfb). done.
Qed.

Lemma NoDup_omap_inj {A B} (f : A → option B) l a b x :
  NoDup (omap f l) → a ∈ l → b ∈ l → f a = Some x → f b = Some x → a = b.
Proof.
  assert (∀ c (l : list A), c ∈ l → f c = Some x → x ∈ omap f l) as Hin.
  { intros c l' Hc Hf. apply list_elem_of_omap. by exists c. }
  induction l as [|y l IH]; intros Hnd Ha Hb Hfa Hfb; [by apply elem_of_nil in Ha|]. simpl in Hnd.
  apply elem_of_cons in Ha as [->|Ha]; apply elem_of_cons in Hb as [->|Hb]; [done|..].
  - rewrite Hfa in Hnd. apply NoDup_cons in Hnd as [Hx _]. by destruct Hx; eapply Hin.
  - rewrite Hfb in Hnd. apply NoDup_cons in Hnd as [Hx _]. by destruct Hx; eapply Hin.
  - apply IH; [|done..]. destruct (f y); [by apply NoDup_cons in Hnd as [_ ?]|done].
Qed.

(** What one change of a list does to the values that [omap] finds in it. *)
Lemma omap_insert_perm {A B} (f : A → option B) l t a b :
  l !! t = Some a →
  from_option (λ s, [s]) [] (f a) ++ omap f (<[t := b]> l) ≡ₚ
  from_option (λ s, [s]) [] (f b) ++ omap f l.
Proof.
  intros Hl. pose proof (lookup_lt_Some _ _ _ Hl) as Hlt.
  rewrite <- (take_drop_middle l t a Hl) at 2. rewrite insert_take_drop by done.
  rewrite !omap_app. simpl. destruct (f a), (f b); simpl; solve_Permutation.
Qed.

(** ** Filters that keep everything, or nothing *)

Lemma list_filter_all {A} (P : A → Prop) `{∀ x, Decision (P x)} l : Forall P l → filter P l = l.
Proof. induction 1 as [|x l Hx Hl IH]; [done|]. by rewrite filter_cons_True, IH. Qed.
Lemma list_filter_none {A} (P : A → Prop) `{∀ x, Decision (P x)} l :
  Forall (λ x, ¬ P x) l → filter P l = [].
Proof. induction 1 as [|x l Hx Hl IH]; [done|]. by rewrite filter_cons_False. Qed.
