(* ===== verification/Effects.v ===== *)
(** * Programs that call their environment

    A handler of the identity provider awaits calls (the database, the HSM, the clock) and
    other requests run between them.  A program is the finite tree of its calls and of
    what it does with each answer; [prog] is the free monad on a signature of calls, with
    the early return and the panic of [res] on top ([and_then]).  [wp] is a program logic
    over such trees: every call a program makes is allowed by a discipline on its own past
    calls, and every result satisfies a postcondition; [run] is one execution of a
    program, with its trace of calls and answers. *)

From S2P Require Import Prelude.

Class Signature := { call : Type; answer : call → Type }.

Section programs.
Context {Σ : Signature}.

Inductive prog (A : Type) : Type :=
| Ret (a : A)
| Call (c : call) (k : answer c → prog A).
Arguments Ret {A} a.
Arguments Call {A} c k.

Fixpoint prog_bind {A B} (p : prog A) (f : A → prog B) : prog B :=
  match p with
  | Ret a => f a
  | Call c k => Call c (λ x, prog_bind (k x) f)
  end.

(** [f().await] *)
Definition trigger (c : call) : prog (answer c) := Call c Ret.

(** [p?] in a function that returns a [Result] *)
Definition and_then {A B E} (p : prog (res A E)) (f : A → prog (res B E)) : prog (res B E) :=
  prog_bind p (λ r, match r with Ok a => f a | Err e => Ret (Err e) | Panic => Ret Panic end).

(** A call and its answer; the trace of an execution, oldest first. *)
Definition event : Type := { c : call & answer c }.
Definition Ev (c : call) (x : answer c) : event := existT c x.
Abbreviation trace := (list event).

(** [run p tr q]: after the answers of [tr], what is left of [p] is [q]. *)
Inductive run {A} : prog A → trace → prog A → Prop :=
| run_nil p : run p [] p
| run_call c k x tr q : run (k x) tr q → run (Call c k) (Ev c x :: tr) q.

(** ** The program logic *)

Section wp.
Variable allowed : trace → call → Prop.
(** What the environment never answers may be assumed of the answers. *)
Variable possible : trace → event → Prop.

Fixpoint wp {A} (p : prog A) (tr : trace) (Q : trace → A → Prop) : Prop :=
  match p with
  | Ret a => Q tr a
  | Call c k => allowed tr c ∧ ∀ x, possible tr (Ev c x) → wp (k x) (tr ++ [Ev c x]) Q
  end.

Lemma wp_mono {A} (p : prog A) tr (Q R : trace → A → Prop) :
  (∀ tr' a, Q tr' a → R tr' a) → wp p tr Q → wp p tr R.
Proof.
  intros HQ. revert tr. induction p as [a|c k IH]; intros tr; simpl; [apply HQ|].
  intros [Hc Hk]. split; [done|]. intros x Hx. by apply IH, Hk.
Qed.

Lemma wp_bind {A B} (p : prog A) (f : A → prog B) tr Q :
  wp p tr (λ tr' a, wp (f a) tr' Q) → wp (prog_bind p f) tr Q.
Proof.
  revert tr. induction p as [a|c k IH]; intros tr; simpl; [done|].
  intros [Hc Hk]. split; [done|]. intros x Hx. by apply IH, Hk.
Qed.

Lemma wp_and_then {A B E} (p : prog (res A E)) (f : A → prog (res B E)) tr Q :
  wp p tr (λ tr' r, match r with
                    | Ok a => wp (f a) tr' Q
                    | Err e => Q tr' (Err e)
                    | Panic => Q tr' Panic
                    end) →
  wp (and_then p f) tr Q.
Proof.
  intros H. apply wp_bind. eapply wp_mono; [|exact H]. by intros tr' [a|e|].
Qed.

Lemma wp_trigger c tr Q :
  allowed tr c → (∀ x, possible tr (Ev c x) → Q (tr ++ [Ev c x]) x) → wp (trigger c) tr Q.
Proof. done. Qed.

(** An execution whose answers are possible only makes allowed calls, and ends well. *)
Definition possible_run (past tr : trace) : Prop :=
  ∀ tr1 e tr2, tr = tr1 ++ e :: tr2 → possible (past ++ tr1) e.

Lemma wp_run {A} (p q : prog A) past tr Q :
  wp p past Q → run p tr q → possible_run past tr → wp q (past ++ tr) Q.
Proof.
  intros Hp Hr. revert past Hp. induction Hr as [p|c k x tr q Hr IH]; intros past Hp Hpos.
  - by rewrite app_nil_r.
  - destruct Hp as [_ Hk].
    assert (past ++ Ev c x :: tr = (past ++ [Ev c x]) ++ tr) as -> by (by rewrite <- app_assoc).
    apply IH.
    + apply Hk. specialize (Hpos [] (Ev c x) tr eq_refl). by rewrite app_nil_r in Hpos.
    + intros tr1 e tr2 ->. rewrite <- app_assoc. by apply (Hpos (Ev c x :: tr1) e tr2).
Qed.
End wp.

(** ** Termination: every execution makes at most [n] calls *)

Fixpoint calls_within {A} (n : nat) (p : prog A) {struct p} : Prop :=
  match p with
  | Ret _ => True
  | Call c k => match n with O => False | S n' => ∀ x, calls_within n' (k x) end
  end.

Lemma calls_within_mono {A} (p : prog A) m n :
  (m ≤ n)%nat → calls_within m p → calls_within n p.
Proof.
  revert m n. induction p as [a|c k IH]; intros m n Hmn; simpl; [done|].
  destruct m as [|m]; [done|]. destruct n as [|n]; [lia|]. intros Hk x.
  apply (IH x m); [lia | apply Hk].
Qed.

Lemma calls_within_bind {A B} (p : prog A) (f : A → prog B) m n :
  calls_within m p → (∀ a, calls_within n (f a)) → calls_within (m + n) (prog_bind p f).
Proof.
  revert m. induction p as [a|c k IH]; intros m Hm Hf; simpl.
  - eapply calls_within_mono; [|apply Hf]. lia.
  - destruct m as [|m]; [done|]. simpl. intros x. by apply IH.
Qed.

Lemma calls_within_and_then {A B E} (p : prog (res A E)) (f : A → prog (res B E)) m n :
  calls_within m p → (∀ a, calls_within n (f a)) → calls_within (m + n) (and_then p f).
Proof. intros Hm Hf. apply calls_within_bind; [done|]. intros [a|e|]; [apply Hf | done..]. Qed.

Lemma calls_within_run {A} (p q : prog A) tr n :
  calls_within n p → run p tr q → (length tr ≤ n)%nat ∧ calls_within (n - length tr) q.
Proof.
  intros Hn Hr. revert n Hn. induction Hr as [p|c k x tr q Hr IH]; intros n Hn; simpl.
  - rewrite Nat.sub_0_r. split; [lia|done].
  - destruct n as [|n]; [done|]. destruct (IH n (Hn x)) as [Hl Hq]. split; [lia|]. done.
Qed.

(** ** Executions *)

Lemma run_trans {A} (p q r : prog A) t1 t2 : run p t1 q → run q t2 r → run p (t1 ++ t2) r.
Proof. induction 1; intros; simpl; [done|]. constructor. auto. Qed.

Lemma run_snoc {A} (p : prog A) c k x tr : run p tr (Call c k) → run p (tr ++ [Ev c x]) (k x).
Proof. intros H. eapply run_trans; [exact H|]. constructor. constructor. Qed.

(** What is left after an execution, case by case on the program. *)
Lemma run_inv {A} (p q : prog A) tr :
  run p tr q →
  match p with
  | Ret a => tr = [] ∧ q = Ret a
  | Call c k => (tr = [] ∧ q = Call c k) ∨ ∃ x tr', tr = Ev c x :: tr' ∧ run (k x) tr' q
  end.
Proof. destruct 1 as [p|c k x tr q Hr]; [destruct p; auto|]. right. by exists x, tr. Qed.

(** The last call of an execution. *)
Lemma run_last {A} (p q : prog A) tr e :
  run p (tr ++ [e]) q → ∃ k, run p tr (Call (projT1 e) k) ∧ q = k (projT2 e).
Proof.
  revert p. induction tr as [|e' tr IH]; intros p Hr; simpl in Hr; apply run_inv in Hr;
    destruct p as [a|c k]; try (by destruct Hr); destruct Hr as [[? _]|(y & tr' & Heq & Hr)]; try done.
  - injection Heq as -> <-. exists k. split; [constructor|]. simpl.
    destruct (k y); apply run_inv in Hr; [by destruct Hr|]. by destruct Hr as [[_ ?]|(? & ? & ? & _)].
  - injection Heq as -> <-. apply IH in Hr as (k' & Hr & Hq). exists k'. split; [by constructor|done].
Qed.

(** The parts of a finished execution of a composed program. *)
Lemma run_prog_bind {A B} (p : prog A) (f : A → prog B) tr b :
  run (prog_bind p f) tr (Ret b) ↔
  ∃ a tr1 tr2, tr = tr1 ++ tr2 ∧ run p tr1 (Ret a) ∧ run (f a) tr2 (Ret b).
Proof.
  split.
  - revert tr. induction p as [a|c k IH]; intros tr Hr; simpl in Hr.
    + exists a, [], tr. split_and!; [done | constructor | done].
    + apply run_inv in Hr as [[_ ?]|(x & tr' & -> & Hr)]; [done|].
      apply IH in Hr as (a & tr1 & tr2 & -> & H1 & H2).
      exists a, (Ev c x :: tr1), tr2. split_and!; [done | by constructor | done].
  - intros (a & tr1 & tr2 & -> & H1 & H2). remember (Ret a) as q eqn:Hq.
    induction H1 as [p|c k x tr q Hr IH]; subst; simpl; [done|]. constructor. by apply IH.
Qed.

Lemma run_and_then_Ok {A B E} (p : prog (res A E)) (f : A → prog (res B E)) tr b :
  run (and_then p f) tr (Ret (Ok b)) ↔
  ∃ a tr1 tr2, tr = tr1 ++ tr2 ∧ run p tr1 (Ret (Ok a)) ∧ run (f a) tr2 (Ret (Ok b)).
Proof.
  unfold and_then. rewrite run_prog_bind. split.
  - intros ([a|e|] & tr1 & tr2 & -> & H1 & H2); [by exists a, tr1, tr2|..];
      by apply run_inv in H2 as [_ ?].
  - intros (a & tr1 & tr2 & -> & H1 & H2). by exists (Ok a), tr1, tr2.
Qed.

Lemma run_Ret {A} (a b : A) tr : run (Ret a) tr (Ret b) ↔ tr = [] ∧ a = b.
Proof.
  split; [|intros [-> ->]; constructor]. intros H. apply run_inv in H as [-> [= ->]]. done.
Qed.

Lemma run_trigger c (x : answer c) tr : run (trigger c) tr (Ret x) ↔ tr = [Ev c x].
Proof.
  split; [|intros ->; constructor; constructor]. unfold trigger. intros H.
  apply run_inv in H as [[_ ?]|(y & tr' & -> & H)]; [done|]. apply run_Ret in H as [-> ->]. done.
Qed.

(** A program that is waiting for an answer is at an allowed call. *)
Lemma wp_waiting allowed possible {A} (p : prog A) past c k Q :
  wp allowed possible p past Q → ∀ tr, run p tr (Call c k) → possible_run possible past tr →
  allowed (past ++ tr) c.
Proof.
  intros Hp tr Hr Hpos. eapply wp_run in Hr; [|done|done]. apply Hr.
Qed.

(** ** Sequential execution *)

Section sequential.
Context {W : Type} (handle : ∀ c : call, W → W * answer c).
(** The world after running a program alone, with its result. *)
Fixpoint run_alone {A} (p : prog A) (w : W) : W * A :=
  match p with
  | Ret a => (w, a)
  | Call c k => let '(w', x) := handle c w in run_alone (k x) w'
  end.

Lemma run_alone_bind {A B} (p : prog A) (f : A → prog B) w :
  run_alone (prog_bind p f) w = run_alone (f (run_alone p w).2) (run_alone p w).1.
Proof.
  revert w. induction p as [a|c k IH]; intros w; simpl; [done|].
  destruct (handle c w) as [w' x]. apply IH.
Qed.

Lemma run_alone_run {A} (p : prog A) w : ∃ tr, run p tr (Ret (run_alone p w).2).
Proof.
  revert w. induction p as [a|c k IH]; intros w; simpl; [exists []; constructor|].
  destruct (handle c w) as [w' x]. destruct (IH x w') as [tr Htr]. exists (Ev c x :: tr). by constructor.
Qed.
End sequential.
End programs.

Arguments Ret {Σ A} a.
Arguments Call {Σ A} c k.

Notation "'do!' x ':=' p 'in' k" := (and_then p (λ x, k))
  (at level 10, x pattern, p at level 100, k at level 200) : zs_scope.
