(* ===== verification/Json.v ===== *)
(** * JSON documents as [serde_json] represents them

    The document type [serde_json::Value], the insertion-ordered
    [serde_json::Map], the recursive key sort of
    [crates/zs-crypto/src/common.rs] and the equivalence it decides: two
    documents are equivalent when they differ only in the order of object
    members.  [serde_json::to_vec] and [serde_json::from_slice] are not in the
    repository: they are the operations of the class [SerdeJson], and the
    documented behaviour the code relies on is the class [SerdeJsonLaws]. *)

From S2P Require Import Prelude.

(** ** Documents *)

(** [serde_json::Number]: an unsigned or a negative 64-bit integer, or a binary64
    given by its bit pattern. *)
Inductive number :=
| PosInt (n : Z)
| NegInt (n : Z)
| Float (bits : Z).

Inductive value :=
| Null
| Bool (b : bool)
| Number (n : number)
| VString (s : string)
| Array (items : list value)
| Object (members : list (string * value)).

#[export] Instance number_eq_dec : EqDecision number.
Proof. solve_decision. Defined.

(** Induction that reaches the items of arrays and the members of objects. *)
Section value_ind.
Variable P : value → Prop.
Hypothesis HNull : P Null.
Hypothesis HBool : ∀ b, P (Bool b).
Hypothesis HNumber : ∀ n, P (Number n).
Hypothesis HString : ∀ s, P (VString s).
Hypothesis HArray : ∀ l, Forall P l → P (Array l).
Hypothesis HObject : ∀ m, Forall (λ kv, P kv.2) m → P (Object m).

Fixpoint value_nested_ind (v : value) : P v :=
  match v with
  | Null => HNull
  | Bool b => HBool b
  | Number n => HNumber n
  | VString s => HString s
  | Array l => HArray l
      ((fix go l := match l return Forall P l with
        | [] => Forall_nil_2 P
        | x :: l' => Forall_cons_2 P x l' (value_nested_ind x) (go l')
        end) l)
  | Object m => HObject m
      ((fix go m := match m return Forall (λ kv, P kv.2) m with
        | [] => Forall_nil_2 _
        | (k, x) :: m' => Forall_cons_2 (λ kv, P kv.2) (k, x) m' (value_nested_ind x) (go m')
        end) m)
  end.
End value_ind.

(** ** [serde_json::Map] *)

Fixpoint map_get {A} (k : string) (m : list (string * A)) : option A :=
  match m with
  | [] => None
  | (k', v) :: m' => if bool_decide (k = k') then Some v else map_get k m'
  end.

(** [Map::insert]: replaces the value of a present key in place, appends otherwise
    (the insertion-ordered backing that the workspace build selects). *)
Fixpoint map_insert {A} (k : string) (v : A) (m : list (string * A)) : list (string * A) :=
  match m with
  | [] => [(k, v)]
  | (k', v') :: m' => if bool_decide (k = k') then (k', v) :: m' else (k', v') :: map_insert k v m'
  end.

(** [if let Some(v) = o { map.insert(k, v) }] *)
Definition map_insert_opt {A} (k : string) (o : option A) (m : list (string * A)) :
    list (string * A) :=
  match o with Some v => map_insert k v m | None => m end.

(** The [json!] macro on the leaves the code uses. *)
Definition jint (n : Z) : value := Number (if n <? 0 then NegInt n else PosInt n).
Definition jopt {A} (f : A → value) (o : option A) : value :=
  match o with Some a => f a | None => Null end.
Definition jstrings (l : list string) : value := Array (VString <$> l).

(** ** Well-formed documents *)

Definition wf_number (n : number) : bool :=
  match n with
  | PosInt n => between 0 n u64_max
  | NegInt n => between i64_min n (-1)
  | Float _ => false
  end.

(** What [serde_json::Map] and [Number] guarantee, without floating point: distinct
    keys and integers in range. *)
Fixpoint wf_value (v : value) : bool :=
  match v with
  | Null | Bool _ | VString _ => true
  | Number n => wf_number n
  | Array l => forallb wf_value l
  | Object m => bool_decide (NoDup m.*1) && forallb (λ kv, wf_value kv.2) m
  end.

(** The part of it that the key sort depends on: distinct keys, no floating point. *)
Fixpoint sortable (v : value) : bool :=
  match v with
  | Number (Float _) => false
  | Array l => forallb sortable l
  | Object m => bool_decide (NoDup m.*1) && forallb (λ kv, sortable kv.2) m
  | _ => true
  end.

(** Nesting of arrays and objects. *)
Fixpoint depth (v : value) : nat :=
  match v with
  | Array l => S (foldr Nat.max 0%nat (map depth l))
  | Object m => S (foldr Nat.max 0%nat (map (λ kv, depth kv.2) m))
  | _ => 0%nat
  end.

(** ** Recursive key sort *)

(** Loop of [sort_keys_recursively] over the sorted keys of an object. *)
Definition collect_sorted {E} (m : list (string * value)) (keys : list string) :
    res (list (string * value)) E :=
  fold_left (λ acc k,
    let! sorted := acc in
    let! v := unwrap (map_get k m) in
    Ok (map_insert k v sorted)) keys (Ok []).

(** [sort_keys_recursively]: a floating point number is an [assert!] failure. *)
Fixpoint sort_keys_recursively {E} (v : value) : res value E :=
  match v with
  | Object m =>
      let! m' := try_map (λ kv, map_ok (pair kv.1) (sort_keys_recursively kv.2)) m in
      let keys := merge_sort String.le m.*1 in
      let! sorted := collect_sorted m' keys in
      Ok (Object sorted)
  | Array items =>
      let! items' := try_map sort_keys_recursively items in
      Ok (Array items')
  | Number (Float _) => Panic
  | _ => Ok v
  end.

(** ** The serializer interface *)

Class SerdeJson := {
  to_vec : value → bytes;
  from_slice : bytes → option value;
}.

Definition quote : ascii := ascii_of_N 34.
Definition backslash : ascii := ascii_of_N 92.

(** Printable ASCII other than the quote and the backslash: never escaped. *)
Definition plain_char (c : ascii) : bool :=
  between 32 (u8_val c) 126 && negb (bool_decide (c = quote)) &&
  negb (bool_decide (c = backslash)).
Definition plain_string (s : string) : bool := forallb plain_char (as_bytes s).

Fixpoint join (sep : bytes) (ls : list bytes) : bytes :=
  match ls with
  | [] => []
  | [l] => l
  | l :: ls' => l ++ sep ++ join sep ls'
  end.

(** Compact output of [to_vec]; [from_slice] reads back what [to_vec] wrote, within
    the nesting limit of 127 of [serde_json]. *)
Class SerdeJsonLaws `{SerdeJson} := {
  to_vec_string s : plain_string s = true → to_vec (VString s) = quote :: as_bytes s ++ [quote];
  to_vec_posint n : between 0 n u64_max = true → to_vec (Number (PosInt n)) = fmt_nat n;
  to_vec_null : to_vec Null = as_bytes "null";
  to_vec_array l :
    to_vec (Array l) = "["%char :: join [","%char] (map to_vec l) ++ ["]"%char];
  to_vec_object m :
    to_vec (Object m) = "{"%char ::
      join [","%char] (map (λ kv, to_vec (VString kv.1) ++ ":"%char :: to_vec kv.2) m) ++ ["}"%char];
  from_slice_to_vec v : wf_value v = true → (depth v ≤ 127)%nat → from_slice (to_vec v) = Some v;
}.

(** [common::canonical_bytes] *)
Definition canonical_bytes `{SerdeJson} {E} (v : value) : res bytes E :=
  let! sorted := sort_keys_recursively v in Ok (to_vec sorted).

(** ** Lemmas: [serde_json::Map] *)

Lemma map_get_elem_of {A} k (v : A) m : map_get k m = Some v → (k, v) ∈ m.
Proof.
  induction m as [|[k' v'] m IH]; simpl; [done|].
  case_bool_decide; intros ?; simplify_eq; [left | right; auto].
Qed.

Lemma map_get_Some {A} k (v : A) m : NoDup m.*1 → (k, v) ∈ m → map_get k m = Some v.
Proof.
  induction m as [|[k' v'] m IH]; intros Hnd Hin; [by apply elem_of_nil in Hin|].
  apply NoDup_cons in Hnd as [Hk Hnd]. apply elem_of_cons in Hin as [[= -> ->]|Hin]; simpl.
  - by rewrite bool_decide_true.
  - rewrite bool_decide_false; [by apply IH|]. intros ->. apply Hk.
    exact (list_elem_of_fmap_2 fst _ _ Hin).
Qed.

Lemma map_get_None {A} k (m : list (string * A)) : map_get k m = None ↔ k ∉ m.*1.
Proof.
  induction m as [|[k' v'] m IH]; csimpl; [split; [intros _; apply not_elem_of_nil | done]|].
  rewrite not_elem_of_cons. case_bool_decide; naive_solver.
Qed.

Lemma map_insert_new {A} k (v : A) m : k ∉ m.*1 → map_insert k v m = m ++ [(k, v)].
Proof.
  induction m as [|[k' v'] m IH]; csimpl; [done|]. rewrite not_elem_of_cons.
  intros [Hk Hm]. rewrite bool_decide_false by done. by rewrite IH.
Qed.

Lemma map_insert_keys {A} k (v : A) m :
  (map_insert k v m).*1 = if bool_decide (k ∈ m.*1) then m.*1 else m.*1 ++ [k].
Proof.
  induction m as [|[k' v'] m IH]; csimpl; [done|].
  destruct (decide (k = k')) as [->|Hk].
  - rewrite !bool_decide_true by (done || left). done.
  - rewrite (bool_decide_false (k = k')) by done. csimpl. rewrite IH.
    destruct (decide (k ∈ m.*1)).
    + rewrite !bool_decide_true by (done || by right). done.
    + rewrite !bool_decide_false by (done || by rewrite not_elem_of_cons). done.
Qed.

Lemma map_insert_NoDup {A} k (v : A) m : NoDup m.*1 → NoDup (map_insert k v m).*1.
Proof.
  intros Hm. rewrite map_insert_keys. case_bool_decide; [done|].
  apply NoDup_app. split_and!; [done | set_solver | apply NoDup_singleton].
Qed.

Lemma map_get_insert {A} k (v : A) m j :
  map_get j (map_insert k v m) = if bool_decide (j = k) then Some v else map_get j m.
Proof.
  induction m as [|[k' v'] m IH]; simpl; [done|].
  repeat (case_bool_decide; simplify_eq/=; try done).
Qed.

(** ** The canonical form, as a function *)

(** Order of object members by key, the order of the sorted document. *)
Definition key_le {A} (x y : string * A) : Prop := String.le x.1 y.1.
#[export] Instance key_le_dec {A} (x y : string * A) : Decision (key_le x y).
Proof. unfold key_le. apply _. Defined.
#[export] Instance key_le_total {A} : Total (@key_le A).
Proof. intros x y. apply String.le_total. Qed.
#[export] Instance key_le_trans {A} : Transitive (@key_le A).
Proof. intros x y z. unfold key_le. intros. by etrans. Qed.

(** Reference definition of the sort: members sorted by key at every level. *)
Fixpoint canon (v : value) : value :=
  match v with
  | Object m => Object (merge_sort key_le (map (λ kv, (kv.1, canon kv.2)) m))
  | Array l => Array (map canon l)
  | _ => v
  end.

Lemma try_map_fmap_Ok {A B E} (f : A → res B E) (g : A → B) l :
  (∀ x, x ∈ l → f x = Ok (g x)) → try_map f l = Ok (map g l).
Proof.
  intros H. induction l as [|x l IH]; simpl; [done|].
  rewrite H by set_solver. simpl. rewrite IH by set_solver. done.
Qed.

Lemma collect_sorted_spec {E} m l acc :
  NoDup m.*1 → NoDup (acc ++ l).*1 → (∀ x, x ∈ l → x ∈ m) →
  fold_left (λ (acc : res _ E) k,
    let! sorted := acc in
    let! v := unwrap (map_get k m) in
    Ok (map_insert k v sorted)) l.*1 (Ok acc) = Ok (acc ++ l : list (string * value)).
Proof.
  revert acc. induction l as [|[k v] l IH]; intros acc Hm Hnd Hin; csimpl.
  - by rewrite app_nil_r.
  - rewrite (map_get_Some k v) by (done || (apply Hin; set_solver)). simpl.
    rewrite map_insert_new.
    + rewrite IH; [by rewrite <- (assoc_L (++)) | done | |].
      * by rewrite <- (assoc_L (++)).
      * intros x Hx. apply Hin. set_solver.
    + rewrite fmap_app in Hnd. csimpl in Hnd. apply NoDup_app in Hnd as (_ & Hd & _).
      intros Hk. eapply Hd; [exact Hk | set_solver].
Qed.

Lemma merge_sort_keys {A} (m : list (string * A)) :
  NoDup m.*1 → merge_sort String.le m.*1 = (merge_sort key_le m).*1.
Proof.
  intros Hnd. apply (Sorted_unique String.le).
  - apply Sorted_merge_sort. apply _.
  - apply (Sorted_fmap fst key_le); [done | apply Sorted_merge_sort, _].
  - by rewrite merge_sort_Permutation, (merge_sort_Permutation key_le m).
Qed.

Lemma fmap_canon_keys (m : list (string * value)) :
  (map (λ kv : string * value, (kv.1, canon kv.2)) m).*1 = m.*1.
Proof. induction m as [|[k v] m IH]; csimpl; [done|]. by f_equal. Qed.

Lemma wf_sortable v : wf_value v = true → sortable v = true.
Proof.
  induction v as [|b|n|s|l IH|m IH] using value_nested_ind; intros Hwf; try done; simpl in *.
  - by destruct n.
  - rewrite forallb_forall in *. rewrite Forall_forall in IH. intros x Hx.
    apply IH; [by apply list_elem_of_In | auto].
  - bool_simp. apply andb_true_iff. split; [by apply bool_decide_eq_true|].
    rewrite forallb_forall in *. rewrite Forall_forall in IH. intros x Hx.
    apply IH; [by apply list_elem_of_In | auto].
Qed.

(** Closure rules for documents built member by member. *)
Lemma sortable_Object m :
  NoDup m.*1 → Forall (λ kv, sortable kv.2 = true) m → sortable (Object m) = true.
Proof.
  intros Hnd Hm. simpl. rewrite bool_decide_true by done. simpl.
  apply forallb_forall. intros x Hx. rewrite Forall_forall in Hm. by apply Hm, list_elem_of_In.
Qed.
Lemma wf_Object m :
  NoDup m.*1 → Forall (λ kv, wf_value kv.2 = true) m → wf_value (Object m) = true.
Proof.
  intros Hnd Hm. simpl. rewrite bool_decide_true by done. simpl.
  apply forallb_forall. intros x Hx. rewrite Forall_forall in Hm. by apply Hm, list_elem_of_In.
Qed.
Lemma depth_Object d m :
  Forall (λ kv, (depth kv.2 ≤ d)%nat) m → (depth (Object m) ≤ S d)%nat.
Proof. intros Hm. simpl. apply le_n_S. induction Hm; simpl; lia. Qed.

Lemma sortable_jint n : sortable (jint n) = true.
Proof. unfold jint. by destruct (n <? 0). Qed.
Lemma wf_jint n : i64_min ≤ n ≤ u64_max → wf_value (jint n) = true.
Proof.
  unfold jint. intros Hn. destruct (n <? 0) eqn:Hs; bool_simp; simpl; unfold between; lia.
Qed.
Lemma depth_jint n : depth (jint n) = 0%nat.
Proof. unfold jint. by destruct (n <? 0). Qed.
Lemma canon_jint n : canon (jint n) = jint n.
Proof. unfold jint. by destruct (n <? 0). Qed.
#[export] Hint Resolve sortable_jint : zs.

(** On a sortable document the code's sort never panics and computes [canon]. *)
Lemma sort_keys_recursively_canon {E} v :
  sortable v = true → sort_keys_recursively (E := E) v = Ok (canon v).
Proof.
  induction v as [|b|n|s|l IH|m IH] using value_nested_ind; intros Hwf; try done.
  - by destruct n.
  - simpl in *.
    rewrite (try_map_fmap_Ok _ canon); [done|]. intros x Hx.
    rewrite Forall_forall in IH. apply IH; [done|].
    rewrite forallb_forall in Hwf. apply Hwf. by apply list_elem_of_In.
  - simpl in Hwf. apply andb_true_iff in Hwf as [Hnd Hwf].
    apply bool_decide_eq_true in Hnd. simpl.
    rewrite (try_map_fmap_Ok _ (λ kv, (kv.1, canon kv.2))).
    + rewrite <- (fmap_canon_keys m) in Hnd |- *. simpl.
      rewrite merge_sort_keys by done. unfold collect_sorted.
      rewrite collect_sorted_spec; [done | done | |].
      * simpl. by rewrite merge_sort_Permutation.
      * intros x. by rewrite merge_sort_Permutation.
    + intros [k x] Hx. simpl. rewrite Forall_forall in IH. specialize (IH _ Hx). simpl in IH.
      rewrite IH; [done|]. rewrite forallb_forall in Hwf. apply (Hwf (k, x)). by apply list_elem_of_In.
Qed.

Lemma canonical_bytes_canon `{SerdeJson} {E} v :
  sortable v = true → canonical_bytes (E := E) v = Ok (to_vec (canon v)).
Proof. intros Hwf. unfold canonical_bytes. by rewrite sort_keys_recursively_canon. Qed.

(** ** Equivalence of documents: equality up to the order of members *)

Inductive veq : value → value → Prop :=
| veq_null : veq Null Null
| veq_bool b : veq (Bool b) (Bool b)
| veq_number n : veq (Number n) (Number n)
| veq_string s : veq (VString s) (VString s)
| veq_array l1 l2 : Forall2 veq l1 l2 → veq (Array l1) (Array l2)
| veq_object m1 m1' m2 :
    NoDup m1.*1 → m1 ≡ₚ m1' →
    Forall2 (λ x y, x.1 = y.1 ∧ veq x.2 y.2) m1' m2 →
    veq (Object m1) (Object m2).

Lemma merge_sort_key_unique {A} (m1 m2 : list (string * A)) :
  NoDup m1.*1 → m1 ≡ₚ m2 → merge_sort key_le m1 = merge_sort key_le m2.
Proof.
  intros Hnd Hp. apply (Sorted_unique_strong key_le).
  - intros [k1 x1] [k2 x2]. rewrite !merge_sort_Permutation. rewrite <- Hp.
    intros H1 H2 Hle1 Hle2. assert (k1 = k2) as -> by (by apply (anti_symm String.le)).
    apply (map_get_Some _ _ _ Hnd) in H1. apply (map_get_Some _ _ _ Hnd) in H2. congruence.
  - apply Sorted_merge_sort, _.
  - apply Sorted_merge_sort, _.
  - by rewrite !merge_sort_Permutation.
Qed.

Lemma map_pointwise_eq m1 m2 :
  Forall2 (λ x y : string * value, x.1 = y.1 ∧ canon x.2 = canon y.2) m1 m2 →
  map (λ kv, (kv.1, canon kv.2)) m1 = map (λ kv, (kv.1, canon kv.2)) m2.
Proof.
  induction 1 as [|[k1 x1] [k2 x2] m1 m2 [Hk Hx] _ IH]; simpl in *; [done|].
  by rewrite Hk, Hx, IH.
Qed.

Lemma veq_canon v1 v2 : veq v1 v2 → canon v1 = canon v2.
Proof.
  revert v2. induction v1 as [|b|n|s|l IH|m IH] using value_nested_ind;
    intros v2 Hv; inversion Hv as [| | | |?? Hl|? m1' m2 Hnd Hp Hm]; subst; try done; simpl.
  - f_equal. clear Hv. induction Hl as [|x y l l2 Hxy Hl IHl]; simpl; [done|].
    inversion IH; subst. f_equal; auto.
  - f_equal. rewrite <- (map_pointwise_eq m1' m2).
    + apply merge_sort_key_unique; [by rewrite fmap_canon_keys | by rewrite Hp].
    + rewrite Hp in IH. clear Hv Hp Hnd. induction Hm as [|x y l l2 [Hk Hxy] Hl IHl]; [done|].
      inversion IH; subst. constructor; auto.
Qed.

Definition canon_reflects (v1 : value) : Prop :=
  ∀ v2, wf_value v1 = true → wf_value v2 = true → canon v1 = canon v2 → veq v1 v2.

Lemma canon_veq_items l l2 :
  Forall canon_reflects l → forallb wf_value l = true → forallb wf_value l2 = true →
  map canon l = map canon l2 → Forall2 veq l l2.
Proof.
  intros IH. revert l2. induction IH as [|x l Hx IH IHl]; intros [|y l2] H1 H2 Hc;
    try discriminate Hc; [constructor|].
  simpl in *. bool_simp. injection Hc as Hxy Hl. constructor; [by apply Hx | by apply IHl].
Qed.

Lemma canon_veq_members (m m2 : list (string * value)) :
  Forall (λ kv, canon_reflects kv.2) m →
  forallb (λ kv, wf_value kv.2) m = true → forallb (λ kv, wf_value kv.2) m2 = true →
  map (λ kv, (kv.1, canon kv.2)) m = map (λ kv, (kv.1, canon kv.2)) m2 →
  Forall2 (λ x y, x.1 = y.1 ∧ veq x.2 y.2) m m2.
Proof.
  intros IH. revert m2. induction IH as [|[k x] l Hx IH IHl]; intros [|[k2 y] l2] H1 H2 Hc;
    try discriminate Hc; [constructor|].
  simpl in *. bool_simp. injection Hc as Hk Hxy Hl. constructor; [|by apply IHl].
  split; [done | by apply Hx].
Qed.

Lemma canon_veq v1 : canon_reflects v1.
Proof.
  induction v1 as [|b|n|s|l IH|m IH] using value_nested_ind;
    intros [|b2|n2|s2|l2|m2] Hw1 Hw2 Hc; try discriminate Hc;
    try injection Hc as Hc; subst; simpl in *; bool_simp; try by constructor.
  - constructor. by apply canon_veq_items.
  - assert (map (λ kv, (kv.1, canon kv.2)) m2 ≡ₚ map (λ kv, (kv.1, canon kv.2)) m) as Hp.
    { rewrite <- (merge_sort_Permutation key_le (map _ m)), Hc. by rewrite merge_sort_Permutation. }
    apply Permutation_map_inv in Hp as (m' & Hm & Hp).
    apply (veq_object _ m'); [done | done |].
    apply canon_veq_members; [by rewrite <- Hp | | done | done].
    rewrite forallb_forall in *. intros x Hx. rename select (∀ x, In x m → _) into Hwm.
    apply Hwm. by rewrite Hp.
Qed.

(** ** Canonical documents: shape, idempotence, depth *)

Lemma wf_canon v : wf_value v = true → wf_value (canon v) = true.
Proof.
  induction v as [|b|n|s|l IH|m IH] using value_nested_ind; intros Hwf; try done; simpl in *.
  - rewrite forallb_forall in *. intros y (x & <- & Hx)%in_map_iff.
    rewrite Forall_forall in IH. apply IH; [by apply list_elem_of_In | by apply Hwf].
  - bool_simp. apply andb_true_iff. split.
    + apply bool_decide_eq_true. rewrite merge_sort_Permutation. by rewrite fmap_canon_keys.
    + rewrite forallb_forall in *. intros y Hy.
      rewrite <- list_elem_of_In, merge_sort_Permutation, list_elem_of_In in Hy.
      apply in_map_iff in Hy as (x & <- & Hx). simpl.
      rewrite Forall_forall in IH. apply IH; [by apply list_elem_of_In | auto].
Qed.

Lemma foldr_max_perm l1 l2 : l1 ≡ₚ l2 → foldr Nat.max 0%nat l1 = foldr Nat.max 0%nat l2.
Proof. induction 1; simpl; lia. Qed.

Lemma depth_canon v : depth (canon v) = depth v.
Proof.
  induction v as [|b|n|s|l IH|m IH] using value_nested_ind; try done; simpl; f_equal.
  - f_equal. rewrite map_map. apply map_ext_Forall, IH.
  - apply foldr_max_perm. rewrite merge_sort_Permutation, map_map. simpl.
    apply reflexive_eq, map_ext_Forall, IH.
Qed.

(** Sorting a sorted document changes nothing. *)
Lemma canon_idemp v : wf_value v = true → canon (canon v) = canon v.
Proof.
  intros Hwf. apply veq_canon. revert Hwf.
  induction v as [|b|n|s|l IH|m IH] using value_nested_ind; intros Hwf; try by constructor.
  - simpl in *. constructor. rewrite forallb_forall in Hwf. rewrite Forall_forall in IH.
    apply Forall2_fmap_l, Forall_Forall2_diag, Forall_forall. intros x Hx.
    apply IH; [done | by apply Hwf, list_elem_of_In].
  - simpl in *. bool_simp.
    apply (veq_object _ (map (λ kv, (kv.1, canon kv.2)) m)).
    + rewrite merge_sort_Permutation. by rewrite fmap_canon_keys.
    + apply merge_sort_Permutation.
    + rename select (forallb _ _ = true) into Hm. rewrite forallb_forall in Hm.
      rewrite Forall_forall in IH. apply Forall2_fmap_l, Forall_Forall2_diag, Forall_forall.
      intros x Hx. simpl. split; [done|]. apply IH; [done | by apply Hm, list_elem_of_In].
Qed.

Section canonical.
Context `{SerdeJsonLaws}.

Lemma to_vec_canon_inj v1 v2 :
  wf_value v1 = true → wf_value v2 = true → (depth v1 ≤ 127)%nat → (depth v2 ≤ 127)%nat →
  to_vec (canon v1) = to_vec (canon v2) → canon v1 = canon v2.
Proof.
  intros Hw1 Hw2 Hd1 Hd2 Heq.
  assert (Some (canon v1) = Some (canon v2)) as [= ?]; [|done].
  rewrite <- (from_slice_to_vec (canon v1)), <- (from_slice_to_vec (canon v2));
    rewrite ?depth_canon; auto using wf_canon. by rewrite Heq.
Qed.
End canonical.

(** ** Size of a canonical object *)

Definition member_bytes `{SerdeJson} (kv : string * value) : bytes :=
  to_vec (VString kv.1) ++ ":"%char :: to_vec kv.2.

Fixpoint sum_len (ls : list bytes) : Z :=
  match ls with [] => 0 | l :: ls' => len l + sum_len ls' end.

Lemma len_join sep ls : ls ≠ [] → len (join sep ls) = sum_len ls + (len ls - 1) * len sep.
Proof.
  induction ls as [|l [|l' ls] IH]; intros Hne; [done | |].
  - change (len [l]) with 1. simpl. lia.
  - change (join sep (l :: l' :: ls)) with (l ++ sep ++ join sep (l' :: ls)).
    rewrite !len_app, IH by done. simpl. rewrite !len_cons. lia.
Qed.

Lemma sum_len_perm ls1 ls2 : ls1 ≡ₚ ls2 → sum_len ls1 = sum_len ls2.
Proof. induction 1; simpl; lia. Qed.

Lemma sum_len_app ls1 ls2 : sum_len (ls1 ++ ls2) = sum_len ls1 + sum_len ls2.
Proof. induction ls1; simpl; lia. Qed.

Section size.
Context `{SerdeJsonLaws}.

Lemma len_to_vec_plain s : plain_string s = true → len (to_vec (VString s)) = str_len s + 2.
Proof.
  intros Hs. rewrite to_vec_string, len_cons, len_app, len_as_bytes by done.
  change (len [quote]) with 1. lia.
Qed.

Lemma len_member_plain k v :
  plain_string k = true → len (member_bytes (k, v)) = str_len k + 3 + len (to_vec v).
Proof.
  intros Hk. unfold member_bytes. rewrite len_app, len_cons. cbn [fst snd].
  rewrite len_to_vec_plain by done. lia.
Qed.

Lemma len_to_vec_object m :
  m ≠ [] → len (to_vec (Object m)) = 1 + sum_len (map member_bytes m) + len m.
Proof.
  intros Hm. rewrite to_vec_object, len_cons, len_app.
  change (map (λ kv, to_vec (VString kv.1) ++ ":"%char :: to_vec kv.2) m)
    with (map member_bytes m).
  rewrite len_join by (by destruct m). unfold len. rewrite length_map. simpl. lia.
Qed.

Lemma len_to_vec_canon m :
  m ≠ [] →
  len (to_vec (canon (Object m))) =
  1 + sum_len (map (λ kv, member_bytes (kv.1, canon kv.2)) m) + len m.
Proof.
  intros Hm. simpl. pose proof (merge_sort_Permutation key_le
    (map (λ kv, (kv.1, canon kv.2)) m)) as Hp.
  rewrite len_to_vec_object.
  - rewrite (sum_len_perm _ _ (Permutation_map member_bytes Hp)), map_map.
    unfold len. by rewrite Hp, length_map.
  - intros Hnil. rewrite Hnil in Hp. apply Permutation_nil in Hp. by destruct m.
Qed.

(** Adding one member to a non-empty object adds a comma, the quoted key, a colon
    and the member's own bytes, wherever the sort puts it. *)
Lemma len_canon_insert m k v :
  m ≠ [] → k ∉ m.*1 →
  len (to_vec (canon (Object (map_insert k v m)))) =
  len (to_vec (canon (Object m))) + 1 + len (to_vec (VString k)) + 1 + len (to_vec (canon v)).
Proof.
  intros Hm Hk. rewrite map_insert_new by done.
  rewrite !len_to_vec_canon by (done || by destruct m).
  rewrite map_app, sum_len_app, len_app. simpl. unfold member_bytes at 2. simpl.
  rewrite len_app, len_cons. change (len [(k, v)]) with 1. lia.
Qed.
End size.

(** ** Documents built by insertion *)

(** Distinct keys, and a property of every member: closed under [insert]. *)
Definition members_ok (Q : value → Prop) (m : list (string * value)) : Prop :=
  NoDup m.*1 ∧ Forall (λ kv, Q kv.2) m.

Lemma members_ok_nil Q : members_ok Q [].
Proof. split; [apply NoDup_nil_2 | apply Forall_nil_2]. Qed.

Lemma members_ok_insert Q k v m : members_ok Q m → Q v → members_ok Q (map_insert k v m).
Proof.
  intros [Hnd Hm] Hv. split; [by apply map_insert_NoDup|]. clear Hnd.
  induction Hm as [|[k' v'] m Hk Hm IH]; simpl; [by repeat constructor|].
  case_bool_decide; by constructor.
Qed.

Lemma members_ok_insert_opt Q k o m :
  members_ok Q m → (∀ v, o = Some v → Q v) → members_ok Q (map_insert_opt k o m).
Proof. destruct o; simpl; [intros; apply members_ok_insert; auto | done]. Qed.

Lemma members_ok_sortable m :
  members_ok (λ v, sortable v = true) m → sortable (Object m) = true.
Proof. intros [??]. by apply sortable_Object. Qed.
Lemma members_ok_wf m : members_ok (λ v, wf_value v = true) m → wf_value (Object m) = true.
Proof. intros [??]. by apply wf_Object. Qed.
Lemma members_ok_depth d m :
  members_ok (λ v, (depth v ≤ d)%nat) m → (depth (Object m) ≤ S d)%nat.
Proof. intros [??]. by apply depth_Object. Qed.

Lemma jstrings_wf l : wf_value (jstrings l) = true.
Proof. unfold jstrings. induction l as [|s l IH]; [done | exact IH]. Qed.
Lemma jstrings_depth l : (depth (jstrings l) ≤ 1)%nat.
Proof. unfold jstrings. simpl. apply le_n_S. induction l as [|s l IH]; [done|exact IH]. Qed.
Lemma canon_jstrings l : canon (jstrings l) = jstrings l.
Proof. unfold jstrings. simpl. f_equal. rewrite map_map. done. Qed.

(** Equal canonical objects have the same members, up to canonical form. *)
Lemma canon_map_get m1 m2 k :
  NoDup m1.*1 → NoDup m2.*1 → canon (Object m1) = canon (Object m2) →
  canon <$> map_get k m1 = canon <$> map_get k m2.
Proof.
  assert (∀ m, NoDup m.*1 → canon <$> map_get k m =
    map_get k (merge_sort key_le (map (λ kv, (kv.1, canon kv.2)) m))) as Hget.
  { intros m Hm. pose proof (merge_sort_Permutation key_le (map (λ kv, (kv.1, canon kv.2)) m)) as Hp.
    assert (NoDup (map (λ kv : string * value, (kv.1, canon kv.2)) m).*1) as Hnd
      by (by rewrite fmap_canon_keys).
    destruct (map_get k m) as [v|] eqn:Hv; simpl; symmetry.
    - apply map_get_Some; [by rewrite Hp|]. rewrite Hp.
      apply map_get_elem_of in Hv. exact (list_elem_of_fmap_2 (λ kv, (kv.1, canon kv.2)) _ _ Hv).
    - apply map_get_None. rewrite Hp, fmap_canon_keys. by apply map_get_None. }
  intros H1 H2 [= Heq]. by rewrite !Hget, Heq.
Qed.

(** One goal per inserted member. *)
Ltac solve_inserts tac :=
  repeat first
    [ apply members_ok_insert
    | apply members_ok_insert_opt; [|intros ? (? & ? & ->)%fmap_Some]
    | apply members_ok_nil ];
  try (first [reflexivity | tac]).
