(* ===== verification/Serde.v ===== *)
(** * Typed deserialization: what [#[derive(Deserialize)]] generates

    The wire structures of the repository are declared with
    [#[derive(Deserialize)]], optional [#[serde(deny_unknown_fields)]] and
    [#[serde(default)]].  [struct_fields] gives, for a struct with the declared
    field names, the document found for each field, in declaration order; the
    [de_] functions read one field.  As serde's generated visitor does, a struct
    is read from an object (no declared field twice, unknown members refused when
    denied) or from an array (fields by position, no extra item). *)

From S2P Require Import Prelude.
From S2P Require Import Json.

(** Members of an object that carry a declared name. *)
Definition count_key (k : string) (m : list (string * value)) : nat :=
  length (filter (λ kv, kv.1 = k) m).

Definition struct_fields (names : list string) (deny_unknown : bool) (v : value) :
    option (list (option value)) :=
  match v with
  | Object m =>
      if forallb (λ k, (count_key k m <=? 1)%nat) names &&
         (negb deny_unknown || forallb (λ kv, bool_decide (kv.1 ∈ names)) m)
      then Some (map (λ k, map_get k m) names)
      else None
  | Array items =>
      if (length items <=? length names)%nat
      then Some (map Some items ++ replicate (length names - length items) None)
      else None
  | _ => None
  end.

(** A field without [#[serde(default)]], and a field with it. *)
Definition required {A} (de : value → option A) (o : option value) : option A :=
  o ≫= de.
Definition defaulted {A} (d : A) (de : value → option A) (o : option value) : option A :=
  match o with None => Some d | Some v => de v end.

Definition de_string (v : value) : option string :=
  match v with VString s => Some s | _ => None end.
Definition de_u64 (v : value) : option Z :=
  match v with Number (PosInt n) => if between 0 n u64_max then Some n else None | _ => None end.
Definition de_u32 (v : value) : option Z :=
  match v with Number (PosInt n) => if between 0 n u32_max then Some n else None | _ => None end.
Definition de_option {A} (de : value → option A) (v : value) : option (option A) :=
  match v with Null => Some None | _ => Some <$> de v end.
Definition de_vec {A} (de : value → option A) (v : value) : option (list A) :=
  match v with Array l => mapM de l | _ => None end.

(** ** Lemmas *)

Lemma count_key_zero k m : k ∉ m.*1 → count_key k m = 0%nat.
Proof.
  unfold count_key. induction m as [|[k' v] m IH]; csimpl; [done|].
  rewrite not_elem_of_cons. intros [Hk Hm].
  rewrite filter_cons_False by (simpl; congruence). auto.
Qed.

Lemma count_key_NoDup k m : NoDup m.*1 → (count_key k m ≤ 1)%nat.
Proof.
  induction m as [|[k' v] m IH]; intros Hnd; [cbn; lia|].
  apply NoDup_cons in Hnd as [Hk Hnd]. unfold count_key in *.
  destruct (decide (k' = k)) as [->|Hne].
  - rewrite filter_cons_True by done. simpl. fold (count_key k m).
    rewrite count_key_zero by done. lia.
  - rewrite filter_cons_False by done. auto.
Qed.

(** An object with distinct keys, all declared, yields its members. *)
Lemma struct_fields_object names deny m :
  NoDup m.*1 → (∀ k, k ∈ m.*1 → k ∈ names) →
  struct_fields names deny (Object m) = Some (map (λ k, map_get k m) names).
Proof.
  intros Hnd Hin. simpl. rewrite (proj2 (andb_true_iff _ _)); [done|]. split.
  - apply forallb_forall. intros k _. apply Nat.leb_le. by apply count_key_NoDup.
  - apply orb_true_iff. right. apply forallb_forall. intros [k v] Hkv.
    apply bool_decide_eq_true, Hin. apply list_elem_of_In in Hkv.
    exact (list_elem_of_fmap_2 fst _ _ Hkv).
Qed.

Lemma map_get_perm {A} (m1 m2 : list (string * A)) k :
  NoDup m1.*1 → m1 ≡ₚ m2 → map_get k m1 = map_get k m2.
Proof.
  intros Hnd Hp. destruct (map_get k m1) as [v|] eqn:H1.
  - symmetry. apply map_get_Some; [by rewrite <- Hp|]. rewrite <- Hp. by apply map_get_elem_of.
  - symmetry. apply map_get_None. rewrite <- Hp. by apply map_get_None.
Qed.

Lemma mapM_fmap_Some {A B} (f : A → option B) (g : B → A) l :
  (∀ x, f (g x) = Some x) → mapM f (map g l) = Some l.
Proof. intros Hf. induction l as [|x l IH]; simpl; [done|]. by rewrite Hf, IH. Qed.

Lemma map_get_fmap {A B} (f : A → B) k (m : list (string * A)) :
  map_get k (map (λ kv, (kv.1, f kv.2)) m) = f <$> map_get k m.
Proof. induction m as [|[k' v] m IH]; simpl; [done|]. by case_bool_decide. Qed.

(** A canonical object yields the canonical forms of the members it was made from. *)
Lemma struct_fields_canon names deny m :
  NoDup m.*1 → (∀ k, k ∈ m.*1 → k ∈ names) →
  struct_fields names deny (canon (Object m)) =
  Some (map (λ k, canon <$> map_get k m) names).
Proof.
  intros Hnd Hin. pose proof (merge_sort_Permutation key_le (map (λ kv, (kv.1, canon kv.2)) m)) as Hp.
  change (canon (Object m)) with (Object (merge_sort key_le (map (λ kv, (kv.1, canon kv.2)) m))).
  rewrite struct_fields_object.
  - f_equal. apply map_ext. intros k.
    rewrite <- map_get_fmap. symmetry. apply map_get_perm; [by rewrite fmap_canon_keys | by rewrite Hp].
  - rewrite Hp. by rewrite fmap_canon_keys.
  - intros k. rewrite Hp, fmap_canon_keys. auto.
Qed.

(** Integers are read within their type and written back. *)
Lemma between_true lo n hi : between lo n hi = true ↔ lo ≤ n ≤ hi.
Proof. unfold between. rewrite andb_true_iff, !Z.leb_le. done. Qed.
Lemma de_u64_jint n : in_u64 n → de_u64 (jint n) = Some n.
Proof.
  unfold in_u64, jint. intros Hn. rewrite (proj2 (Z.ltb_ge n 0)) by lia. simpl.
  by rewrite (proj2 (between_true _ _ _)).
Qed.
Lemma de_u32_jint n : in_u32 n → de_u32 (jint n) = Some n.
Proof.
  unfold in_u32, jint. intros Hn. rewrite (proj2 (Z.ltb_ge n 0)) by lia. simpl.
  by rewrite (proj2 (between_true _ _ _)).
Qed.
Lemma de_u64_range v n : de_u64 v = Some n → in_u64 n.
Proof.
  unfold de_u64, in_u64. repeat (case_match; try done). intros [= <-]. by apply between_true.
Qed.
Lemma de_option_u64_range v n : de_option de_u64 v = Some (Some n) → in_u64 n.
Proof.
  destruct v; simpl; try discriminate. intros Hn. simplify_option_eq.
  by eapply (de_u64_range (Number _)).
Qed.
Lemma de_strings l : de_vec de_string (jstrings l) = Some l.
Proof. apply (mapM_fmap_Some de_string VString). done. Qed.

(** Distinct literal keys, all declared: by computation. *)
Ltac solve_keys :=
  match goal with
  | |- NoDup _ => cbv [fmap list_fmap fst]; apply (bool_decide_unpack _); vm_compute; exact I
  | |- ∀ k, k ∈ _ → k ∈ _ =>
      cbv [fmap list_fmap fst]; apply Forall_forall, (bool_decide_unpack _);
      vm_compute; exact I
  end.

(** A property of every member of a document given by its members. *)
Ltac solve_members tac :=
  repeat (apply Forall_cons_2; [cbn [fst snd]; first [reflexivity | tac]|]); apply Forall_nil_2.

(** The side condition of [canonical_bytes] on such a document. *)
Ltac solve_sortable :=
  apply sortable_Object; [solve_keys | solve_members ltac:(by auto with zs)].
