(* ===== verification/JsonCodec.v ===== *)
(** * A reference serializer: the laws of [SerdeJson] can hold

    A concrete compact printer and a parser of its output.  They model nothing of
    the repository: the theorems about documents take [to_vec] and [from_slice]
    as parameters, and this instance discharges the laws of [SerdeJsonLaws], so
    that the witnesses of those theorems can be evaluated. *)

From S2P Require Import Prelude.
From S2P Require Import Json.

(** ** Printer *)

Definition unicode_escape (c : ascii) : bytes :=
  [backslash; "u"; "0"; "0"; digit (u8_val c / 16); digit (u8_val c mod 16)]%char.

Definition escape_char (c : ascii) : bytes :=
  if bool_decide (c = quote) || bool_decide (c = backslash) then [backslash; c]
  else if u8_val c <? 32 then unicode_escape c
  else [c].

Definition print_string (s : string) : bytes :=
  quote :: concat (map escape_char (as_bytes s)) ++ [quote].

Definition print_number (n : number) : bytes :=
  match n with
  | PosInt n => fmt_nat n
  | NegInt n => "-"%char :: fmt_nat (- n)
  | Float _ => as_bytes "null"
  end.

Fixpoint print (v : value) : bytes :=
  match v with
  | Null => as_bytes "null"
  | Bool true => as_bytes "true"
  | Bool false => as_bytes "false"
  | Number n => print_number n
  | VString s => print_string s
  | Array l => "["%char :: join [","%char] (map print l) ++ ["]"%char]
  | Object m => "{"%char ::
      join [","%char] (map (λ kv, print_string kv.1 ++ ":"%char :: print kv.2) m) ++ ["}"%char]
  end.

(** ** Parser *)

Definition unhex (c : ascii) : option Z :=
  let n := u8_val c in
  if between 48 n 57 then Some (n - 48)
  else if between 97 n 102 then Some (n - 87)
  else None.

(** One character of a string body: [None] at the closing quote or on an error. *)
Definition parse_char (bs : bytes) : option (ascii * bytes) :=
  match bs with
  | c :: r =>
      if bool_decide (c = quote) then None
      else if bool_decide (c = backslash) then
        match r with
        | d :: r1 =>
            if bool_decide (d = "u"%char) then
              match r1 with
              | _ :: _ :: h :: l :: r2 =>
                  h ← unhex h; l ← unhex l; Some (u8_of (h * 16 + l), r2)
              | _ => None
              end
            else Some (d, r1)
        | [] => None
        end
      else Some (c, r)
  | [] => None
  end.

Fixpoint parse_string_body (fuel : nat) (bs : bytes) : option (bytes * bytes) :=
  match fuel with
  | O => None
  | S f =>
      match parse_char bs with
      | Some (c, r) => '(s, r') ← parse_string_body f r; Some (c :: s, r')
      | None =>
          match bs with
          | q :: r => if bool_decide (q = quote) then Some ([], r) else None
          | [] => None
          end
      end
  end.

Fixpoint span_digits (bs : bytes) : bytes * bytes :=
  match bs with
  | c :: r => if is_ascii_digit c then let '(d, r') := span_digits r in (c :: d, r') else ([], bs)
  | [] => ([], [])
  end.

Definition strip (p bs : bytes) : option bytes :=
  if bool_decide (take (length p) bs = p) then Some (drop (length p) bs) else None.

(** Compact texts only: no whitespace between tokens.  [fuel] bounds the number of
    nested calls; twice the length of the text is enough ([need_print]). *)
Fixpoint parse (fuel : nat) (bs : bytes) : option (value * bytes) :=
  match fuel, bs with
  | O, _ | _, [] => None
  | S f, c :: r =>
      if bool_decide (c = "n"%char) then r' ← strip (as_bytes "null") bs; Some (Null, r')
      else if bool_decide (c = "t"%char) then r' ← strip (as_bytes "true") bs; Some (Bool true, r')
      else if bool_decide (c = "f"%char) then r' ← strip (as_bytes "false") bs; Some (Bool false, r')
      else if bool_decide (c = quote) then
        '(s, r') ← parse_string_body f r; Some (VString (from_utf8_bytes s), r')
      else if bool_decide (c = "["%char) then
        match strip ["]"%char] r with
        | Some r' => Some (Array [], r')
        | None => '(l, r') ← parse_items f r; Some (Array l, r')
        end
      else if bool_decide (c = "{"%char) then
        match strip ["}"%char] r with
        | Some r' => Some (Object [], r')
        | None => '(m, r') ← parse_members f r; Some (Object m, r')
        end
      else if bool_decide (c = "-"%char) then
        let '(d, r') := span_digits r in Some (Number (NegInt (- dec_value d)), r')
      else let '(d, r') := span_digits bs in Some (Number (PosInt (dec_value d)), r')
  end
with parse_items (fuel : nat) (bs : bytes) : option (list value * bytes) :=
  match fuel with
  | O => None
  | S f =>
      '(v, r) ← parse f bs;
      match strip [","%char] r with
      | Some r' => '(vs, r'') ← parse_items f r'; Some (v :: vs, r'')
      | None => r' ← strip ["]"%char] r; Some ([v], r')
      end
  end
with parse_members (fuel : nat) (bs : bytes) : option (list (string * value) * bytes) :=
  match fuel with
  | O => None
  | S f =>
      r0 ← strip [quote] bs;
      '(k, r1) ← parse_string_body f r0;
      r2 ← strip [":"%char] r1;
      '(v, r) ← parse f r2;
      match strip [","%char] r with
      | Some r' => '(vs, r'') ← parse_members f r'; Some ((from_utf8_bytes k, v) :: vs, r'')
      | None => r' ← strip ["}"%char] r; Some ([(from_utf8_bytes k, v)], r')
      end
  end.

Definition parse_all (bs : bytes) : option value :=
  '(v, r) ← parse (2 * length bs) bs;
  match r with [] => Some v | _ => None end.

#[export] Instance ref_json : SerdeJson := {| to_vec := print; from_slice := parse_all |}.

(** ** Round trip *)

Lemma strip_app p r : strip p (p ++ r) = Some r.
Proof.
  unfold strip. rewrite take_app_length, bool_decide_true by done. by rewrite drop_app_length.
Qed.

Lemma strip_ne c d r : c ≠ d → strip [c] (d :: r) = None.
Proof. intros H. unfold strip. simpl. rewrite bool_decide_false; [done|]. congruence. Qed.

Lemma parse_char_escape c r : parse_char (escape_char c ++ r) = Some (c, r).
Proof. by destruct c as [[][][][][][][][]]. Qed.

Lemma parse_string_body_print l f r :
  (length l < f)%nat →
  parse_string_body f (concat (map escape_char l) ++ quote :: r) = Some (l, r).
Proof.
  revert f. induction l as [|c l IH]; intros [|f] Hf; simpl in *; try lia.
  - done.
  - rewrite <- (assoc_L (++)), parse_char_escape. simpl. rewrite IH by lia. done.
Qed.

(** The text after a number must not start with a digit. *)
Definition ends (r : bytes) : Prop :=
  match r with c :: _ => is_ascii_digit c = false | [] => True end.

Lemma span_digits_app l r : forallb is_ascii_digit l = true → ends r → span_digits (l ++ r) = (l, r).
Proof.
  intros Hl Hr. induction l as [|c l IH]; simpl in *.
  - destruct r as [|c r]; simpl in *; [done|]. by rewrite Hr.
  - bool_simp. rewrite (IH H0). by rewrite H.
Qed.

Lemma fmt_nat_spec n : 0 ≤ n ≤ u64_max →
  dec_value (fmt_nat n) = n ∧ forallb is_ascii_digit (fmt_nat n) = true.
Proof.
  intros Hn. apply dec_digits_spec; [|done]. unfold u64_max in Hn.
  change (10 ^ Z.of_nat 20) with 100000000000000000000. lia.
Qed.

Lemma fmt_nat_cons n : ∃ c l, fmt_nat n = c :: l.
Proof.
  unfold fmt_nat. set (f := 19%nat). change (dec_digits 20 n) with (dec_digits (S f) n).
  simpl. destruct (if n <? 10 then _ else _); simpl; eauto.
Qed.

Fixpoint need (v : value) : nat :=
  match v with
  | VString s => 2 + String.length s
  | Array l => 2 + list_sum (map (λ x, 1 + need x) l)
  | Object m => 2 + list_sum (map (λ kv, 1 + need kv.2 + (2 + String.length kv.1)) m)
  | _ => 1
  end%nat.

Definition parses (v : value) : Prop :=
  ∀ f r, (need v ≤ f)%nat → ends r → parse f (print v ++ r) = Some (v, r).

(** The first byte of a printed number selects the number branches of [parse]. *)
Lemma parse_digits f l c r :
  is_ascii_digit c = true →
  parse (S f) (c :: l ++ r) =
  let '(d, r') := span_digits (c :: l ++ r) in Some (Number (PosInt (dec_value d)), r').
Proof.
  intros Hc. simpl.
  rewrite !bool_decide_false by (intros ->; discriminate Hc). done.
Qed.

Lemma parses_number n : wf_number n = true → parses (Number n).
Proof.
  intros Hn [|f] r Hf Hr; [simpl in Hf; lia|].
  destruct n as [n|n|]; [| |done]; unfold wf_number, between in Hn; bool_simp.
  - destruct (fmt_nat_spec n) as [Hv Hd]; [lia|].
    change (print (Number (PosInt n))) with (fmt_nat n).
    destruct (fmt_nat_cons n) as (c & l & Hc). rewrite Hc in *.
    assert (is_ascii_digit c = true) by (simpl in Hd; by bool_simp).
    simpl app. rewrite parse_digits by done.
    change (c :: l ++ r) with ((c :: l) ++ r). rewrite span_digits_app by done. by rewrite Hv.
  - destruct (fmt_nat_spec (- n)) as [Hv Hd]; [unfold i64_min, u64_max in *; lia|].
    change (print (Number (NegInt n))) with ("-"%char :: fmt_nat (- n)).
    simpl. rewrite span_digits_app by done. rewrite Hv. by rewrite Z.opp_involutive.
Qed.

Lemma parses_string s : parses (VString s).
Proof.
  intros [|f] r Hf Hr; [simpl in Hf; lia|]. simpl print. unfold print_string.
  simpl. rewrite <- (assoc_L (++)). simpl.
  rewrite parse_string_body_print by (simpl in Hf; rewrite length_as_bytes; lia).
  simpl. by rewrite from_utf8_as_bytes.
Qed.

(** A printed value does not start with a closing bracket. *)
Lemma strip_close_print c v r :
  wf_value v = true → c = "]"%char → strip [c] (print v ++ r) = None.
Proof.
  intros Hwf ->. destruct v as [|[]|n|s|l|m]; try (by apply strip_ne).
  destruct n as [n|n|]; try (by apply strip_ne).
  simpl in Hwf. unfold between in Hwf. bool_simp.
  destruct (fmt_nat_spec n) as [_ Hd]; [lia|]. simpl.
  destruct (fmt_nat_cons n) as (c & l & Hc). rewrite Hc in *. simpl in *. bool_simp.
  apply strip_ne. intros <-. discriminate.
Qed.

Lemma parse_items_print l f r :
  Forall parses l → l ≠ [] →
  (list_sum (map (λ x, 1 + need x) l) ≤ f)%nat →
  parse_items f (join [","%char] (map print l) ++ "]"%char :: r) = Some (l, r).
Proof.
  intros Hl. revert f. induction Hl as [|x [|y l] Hx Hl IH]; intros [|f] Hne Hf;
    try done; simpl list_sum in Hf; try lia.
  - simpl. rewrite Hx by (done || lia). simpl. done.
  - change (join [","%char] (map print (x :: y :: l)))
      with (print x ++ [","%char] ++ join [","%char] (map print (y :: l))).
    simpl app. rewrite <- (assoc_L (++)). simpl parse_items.
    rewrite Hx by (done || lia). simpl.
    rewrite IH; [done | done | simpl; lia].
Qed.

Lemma strip_close_join x l r :
  wf_value x = true → strip ["]"%char] (join [","%char] (map print (x :: l)) ++ r) = None.
Proof.
  intros Hx. destruct l as [|y l]; [by apply strip_close_print|].
  change (join _ _) with (print x ++ [","%char] ++ join [","%char] (map print (y :: l))).
  rewrite <- (assoc_L (++)). by apply strip_close_print.
Qed.

Lemma parses_array l : forallb wf_value l = true → Forall parses l → parses (Array l).
Proof.
  intros Hwf Hl [|f] r Hf Hr; [simpl in Hf; lia|].
  destruct l as [|x l]; [done|].
  change (print (Array (x :: l)))
    with ("["%char :: join [","%char] (map print (x :: l)) ++ ["]"%char]).
  assert (parse_items f (join [","%char] (map print (x :: l)) ++ "]"%char :: r)
    = Some (x :: l, r)) as Hp by (apply parse_items_print; [done | done | simpl in *; lia]).
  assert (strip ["]"%char] (join [","%char] (map print (x :: l)) ++ "]"%char :: r) = None) as Hs
    by (apply strip_close_join; simpl in Hwf; by bool_simp).
  revert Hp Hs. generalize (join [","%char] (map print (x :: l))). intros J Hp Hs.
  simpl. rewrite <- (assoc_L (++)). simpl. by rewrite Hs, Hp.
Qed.

Definition print_member (kv : string * value) : bytes := print_string kv.1 ++ ":"%char :: print kv.2.

Lemma print_member_app k x r :
  print_member (k, x) ++ r =
  quote :: concat (map escape_char (as_bytes k)) ++ quote :: ":"%char :: print x ++ r.
Proof.
  unfold print_member, print_string. simpl. by rewrite <- !(assoc_L (++)).
Qed.

Lemma parse_members_print m f r :
  Forall (λ kv, parses kv.2) m → m ≠ [] →
  (list_sum (map (λ kv, 1 + need kv.2 + (2 + String.length kv.1)) m) ≤ f)%nat →
  parse_members f (join [","%char] (map print_member m) ++ "}"%char :: r) = Some (m, r).
Proof.
  intros Hm. revert f. induction Hm as [|[k x] m Hx Hm IH]; intros [|f] Hne Hf;
    try done; simpl in Hf; try lia.
  assert (∀ r', ends r' → parse_members (S f) (print_member (k, x) ++ r') =
    match strip [","%char] r' with
    | Some r' => '(vs, r'') ← parse_members f r'; Some ((k, x) :: vs, r'')
    | None => r' ← strip ["}"%char] r'; Some ([(k, x)], r')
    end) as Hstep.
  { intros r' Hr'. rewrite print_member_app. simpl. rewrite drop_0.
    rewrite parse_string_body_print by (rewrite length_as_bytes; lia).
    simpl. rewrite drop_0. simpl in Hx. rewrite (Hx f r') by (done || lia). simpl. by rewrite from_utf8_as_bytes. }
  destruct m as [|y m].
  - simpl join. rewrite Hstep by done. done.
  - change (join [","%char] (map print_member ((k, x) :: y :: m)))
      with (print_member (k, x) ++ [","%char] ++ join [","%char] (map print_member (y :: m))).
    rewrite <- !(assoc_L (++)). rewrite Hstep by done. simpl app. simpl strip.
    simpl. rewrite IH; [done | done | simpl in *; lia].
Qed.

Lemma strip_close_members x m r :
  strip ["}"%char] (join [","%char] (map print_member (x :: m)) ++ r) = None.
Proof. by destruct m. Qed.

Lemma parses_object m : Forall (λ kv, parses kv.2) m → parses (Object m).
Proof.
  intros Hm [|f] r Hf Hr; [simpl in Hf; lia|].
  destruct m as [|x m]; [done|].
  change (print (Object (x :: m)))
    with ("{"%char :: join [","%char] (map print_member (x :: m)) ++ ["}"%char]).
  assert (parse_members f (join [","%char] (map print_member (x :: m)) ++ "}"%char :: r)
    = Some (x :: m, r)) as Hp by (apply parse_members_print; [done | done | simpl in *; lia]).
  pose proof (strip_close_members x m ("}"%char :: r)) as Hs.
  revert Hp Hs. generalize (join [","%char] (map print_member (x :: m))). intros J Hp Hs.
  simpl. rewrite <- (assoc_L (++)). simpl. by rewrite Hs, Hp.
Qed.

Lemma parses_all v : wf_value v = true → parses v.
Proof.
  induction v as [|[]|n|s|l IH|m IH] using value_nested_ind; intros Hwf;
    try by (intros [|f] r Hf Hr; [simpl in Hf; lia|]).
  - by apply parses_number.
  - apply parses_string.
  - simpl in Hwf. apply parses_array; [done|].
    rewrite forallb_forall in Hwf. rewrite Forall_forall in *. intros x Hx.
    apply IH; [done | by apply Hwf, list_elem_of_In].
  - simpl in Hwf. bool_simp. apply parses_object.
    rewrite forallb_forall in *. rewrite Forall_forall in *. intros x Hx.
    apply IH; [done | by apply H0, list_elem_of_In].
Qed.

(** ** Fuel *)

Lemma length_escape_char c : (1 ≤ length (escape_char c))%nat.
Proof. unfold escape_char. repeat case_match; simpl; lia. Qed.

Lemma length_print_string s : (2 + String.length s ≤ length (print_string s))%nat.
Proof.
  unfold print_string. simpl. rewrite length_app, <- length_as_bytes. simpl.
  enough (length (as_bytes s) ≤ length (concat (map escape_char (as_bytes s))))%nat by lia.
  induction (as_bytes s) as [|c l IH]; simpl; [lia|].
  rewrite length_app. pose proof (length_escape_char c). lia.
Qed.

Lemma length_join sep ls : (list_sum (map length ls) ≤ length (join sep ls))%nat.
Proof.
  induction ls as [|l [|l' ls] IH]; simpl in *; [lia..|]. rewrite !length_app. lia.
Qed.

Lemma need_sum {A} (f g : A → nat) l :
  Forall (λ x, f x ≤ 2 * g x)%nat l → (list_sum (map f l) ≤ 2 * list_sum (map g l))%nat.
Proof. induction 1; simpl; lia. Qed.

Lemma need_print v : wf_value v = true → (need v + 1 ≤ 2 * length (print v))%nat.
Proof.
  induction v as [|[]|n|s|l IH|m IH] using value_nested_ind; intros Hwf; try (simpl; lia).
  - destruct n as [n|n|]; [|simpl; lia..].
    change (1 + 1 ≤ 2 * length (fmt_nat n))%nat.
    destruct (fmt_nat_cons n) as (c & l & ->). simpl length. lia.
  - change (2 + String.length s + 1 ≤ 2 * length (print_string s))%nat.
    pose proof (length_print_string s). lia.
  - simpl in *. rewrite length_app. simpl.
    pose proof (length_join [","%char] (map print l)) as Hj.
    rewrite map_map in Hj.
    assert (list_sum (map (λ x, S (need x)) l) ≤ 2 * list_sum (map (λ x, length (print x)) l))%nat.
    { apply need_sum. rewrite forallb_forall in Hwf. rewrite Forall_forall in *. intros x Hx.
      specialize (IH x Hx). rewrite list_elem_of_In in Hx. specialize (IH (Hwf _ Hx)). lia. }
    lia.
  - simpl in Hwf. bool_simp.
    change (2 + list_sum (map (λ kv, S (need kv.2 + S (S (String.length kv.1)))) m) + 1 ≤
      2 * length ("{"%char :: join [","%char] (map print_member m) ++ ["}"%char]))%nat.
    rewrite length_cons, length_app. cbn [length].
    pose proof (length_join [","%char] (map print_member m)) as Hj.
    rewrite map_map in Hj.
    assert (list_sum (map (λ kv, S (need kv.2 + S (S (String.length kv.1)))) m) ≤
      2 * list_sum (map (λ x, length (print_member x)) m))%nat.
    { apply need_sum. rewrite forallb_forall in H0. rewrite Forall_forall in *. intros [k x] Hx.
      specialize (IH _ Hx). rewrite list_elem_of_In in Hx. specialize (IH (H0 _ Hx)).
      unfold print_member. rewrite length_app. pose proof (length_print_string k). simpl in *. lia. }
    lia.
Qed.

#[export] Instance ref_json_laws : SerdeJsonLaws.
Proof.
  split.
  - intros s Hs. change (print_string s = quote :: as_bytes s ++ [quote]).
    unfold print_string. do 2 f_equal. unfold plain_string in Hs.
    induction (as_bytes s) as [|c l IH]; simpl in *; [done|]. bool_simp. rewrite IH by done.
    unfold plain_char in *. bool_simp. unfold escape_char. unfold between in *. bool_simp.
    rewrite !bool_decide_false by done. simpl. by rewrite (proj2 (Z.ltb_ge _ _)) by lia.
  - done.
  - done.
  - done.
  - done.
  - intros v Hwf _. change (parse_all (print v) = Some v). unfold parse_all.
    pose proof (need_print v Hwf). rewrite <- (app_nil_r (print v)) at 2.
    rewrite (parses_all v Hwf); [done | lia | done].
Qed.
