(* ===== verification/Aws.v ===== *)
(** * Cryptographic primitives: the interface of [aws-lc-rs]

    The repository calls [aws_lc_rs] for SHA-256, ECDSA P-256 and Ed25519
    verification and for random bytes.  That code is a parameter: the class [AwsLc].
    The only fact about it that the theorems use by default is the size of a SHA-256
    digest; the correctness of a signing key for the verification function is the
    separate hypothesis [signs_for], stated with the signer interface (file
    [Signer]). *)

From S2P Require Import Prelude.

Class AwsLc := {
  (** [digest::digest(&digest::SHA256, data)] *)
  sha256_digest : bytes → bytes;
  (** [UnparsedPublicKey::new(&ECDSA_P256_SHA256_FIXED, key).verify(message, sig)] *)
  p256_verify : bytes → bytes → bytes → bool;
  (** the same for [ED25519] *)
  ed25519_verify : bytes → bytes → bytes → bool;
  sha256_digest_length m : length (sha256_digest m) = 32%nat;
}.

(** [common::sha256] and [authenticator_proof::sha256]: the digest copied into a
    [[u8; 32]]. *)
Definition sha256 `{AwsLc} (data : bytes) : bytes := sha256_digest data.

Lemma len_sha256 `{AwsLc} m : len (sha256 m) = 32.
Proof. unfold len, sha256. by rewrite sha256_digest_length. Qed.
#[export] Hint Resolve len_sha256 : zs.

(** Two distinct messages with the same digest.  Some such messages exist, a digest being
    shorter than its messages: so the integrity theorems neither assume that there are none
    nor say that there are some, they name the two messages that would collide. *)
Definition sha256_collide `{AwsLc} (m1 m2 : bytes) : Prop := m1 ≠ m2 ∧ sha256 m1 = sha256 m2.

Lemma sha256_inj_or `{AwsLc} m1 m2 : sha256 m1 = sha256 m2 → m1 = m2 ∨ sha256_collide m1 m2.
Proof. intros Heq. destruct (decide (m1 = m2)); [by left | by right]. Qed.

(** A computable instance: the "digest" keeps the first bytes and folds the rest, and a
    signature is valid when it repeats the digest of the message after the key's first
    byte.  It only serves to evaluate the theorems at concrete inputs. *)
Definition fold_digest (m : bytes) : bytes :=
  to_be_bytes 32 (fold_left (λ acc b, (acc * 257 + u8_val b + 1) mod 2 ^ 256) m 0).

Definition ref_verify (key message sig : bytes) : bool :=
  bool_decide (sig = fold_digest message ++ take 32 (drop 1 key)).

#[export] Program Instance ref_aws : AwsLc := {|
  sha256_digest := fold_digest;
  p256_verify := ref_verify;
  ed25519_verify := ref_verify;
|}.
Next Obligation. intros m. apply length_to_be_bytes. Qed.
