(* ===== verification/Common.v ===== *)
(** * [crates/zs-crypto/src/common.rs]: validated texts and encodings

    The content validators shared by the signature suites, hexadecimal encoding and
    key identifiers.  A Rust newtype whose only constructor is [new] is a record that
    carries the proof that [new] accepted its text; [new] computes the test and
    returns the record or the [FieldError].  The JCS canonicalisation of the same
    file is in [Json]. *)

From S2P Require Import Prelude.
From S2P Require Import Json.
From S2P Require Import Aws.

Record FieldError := { field_name : string }.

(** ** Bounded printable ASCII *)

(** The test of [bounded_ascii_string!]: byte values, non-empty, bounded length. *)
Definition ascii_text_byte (b : u8) : bool :=
  between 32 (u8_val b) 126 && negb (u8_val b =? 34) && negb (u8_val b =? 92).

Definition bounded_ascii (max_len : Z) (value : string) : bool :=
  negb ((str_len value =? 0) || (max_len <? str_len value)) &&
  forallb ascii_text_byte (as_bytes value).

Record ascii_text (max_len : Z) := AsciiText {
  as_str : string;
  as_str_ok : bounded_ascii max_len as_str = true;
}.
Arguments AsciiText {max_len} _ _.
Arguments as_str {max_len} _.
Arguments as_str_ok {max_len} _.

Definition ascii_text_new (max_len : Z) (field : string) (value : string) :
    res (ascii_text max_len) FieldError :=
  match Sumbool.sumbool_of_bool (bounded_ascii max_len value) with
  | left H => Ok (AsciiText value H)
  | right _ => Err {| field_name := field |}
  end.

(** ** Timestamps: [AAAA-MM-JJThh:mm:ssZ] *)

Definition timestamp_fixed : list (nat * ascii) :=
  [(4%nat, "-"%char); (7%nat, "-"%char); (10%nat, "T"%char); (13%nat, ":"%char);
   (16%nat, ":"%char); (19%nat, "Z"%char)].

(** [matches!(i, 4 | 7 | ...) || b.is_ascii_digit()] over [iter().enumerate()]. *)
Fixpoint all_enum (f : nat → u8 → bool) (i : nat) (bs : bytes) : bool :=
  match bs with
  | [] => true
  | b :: bs' => f i b && all_enum f (S i) bs'
  end.

Definition is_byte_at (bs : bytes) (p : nat * ascii) : bool :=
  bool_decide (bs !! p.1 = Some p.2).

Definition timestamp_ok (value : string) : bool :=
  let bytes := as_bytes value in
  (len bytes =? 20) && forallb (is_byte_at bytes) timestamp_fixed &&
  all_enum (λ i b, bool_decide (i ∈ timestamp_fixed.*1) || is_ascii_digit b) 0 bytes.

Record Timestamp := MkTimestamp {
  ts_str : string;
  ts_ok : timestamp_ok ts_str = true;
}.

Definition Timestamp_new (value : string) : res Timestamp FieldError :=
  match Sumbool.sumbool_of_bool (timestamp_ok value) with
  | left H => Ok (MkTimestamp value H)
  | right _ => Err {| field_name := "timestamp" |}
  end.

(** ** UUIDs *)

Definition uuid_dashes : list nat := [8; 13; 18; 23]%nat.

Definition uuid_ok (require_v7 : bool) (value : string) : bool :=
  let bytes := as_bytes value in
  let dashes_ok := (len bytes =? 36) &&
    forallb (λ i, is_byte_at bytes (i, "-"%char)) uuid_dashes in
  let hex_ok := dashes_ok &&
    all_enum (λ i b, bool_decide (i ∈ uuid_dashes) || is_ascii_hexdigit b) 0 bytes in
  let version_ok := dashes_ok && (negb require_v7 || is_byte_at bytes (14%nat, "7"%char)) in
  hex_ok && version_ok.

Record uuid (require_v7 : bool) := MkUuid {
  uuid_str : string;
  uuid_str_ok : uuid_ok require_v7 uuid_str = true;
}.
Arguments MkUuid {require_v7} _ _.
Arguments uuid_str {require_v7} _.
Arguments uuid_str_ok {require_v7} _.

Definition uuid_new (require_v7 : bool) (field value : string) : res (uuid require_v7) FieldError :=
  match Sumbool.sumbool_of_bool (uuid_ok require_v7 value) with
  | left H => Ok (MkUuid value H)
  | right _ => Err {| field_name := field |}
  end.

Abbreviation EventId := (uuid true).
Abbreviation RequestId := (uuid false).
Definition EventId_new : string → res EventId FieldError := uuid_new true "event_id".
Definition RequestId_new : string → res RequestId FieldError :=
  uuid_new false "decision.request_id".

(** ** Hexadecimal *)

Definition hex_byte (b : u8) : bytes := [digit (u8_val b / 16); digit (u8_val b mod 16)].

Definition hex_encode (bs : bytes) : string := from_utf8_bytes (concat (map hex_byte bs)).

(** [char::to_digit(16)] *)
Definition hex_digit_value (c : u8) : option Z :=
  let n := u8_val c in
  if between 48 n 57 then Some (n - 48)
  else if between 97 n 102 then Some (n - 87)
  else if between 65 n 70 then Some (n - 55)
  else None.

(** [(0..s.len()).step_by(2)] with [u8::from_str_radix(&s[i..i + 2], 16).ok()] *)
Fixpoint hex_pairs (l : bytes) : option bytes :=
  match l with
  | h :: l1 :: l' =>
      x ← hex_digit_value h; y ← hex_digit_value l1;
      r ← hex_pairs l'; Some (u8_of (x * 16 + y) :: r)
  | [] => Some []
  | [_] => None
  end.

Definition hex_decode (s : string) : option bytes :=
  let l := as_bytes s in
  if negb (len l mod 2 =? 0) || negb (forallb is_ascii_hexdigit l) then None else hex_pairs l.

(** [key_id_from_public_key]: the first eight bytes of the digest, in hexadecimal. *)
Definition key_id_from_public_key `{AwsLc} (sec1_uncompressed : bytes) : string :=
  hex_encode (take 8 (sha256 sec1_uncompressed)).

(** ** Lemmas: the constructors accept exactly what their test accepts *)

Lemma ascii_text_new_Ok max field value a :
  ascii_text_new max field value = Ok a → as_str a = value.
Proof. unfold ascii_text_new. destruct Sumbool.sumbool_of_bool; intros; by simplify_eq. Qed.

Lemma ascii_text_new_accepts max field value :
  bounded_ascii max value = true →
  ∃ a, ascii_text_new max field value = Ok a ∧ as_str a = value.
Proof. unfold ascii_text_new. destruct Sumbool.sumbool_of_bool; [eauto | congruence]. Qed.

Lemma ascii_text_new_rejects max field value :
  bounded_ascii max value = false →
  ascii_text_new max field value = Err {| field_name := field |}.
Proof. unfold ascii_text_new. destruct Sumbool.sumbool_of_bool; [congruence | done]. Qed.

Lemma Timestamp_new_accepts value :
  timestamp_ok value = true → ∃ t, Timestamp_new value = Ok t ∧ ts_str t = value.
Proof. unfold Timestamp_new. destruct Sumbool.sumbool_of_bool; [eauto | congruence]. Qed.

Lemma Timestamp_new_rejects value :
  timestamp_ok value = false → Timestamp_new value = Err {| field_name := "timestamp" |}.
Proof. unfold Timestamp_new. destruct Sumbool.sumbool_of_bool; [congruence | done]. Qed.

Lemma Timestamp_new_Ok value t : Timestamp_new value = Ok t → ts_str t = value.
Proof. unfold Timestamp_new. destruct Sumbool.sumbool_of_bool; intros; by simplify_eq. Qed.

Lemma uuid_new_accepts v7 field value :
  uuid_ok v7 value = true → ∃ u, uuid_new v7 field value = Ok u ∧ uuid_str u = value.
Proof. unfold uuid_new. destruct Sumbool.sumbool_of_bool; [eauto | congruence]. Qed.

(** Two validated texts with the same bytes are the same value, so a constructor returns
    exactly the values whose text it was given. *)
Lemma ascii_text_eq max (a b : ascii_text max) : as_str a = as_str b → a = b.
Proof. destruct a as [s1 H1], b as [s2 H2]. simpl. intros ->. f_equal. apply (proof_irrel _). Qed.
Lemma uuid_eq v7 (a b : uuid v7) : uuid_str a = uuid_str b → a = b.
Proof. destruct a as [s1 H1], b as [s2 H2]. simpl. intros ->. f_equal. apply (proof_irrel _). Qed.
Lemma Timestamp_eq t1 t2 : ts_str t1 = ts_str t2 → t1 = t2.
Proof. destruct t1 as [s1 H1], t2 as [s2 H2]. simpl. intros ->. f_equal. apply (proof_irrel _). Qed.

Lemma ascii_text_new_iff max field s a : ascii_text_new max field s = Ok a ↔ as_str a = s.
Proof.
  unfold ascii_text_new. destruct (Sumbool.sumbool_of_bool (bounded_ascii max s)) as [Hok|Hno].
  - split; [by intros [= <-]|]. intros Ht. f_equal. by apply ascii_text_eq.
  - split; [done|]. intros <-. pose proof (as_str_ok a). congruence.
Qed.
Lemma uuid_new_iff v7 field s u : uuid_new v7 field s = Ok u ↔ uuid_str u = s.
Proof.
  unfold uuid_new. destruct (Sumbool.sumbool_of_bool (uuid_ok v7 s)) as [Hok|Hno].
  - split; [by intros [= <-]|]. intros Ht. f_equal. by apply uuid_eq.
  - split; [done|]. intros <-. pose proof (uuid_str_ok u). congruence.
Qed.
Lemma Timestamp_new_iff s t : Timestamp_new s = Ok t ↔ ts_str t = s.
Proof.
  unfold Timestamp_new. destruct (Sumbool.sumbool_of_bool (timestamp_ok s)) as [Hok|Hno].
  - split; [by intros [= <-]|]. intros Ht. f_equal. by apply Timestamp_eq.
  - split; [done|]. intros <-. pose proof (ts_ok t). congruence.
Qed.

(** No constructor panics. *)
Lemma ascii_text_new_no_panic max field value : ascii_text_new max field value ≠ Panic.
Proof. unfold ascii_text_new. by destruct Sumbool.sumbool_of_bool. Qed.
Lemma uuid_new_no_panic v7 field value : uuid_new v7 field value ≠ Panic.
Proof. unfold uuid_new. by destruct Sumbool.sumbool_of_bool. Qed.
Lemma Timestamp_new_no_panic value : Timestamp_new value ≠ Panic.
Proof. unfold Timestamp_new. by destruct Sumbool.sumbool_of_bool. Qed.

(** ** Lemmas: validated texts are never escaped by the serializer *)

Lemma ascii_text_byte_plain b : ascii_text_byte b = plain_char b.
Proof. by destruct b as [[][][][][][][][]]. Qed.

Lemma ascii_text_plain max (a : ascii_text max) : plain_string (as_str a) = true.
Proof.
  destruct a as [s Hs]. simpl. unfold bounded_ascii in Hs. bool_simp. unfold plain_string.
  rewrite forallb_forall in *. intros c Hc. rewrite <- ascii_text_byte_plain. auto.
Qed.

Lemma ascii_text_len max (a : ascii_text max) : 1 ≤ str_len (as_str a) ≤ max.
Proof.
  destruct a as [s Hs]. simpl. unfold bounded_ascii in Hs. bool_simp.
  pose proof (str_len_nonneg s). lia.
Qed.

Lemma all_enum_forallb f g i bs :
  (∀ j b, bs !! j = Some b → f (i + j)%nat b = true → g b = true) →
  all_enum f i bs = true → forallb g bs = true.
Proof.
  revert i. induction bs as [|b bs IH]; intros i Hfg H; simpl in *; [done|]. bool_simp.
  apply andb_true_iff. split.
  - apply (Hfg 0%nat b); [done|]. by rewrite Nat.add_0_r.
  - apply (IH (S i)); [|done]. intros j c Hj Hf. apply (Hfg (S j) c); [done|].
    by rewrite Nat.add_succ_r.
Qed.

Lemma digit_plain b : is_ascii_digit b = true → plain_char b = true.
Proof. by destruct b as [[][][][][][][][]]. Qed.
Lemma hexdigit_plain b : is_ascii_hexdigit b = true → plain_char b = true.
Proof. by destruct b as [[][][][][][][][]]. Qed.

(** Fixed positions of a format hold the listed characters. *)
Lemma fixed_plain l bs j b :
  forallb (is_byte_at bs) l = true → forallb (λ p, plain_char p.2) l = true →
  bs !! j = Some b → j ∈ l.*1 → plain_char b = true.
Proof.
  intros Hl Hp Hj (p & -> & Hin)%list_elem_of_fmap.
  rewrite forallb_forall in Hl, Hp. apply list_elem_of_In in Hin.
  specialize (Hl _ Hin). specialize (Hp _ Hin). unfold is_byte_at in Hl. bool_simp. congruence.
Qed.

Lemma timestamp_plain (t : Timestamp) : plain_string (ts_str t) = true.
Proof.
  destruct t as [s Hs]. simpl. unfold timestamp_ok in Hs. bool_simp. unfold plain_string.
  eapply all_enum_forallb; [|done]. intros j b Hj Hor. simpl in Hor.
  apply orb_true_iff in Hor as [Hfix|Hd]; [|by apply digit_plain].
  apply bool_decide_eq_true in Hfix. by eapply (fixed_plain timestamp_fixed).
Qed.

Lemma timestamp_len (t : Timestamp) : str_len (ts_str t) = 20.
Proof. destruct t as [s Hs]. simpl. unfold timestamp_ok in Hs. bool_simp. by rewrite <- len_as_bytes. Qed.

Lemma uuid_plain v7 (u : uuid v7) : plain_string (uuid_str u) = true.
Proof.
  destruct u as [s Hs]. simpl. unfold uuid_ok in Hs. bool_simp. unfold plain_string.
  eapply all_enum_forallb; [|done]. intros j b Hj Hor. simpl in Hor.
  apply orb_true_iff in Hor as [Hfix|Hd]; [|by apply hexdigit_plain].
  apply bool_decide_eq_true in Hfix.
  eapply (fixed_plain (map (λ i, (i, "-"%char)) uuid_dashes)); [|done|done|done].
  done.
Qed.

Lemma uuid_len v7 (u : uuid v7) : str_len (uuid_str u) = 36.
Proof. destruct u as [s Hs]. simpl. unfold uuid_ok in Hs. bool_simp. by rewrite <- len_as_bytes. Qed.

(** ** Lemmas: hexadecimal *)

Lemma hex_pairs_encode bs : hex_pairs (concat (map hex_byte bs)) = Some bs.
Proof.
  induction bs as [|b bs IH]; [done|]. simpl. rewrite IH.
  clear. by destruct b as [[][][][][][][][]].
Qed.

Lemma hex_bytes_hexdigit bs : forallb is_ascii_hexdigit (concat (map hex_byte bs)) = true.
Proof.
  induction bs as [|b bs IH]; [done|]. simpl. rewrite IH.
  clear. by destruct b as [[][][][][][][][]].
Qed.

Lemma len_hex_bytes bs : len (concat (map hex_byte bs)) = 2 * len bs.
Proof. induction bs as [|b bs IH]; [done|]. simpl. rewrite !len_cons, IH. lia. Qed.

Lemma str_len_hex_encode bs : str_len (hex_encode bs) = 2 * len bs.
Proof. unfold hex_encode. by rewrite <- len_as_bytes, as_bytes_of, len_hex_bytes. Qed.

(** [hex_decode] inverts [hex_encode]. *)
Lemma hex_decode_encode bs : hex_decode (hex_encode bs) = Some bs.
Proof.
  unfold hex_decode, hex_encode. rewrite as_bytes_of, len_hex_bytes, hex_bytes_hexdigit.
  rewrite Z.mul_comm, Z.mod_mul by lia. simpl. apply hex_pairs_encode.
Qed.

Lemma hex_encode_inj bs1 bs2 : hex_encode bs1 = hex_encode bs2 → bs1 = bs2.
Proof.
  intros H. assert (Some bs1 = Some bs2) as [= ?]; [|done].
  by rewrite <- !hex_decode_encode, H.
Qed.

Lemma hex_encode_plain bs : plain_string (hex_encode bs) = true.
Proof.
  unfold plain_string, hex_encode. rewrite as_bytes_of.
  pose proof (hex_bytes_hexdigit bs) as H. rewrite forallb_forall in *.
  intros c Hc. by apply hexdigit_plain, H.
Qed.

Lemma bounded_ascii_hex max bs :
  0 < len bs → 2 * len bs ≤ max → bounded_ascii max (hex_encode bs) = true.
Proof.
  intros Hpos Hmax. unfold bounded_ascii. rewrite str_len_hex_encode.
  rewrite (proj2 (Z.eqb_neq _ _)), (proj2 (Z.ltb_ge _ _)) by lia. simpl.
  pose proof (hex_encode_plain bs) as Hp. unfold plain_string in Hp. rewrite forallb_forall in *.
  intros b Hb. rewrite ascii_text_byte_plain. by apply Hp.
Qed.

Lemma hex_pairs_len l bs : hex_pairs l = Some bs → len l = 2 * len bs.
Proof.
  revert bs. induction l as [l IH] using (induction_ltof1 _ length). unfold ltof in IH.
  destruct l as [|h [|l1 l]]; intros bs; simpl; [by intros [= <-] | done |].
  destruct (hex_digit_value h); [|done]. destruct (hex_digit_value l1); [|done]. simpl.
  destruct (hex_pairs l) as [r|] eqn:Hr; [|done]. simpl. intros [= <-].
  rewrite !len_cons, (IH l) with (bs := r); [lia | simpl; lia | done].
Qed.

Lemma hex_decode_len s bs : hex_decode s = Some bs → str_len s = 2 * len bs.
Proof.
  unfold hex_decode. case_match; [done|]. intros Hp%hex_pairs_len. by rewrite <- len_as_bytes.
Qed.

Lemma len_key_id `{AwsLc} k : str_len (key_id_from_public_key k) = 16.
Proof.
  unfold key_id_from_public_key. rewrite str_len_hex_encode. unfold len.
  pose proof (len_sha256 k) as Hl. unfold len in Hl. rewrite length_take. lia.
Qed.

#[export] Hint Resolve ascii_text_plain timestamp_plain uuid_plain hex_encode_plain : zs.
