(* ===== verification/Signer.v ===== *)
(** * [crates/zs-hsm]: the signing interface ([signer.rs], [error.rs], [mechanism.rs])

    The trait [HsmSigner] is the class [HsmSigner]: the suites are proved against
    it, [SessionPool] (file [Pool]) is its implementation.  [signs_for] is what a
    client may assume of a key pair: the public key accepts every signature that
    the signer returns.  Signing is randomised and may fail at any call, so a signer
    is a state transformer and nothing is assumed about which signature comes out. *)

From S2P Require Import Prelude.
From S2P Require Import Aws.

Inductive SigningMechanism := EcdsaP256Sha256.

Inductive HsmError :=
| NotInitialized
| TokenAbsent
| SessionLost
| NotLoggedIn
| KeyNotFound (label : string)
| MechanismUnsupported (mechanism : SigningMechanism)
| PoolExhausted
| DeviceError.

#[export] Instance mechanism_eq_dec : EqDecision SigningMechanism.
Proof. solve_decision. Defined.
#[export] Instance hsm_error_eq_dec : EqDecision HsmError.
Proof. solve_decision. Defined.

Record KeyRef := { label : string }.
Record Signature := { sig_bytes : bytes }.
Record PublicKeyDer := { pk_bytes : bytes }.

(** [HsmConfig] of [pool.rs]; durations in nanoseconds. *)
Record HsmConfig := {
  module_path : string;
  slot_id : option Z;
  pin : string;
  pool_size : Z;
  acquire_timeout : Z;
}.

Class HsmSigner (P : Type) := {
  sign_digest : P → KeyRef → SigningMechanism → bytes → P * res Signature HsmError;
  public_key : P → KeyRef → P * res PublicKeyDer HsmError;
}.

(** Opening a signer from a configuration and the environment it runs in. *)
Class HsmOpen (W P : Type) := {
  pool_open : W → HsmConfig → res P HsmError;
}.

(** [key] of signer [P] corresponds to the SEC1 public key [pk]. *)
Definition signs_for {P} `{AwsLc, HsmSigner P} (key : KeyRef) (pk : bytes) : Prop :=
  ∀ p p' message sig,
    sign_digest p key EcdsaP256Sha256 (sha256 message) = (p', Ok sig) →
    len (sig_bytes sig) = 64 ∧ p256_verify pk message (sig_bytes sig) = true.

(** A software signer for the concrete inputs of the witnesses: the state counts the
    signatures made. *)
Definition ref_public_key (key : KeyRef) : bytes :=
  u8_of 4 :: fold_digest (as_bytes (label key)) ++ fold_digest [].

#[export] Instance ref_signer : HsmSigner nat := {|
  sign_digest n key _ digest :=
    (S n, Ok {| sig_bytes := digest ++ take 32 (drop 1 (ref_public_key key)) |});
  public_key n key := (n, Ok {| pk_bytes := ref_public_key key |});
|}.

Lemma ref_signs_for key : signs_for (P := nat) key (ref_public_key key).
Proof.
  intros n n' m sig [= <- <-]. split.
  - change (len (fold_digest m ++ take 32 (fold_digest (as_bytes (label key)) ++ fold_digest [])) = 64).
    rewrite len_app. unfold len. rewrite length_take, length_app. unfold fold_digest.
    rewrite !length_to_be_bytes. done.
  - change (ref_verify (ref_public_key key) m
      (fold_digest m ++ take 32 (drop 1 (ref_public_key key))) = true).
    by apply bool_decide_eq_true.
Qed.
