(* ===== verification/Suite.v ===== *)
(** * What the signature suites share

    [identity_assertion.rs], [audit_seal.rs] and [decision_seal.rs] each declare a
    [WireSignatureComponent], an [AcceptedVerifyingKey], the test of a SEC1 point, the
    signed message (domain prefix, a zero byte, canonical document) and the loop that
    checks every signature component without short-circuit.  The bodies are the same
    up to the suite name and the error type; they are stated once here, and each suite
    file instantiates them. *)

From S2P Require Import Prelude.
From S2P Require Import Json.
From S2P Require Import Serde.
From S2P Require Import Aws.
From S2P Require Import Common.

(** ** Wire signature components *)

Record WireSignatureComponent := {
  component : string;
  comp_key_id : string;
  comp_value : string;
}.

Definition de_component (v : value) : option WireSignatureComponent :=
  fields ← struct_fields ["component"; "key_id"; "value"] true v;
  match fields with
  | [f1; f2; f3] =>
      c ← required de_string f1; k ← required de_string f2; s ← required de_string f3;
      Some {| component := c; comp_key_id := k; comp_value := s |}
  | _ => None
  end.

(** [json!({"component": ..., "key_id": ..., "value": ...})] *)
Definition component_json (c : WireSignatureComponent) : value :=
  Object [("component", VString (component c)); ("key_id", VString (comp_key_id c));
          ("value", VString (comp_value c))].

(** ** Accepted keys *)

Record AcceptedVerifyingKey := { avk_key_id : string; avk_raw : bytes }.

(** [sec1.len() != 65 || sec1[0] != 0x04]: the index is only read when the length is
    65. *)
Definition sec1_malformed (raw : bytes) : bool :=
  negb (len raw =? 65) || negb (bool_decide (raw !! 0%nat = Some (u8_of 4))).

Definition accept_verifying_key_for {E} (suite_v1 : string) (unknown malformed : E)
    (suite key_id : string) (sec1_uncompressed : bytes) : res AcceptedVerifyingKey E :=
  guard! bool_decide (suite = suite_v1) else unknown in
  guard! negb (sec1_malformed sec1_uncompressed) else malformed in
  Ok {| avk_key_id := key_id; avk_raw := sec1_uncompressed |}.

(** [keys.iter().find(|k| k.key_id == id)] *)
Fixpoint find_key (keys : list AcceptedVerifyingKey) (id : string) : option AcceptedVerifyingKey :=
  match keys with
  | [] => None
  | k :: keys' => if bool_decide (avk_key_id k = id) then Some k else find_key keys' id
  end.

(** ** Arity *)

(** [sigs.len() != required.len() || zip(..).any(|(got, want)| got.component != want)] *)
Definition wrong_arity (comps : list WireSignatureComponent) (required : list string) : bool :=
  negb (len comps =? len required) ||
  existsb (λ p, negb (bool_decide (component p.1 = p.2))) (zip comps required).

(** ** Signed message *)

Definition signed_message_with `{SerdeJson} {E} (prefix : string)
    (unsigned : list (string * value)) : res bytes E :=
  let! doc := canonical_bytes (Object unsigned) in
  Ok (as_bytes prefix ++ [u8_of 0] ++ doc).

(** ** The verification loop *)

Section check.
Context `{AwsLc} {E : Type} (unknown_key bad_signature : E).

Fixpoint check_components (keys : list AcceptedVerifyingKey) (message : bytes)
    (comps : list WireSignatureComponent) (all_valid : bool) : res bool E :=
  match comps with
  | [] => Ok all_valid
  | c :: comps' =>
      let! key := ok_or (find_key keys (comp_key_id c)) unknown_key in
      let! sig := ok_or (hex_decode (comp_value c)) bad_signature in
      check_components keys message comps'
        (all_valid && p256_verify (avk_raw key) message sig)
  end.

(** A component whose key is known and whose value verifies. *)
Definition component_valid (keys : list AcceptedVerifyingKey) (message : bytes)
    (c : WireSignatureComponent) : Prop :=
  ∃ key sig, find_key keys (comp_key_id c) = Some key ∧
    hex_decode (comp_value c) = Some sig ∧ p256_verify (avk_raw key) message sig = true.

(** The loop returns [true] exactly when every component is valid. *)
Lemma check_components_true keys message comps b :
  check_components keys message comps b = Ok true ↔
  b = true ∧ Forall (component_valid keys message) comps.
Proof.
  revert b. induction comps as [|c comps IH]; intros b; simpl.
  - split; [intros [= ->]; auto | by intros [-> _]].
  - rewrite Forall_cons.
    destruct (find_key keys (comp_key_id c)) as [k|] eqn:Hk; simpl;
      [destruct (hex_decode (comp_value c)) as [s|] eqn:Hs; simpl|].
    + assert (component_valid keys message c ↔ p256_verify (avk_raw k) message s = true) as ->.
      { unfold component_valid. rewrite Hk, Hs. naive_solver. }
      rewrite IH, andb_true_iff. tauto.
    + split; [done | intros (_ & (?&?&?&?&?) & _); congruence].
    + split; [done | intros (_ & (?&?&?&?&?) & _); congruence].
Qed.

Lemma check_components_no_panic keys message comps b :
  check_components keys message comps b ≠ Panic.
Proof.
  revert b. induction comps as [|c comps IH]; intros b; simpl; [done|].
  destruct (find_key _ _); simpl; [|done]. destruct (hex_decode _); simpl; [apply IH | done].
Qed.
End check.

(** ** Lemmas *)

Lemma find_key_id keys id k : find_key keys id = Some k → avk_key_id k = id ∧ k ∈ keys.
Proof.
  induction keys as [|k' keys IH]; simpl; [done|]. case_bool_decide; intros ?; simplify_eq.
  - split; [done | left].
  - destruct IH; [done|]. split; [done | by right].
Qed.

Lemma find_key_head k keys : find_key (k :: keys) (avk_key_id k) = Some k.
Proof. simpl. by rewrite bool_decide_true. Qed.

Lemma de_component_json c : de_component (component_json c) = Some c.
Proof. by destruct c. Qed.

Lemma wrong_arity_one c want : wrong_arity [c] [want] = false ↔ component c = want.
Proof.
  unfold wrong_arity. simpl. rewrite orb_false_r. 
  destruct (decide (component c = want)) as [->|Hne].
  - rewrite bool_decide_true by done. done.
  - rewrite bool_decide_false by done. done.
Qed.

(** An accepted arity against a single required component: one component, that name. *)
Lemma wrong_arity_single comps want :
  wrong_arity comps [want] = false → ∃ c, comps = [c] ∧ component c = want.
Proof.
  destruct comps as [|c [|c' comps]]; intros Ha.
  - discriminate Ha.
  - exists c. split; [done|]. by apply wrong_arity_one.
  - exfalso. unfold wrong_arity in Ha. apply orb_false_iff in Ha as [Ha _].
    bool_simp. rewrite !len_cons in Ha. pose proof (len_nonneg comps).
    change (len []) with 0 in Ha. lia.
Qed.

(** The three members of a component are already in key order. *)
Lemma canon_component_json c : canon (component_json c) = component_json c.
Proof. by destruct c. Qed.

Lemma canon_components comps :
  canon (Array (map component_json comps)) = Array (map component_json comps).
Proof.
  simpl. f_equal. rewrite map_map. apply map_ext, canon_component_json.
Qed.

Lemma sortable_components comps : sortable (Array (map component_json comps)) = true.
Proof. induction comps as [|c comps IH]; [done|]. exact IH. Qed.
Lemma wf_components comps : wf_value (Array (map component_json comps)) = true.
Proof. induction comps as [|c comps IH]; [done|]. exact IH. Qed.
Lemma depth_components comps : (depth (Array (map component_json comps)) ≤ 2)%nat.
Proof.
  simpl. apply le_n_S. induction comps as [|c comps IH]; simpl; [lia|].
  apply Nat.max_lub; [lia | exact IH].
Qed.

Lemma de_components comps :
  de_vec de_component (Array (map component_json comps)) = Some comps.
Proof. apply mapM_fmap_Some, de_component_json. Qed.

(** The canonical bytes of the document that [comps] close. *)
Lemma len_component_json `{SerdeJsonLaws} c :
  plain_string (component c) = true → plain_string (comp_key_id c) = true →
  plain_string (comp_value c) = true →
  len (to_vec (Array (map component_json [c]))) =
  41 + str_len (component c) + str_len (comp_key_id c) + str_len (comp_value c).
Proof.
  intros Hc Hk Hv. rewrite to_vec_array. simpl. rewrite len_cons, len_app.
  unfold component_json. rewrite len_to_vec_object by done. simpl.
  rewrite !len_member_plain, !len_to_vec_plain by (done || apply Hc).
  change (str_len "component") with 9. change (str_len "key_id") with 6.
  change (str_len "value") with 5. change (len [("component", VString (component c));
    ("key_id", VString (comp_key_id c)); ("value", VString (comp_value c))]) with 3.
  change (len ["]"%char]) with 1. lia.
Qed.

(** Messages of the same suite are equal only when the documents are. *)
Lemma signed_message_with_inj `{SerdeJsonLaws} {E} prefix m1 m2 :
  sortable (Object m1) = true → sortable (Object m2) = true →
  signed_message_with (E := E) prefix m1 = signed_message_with prefix m2 →
  to_vec (canon (Object m1)) = to_vec (canon (Object m2)).
Proof.
  intros H1 H2. unfold signed_message_with. rewrite !canonical_bytes_canon by done. simpl.
  intros [= Heq]. apply app_inv_head in Heq. by injection Heq.
Qed.

(** A zero byte closes the prefix: messages of suites whose names hold no zero byte
    differ whatever the documents. *)
Lemma domain_separation p1 p2 (d1 d2 : bytes) :
  (u8_of 0) ∉ p1 → (u8_of 0) ∉ p2 → p1 ++ [u8_of 0] ++ d1 = p2 ++ [u8_of 0] ++ d2 → p1 = p2.
Proof.
  revert p2. induction p1 as [|a p1 IH]; intros [|b p2]; simpl.
  - done.
  - intros _ Hn [= <- _]. set_solver.
  - intros Hn _ [= -> _]. set_solver.
  - rewrite !not_elem_of_cons. intros [_ H1] [_ H2] [= -> Heq]. f_equal. by apply IH.
Qed.

#[export] Hint Resolve sortable_components wf_components : zs.
