(* ===== verification/IdentityAssertion.v ===== *)
(** * [crates/zs-crypto/src/identity_assertion.rs]: suite [identity-assertion/v1]

    Sealing of verified authentication claims and verification of a sealed
    assertion: the JSON documents, the signed message, [AssertionSealer] and
    [verify] with its checks in the order of the code. *)

From S2P Require Import Prelude.
From S2P Require Import Json.
From S2P Require Import Serde.
From S2P Require Import JsonCodec.
From S2P Require Import Aws.
From S2P Require Import Signer.
From S2P Require Import Common.
From S2P Require Import Suite.

Definition SUITE_V1 : string := "identity-assertion/v1".
Definition DOMAIN_PREFIX : string := "zero-secret/identity-assertion/v1".
Definition MAX_BYTES : Z := 4096.
Definition REQUIRED_COMPONENTS_V1 : list string := ["ecdsa-p256"].

(** ** Claims *)

Inductive AssuranceLevel := Aal1 | Aal2 | Aal3.

Definition aal_as_str (l : AssuranceLevel) : string :=
  match l with Aal1 => "AAL1" | Aal2 => "AAL2" | Aal3 => "AAL3" end.

Abbreviation SubjectId := (ascii_text 256).
Abbreviation AuthMethod := (ascii_text 64).
Abbreviation Audience := (ascii_text 256).
Definition SubjectId_new : string → res SubjectId FieldError := ascii_text_new 256 "subject_id".
Definition AuthMethod_new : string → res AuthMethod FieldError := ascii_text_new 64 "auth_method".
Definition Audience_new : string → res Audience FieldError := ascii_text_new 256 "audience".

Record AssertionClaims := {
  authority_domain : string;
  subject_id : SubjectId;
  aal : AssuranceLevel;
  auth_method : AuthMethod;
  audience : Audience;
  issued_at : Timestamp;
  expires_at : Timestamp;
  audit_event_id : EventId;
}.

Inductive SealError :=
| InvalidClaims (field : string)
| SealingUnavailable.

(** [impl From<FieldError> for SealError] *)
Definition from_FieldError (e : FieldError) : SealError := InvalidClaims (field_name e).

(** [opaque]: no cause of an HSM failure reaches the caller. *)
Definition opaque (e : HsmError) : SealError := SealingUnavailable.

(** ** Documents *)

Definition unsigned_document (claims : AssertionClaims) : list (string * value) :=
  let map := [] in
  let map := map_insert "schema_version" (jint 1) map in
  let map := map_insert "suite" (VString SUITE_V1) map in
  let map := map_insert "authority_domain" (VString (authority_domain claims)) map in
  let map := map_insert "subject_id" (VString (as_str (subject_id claims))) map in
  let map := map_insert "aal" (VString (aal_as_str (aal claims))) map in
  let map := map_insert "auth_method" (VString (as_str (auth_method claims))) map in
  let map := map_insert "audience" (VString (as_str (audience claims))) map in
  let map := map_insert "issued_at" (VString (ts_str (issued_at claims))) map in
  let map := map_insert "expires_at" (VString (ts_str (expires_at claims))) map in
  map_insert "audit_event_id" (VString (uuid_str (audit_event_id claims))) map.

Record WireDocument := {
  w_schema_version : Z;
  w_suite : string;
  w_authority_domain : string;
  w_subject_id : string;
  w_aal : string;
  w_auth_method : string;
  w_audience : string;
  w_issued_at : string;
  w_expires_at : string;
  w_audit_event_id : string;
  w_signatures : list WireSignatureComponent;
}.

Definition wire_names : list string :=
  ["schema_version"; "suite"; "authority_domain"; "subject_id"; "aal"; "auth_method";
   "audience"; "issued_at"; "expires_at"; "audit_event_id"; "signatures"].

(** The generated [Deserialize] of [WireDocument], [deny_unknown_fields]. *)
Definition de_WireDocument (v : value) : option WireDocument :=
  fields ← struct_fields wire_names true v;
  match fields with
  | [f1; f2; f3; f4; f5; f6; f7; f8; f9; f10; f11] =>
      v1 ← required de_u32 f1; v2 ← required de_string f2; v3 ← required de_string f3;
      v4 ← required de_string f4; v5 ← required de_string f5; v6 ← required de_string f6;
      v7 ← required de_string f7; v8 ← required de_string f8; v9 ← required de_string f9;
      v10 ← required de_string f10; v11 ← required (de_vec de_component) f11;
      Some {| w_schema_version := v1; w_suite := v2; w_authority_domain := v3;
              w_subject_id := v4; w_aal := v5; w_auth_method := v6; w_audience := v7;
              w_issued_at := v8; w_expires_at := v9; w_audit_event_id := v10;
              w_signatures := v11 |}
  | _ => None
  end.

Definition unsigned_document_from_wire (doc : WireDocument) : list (string * value) :=
  let map := [] in
  let map := map_insert "schema_version" (jint (w_schema_version doc)) map in
  let map := map_insert "suite" (VString (w_suite doc)) map in
  let map := map_insert "authority_domain" (VString (w_authority_domain doc)) map in
  let map := map_insert "subject_id" (VString (w_subject_id doc)) map in
  let map := map_insert "aal" (VString (w_aal doc)) map in
  let map := map_insert "auth_method" (VString (w_auth_method doc)) map in
  let map := map_insert "audience" (VString (w_audience doc)) map in
  let map := map_insert "issued_at" (VString (w_issued_at doc)) map in
  let map := map_insert "expires_at" (VString (w_expires_at doc)) map in
  map_insert "audit_event_id" (VString (w_audit_event_id doc)) map.

Definition signed_message `{SerdeJson} {E} (unsigned : list (string * value)) : res bytes E :=
  signed_message_with DOMAIN_PREFIX unsigned.

(** ** Sealing *)

Record HsmSettings := {
  hs_module_path : string;
  hs_slot_id : option Z;
  hs_pin : string;
  hs_pool_size : Z;
  hs_acquire_timeout : Z;
  hs_key_label : string;
}.

Record AssertionSealer (P : Type) := {
  pool : P;
  key : KeyRef;
  key_id : string;
}.
Arguments pool {P} _. Arguments key {P} _. Arguments key_id {P} _.

Record SealedAssertion := { bytes_of : bytes }.

Section seal.
Context `{SerdeJson, AwsLc} {W P : Type} `{HsmOpen W P, HsmSigner P}.

(** [AssertionSealer::open] *)
Definition open (w : W) (settings : HsmSettings) : res (AssertionSealer P) SealError :=
  let key := {| label := hs_key_label settings |} in
  let! pool := map_err opaque (pool_open w {|
    module_path := hs_module_path settings; slot_id := hs_slot_id settings;
    pin := hs_pin settings; pool_size := hs_pool_size settings;
    acquire_timeout := hs_acquire_timeout settings |}) in
  let '(pool, r) := public_key pool key in
  let! public_key := map_err opaque r in
  Ok {| pool := pool; key := key; key_id := key_id_from_public_key (pk_bytes public_key) |}.

(** The document with its single signature. *)
Definition signed_document (unsigned : list (string * value)) (kid sig : string) :
    list (string * value) :=
  map_insert "signatures" (Array [component_json
    {| component := "ecdsa-p256"; comp_key_id := kid; comp_value := sig |}]) unsigned.

(** [AssertionSealer::seal]: one call to the signer, never retried. *)
Definition seal (self : AssertionSealer P) (claims : AssertionClaims) :
    P * res SealedAssertion SealError :=
  let unsigned := unsigned_document claims in
  match signed_message unsigned with
  | Ok message =>
      let digest := sha256 message in
      let '(p, r) := sign_digest (pool self) (key self) EcdsaP256Sha256 digest in
      (p,
        let! signature := map_err opaque r in
        let document := signed_document unsigned (key_id self) (hex_encode (sig_bytes signature)) in
        let! bs := canonical_bytes (Object document) in
        Ok {| bytes_of := bs |})
  | Err e => (pool self, Err e)
  | Panic => (pool self, Panic)
  end.

(** [SealedAssertion::as_bytes], [SealedAssertion::digest], [SealedAssertion::suite] *)
Definition sealed_as_bytes (s : SealedAssertion) : bytes := bytes_of s.
Definition digest (s : SealedAssertion) : bytes := sha256 (bytes_of s).
Definition suite (s : SealedAssertion) : string := SUITE_V1.
End seal.

(** ** Verification *)

Inductive VerifyError :=
| UnknownSuite
| MalformedKey
| TooLarge
| MalformedDocument
| NonCanonical
| InvalidSignatureArity
| UnknownKeyId
| InvalidSignature
| UnexpectedAuthorityDomain
| NotYetValidOrExpired.

Definition accept_verifying_key :
    string → string → bytes → res AcceptedVerifyingKey VerifyError :=
  accept_verifying_key_for SUITE_V1 UnknownSuite MalformedKey.

Record AcceptancePolicy := {
  accepted_suites : list string;
  now : Timestamp;
  expected_authority_domain : string;
}.

Record VerifiedAssertion := {
  va_subject_id : string;
  va_aal : string;
  va_auth_method : string;
  va_audience : string;
  va_issued_at : string;
  va_expires_at : string;
  va_audit_event_id : string;
}.

Definition required_components (suite : string) : res (list string) VerifyError :=
  if bool_decide (suite = SUITE_V1) then Ok REQUIRED_COMPONENTS_V1 else Err UnknownSuite.

Definition full_document (doc : WireDocument) : list (string * value) :=
  map_insert "signatures" (Array (map component_json (w_signatures doc)))
    (unsigned_document_from_wire doc).

Definition verified_of (doc : WireDocument) : VerifiedAssertion := {|
  va_subject_id := w_subject_id doc;
  va_aal := w_aal doc;
  va_auth_method := w_auth_method doc;
  va_audience := w_audience doc;
  va_issued_at := w_issued_at doc;
  va_expires_at := w_expires_at doc;
  va_audit_event_id := w_audit_event_id doc;
|}.

Section verify.
Context `{SerdeJson, AwsLc}.

Definition verify (keys : list AcceptedVerifyingKey) (bs : bytes) (policy : AcceptancePolicy) :
    res VerifiedAssertion VerifyError :=
  guard! len bs <=? MAX_BYTES else TooLarge in
  let! doc := ok_or (from_slice bs ≫= de_WireDocument) MalformedDocument in
  guard! w_schema_version doc =? 1 else MalformedDocument in
  guard! bool_decide (w_suite doc ∈ accepted_suites policy) else UnknownSuite in
  let! required := required_components (w_suite doc) in
  guard! negb (wrong_arity (w_signatures doc) required) else InvalidSignatureArity in
  let unsigned := unsigned_document_from_wire doc in
  let! canonical := canonical_bytes (Object (full_document doc)) in
  guard! bool_decide (canonical = bs) else NonCanonical in
  let! message := signed_message unsigned in
  let! all_valid := check_components UnknownKeyId InvalidSignature keys message
                      (w_signatures doc) true in
  guard! all_valid else InvalidSignature in
  guard! bool_decide (w_authority_domain doc = expected_authority_domain policy)
    else UnexpectedAuthorityDomain in
  guard! String.leb (w_issued_at doc) (ts_str (now policy)) &&
         String.ltb (ts_str (now policy)) (w_expires_at doc)
    else NotYetValidOrExpired in
  Ok (verified_of doc).
End verify.

(** ** Lemmas: the documents *)

(** The document without its signatures, member by member. *)
Lemma unsigned_from_wire_members doc :
  unsigned_document_from_wire doc =
  [("schema_version", jint (w_schema_version doc)); ("suite", VString (w_suite doc));
   ("authority_domain", VString (w_authority_domain doc));
   ("subject_id", VString (w_subject_id doc)); ("aal", VString (w_aal doc));
   ("auth_method", VString (w_auth_method doc)); ("audience", VString (w_audience doc));
   ("issued_at", VString (w_issued_at doc)); ("expires_at", VString (w_expires_at doc));
   ("audit_event_id", VString (w_audit_event_id doc))].
Proof. reflexivity. Qed.

Lemma full_document_members doc :
  full_document doc = unsigned_document_from_wire doc ++
    [("signatures", Array (map component_json (w_signatures doc)))].
Proof. reflexivity. Qed.

Lemma unsigned_sortable doc : sortable (Object (unsigned_document_from_wire doc)) = true.
Proof. rewrite unsigned_from_wire_members. solve_sortable. Qed.
Lemma full_document_sortable doc : sortable (Object (full_document doc)) = true.
Proof. rewrite full_document_members, unsigned_from_wire_members. simpl app. solve_sortable. Qed.

Lemma full_document_wf doc :
  0 ≤ w_schema_version doc ≤ u32_max → wf_value (Object (full_document doc)) = true.
Proof.
  intros Hv. rewrite full_document_members, unsigned_from_wire_members. simpl app.
  apply wf_Object; [solve_keys|].
  solve_members ltac:(apply wf_components || (apply wf_jint; unfold i64_min, u32_max, u64_max in *; lia)).
Qed.
Lemma full_document_depth doc : (depth (Object (full_document doc)) ≤ 127)%nat.
Proof.
  rewrite full_document_members, unsigned_from_wire_members. simpl app.
  etrans; [apply (depth_Object 2) | lia].
  solve_members ltac:(apply depth_components || (rewrite ?depth_jint; simpl; lia)).
Qed.

(** Reading back a canonical full document gives its fields. *)
Lemma de_full_document doc :
  0 ≤ w_schema_version doc ≤ u32_max →
  de_WireDocument (canon (Object (full_document doc))) = Some doc.
Proof.
  intros Hv. unfold de_WireDocument.
  rewrite full_document_members, unsigned_from_wire_members. simpl app.
  rewrite struct_fields_canon; [|solve_keys|solve_keys].
  set (sigs := Array (map component_json (w_signatures doc))).
  cbv -[canon jint sigs w_schema_version de_u32 de_string de_vec].
  rewrite canon_jint. unfold sigs. rewrite canon_components, de_components, de_u32_jint by done.
  by destruct doc.
Qed.

(** ** Specification of [verify] *)

Section spec.
Context `{SerdeJsonLaws, AwsLc}.

(** The bytes that the signature of a document covers. *)
Definition message_of (doc : WireDocument) : bytes :=
  as_bytes DOMAIN_PREFIX ++ [u8_of 0] ++
  to_vec (canon (Object (unsigned_document_from_wire doc))).

(** What an accepted document satisfies, without any order of checks. *)
Record accepted (keys : list AcceptedVerifyingKey) (bs : bytes) (policy : AcceptancePolicy)
    (doc : WireDocument) : Prop := {
  acc_size : len bs ≤ MAX_BYTES;
  acc_parsed : from_slice bs ≫= de_WireDocument = Some doc;
  acc_schema : w_schema_version doc = 1;
  acc_suite : w_suite doc = SUITE_V1 ∧ SUITE_V1 ∈ accepted_suites policy;
  acc_canonical : bs = to_vec (canon (Object (full_document doc)));
  acc_signature : ∃ c, w_signatures doc = [c] ∧ component c = "ecdsa-p256" ∧
    component_valid keys (message_of doc) c;
  acc_domain : w_authority_domain doc = expected_authority_domain policy;
  acc_window : String.leb (w_issued_at doc) (ts_str (now policy)) = true ∧
    String.ltb (ts_str (now policy)) (w_expires_at doc) = true;
}.

Lemma signed_message_of {E} doc :
  signed_message (E := E) (unsigned_document_from_wire doc) = Ok (message_of doc).
Proof.
  unfold signed_message, signed_message_with. rewrite canonical_bytes_canon; [done|].
  apply unsigned_sortable.
Qed.

Lemma verify_sound keys bs policy va :
  verify keys bs policy = Ok va → ∃ doc, accepted keys bs policy doc ∧ va = verified_of doc.
Proof.
  unfold verify. destruct (len bs <=? MAX_BYTES) eqn:Hsz; [|done].
  destruct (from_slice bs ≫= de_WireDocument) as [doc|] eqn:Hp; simpl; [|done].
  destruct (w_schema_version doc =? 1) eqn:Hsv; [|done].
  case_bool_decide as Hsu; [|done]. unfold required_components.
  case_bool_decide as Hs1; [|done]. simpl.
  destruct (wrong_arity _ _) eqn:Har; [done|]. simpl.
  rewrite canonical_bytes_canon by apply full_document_sortable. simpl.
  case_bool_decide as Hcan; [|done]. rewrite signed_message_of. simpl.
  destruct (check_components _ _ _ _ _ _) as [[]| |] eqn:Hck; simpl; try done.
  case_bool_decide as Hdom; [|done].
  destruct (String.leb _ _ && String.ltb _ _) eqn:Hw; [|done].
  intros [= <-]. exists doc. split; [|done]. bool_simp.
  apply check_components_true in Hck as [_ Hall].
  apply wrong_arity_single in Har as (c & Hc & Hcn).
  constructor; try done; [by rewrite <- Hs1 | ].
  exists c. rewrite Hc in Hall. split_and!; [done|done|]. by inversion Hall.
Qed.

Lemma verify_complete keys bs policy doc :
  accepted keys bs policy doc → verify keys bs policy = Ok (verified_of doc).
Proof.
  intros [Hsz Hp Hsv [Hs1 Hsu] Hcan (c & Hc & Hcn & Hval) Hdom [Hw1 Hw2]]. unfold verify.
  rewrite (proj2 (Z.leb_le _ _)), Hp by done. simpl. rewrite Hsv. simpl.
  rewrite Hs1, bool_decide_true by done. unfold required_components.
  rewrite bool_decide_true by done. cbn [res_bind]. unfold REQUIRED_COMPONENTS_V1.
  rewrite Hc, (proj2 (wrong_arity_one c _)) by done. simpl.
  rewrite canonical_bytes_canon by apply full_document_sortable. simpl.
  rewrite bool_decide_true by done. rewrite signed_message_of. simpl.
  destruct Hval as (k & s & Hk & Hs & Hv). rewrite Hk, Hs. simpl. rewrite Hv. simpl.
  rewrite bool_decide_true by done. by rewrite Hw1, Hw2.
Qed.

Lemma verify_never_panics keys bs policy : verify keys bs policy ≠ Panic.
Proof.
  unfold verify. destruct (len bs <=? MAX_BYTES); [|done].
  destruct (from_slice bs ≫= de_WireDocument) as [doc|]; simpl; [|done].
  destruct (w_schema_version doc =? 1); [|done].
  case_bool_decide; [|done]. unfold required_components. case_bool_decide; [|done]. simpl.
  destruct (wrong_arity _ _); [done|]. simpl.
  rewrite canonical_bytes_canon by apply full_document_sortable. simpl.
  case_bool_decide; [|done]. rewrite signed_message_of. simpl.
  destruct (check_components _ _ _ _ _ _) as [[]| |] eqn:Hck; simpl; try done.
  - case_bool_decide; [|done]. by destruct (String.leb _ _ && String.ltb _ _).
  - by apply check_components_no_panic in Hck.
Qed.
End spec.

(** ** Sealing, and what it gives to the verifier *)

(** The wire form of sealed claims. *)
Definition wire_of (claims : AssertionClaims) (kid sig : string) : WireDocument := {|
  w_schema_version := 1; w_suite := SUITE_V1;
  w_authority_domain := authority_domain claims; w_subject_id := as_str (subject_id claims);
  w_aal := aal_as_str (aal claims); w_auth_method := as_str (auth_method claims);
  w_audience := as_str (audience claims); w_issued_at := ts_str (issued_at claims);
  w_expires_at := ts_str (expires_at claims);
  w_audit_event_id := uuid_str (audit_event_id claims);
  w_signatures := [{| component := "ecdsa-p256"; comp_key_id := kid; comp_value := sig |}] |}.

(** What the verifier returns for claims sealed by their issuer. *)
Definition verified_claims (c : AssertionClaims) : VerifiedAssertion := {|
  va_subject_id := as_str (subject_id c); va_aal := aal_as_str (aal c);
  va_auth_method := as_str (auth_method c); va_audience := as_str (audience c);
  va_issued_at := ts_str (issued_at c); va_expires_at := ts_str (expires_at c);
  va_audit_event_id := uuid_str (audit_event_id c) |}.

(** The bytes that sealing signs: suite prefix, zero byte, canonical unsigned document. *)
Definition claims_message `{SerdeJson} (c : AssertionClaims) : bytes :=
  as_bytes DOMAIN_PREFIX ++ [u8_of 0] ++ to_vec (canon (Object (unsigned_document c))).

(** The decision of the verifier on a genuine assertion: suite, domain, window. *)
Definition policy_decision (policy : AcceptancePolicy) (c : AssertionClaims) :
    res VerifiedAssertion VerifyError :=
  if negb (bool_decide (SUITE_V1 ∈ accepted_suites policy)) then Err UnknownSuite
  else if negb (bool_decide (authority_domain c = expected_authority_domain policy))
  then Err UnexpectedAuthorityDomain
  else if String.leb (ts_str (issued_at c)) (ts_str (now policy)) &&
          String.ltb (ts_str (now policy)) (ts_str (expires_at c))
  then Ok (verified_claims c) else Err NotYetValidOrExpired.

Lemma aal_plain l : plain_string (aal_as_str l) = true ∧ str_len (aal_as_str l) = 4.
Proof. by destruct l. Qed.

Section roundtrip.
Context `{SerdeJsonLaws, AwsLc} {P : Type} `{HsmSigner P}.

(** Size of a sealed document whose texts need no escape. *)
Lemma len_full_document c kid sig :
  plain_string (authority_domain c) = true → plain_string kid = true →
  plain_string sig = true →
  len (to_vec (canon (Object (full_document (wire_of c kid sig))))) =
  326 + str_len (authority_domain c) + str_len (as_str (subject_id c)) +
  str_len (as_str (auth_method c)) + str_len (as_str (audience c)) +
  str_len kid + str_len sig.
Proof.
  intros Hd Hk Hs. rewrite full_document_members, unsigned_from_wire_members. simpl app.
  rewrite len_to_vec_canon by done.
  cbn [map sum_len fst snd w_schema_version w_suite w_authority_domain w_subject_id w_aal
    w_auth_method w_audience w_issued_at w_expires_at w_audit_event_id w_signatures wire_of].
  rewrite !len_member_plain by done. rewrite canon_jint.
  change (canon (Array ?l)) with (canon (Array (map component_json [
    {| component := "ecdsa-p256"; comp_key_id := kid; comp_value := sig |}]))).
  rewrite canon_components, len_component_json by done.
  change (to_vec (jint 1)) with (to_vec (Number (PosInt 1))). rewrite to_vec_posint by done.
  cbn [canon]. destruct (aal_plain (aal c)) as [Ha1 Ha2].
  rewrite !len_to_vec_plain by auto with zs.
  rewrite Ha2, !timestamp_len, uuid_len. cbn [component comp_key_id comp_value].
  change (len (fmt_nat 1)) with 1. unfold str_len, len. cbn [String.length length].
  simpl. lia.
Qed.

(** Sealing calls the signer once, on the digest of the message; on success the bytes
    are the canonical full document with the hexadecimal signature. *)
Lemma seal_eq (self : AssertionSealer P) c :
  seal self c =
  let '(p, r) := sign_digest (pool self) (key self) EcdsaP256Sha256 (sha256 (claims_message c)) in
  (p, match r with
      | Ok s => Ok {| bytes_of := to_vec (canon (Object (full_document
                        (wire_of c (key_id self) (hex_encode (sig_bytes s)))))) |}
      | Err _ => Err SealingUnavailable
      | Panic => Panic
      end).
Proof.
  unfold seal. change (unsigned_document c)
    with (unsigned_document_from_wire (wire_of c "" "")).
  rewrite signed_message_of.
  change (message_of (wire_of c "" "")) with (claims_message c).
  destruct (sign_digest _ _ _ _) as [p [s|e|]]; [|done|done]. cbn [map_err res_bind].
  change (signed_document _ _ _) with (full_document
    (wire_of c (key_id self) (hex_encode (sig_bytes s)))).
  by rewrite canonical_bytes_canon by apply full_document_sortable.
Qed.

Lemma sealed_size c kid (sig : Signature) :
  plain_string (authority_domain c) = true → str_len (authority_domain c) ≤ 3050 →
  plain_string kid = true → str_len kid ≤ 16 → len (sig_bytes sig) = 64 →
  len (to_vec (canon (Object (full_document (wire_of c kid (hex_encode (sig_bytes sig)))))))
    ≤ MAX_BYTES.
Proof.
  intros Hp Hl Hk Hkl Hs. rewrite len_full_document by auto with zs.
  rewrite str_len_hex_encode. unfold MAX_BYTES.
  pose proof (ascii_text_len _ (subject_id c)). pose proof (ascii_text_len _ (auth_method c)).
  pose proof (ascii_text_len _ (audience c)). lia.
Qed.

(** The verifier's decision on a well-signed document of bounded size. *)
Lemma verify_genuine c k sig keys policy :
  let doc := wire_of c (avk_key_id k) (hex_encode sig) in
  len (to_vec (canon (Object (full_document doc)))) ≤ MAX_BYTES →
  find_key keys (avk_key_id k) = Some k →
  p256_verify (avk_raw k) (claims_message c) sig = true →
  verify keys (to_vec (canon (Object (full_document doc)))) policy = policy_decision policy c.
Proof.
  intros doc Hsz Hk Hv.
  assert (0 ≤ w_schema_version doc ≤ u32_max) as Hsv by (change (0 ≤ 1 ≤ u32_max); by cbv).
  assert (from_slice (to_vec (canon (Object (full_document doc)))) ≫= de_WireDocument
          = Some doc) as Hp.
  { rewrite from_slice_to_vec.
    - apply (de_full_document doc Hsv).
    - apply wf_canon, (full_document_wf doc Hsv).
    - rewrite depth_canon. apply full_document_depth. }
  unfold verify. rewrite (proj2 (Z.leb_le _ _)), Hp by done. cbn [ok_or res_bind].
  change (w_schema_version doc =? 1) with true. cbn match. unfold policy_decision.
  change (w_suite doc) with SUITE_V1.
  destruct (bool_decide (SUITE_V1 ∈ accepted_suites policy)); [|done]. cbn [negb].
  change (required_components SUITE_V1) with (Ok (E := VerifyError) REQUIRED_COMPONENTS_V1).
  cbn [res_bind]. change (wrong_arity _ _) with false. cbn [negb].
  rewrite canonical_bytes_canon by apply full_document_sortable. cbn [res_bind].
  rewrite bool_decide_true by done. rewrite signed_message_of. cbn [res_bind].
  change (message_of doc) with (claims_message c). unfold doc, wire_of at 1. simpl check_components.
  rewrite Hk, hex_decode_encode. simpl. rewrite Hv. simpl.
  case_bool_decide; [|done]. cbn [negb]. by destruct (String.leb _ _ && String.ltb _ _).
Qed.
End roundtrip.

(** ** The signed message commits to every claim *)

Lemma message_of_inj `{SerdeJsonLaws} d1 d2 :
  0 ≤ w_schema_version d1 ≤ u32_max → 0 ≤ w_schema_version d2 ≤ u32_max →
  message_of d1 = message_of d2 →
  unsigned_document_from_wire d1 = unsigned_document_from_wire d2.
Proof.
  intros Hv1 Hv2 Heq. unfold message_of in Heq. do 2 apply app_inv_head in Heq.
  assert (∀ d, 0 ≤ w_schema_version d ≤ u32_max →
    wf_value (Object (unsigned_document_from_wire d)) = true) as Hwf.
  { intros d Hd. rewrite unsigned_from_wire_members. apply wf_Object; [solve_keys|].
    solve_members ltac:(apply wf_jint; unfold i64_min, u32_max, u64_max in *; lia). }
  assert (∀ d, (depth (Object (unsigned_document_from_wire d)) ≤ 127)%nat) as Hdep.
  { intros d. rewrite unsigned_from_wire_members. etrans; [apply (depth_Object 2) | lia].
    solve_members ltac:(rewrite ?depth_jint; simpl; lia). }
  apply to_vec_canon_inj in Heq; [|by auto..].
  apply (f_equal (struct_fields wire_names true)) in Heq.
  rewrite !unsigned_from_wire_members, !struct_fields_canon in Heq by solve_keys.
  cbv -[canon jint w_schema_version w_suite w_authority_domain w_subject_id w_aal w_auth_method
    w_audience w_issued_at w_expires_at w_audit_event_id] in Heq. rewrite !canon_jint in Heq.
  rewrite !unsigned_from_wire_members. unfold jint in *.
  rewrite !(proj2 (Z.ltb_ge _ 0)) in * by lia. injection Heq as Hsv H2 H3 H4 H5 H6 H7 H8 H9 H10.
  by rewrite Hsv, H2, H3, H4, H5, H6, H7, H8, H9, H10.
Qed.

(** ** Theorems *)

Section theorems.
Context `{SerdeJsonLaws, AwsLc}.

(** What the holder of the bytes of a successful [seal] can do with them. *)
Lemma sealed_assertion_verifies {P} `{HsmSigner P} (self : AssertionSealer P) p' claims sealed pk k keys policy
    (Hseal : seal self claims = (p', Ok sealed))
    (Hkey : signs_for (key self) pk)
    (Hkid : key_id self = key_id_from_public_key pk)
    (Hacc : accept_verifying_key SUITE_V1 (key_id self) pk = Ok k)
    (Hfind : find_key keys (key_id self) = Some k)
    (Hdom : plain_string (authority_domain claims) = true)
    (Hdlen : str_len (authority_domain claims) ≤ 3050) :
  verify keys (bytes_of sealed) policy = policy_decision policy claims.
Proof.
  rewrite seal_eq in Hseal.
  destruct (sign_digest _ _ _ _) as [p [s|e|]] eqn:Hs; simplify_eq.
  apply Hkey in Hs as [Hlen Hv].
  unfold accept_verifying_key, accept_verifying_key_for in Hacc. rewrite bool_decide_true in Hacc by done.
  destruct (sec1_malformed pk); simplify_eq/=.
  apply (verify_genuine claims {| avk_key_id := key_id self; avk_raw := pk |}); [|done|done].
  cbn [avk_key_id]. rewrite Hkid.
  apply sealed_size; [done|done|apply hex_encode_plain|by rewrite len_key_id|done].
Qed.

(** C1. What the sealer produces, the verifier decides by its policy alone: for a
    sealer whose key answers to the accepted verifying key found under its identifier,
    every successful [seal] gives bytes on which [verify] returns the sealed claims
    when the suite is accepted, the authority domain is the expected one and
    [issued_at <= now < expires_at], and the corresponding error otherwise.  The
    sealed bytes never exceed [MAX_BYTES] as long as the authority domain is
    unescaped text of at most 3050 bytes. *)
Theorem seal_then_verify {P} `{HsmSigner P} (self : AssertionSealer P) p' claims sealed pk k keys policy
    (Hseal : seal self claims = (p', Ok sealed))
    (Hkey : signs_for (key self) pk)
    (Hkid : key_id self = key_id_from_public_key pk)
    (Hacc : accept_verifying_key SUITE_V1 (key_id self) pk = Ok k)
    (Hfind : find_key keys (key_id self) = Some k)
    (Hdom : plain_string (authority_domain claims) = true)
    (Hdlen : str_len (authority_domain claims) ≤ 3050) :
  verify keys (bytes_of sealed) policy = policy_decision policy claims.
Proof. by eapply sealed_assertion_verifies. Qed.

(** C3. [verify] accepts exactly the documents that satisfy the specification
    [accepted] (size, strict parse, schema, suite, canonical bytes, one valid
    component, domain, window), returns their fields, and panics on no input. *)
Theorem verify_iff_accepted keys bs policy :
  (∀ va, verify keys bs policy = Ok va ↔
     ∃ doc, accepted keys bs policy doc ∧ va = verified_of doc) ∧
  verify keys bs policy ≠ Panic.
Proof.
  split; [|apply verify_never_panics]. intros va. split; [apply verify_sound|].
  intros (doc & Hacc & ->). by apply verify_complete.
Qed.

(** C5. Authenticity: if the accepted keys verify only messages of claims that were
    sealed, then an accepted assertion carries exactly the claims of one of them, for
    the expected domain, inside its validity window. *)
Theorem accepted_was_sealed (sealed : list AssertionClaims) keys bs policy va
    (Hunforgeable : ∀ k m s, k ∈ keys → p256_verify (avk_raw k) m s = true →
       m ∈ map claims_message sealed)
    (Hver : verify keys bs policy = Ok va) :
  ∃ c, c ∈ sealed ∧ va = verified_claims c ∧
    authority_domain c = expected_authority_domain policy ∧
    String.leb (ts_str (issued_at c)) (ts_str (now policy)) = true ∧
    String.ltb (ts_str (now policy)) (ts_str (expires_at c)) = true.
Proof.
  apply verify_sound in Hver as (doc & [? ? Hsv ? ? (cmp & _ & _ & Hval) Hdom [Hw1 Hw2]] & ->).
  destruct Hval as (k & s & Hk & _ & Hv). apply find_key_id in Hk as [_ Hk].
  apply Hunforgeable in Hv; [|done]. apply list_elem_of_fmap in Hv as (c & Hm & Hc).
  change (claims_message c) with (message_of (wire_of c "" "")) in Hm.
  apply message_of_inj in Hm; [|rewrite Hsv; by cbv|by cbv].
  rewrite !unsigned_from_wire_members in Hm. simpl in Hm.
  injection Hm as _ _ Hd Hs Ha Hme Hau Hi He Hev.
  exists c. unfold verified_of, verified_claims. by rewrite <- Hd, <- Hs, <- Ha, <- Hme, <- Hau, <- Hi, <- He, <- Hev.
Qed.
End theorems.

(** ** The theorems at concrete inputs *)

Definition ref_sealer : AssertionSealer nat :=
  let key := {| label := "zs-identity-assertion-v1" |} in
  {| pool := 0%nat; key := key; key_id := key_id_from_public_key (ref_public_key key) |}.

Definition ref_claims : AssertionClaims := {|
  authority_domain := "prod"; subject_id := AsciiText (max_len := 256) "alice" eq_refl; aal := Aal2;
  auth_method := AsciiText (max_len := 64) "webauthn" eq_refl; audience := AsciiText (max_len := 256) "policy-engine" eq_refl;
  issued_at := MkTimestamp "2026-01-01T00:00:00Z" eq_refl;
  expires_at := MkTimestamp "2026-01-01T00:05:00Z" eq_refl;
  audit_event_id := MkUuid (require_v7 := true) "01900000-0000-7000-8000-000000000000" eq_refl |}.

Definition ref_policy : AcceptancePolicy := {|
  accepted_suites := [SUITE_V1]; now := MkTimestamp "2026-01-01T00:01:00Z" eq_refl;
  expected_authority_domain := "prod" |}.

Definition ref_verifying_key : AcceptedVerifyingKey :=
  {| avk_key_id := key_id ref_sealer; avk_raw := ref_public_key (key ref_sealer) |}.

Definition ref_sealed : SealedAssertion := {| bytes_of := to_vec (canon (Object (full_document
  (wire_of ref_claims (key_id ref_sealer)
     (hex_encode (fold_digest (claims_message ref_claims) ++
                  take 32 (drop 1 (ref_public_key (key ref_sealer))))))))) |}.

Lemma ref_sealed_ok : seal ref_sealer ref_claims = (1%nat, Ok ref_sealed).
Proof. rewrite seal_eq. reflexivity. Qed.

Lemma seal_then_verify_witness :
  verify [ref_verifying_key] (bytes_of ref_sealed) ref_policy = Ok (verified_claims ref_claims).
Proof.
  etrans; [eapply (seal_then_verify ref_sealer); [apply ref_sealed_ok| | | | | |]|].
  - apply ref_signs_for.
  - reflexivity.
  - instantiate (1 := ref_verifying_key). vm_compute. reflexivity.
  - apply (find_key_head ref_verifying_key).
  - reflexivity.
  - vm_compute. discriminate.
  - vm_compute. reflexivity.
Defined.

(** A verification oracle that accepts one message only. *)
Program Definition one_message_aws (m : bytes) : AwsLc := {|
  sha256_digest := fold_digest;
  p256_verify _ message _ := bool_decide (message = m);
  ed25519_verify := ref_verify;
|}.
Next Obligation. intros _ m'. apply length_to_be_bytes. Qed.

Definition ref_sig : bytes := replicate 64 (u8_of 1).

Lemma accepted_was_sealed_witness :
  let aws := one_message_aws (claims_message ref_claims) in
  ∃ c bs, verify [ref_verifying_key] bs ref_policy = Ok (verified_claims ref_claims) ∧
    c ∈ [ref_claims] ∧ verified_claims ref_claims = verified_claims c.
Proof.
  intros aws.
  assert (∃ bs, verify [ref_verifying_key] bs ref_policy = Ok (verified_claims ref_claims))
    as [bs V].
  { eexists. etrans; [apply (verify_genuine ref_claims ref_verifying_key ref_sig)|].
    - apply (sealed_size _ _ {| sig_bytes := ref_sig |}); [done|by vm_compute| |by vm_compute|done].
      apply hex_encode_plain.
    - apply find_key_head.
    - by apply bool_decide_eq_true.
    - vm_compute. reflexivity. }
  destruct (accepted_was_sealed [ref_claims] [ref_verifying_key] bs ref_policy
    (verified_claims ref_claims)) as (c & Hc & Hva & _); [| exact V | by exists c, bs].
  intros k m s _ Hm%bool_decide_eq_true. rewrite Hm. left.
Defined.

Lemma verify_iff_accepted_witness : verify [ref_verifying_key] (as_bytes "{}") ref_policy ≠ Panic.
Proof. apply (verify_iff_accepted [ref_verifying_key] (as_bytes "{}") ref_policy). Defined.
