(* ===== verification/AuditSeal.v ===== *)
(** * [crates/zs-crypto/src/audit_seal.rs]: suite [audit-seal/v1]

    Sealing of audit events and verification of a sealed event: the contract enums and
    their strings, the JSON documents with their optional members, the coupling of
    [event_type] and [decision], the size guard of the sealing side, [AuditSealer] and
    [verify] with its checks in the order of the code. *)

From S2P Require Import Prelude.
From S2P Require Import Json.
From S2P Require Import Serde.
From S2P Require Import JsonCodec.
From S2P Require Import Aws.
From S2P Require Import Signer.
From S2P Require Import Common.
From S2P Require Import Suite.
From S2P Require Import IdentityAssertion.

Definition SUITE_V1 : string := "audit-seal/v1".
Definition DOMAIN_PREFIX_V1 : string := "zero-secret/audit-seal/v1".
Definition MAX_BYTES : Z := 8192.
Definition REQUIRED_COMPONENTS_V1 : list string := ["ecdsa-p256"].
Definition MAX_REASONS : Z := 16.

Abbreviation AuthorityDomain := (ascii_text 128).
Abbreviation ShortText := (ascii_text 256).
Abbreviation Justification := (ascii_text 512).
Abbreviation PolicyVersion := (ascii_text 256).
Abbreviation Reason := (ascii_text 256).
Definition AuthorityDomain_new : string → res AuthorityDomain FieldError :=
  ascii_text_new 128 "authority_domain".
Definition ShortText_new : string → res ShortText FieldError := ascii_text_new 256 "text".
Definition Justification_new : string → res Justification FieldError :=
  ascii_text_new 512 "context.justification".
Definition PolicyVersion_new : string → res PolicyVersion FieldError :=
  ascii_text_new 256 "decision.policy_version".
Definition Reason_new : string → res Reason FieldError := ascii_text_new 256 "decision.reasons".

(** ** Sequence numbers *)

Definition MAX_SAFE_INTEGER : Z := Z.shiftl 1 53 - 1.

Record Sequence := MkSequence {
  seq_value : Z;
  seq_ok : between 0 seq_value MAX_SAFE_INTEGER = true;
}.

(** [Sequence::new], on a [u64]. *)
Definition Sequence_new (value : Z) : res Sequence FieldError :=
  match Sumbool.sumbool_of_bool (between 0 value MAX_SAFE_INTEGER) with
  | left H => Ok (MkSequence value H)
  | right _ => Err {| field_name := "sequence" |}
  end.

(** ** Contract enumerations *)

Inductive EventType :=
| AuthenticatorRegistered
| AuthenticatorRevoked
| AuthenticationAttempted
| AuthenticationSucceeded
| AuthenticationFailed
| RecoveryInitiated
| QuorumOperation
| AuditChainVerified
| PolicyDecided
| CredentialIssued.

Definition event_type_str (e : EventType) : string :=
  match e with
  | AuthenticatorRegistered => "authenticator.registered"
  | AuthenticatorRevoked => "authenticator.revoked"
  | AuthenticationAttempted => "authentication.attempted"
  | AuthenticationSucceeded => "authentication.succeeded"
  | AuthenticationFailed => "authentication.failed"
  | RecoveryInitiated => "recovery.initiated"
  | QuorumOperation => "quorum.operation"
  | AuditChainVerified => "audit.chain_verified"
  | PolicyDecided => "policy.decided"
  | CredentialIssued => "credential.issued"
  end.

(** [match s { literal => value, ..., _ => None }] *)
Fixpoint match_str {A} (table : list (string * A)) (s : string) : option A :=
  match table with
  | [] => None
  | (k, a) :: table' => if bool_decide (s = k) then Some a else match_str table' s
  end.

Definition event_type_of_str : string → option EventType :=
  match_str [
    ("authenticator.registered", AuthenticatorRegistered);
    ("authenticator.revoked", AuthenticatorRevoked);
    ("authentication.attempted", AuthenticationAttempted);
    ("authentication.succeeded", AuthenticationSucceeded);
    ("authentication.failed", AuthenticationFailed);
    ("recovery.initiated", RecoveryInitiated);
    ("quorum.operation", QuorumOperation);
    ("audit.chain_verified", AuditChainVerified);
    ("policy.decided", PolicyDecided);
    ("credential.issued", CredentialIssued)].

Definition requires_decision (e : EventType) : bool :=
  match e with PolicyDecided | CredentialIssued => true | _ => false end.

Inductive ActorKind := Human | Workload | System.

Definition actor_kind_str (k : ActorKind) : string :=
  match k with Human => "human" | Workload => "workload" | System => "system" end.
Definition actor_kind_of_str : string → option ActorKind :=
  match_str [("human", Human); ("workload", Workload); ("system", System)].

Inductive Outcome := Success | Denied | OError.

Definition outcome_str (o : Outcome) : string :=
  match o with Success => "success" | Denied => "denied" | OError => "error" end.
Definition outcome_of_str : string → option Outcome :=
  match_str [("success", Success); ("denied", Denied); ("error", OError)].

(** ** Event fields *)

Record Actor := {
  actor_subject_id : SubjectId;
  actor_kind : ActorKind;
  actor_aal : option AssuranceLevel;
  actor_auth_method : option AuthMethod;
}.

Record Target := { target_type : ShortText; target_id : ShortText }.

Record Context := {
  source_network : option ShortText;
  ticket_ref : option ShortText;
  justification : option Justification;
}.

Record DecisionInfo := {
  request_id : RequestId;
  decision_hash : bytes;
  policy_version : PolicyVersion;
  reasons : list Reason;
  granted_ttl_seconds : option Z;
  decision_signature : option bytes;
  decision_signature_key_id : option ShortText;
}.

Record AuditEventFields := {
  event_id : EventId;
  sequence : Sequence;
  prev_hash : bytes;
  occurred_at : Timestamp;
  authority_domain : AuthorityDomain;
  event_type : EventType;
  actor : Actor;
  target : option Target;
  outcome : Outcome;
  context : option Context;
  decision : option DecisionInfo;
}.

(** What the Rust types [[u8; 32]] and [u32] say of the fields. *)
Definition typed_decision (d : DecisionInfo) : Prop :=
  len (decision_hash d) = 32 ∧ ∀ n, granted_ttl_seconds d = Some n → in_u32 n.
Definition typed_fields (f : AuditEventFields) : Prop :=
  len (prev_hash f) = 32 ∧ ∀ d, decision f = Some d → typed_decision d.

Inductive SealError :=
| InvalidFields (field : string)
| SealingUnavailable.

Definition from_FieldError (e : FieldError) : SealError := InvalidFields (field_name e).
Definition opaque (e : HsmError) : SealError := SealingUnavailable.

(** ** Documents of the sealing side *)

Definition actor_value (a : Actor) : value :=
  let map := [] in
  let map := map_insert "subject_id" (VString (as_str (actor_subject_id a))) map in
  let map := map_insert "kind" (VString (actor_kind_str (actor_kind a))) map in
  let map := map_insert_opt "aal" (VString ∘ aal_as_str <$> actor_aal a) map in
  Object (map_insert_opt "auth_method" (VString ∘ as_str <$> actor_auth_method a) map).

Definition target_value (t : Target) : value :=
  Object [("type", VString (as_str (target_type t))); ("id", VString (as_str (target_id t)))].

Definition context_value (c : Context) : value :=
  let map := map_insert_opt "source_network" (VString ∘ as_str <$> source_network c) [] in
  let map := map_insert_opt "ticket_ref" (VString ∘ as_str <$> ticket_ref c) map in
  Object (map_insert_opt "justification" (VString ∘ as_str <$> justification c) map).

Definition decision_value (d : DecisionInfo) : value :=
  let map := [] in
  let map := map_insert "request_id" (VString (uuid_str (request_id d))) map in
  let map := map_insert "decision_hash" (VString (hex_encode (decision_hash d))) map in
  let map := map_insert "policy_version" (VString (as_str (policy_version d))) map in
  let map := map_insert "reasons" (jstrings (as_str <$> reasons d)) map in
  let map := map_insert_opt "granted_ttl_seconds" (jint <$> granted_ttl_seconds d) map in
  let map := map_insert_opt "decision_signature" (VString ∘ hex_encode <$> decision_signature d) map in
  Object (map_insert_opt "decision_signature_key_id"
            (VString ∘ as_str <$> decision_signature_key_id d) map).

Definition unsigned_document (f : AuditEventFields) : list (string * value) :=
  let map := [] in
  let map := map_insert "schema_version" (jint 1) map in
  let map := map_insert "event_id" (VString (uuid_str (event_id f))) map in
  let map := map_insert "sequence" (jint (seq_value (sequence f))) map in
  let map := map_insert "prev_hash" (VString (hex_encode (prev_hash f))) map in
  let map := map_insert "occurred_at" (VString (ts_str (occurred_at f))) map in
  let map := map_insert "authority_domain" (VString (as_str (authority_domain f))) map in
  let map := map_insert "event_type" (VString (event_type_str (event_type f))) map in
  let map := map_insert "actor" (actor_value (actor f)) map in
  let map := map_insert_opt "target" (target_value <$> target f) map in
  let map := map_insert "outcome" (VString (outcome_str (outcome f))) map in
  let map := map_insert_opt "context" (context_value <$> context f) map in
  map_insert_opt "decision" (decision_value <$> decision f) map.

Definition validate_decision_coupling (e : EventType) (d : option DecisionInfo) :
    res unit SealError :=
  guard! bool_decide (requires_decision e = bool_decide (is_Some d))
    else InvalidFields "decision" in
  match d with
  | Some d =>
      guard! negb (MAX_REASONS <? len (reasons d)) else InvalidFields "decision.reasons" in Ok tt
  | None => Ok tt
  end.

Definition signed_message `{SerdeJson} {E} (domain_prefix : string)
    (unsigned : list (string * value)) : res bytes E :=
  signed_message_with domain_prefix unsigned.

(** [json!({"suite": ..., "components": [...]})] *)
Definition signature_value (suite : string) (comps : list WireSignatureComponent) : value :=
  Object [("suite", VString suite); ("components", Array (map component_json comps))].

(** ["0".repeat(128)] *)
Definition zeros128 : string := from_utf8_bytes (replicate 128 "0"%char).

Definition signature_overhead_bytes `{SerdeJson} {E} (key_id : string) : res Z E :=
  let placeholder := signature_value SUITE_V1
    [{| component := "ecdsa-p256"; comp_key_id := key_id; comp_value := zeros128 |}] in
  let! bs := canonical_bytes placeholder in
  Ok (1 + len (quote :: as_bytes "signature" ++ [quote; ":"%char]) + len bs).

Definition validate_size `{SerdeJson} (unsigned : list (string * value)) (key_id : string) :
    res unit SealError :=
  let! doc := canonical_bytes (Object unsigned) in
  let! overhead := signature_overhead_bytes key_id in
  guard! negb (MAX_BYTES <? len doc + overhead) else InvalidFields "size" in
  Ok tt.

(** ** Sealing *)

Record HsmSettings := {
  hs_module_path : string;
  hs_slot_id : option Z;
  hs_pin : string;
  hs_pool_size : Z;
  hs_acquire_timeout : Z;
  hs_key_label : string;
}.

Record AuditSealer (P : Type) := {
  pool : P;
  key : KeyRef;
  key_id : string;
}.
Arguments pool {P} _. Arguments key {P} _. Arguments key_id {P} _.

Record SealedAuditEvent := { bytes_of : bytes }.

Definition event_as_bytes (e : SealedAuditEvent) : bytes := bytes_of e.
Definition event_suite (e : SealedAuditEvent) : string := SUITE_V1.

Section seal.
Context `{SerdeJson, AwsLc} {W P : Type} `{HsmOpen W P, HsmSigner P}.

(** [AuditSealer::open] *)
Definition open (w : W) (settings : HsmSettings) : res (AuditSealer P) SealError :=
  let key := {| label := hs_key_label settings |} in
  let! pool := map_err opaque (pool_open w {|
    module_path := hs_module_path settings; slot_id := hs_slot_id settings;
    pin := hs_pin settings; pool_size := hs_pool_size settings;
    acquire_timeout := hs_acquire_timeout settings |}) in
  let '(pool, r) := public_key pool key in
  let! public_key := map_err opaque r in
  Ok {| pool := pool; key := key; key_id := key_id_from_public_key (pk_bytes public_key) |}.

Definition signed_document (unsigned : list (string * value)) (kid sig : string) :
    list (string * value) :=
  map_insert "signature" (signature_value SUITE_V1
    [{| component := "ecdsa-p256"; comp_key_id := kid; comp_value := sig |}]) unsigned.

(** What [seal] does before it calls the signer: the guards and the message. *)
Definition prepare (self : AuditSealer P) (f : AuditEventFields) :
    res (list (string * value) * bytes) SealError :=
  let! _ := validate_decision_coupling (event_type f) (decision f) in
  let unsigned := unsigned_document f in
  let! _ := validate_size unsigned (key_id self) in
  let! message := signed_message DOMAIN_PREFIX_V1 unsigned in
  Ok (unsigned, message).

(** [AuditSealer::seal]: one call to the signer, never retried. *)
Definition seal (self : AuditSealer P) (f : AuditEventFields) :
    P * res SealedAuditEvent SealError :=
  match prepare self f with
  | Ok (unsigned, message) =>
      let digest := sha256 message in
      let '(p, r) := sign_digest (pool self) (key self) EcdsaP256Sha256 digest in
      (p,
        let! signature := map_err opaque r in
        let document := signed_document unsigned (key_id self) (hex_encode (sig_bytes signature)) in
        let! bs := canonical_bytes (Object document) in
        Ok {| bytes_of := bs |})
  | Err e => (pool self, Err e)
  | Panic => (pool self, Panic)
  end.
End seal.

(** ** Wire documents *)

Record WireActor := {
  wa_subject_id : string;
  wa_kind : string;
  wa_aal : option string;
  wa_auth_method : option string;
}.
Record WireTarget := { wt_type : string; wt_id : string }.
Record WireContext := {
  wc_source_network : option string;
  wc_ticket_ref : option string;
  wc_justification : option string;
}.
Record WireDecision := {
  wd_request_id : string;
  wd_decision_hash : string;
  wd_policy_version : string;
  wd_reasons : list string;
  wd_granted_ttl_seconds : option Z;
  wd_decision_signature : option string;
  wd_decision_signature_key_id : option string;
}.
Record WireSignature := { ws_suite : string; ws_components : list WireSignatureComponent }.
Record WireDocument := {
  w_schema_version : Z;
  w_event_id : string;
  w_sequence : Z;
  w_occurred_at : string;
  w_authority_domain : string;
  w_event_type : string;
  w_actor : WireActor;
  w_target : option WireTarget;
  w_outcome : string;
  w_context : option WireContext;
  w_decision : option WireDecision;
  w_prev_hash : string;
  w_signature : WireSignature;
}.

(** The generated [Deserialize] of each structure: a [#[serde(default)]] option is
    [None] when the member is missing or null. *)
Definition optional {A} (de : value → option A) : option value → option (option A) :=
  defaulted None (de_option de).

Definition de_actor (v : value) : option WireActor :=
  fields ← struct_fields ["subject_id"; "kind"; "aal"; "auth_method"] true v;
  match fields with
  | [f1; f2; f3; f4] =>
      v1 ← required de_string f1; v2 ← required de_string f2;
      v3 ← optional de_string f3; v4 ← optional de_string f4;
      Some {| wa_subject_id := v1; wa_kind := v2; wa_aal := v3; wa_auth_method := v4 |}
  | _ => None
  end.

Definition de_target (v : value) : option WireTarget :=
  fields ← struct_fields ["type"; "id"] true v;
  match fields with
  | [f1; f2] =>
      v1 ← required de_string f1; v2 ← required de_string f2;
      Some {| wt_type := v1; wt_id := v2 |}
  | _ => None
  end.

Definition de_context (v : value) : option WireContext :=
  fields ← struct_fields ["source_network"; "ticket_ref"; "justification"] true v;
  match fields with
  | [f1; f2; f3] =>
      v1 ← optional de_string f1; v2 ← optional de_string f2; v3 ← optional de_string f3;
      Some {| wc_source_network := v1; wc_ticket_ref := v2; wc_justification := v3 |}
  | _ => None
  end.

Definition de_decision (v : value) : option WireDecision :=
  fields ← struct_fields ["request_id"; "decision_hash"; "policy_version"; "reasons";
    "granted_ttl_seconds"; "decision_signature"; "decision_signature_key_id"] true v;
  match fields with
  | [f1; f2; f3; f4; f5; f6; f7] =>
      v1 ← required de_string f1; v2 ← required de_string f2; v3 ← required de_string f3;
      v4 ← required (de_vec de_string) f4; v5 ← optional de_u64 f5;
      v6 ← optional de_string f6; v7 ← optional de_string f7;
      Some {| wd_request_id := v1; wd_decision_hash := v2; wd_policy_version := v3;
              wd_reasons := v4; wd_granted_ttl_seconds := v5; wd_decision_signature := v6;
              wd_decision_signature_key_id := v7 |}
  | _ => None
  end.

Definition de_signature (v : value) : option WireSignature :=
  fields ← struct_fields ["suite"; "components"] true v;
  match fields with
  | [f1; f2] =>
      v1 ← required de_string f1; v2 ← required (de_vec de_component) f2;
      Some {| ws_suite := v1; ws_components := v2 |}
  | _ => None
  end.

Definition wire_names : list string :=
  ["schema_version"; "event_id"; "sequence"; "occurred_at"; "authority_domain"; "event_type";
   "actor"; "target"; "outcome"; "context"; "decision"; "prev_hash"; "signature"].

Definition de_WireDocument (v : value) : option WireDocument :=
  fields ← struct_fields wire_names true v;
  match fields with
  | [f1; f2; f3; f4; f5; f6; f7; f8; f9; f10; f11; f12; f13] =>
      v1 ← required de_u32 f1; v2 ← required de_string f2; v3 ← required de_u64 f3;
      v4 ← required de_string f4; v5 ← required de_string f5; v6 ← required de_string f6;
      v7 ← required de_actor f7; v8 ← optional de_target f8; v9 ← required de_string f9;
      v10 ← optional de_context f10; v11 ← optional de_decision f11;
      v12 ← required de_string f12; v13 ← required de_signature f13;
      Some {| w_schema_version := v1; w_event_id := v2; w_sequence := v3; w_occurred_at := v4;
              w_authority_domain := v5; w_event_type := v6; w_actor := v7; w_target := v8;
              w_outcome := v9; w_context := v10; w_decision := v11; w_prev_hash := v12;
              w_signature := v13 |}
  | _ => None
  end.

(** [unsigned_document_from_wire], with one definition for each of its blocks. *)
Definition wire_actor_value (a : WireActor) : value :=
  let map := [] in
  let map := map_insert "subject_id" (VString (wa_subject_id a)) map in
  let map := map_insert "kind" (VString (wa_kind a)) map in
  let map := map_insert_opt "aal" (VString <$> wa_aal a) map in
  Object (map_insert_opt "auth_method" (VString <$> wa_auth_method a) map).

Definition wire_target_value (t : WireTarget) : value :=
  Object [("type", VString (wt_type t)); ("id", VString (wt_id t))].

Definition wire_context_value (c : WireContext) : value :=
  let map := map_insert_opt "source_network" (VString <$> wc_source_network c) [] in
  let map := map_insert_opt "ticket_ref" (VString <$> wc_ticket_ref c) map in
  Object (map_insert_opt "justification" (VString <$> wc_justification c) map).

Definition wire_decision_value (d : WireDecision) : value :=
  let map := [] in
  let map := map_insert "request_id" (VString (wd_request_id d)) map in
  let map := map_insert "decision_hash" (VString (wd_decision_hash d)) map in
  let map := map_insert "policy_version" (VString (wd_policy_version d)) map in
  let map := map_insert "reasons" (jstrings (wd_reasons d)) map in
  let map := map_insert_opt "granted_ttl_seconds" (jint <$> wd_granted_ttl_seconds d) map in
  let map := map_insert_opt "decision_signature" (VString <$> wd_decision_signature d) map in
  Object (map_insert_opt "decision_signature_key_id"
            (VString <$> wd_decision_signature_key_id d) map).

Definition unsigned_document_from_wire (doc : WireDocument) : list (string * value) :=
  let map := [] in
  let map := map_insert "schema_version" (jint (w_schema_version doc)) map in
  let map := map_insert "event_id" (VString (w_event_id doc)) map in
  let map := map_insert "sequence" (jint (w_sequence doc)) map in
  let map := map_insert "prev_hash" (VString (w_prev_hash doc)) map in
  let map := map_insert "occurred_at" (VString (w_occurred_at doc)) map in
  let map := map_insert "authority_domain" (VString (w_authority_domain doc)) map in
  let map := map_insert "event_type" (VString (w_event_type doc)) map in
  let map := map_insert "actor" (wire_actor_value (w_actor doc)) map in
  let map := map_insert_opt "target" (wire_target_value <$> w_target doc) map in
  let map := map_insert "outcome" (VString (w_outcome doc)) map in
  let map := map_insert_opt "context" (wire_context_value <$> w_context doc) map in
  map_insert_opt "decision" (wire_decision_value <$> w_decision doc) map.

Definition full_document (doc : WireDocument) : list (string * value) :=
  map_insert "signature"
    (signature_value (ws_suite (w_signature doc)) (ws_components (w_signature doc)))
    (unsigned_document_from_wire doc).

(** ** Verification *)

Inductive VerifyError :=
| UnknownSuite
| MalformedKey
| TooLarge
| MalformedDocument
| NonCanonical
| InvalidSignatureArity
| UnknownKeyId
| InvalidSignature
| UnexpectedAuthorityDomain.

Definition accept_verifying_key :
    string → string → bytes → res AcceptedVerifyingKey VerifyError :=
  accept_verifying_key_for SUITE_V1 UnknownSuite MalformedKey.

Record AcceptancePolicy := {
  accepted_suites : list string;
  expected_authority_domain : string;
}.

Record VerifiedAuditEvent := {
  va_event_id : string;
  va_sequence : Z;
  va_prev_hash : bytes;
  va_occurred_at : string;
  va_authority_domain : string;
  va_event_type : EventType;
}.

Definition required_components (suite : string) : res (list string) VerifyError :=
  if bool_decide (suite = SUITE_V1) then Ok REQUIRED_COMPONENTS_V1 else Err UnknownSuite.
Definition domain_prefix_for (suite : string) : res string VerifyError :=
  if bool_decide (suite = SUITE_V1) then Ok DOMAIN_PREFIX_V1 else Err UnknownSuite.

(** The block of [verify] on [doc.decision]. *)
Definition check_decision (o : option WireDecision) : res unit VerifyError :=
  match o with
  | Some d =>
      guard! negb (MAX_REASONS <? len (wd_reasons d)) else MalformedDocument in
      let! hash := ok_or (hex_decode (wd_decision_hash d)) MalformedDocument in
      guard! len hash =? 32 else MalformedDocument in
      Ok tt
  | None => Ok tt
  end.

Section verify.
Context `{SerdeJson, AwsLc}.

Definition verify (keys : list AcceptedVerifyingKey) (bs : bytes) (policy : AcceptancePolicy) :
    res VerifiedAuditEvent VerifyError :=
  guard! len bs <=? MAX_BYTES else TooLarge in
  let! doc := ok_or (from_slice bs ≫= de_WireDocument) MalformedDocument in
  guard! w_schema_version doc =? 1 else MalformedDocument in
  guard! bool_decide (ws_suite (w_signature doc) ∈ accepted_suites policy) else UnknownSuite in
  let! event_type := ok_or (event_type_of_str (w_event_type doc)) MalformedDocument in
  let! _ := ok_or (actor_kind_of_str (wa_kind (w_actor doc))) MalformedDocument in
  let! _ := ok_or (outcome_of_str (w_outcome doc)) MalformedDocument in
  guard! bool_decide (requires_decision event_type = bool_decide (is_Some (w_decision doc)))
    else MalformedDocument in
  let! _ := check_decision (w_decision doc) in
  let! required := required_components (ws_suite (w_signature doc)) in
  guard! negb (wrong_arity (ws_components (w_signature doc)) required)
    else InvalidSignatureArity in
  let unsigned := unsigned_document_from_wire doc in
  let! canonical := canonical_bytes (Object (full_document doc)) in
  guard! bool_decide (canonical = bs) else NonCanonical in
  let! domain_prefix := domain_prefix_for (ws_suite (w_signature doc)) in
  let! message := signed_message domain_prefix unsigned in
  let! all_valid := check_components UnknownKeyId InvalidSignature keys message
                      (ws_components (w_signature doc)) true in
  guard! all_valid else InvalidSignature in
  guard! bool_decide (w_authority_domain doc = expected_authority_domain policy)
    else UnexpectedAuthorityDomain in
  let! prev_hash := ok_or (hex_decode (w_prev_hash doc)) MalformedDocument in
  guard! len prev_hash =? 32 else MalformedDocument in
  Ok {| va_event_id := w_event_id doc; va_sequence := w_sequence doc;
        va_prev_hash := prev_hash; va_occurred_at := w_occurred_at doc;
        va_authority_domain := w_authority_domain doc; va_event_type := event_type |}.
End verify.

(** ** Lemmas: the documents *)

Lemma event_type_of_to e : event_type_of_str (event_type_str e) = Some e.
Proof. by destruct e. Qed.
Lemma actor_kind_of_to k : actor_kind_of_str (actor_kind_str k) = Some k.
Proof. by destruct k. Qed.
Lemma outcome_of_to o : outcome_of_str (outcome_str o) = Some o.
Proof. by destruct o. Qed.

(** The integer widths of the wire structures. *)
Definition typed_wire (doc : WireDocument) : Prop :=
  in_u32 (w_schema_version doc) ∧ in_u64 (w_sequence doc) ∧
  ∀ d n, w_decision doc = Some d → wd_granted_ttl_seconds d = Some n → in_u64 n.

Lemma in_u64_wf n : in_u64 n → wf_value (jint n) = true.
Proof. unfold in_u64. intros ?. apply wf_jint. unfold i64_min. lia. Qed.
Lemma in_u32_u64 n : in_u32 n → in_u64 n.
Proof. unfold in_u32, in_u64, u32_max, u64_max. lia. Qed.

Lemma wire_actor_sortable a : sortable (wire_actor_value a) = true.
Proof. apply members_ok_sortable. solve_inserts done. Qed.
Lemma wire_context_sortable c : sortable (wire_context_value c) = true.
Proof. apply members_ok_sortable. solve_inserts done. Qed.
Lemma wire_decision_sortable d : sortable (wire_decision_value d) = true.
Proof.
  apply members_ok_sortable. solve_inserts ltac:(apply sortable_jint || apply wf_sortable, jstrings_wf).
Qed.
Lemma signature_sortable s cs : sortable (signature_value s cs) = true.
Proof. unfold signature_value. solve_sortable. Qed.

Lemma unsigned_ok doc :
  members_ok (λ v, sortable v = true) (unsigned_document_from_wire doc).
Proof.
  solve_inserts ltac:(apply sortable_jint || apply wire_actor_sortable ||
    apply wire_context_sortable || apply wire_decision_sortable).
Qed.
Lemma event_unsigned_sortable doc : sortable (Object (unsigned_document_from_wire doc)) = true.
Proof. apply members_ok_sortable, unsigned_ok. Qed.
Lemma event_full_document_sortable doc : sortable (Object (full_document doc)) = true.
Proof. apply members_ok_sortable, members_ok_insert; [apply unsigned_ok | apply signature_sortable]. Qed.

Lemma wire_actor_wf a : wf_value (wire_actor_value a) = true.
Proof. apply members_ok_wf. solve_inserts done. Qed.
Lemma wire_context_wf c : wf_value (wire_context_value c) = true.
Proof. apply members_ok_wf. solve_inserts done. Qed.
Lemma wire_decision_wf d :
  (∀ n, wd_granted_ttl_seconds d = Some n → in_u64 n) → wf_value (wire_decision_value d) = true.
Proof. intros Hd. apply members_ok_wf. solve_inserts ltac:(apply jstrings_wf || by apply in_u64_wf, Hd). Qed.
Lemma signature_wf s cs : wf_value (signature_value s cs) = true.
Proof. apply wf_Object; [solve_keys | solve_members ltac:(apply wf_components)]. Qed.

Lemma unsigned_members_wf doc :
  typed_wire doc → members_ok (λ v, wf_value v = true) (unsigned_document_from_wire doc).
Proof.
  intros (Hv & Hs & Hd).
  solve_inserts ltac:(apply wire_actor_wf || apply wire_context_wf ||
    (by apply in_u64_wf, in_u32_u64) || (by apply in_u64_wf) || (apply wire_decision_wf; eauto)).
Qed.
Lemma event_full_document_wf doc : typed_wire doc → wf_value (Object (full_document doc)) = true.
Proof.
  intros ?. apply members_ok_wf, members_ok_insert; [by apply unsigned_members_wf | apply signature_wf].
Qed.

Lemma unsigned_members_depth doc :
  members_ok (λ v, (depth v ≤ 4)%nat) (unsigned_document_from_wire doc).
Proof.
  solve_inserts ltac:(rewrite ?depth_jint; cbn [depth]; lia).
  - etrans; [apply (members_ok_depth 2); solve_inserts ltac:(rewrite ?depth_jint; cbn [depth]; lia) | lia].
  - cbn. lia.
  - etrans; [apply (members_ok_depth 2); solve_inserts ltac:(rewrite ?depth_jint; cbn [depth]; lia) | lia].
  - etrans; [apply (members_ok_depth 2);
      solve_inserts ltac:(rewrite ?depth_jint; cbn [depth]; lia) | lia].
    pose proof (jstrings_depth (wd_reasons x)). lia.
Qed.
Lemma event_full_document_depth doc : (depth (Object (full_document doc)) ≤ 127)%nat.
Proof.
  etrans; [apply (members_ok_depth 4), members_ok_insert; [apply unsigned_members_depth|] | lia].
  apply (depth_Object 3). pose proof (depth_components (ws_components (w_signature doc))).
  solve_members ltac:(cbn [depth] in *; lia).
Qed.

(** ** Lemmas: reading back canonical documents *)

(** Reads the members of a canonical object whose optional members are given. *)
Ltac read_back :=
  rewrite struct_fields_canon; [|solve_keys|solve_keys];
  cbv -[canon jint jstrings de_vec de_option de_u64 de_u32 de_string];
  rewrite ?canon_jint, ?canon_jstrings; cbn [canon].

Lemma de_option_u64_jint n : in_u64 n → de_option de_u64 (jint n) = Some (Some n).
Proof.
  intros Hn. pose proof (de_u64_jint n Hn) as Heq. unfold de_option, jint in *.
  by rewrite Heq.
Qed.
Lemma de_option_object {A} (de : value → option A) m a :
  de (canon (Object m)) = Some a → de_option de (canon (Object m)) = Some (Some a).
Proof. intros Heq. unfold de_option. cbn [canon] in *. by rewrite Heq. Qed.

Lemma de_actor_canon a : de_actor (canon (wire_actor_value a)) = Some a.
Proof.
  destruct a as [s k [aal|] [m|]]; unfold wire_actor_value, de_actor; cbn [fmap option_fmap option_map
    wa_subject_id wa_kind wa_aal wa_auth_method map_insert_opt]; by read_back.
Qed.

Lemma de_context_canon c : de_context (canon (wire_context_value c)) = Some c.
Proof.
  destruct c as [[s|] [k|] [m|]]; unfold wire_context_value, de_context; cbn [fmap option_fmap option_map
    wc_source_network wc_ticket_ref wc_justification map_insert_opt]; by read_back.
Qed.

Lemma de_target_canon t : de_target (canon (wire_target_value t)) = Some t.
Proof. destruct t. unfold wire_target_value, de_target. by read_back. Qed.

Lemma de_decision_canon d :
  (∀ n, wd_granted_ttl_seconds d = Some n → in_u64 n) →
  de_decision (canon (wire_decision_value d)) = Some d.
Proof.
  destruct d as [r h v rs [n|] [s|] [k|]]; intros Hn; unfold wire_decision_value, de_decision;
    cbn [fmap option_fmap option_map wd_request_id wd_decision_hash wd_policy_version wd_reasons
      wd_granted_ttl_seconds wd_decision_signature wd_decision_signature_key_id map_insert_opt];
    read_back; rewrite de_strings, ?de_option_u64_jint by auto; reflexivity.
Qed.

Lemma de_signature_canon s : de_signature (canon (signature_value (ws_suite s) (ws_components s))) = Some s.
Proof.
  unfold de_signature, signature_value. rewrite struct_fields_canon; [|solve_keys|solve_keys].
  set (cs := Array (map component_json (ws_components s))).
  cbv -[canon cs de_vec de_string ws_suite]. unfold cs. rewrite canon_components, de_components.
  by destruct s.
Qed.

(** Reading back a canonical full document gives its fields. *)
Lemma event_de_full_document doc :
  typed_wire doc → de_WireDocument (canon (Object (full_document doc))) = Some doc.
Proof.
  intros (Hv & Hs & Hd). unfold de_WireDocument, full_document, unsigned_document_from_wire.
  destruct doc as [v e s o a t act tgt out ctx dec ph sg].
  cbn [w_schema_version w_event_id w_sequence w_occurred_at w_authority_domain w_event_type
    w_actor w_target w_outcome w_context w_decision w_prev_hash w_signature] in *.
  pose proof (de_actor_canon act) as Hact. pose proof (de_signature_canon sg) as Hsg.
  assert (∀ t, tgt = Some t → de_option de_target (canon (wire_target_value t)) = Some (Some t)) as Htgt
    by (intros; apply de_option_object, de_target_canon).
  assert (∀ c, ctx = Some c → de_option de_context (canon (wire_context_value c)) = Some (Some c)) as Hctx
    by (intros; apply de_option_object, de_context_canon).
  assert (∀ d, dec = Some d → de_option de_decision (canon (wire_decision_value d)) = Some (Some d)) as Hdec
    by (intros; apply de_option_object, de_decision_canon; eauto).
  revert Hact Hsg Htgt Hctx Hdec.
  generalize (signature_value (ws_suite sg) (ws_components sg)) as sgv.
  generalize (wire_actor_value act) as actv.
  destruct tgt as [t'|], ctx as [c'|], dec as [d'|]; intros actv sgv Hact Hsg Htgt Hctx Hdec;
  cbn [fmap option_fmap option_map map_insert_opt];
  (rewrite struct_fields_canon; [|solve_keys|solve_keys]);
  cbv -[canon jint de_vec de_option de_u64 de_u32 de_string de_actor de_target de_context de_decision
    de_signature wire_target_value wire_context_value wire_decision_value];
  rewrite !canon_jint, de_u32_jint, de_u64_jint, Hact, Hsg by done;
  rewrite ?(Htgt _ eq_refl), ?(Hctx _ eq_refl), ?(Hdec _ eq_refl); reflexivity.
Qed.

(** The suite decides both the components and the domain prefix. *)
Lemma suite_v1_or_unknown s :
  (s = SUITE_V1 ∧ required_components s = Ok REQUIRED_COMPONENTS_V1 ∧
   domain_prefix_for s = Ok DOMAIN_PREFIX_V1) ∨
  (s ≠ SUITE_V1 ∧ required_components s = Err UnknownSuite).
Proof. unfold required_components, domain_prefix_for. case_bool_decide; auto. Qed.

(** ** Specification of [verify] *)

Section spec.
Context `{SerdeJsonLaws, AwsLc}.

Definition message_of (doc : WireDocument) : bytes :=
  as_bytes DOMAIN_PREFIX_V1 ++ [u8_of 0] ++
  to_vec (canon (Object (unsigned_document_from_wire doc))).

(** A [decision] is present exactly for the event types that require one, with at most
    [MAX_REASONS] reasons and a 32-byte hash. *)
Definition decision_coupled (e : EventType) (o : option WireDecision) : Prop :=
  match o with
  | None => requires_decision e = false
  | Some d => requires_decision e = true ∧ len (wd_reasons d) ≤ MAX_REASONS ∧
      ∃ h, hex_decode (wd_decision_hash d) = Some h ∧ len h = 32
  end.

(** What an accepted event and the value returned for it satisfy. *)
Record accepted (keys : list AcceptedVerifyingKey) (bs : bytes) (policy : AcceptancePolicy)
    (doc : WireDocument) (va : VerifiedAuditEvent) : Prop := {
  acc_size : len bs ≤ MAX_BYTES;
  acc_parsed : from_slice bs ≫= de_WireDocument = Some doc;
  acc_schema : w_schema_version doc = 1;
  acc_suite : ws_suite (w_signature doc) = SUITE_V1 ∧ SUITE_V1 ∈ accepted_suites policy;
  acc_event_type : event_type_of_str (w_event_type doc) = Some (va_event_type va);
  acc_actor : is_Some (actor_kind_of_str (wa_kind (w_actor doc)));
  acc_outcome : is_Some (outcome_of_str (w_outcome doc));
  acc_decision : decision_coupled (va_event_type va) (w_decision doc);
  acc_canonical : bs = to_vec (canon (Object (full_document doc)));
  acc_signature : ∃ c, ws_components (w_signature doc) = [c] ∧ component c = "ecdsa-p256" ∧
    component_valid keys (message_of doc) c;
  acc_domain : w_authority_domain doc = expected_authority_domain policy;
  acc_prev_hash : hex_decode (w_prev_hash doc) = Some (va_prev_hash va) ∧ len (va_prev_hash va) = 32;
  acc_returned : va_event_id va = w_event_id doc ∧ va_sequence va = w_sequence doc ∧
    va_occurred_at va = w_occurred_at doc ∧ va_authority_domain va = w_authority_domain doc;
}.

Lemma event_signed_message_of {E} doc :
  signed_message (E := E) DOMAIN_PREFIX_V1 (unsigned_document_from_wire doc) = Ok (message_of doc).
Proof.
  unfold signed_message, signed_message_with. rewrite canonical_bytes_canon; [done|].
  apply event_unsigned_sortable.
Qed.

(** The two decision checks of [verify] together. *)
Lemma check_decision_coupled e o :
  requires_decision e = bool_decide (is_Some o) ∧ check_decision o = Ok tt ↔ decision_coupled e o.
Proof.
  destruct o as [d|]; simpl.
  - destruct (MAX_REASONS <? len (wd_reasons d)) eqn:Hr; bool_simp; simpl.
    + split; [by intros [_ ?] | intros (_ & ? & _); lia].
    + destruct (hex_decode (wd_decision_hash d)) as [h|]; simpl;
        [|split; [by intros [_ ?] | by intros (_ & _ & ? & ? & _)]].
      destruct (len h =? 32) eqn:Hh; bool_simp.
      * split; [intros [-> _]; split_and!; [done|lia|eauto] | by intros [-> _]].
      * split; [by intros [_ ?] | intros (_ & _ & ? & [= <-] & ?); lia].
  - split; [by intros [-> _] | by intros ->].
Qed.

Lemma check_decision_no_panic o : check_decision o ≠ Panic.
Proof.
  destruct o as [d|]; simpl; [|done]. destruct (MAX_REASONS <? len (wd_reasons d)); [done|]. simpl.
  destruct (hex_decode _) as [h|]; simpl; [|done]. by destruct (len h =? 32).
Qed.

Lemma event_verify_sound keys bs policy va :
  verify keys bs policy = Ok va → ∃ doc, accepted keys bs policy doc va.
Proof.
  unfold verify. destruct (len bs <=? MAX_BYTES) eqn:Hsz; [|done].
  destruct (from_slice bs ≫= de_WireDocument) as [doc|] eqn:Hp; cbn [ok_or res_bind]; [|done].
  destruct (w_schema_version doc =? 1) eqn:Hsv; [|done].
  outer_guard Hsu.
  destruct (event_type_of_str _) as [e|] eqn:He; cbn [ok_or res_bind]; [|done].
  destruct (actor_kind_of_str _) as [k|] eqn:Hk; cbn [ok_or res_bind]; [|done].
  destruct (outcome_of_str _) as [o|] eqn:Ho; cbn [ok_or res_bind]; [|done].
  outer_guard Hreq.
  destruct (check_decision _) as [[]| |] eqn:Hd; cbn [res_bind]; try done.
  destruct (suite_v1_or_unknown (ws_suite (w_signature doc))) as [(Hs1 & -> & ->)|[_ ->]]; [|done].
  cbn [res_bind].
  destruct (wrong_arity _ _) eqn:Har; [done|]. cbn [negb].
  rewrite canonical_bytes_canon by apply event_full_document_sortable. cbn [res_bind].
  outer_guard Hcan. rewrite event_signed_message_of. cbn [res_bind].
  destruct (check_components _ _ _ _ _ _) as [[]| |] eqn:Hck; cbn [res_bind]; try done.
  outer_guard Hdom.
  destruct (hex_decode (w_prev_hash doc)) as [ph|] eqn:Hph; cbn [ok_or res_bind]; [|done].
  destruct (len ph =? 32) eqn:Hpl; [|done].
  intros [= <-]. exists doc. bool_simp. 
  apply check_components_true in Hck as [_ Hall].
  apply wrong_arity_single in Har as (c & Hc & Hcn).
  constructor; try done; [by rewrite <- Hs1 | by apply check_decision_coupled | ].
  exists c. rewrite Hc in Hall. split_and!; [done|done|]. by inversion Hall.
Qed.

Lemma event_verify_complete keys bs policy doc va :
  accepted keys bs policy doc va → verify keys bs policy = Ok va.
Proof.
  intros [Hsz Hp Hsv [Hs1 Hsu] He [k Hk] [o Ho] Hdec Hcan (c & Hc & Hcn & Hval) Hdom
    [Hph Hpl] (H1' & H2' & H3' & H4')].
  unfold verify. rewrite (proj2 (Z.leb_le _ _)), Hp by done. cbn [ok_or res_bind].
  rewrite Hsv, Hs1, bool_decide_true, He, Hk, Ho by done. cbn [ok_or res_bind Z.eqb Pos.eqb].
  apply check_decision_coupled in Hdec as [Hreq Hdec].
  rewrite bool_decide_true, Hdec by done. cbn [res_bind].
  change (required_components SUITE_V1) with (Ok (E := VerifyError) REQUIRED_COMPONENTS_V1).
  change (domain_prefix_for SUITE_V1) with (Ok (E := VerifyError) DOMAIN_PREFIX_V1).
  cbn [res_bind]. unfold REQUIRED_COMPONENTS_V1.
  rewrite Hc, (proj2 (wrong_arity_one c _)) by done. cbn [negb].
  rewrite canonical_bytes_canon by apply event_full_document_sortable. cbn [res_bind].
  rewrite bool_decide_true by done. rewrite event_signed_message_of. cbn [res_bind check_components].
  destruct Hval as (key & s & Hkey & Hs & Hv). rewrite Hkey, Hs. cbn [ok_or res_bind].
  rewrite Hv. cbn [andb]. rewrite bool_decide_true, Hph by done. cbn [ok_or res_bind].
  rewrite (proj2 (Z.eqb_eq _ _)) by done. destruct va; simpl in *. by subst.
Qed.

Lemma event_verify_never_panics keys bs policy : verify keys bs policy ≠ Panic.
Proof.
  unfold verify. destruct (len bs <=? MAX_BYTES); [|done].
  destruct (from_slice bs ≫= de_WireDocument) as [doc|]; cbn [ok_or res_bind]; [|done].
  destruct (w_schema_version doc =? 1); [|done]. outer_guard Hx1.
  destruct (event_type_of_str _) as [e|]; cbn [ok_or res_bind]; [|done].
  destruct (actor_kind_of_str _) as [k|]; cbn [ok_or res_bind]; [|done].
  destruct (outcome_of_str _) as [o|]; cbn [ok_or res_bind]; [|done].
  outer_guard Hx2.
  destruct (check_decision _) as [[]| |] eqn:Hd; cbn [res_bind];
    [|done|by apply check_decision_no_panic in Hd].
  destruct (suite_v1_or_unknown (ws_suite (w_signature doc))) as [(Hs1 & -> & ->)|[_ ->]]; [|done].
  cbn [res_bind].
  destruct (wrong_arity _ _); [done|]. cbn [negb].
  rewrite canonical_bytes_canon by apply event_full_document_sortable. cbn [res_bind].
  outer_guard Hcan. rewrite event_signed_message_of. cbn [res_bind].
  destruct (check_components _ _ _ _ _ _) as [[]| |] eqn:Hck; cbn [res_bind]; try done.
  - outer_guard Hx3. destruct (hex_decode _) as [ph|]; cbn [ok_or res_bind]; [|done].
    by destruct (len ph =? 32).
  - by apply check_components_no_panic in Hck.
Qed.
End spec.

(** ** Sealing, and what it gives to the verifier *)

Definition wire_actor (a : Actor) : WireActor := {|
  wa_subject_id := as_str (actor_subject_id a); wa_kind := actor_kind_str (actor_kind a);
  wa_aal := aal_as_str <$> actor_aal a; wa_auth_method := as_str <$> actor_auth_method a |}.
Definition wire_target (t : Target) : WireTarget :=
  {| wt_type := as_str (target_type t); wt_id := as_str (target_id t) |}.
Definition wire_context (c : Context) : WireContext := {|
  wc_source_network := as_str <$> source_network c; wc_ticket_ref := as_str <$> ticket_ref c;
  wc_justification := as_str <$> justification c |}.
Definition wire_decision (d : DecisionInfo) : WireDecision := {|
  wd_request_id := uuid_str (request_id d); wd_decision_hash := hex_encode (decision_hash d);
  wd_policy_version := as_str (policy_version d); wd_reasons := as_str <$> reasons d;
  wd_granted_ttl_seconds := granted_ttl_seconds d;
  wd_decision_signature := hex_encode <$> decision_signature d;
  wd_decision_signature_key_id := as_str <$> decision_signature_key_id d |}.

(** The wire form of sealed fields. *)
Definition wire_of (f : AuditEventFields) (kid sig : string) : WireDocument := {|
  w_schema_version := 1; w_event_id := uuid_str (event_id f);
  w_sequence := seq_value (sequence f); w_occurred_at := ts_str (occurred_at f);
  w_authority_domain := as_str (authority_domain f);
  w_event_type := event_type_str (event_type f); w_actor := wire_actor (actor f);
  w_target := wire_target <$> target f; w_outcome := outcome_str (outcome f);
  w_context := wire_context <$> context f; w_decision := wire_decision <$> decision f;
  w_prev_hash := hex_encode (prev_hash f);
  w_signature := {| ws_suite := SUITE_V1; ws_components :=
    [{| component := "ecdsa-p256"; comp_key_id := kid; comp_value := sig |}] |} |}.

(** What the verifier returns for an event sealed by its issuer. *)
Definition verified_fields (f : AuditEventFields) : VerifiedAuditEvent := {|
  va_event_id := uuid_str (event_id f); va_sequence := seq_value (sequence f);
  va_prev_hash := prev_hash f; va_occurred_at := ts_str (occurred_at f);
  va_authority_domain := as_str (authority_domain f); va_event_type := event_type f |}.

Definition fields_message `{SerdeJson} (f : AuditEventFields) : bytes :=
  as_bytes DOMAIN_PREFIX_V1 ++ [u8_of 0] ++ to_vec (canon (Object (unsigned_document f))).

(** The decision of the verifier on a genuine event: suite, then domain. *)
Definition policy_decision (policy : AcceptancePolicy) (f : AuditEventFields) :
    res VerifiedAuditEvent VerifyError :=
  if negb (bool_decide (SUITE_V1 ∈ accepted_suites policy)) then Err UnknownSuite
  else if negb (bool_decide (as_str (authority_domain f) = expected_authority_domain policy))
  then Err UnexpectedAuthorityDomain
  else Ok (verified_fields f).

(** The guards of the sealing side, as one decision. *)
Definition coupling_ok (f : AuditEventFields) : bool :=
  bool_decide (requires_decision (event_type f) = bool_decide (is_Some (decision f))) &&
  match decision f with Some d => len (reasons d) <=? MAX_REASONS | None => true end.

Lemma unsigned_document_wire f kid sig :
  unsigned_document f = unsigned_document_from_wire (wire_of f kid sig).
Proof.
  unfold unsigned_document, unsigned_document_from_wire, wire_of.
  cbn [w_schema_version w_event_id w_sequence w_occurred_at w_authority_domain w_event_type
    w_actor w_target w_outcome w_context w_decision w_prev_hash].
  assert (actor_value (actor f) = wire_actor_value (wire_actor (actor f))) as ->
    by (by destruct (actor f) as [??[][]]).
  assert (target_value <$> target f = wire_target_value <$> (wire_target <$> target f)) as ->
    by (by destruct (target f)).
  assert (context_value <$> context f = wire_context_value <$> (wire_context <$> context f)) as ->
    by (by destruct (context f) as [[[][][]]|]).
  assert (decision_value <$> decision f = wire_decision_value <$> (wire_decision <$> decision f)) as ->
    by (by destruct (decision f) as [[????[][][]]|]).
  done.
Qed.

(** The unsigned document is not empty and has no member named [signature]. *)
Lemma unsigned_open doc :
  unsigned_document_from_wire doc ≠ [] ∧ "signature" ∉ (unsigned_document_from_wire doc).*1.
Proof.
  unfold unsigned_document_from_wire.
  destruct (w_target doc), (w_context doc), (w_decision doc); cbn [map_insert_opt fmap option_fmap option_map];
    (split; [discriminate | apply (bool_decide_unpack _); vm_compute; exact I]).
Qed.

Lemma wire_of_typed f kid sig : typed_fields f → typed_wire (wire_of f kid sig).
Proof.
  intros [_ Hd]. split_and!; cbn.
  - by cbv.
  - destruct (sequence f) as [n Hn]. simpl. unfold between, MAX_SAFE_INTEGER in Hn. bool_simp.
    unfold in_u64, u64_max. change (Z.shiftl 1 53) with (2 ^ 53) in *. lia.
  - intros d n. destruct (decision f) as [d'|] eqn:Hf; simpl; [|done]. intros [= <-] Hn.
    apply in_u32_u64. by apply (Hd d' eq_refl).
Qed.

Lemma validate_decision_coupling_ok f :
  validate_decision_coupling (event_type f) (decision f) =
  if coupling_ok f then Ok tt
  else if bool_decide (requires_decision (event_type f) = bool_decide (is_Some (decision f)))
  then Err (InvalidFields "decision.reasons") else Err (InvalidFields "decision").
Proof.
  unfold validate_decision_coupling, coupling_ok.
  destruct (bool_decide (requires_decision _ = _)); [|done]. simpl.
  destruct (decision f); [|done]. rewrite Z.leb_antisym. by destruct (MAX_REASONS <? _).
Qed.

Section roundtrip.
Context `{SerdeJsonLaws, AwsLc} {P : Type} `{HsmSigner P}.

(** The measured overhead is what the signature member adds, whatever the signature. *)
Lemma sealed_len f kid sig :
  len sig = 64 →
  signature_overhead_bytes (E := SealError) kid =
  Ok (len (to_vec (canon (Object (full_document (wire_of f kid (hex_encode sig)))))) -
      len (to_vec (canon (Object (unsigned_document f))))).
Proof.
  intros Hs. unfold signature_overhead_bytes. rewrite canonical_bytes_canon by apply signature_sortable.
  cbn [res_bind]. f_equal. unfold full_document.
  rewrite (unsigned_document_wire f kid (hex_encode sig)).
  set (doc := wire_of f kid (hex_encode sig)).
  destruct (unsigned_open doc) as [Hne Hnew]. rewrite len_canon_insert by done.
  rewrite len_to_vec_plain by done.
  assert (∀ v, plain_string v = true → str_len v = 128 →
    len (to_vec (canon (signature_value SUITE_V1
      [{| component := "ecdsa-p256"; comp_key_id := kid; comp_value := v |}]))) =
    len (to_vec (canon (signature_value SUITE_V1
      [{| component := "ecdsa-p256"; comp_key_id := kid; comp_value := zeros128 |}])))) as Heq.
  { intros v Hv Hl. unfold signature_value. rewrite !len_to_vec_canon by done.
    cbn [map sum_len fst snd]. rewrite !len_member_plain by done.
    assert (∀ c, canon (Array [component_json c]) = Array [component_json c]) as Hc
      by (intros c; apply (canon_components [c])).
    rewrite !Hc, !to_vec_array. cbn [map join]. rewrite !len_cons, !len_app.
    unfold component_json. rewrite !len_to_vec_object by done. cbn [map sum_len fst snd].
    rewrite !len_member_plain by done. rewrite !(len_to_vec_plain v), !(len_to_vec_plain zeros128) by done.
    change (str_len zeros128) with 128. rewrite Hl. done. }
  change (signature_value (ws_suite (w_signature doc)) (ws_components (w_signature doc))) with
    (signature_value SUITE_V1
      [{| component := "ecdsa-p256"; comp_key_id := kid; comp_value := hex_encode sig |}]).
  rewrite (Heq (hex_encode sig)) by (apply hex_encode_plain || (rewrite str_len_hex_encode; lia)).
  rewrite len_cons, len_app. change (str_len "signature") with 9.
  change (len (as_bytes "signature")) with 9. change (len [quote; ":"%char]) with 2. lia.
Qed.

Lemma event_signed_message_fields {E} f :
  signed_message (E := E) DOMAIN_PREFIX_V1 (unsigned_document f) = Ok (fields_message f).
Proof.
  unfold fields_message. rewrite (unsigned_document_wire f "" ""). apply event_signed_message_of.
Qed.

(** The size test of the sealing side is the test of the size of the sealed bytes. *)
Lemma validate_size_ok f kid sig :
  len sig = 64 →
  validate_size (unsigned_document f) kid =
  if len (to_vec (canon (Object (full_document (wire_of f kid (hex_encode sig)))))) <=? MAX_BYTES
  then Ok tt else Err (InvalidFields "size").
Proof.
  intros Hs. unfold validate_size.
  rewrite canonical_bytes_canon by (rewrite (unsigned_document_wire f "" ""); apply event_unsigned_sortable).
  cbn [res_bind]. rewrite (sealed_len f kid sig Hs). cbn [res_bind].
  rewrite Z.leb_antisym.
  match goal with |- context [?a + (?b - ?a)] => by replace (a + (b - a)) with b by lia end.
Qed.

(** Every branch of [seal]: a refusal leaves the signer untouched; otherwise it is
    called once, on the digest of the message. *)
Lemma event_seal_eq (self : AuditSealer P) f :
  seal self f =
  match prepare self f with
  | Ok _ =>
      let '(p, r) := sign_digest (pool self) (key self) EcdsaP256Sha256 (sha256 (fields_message f)) in
      (p, match r with
          | Ok s => Ok {| bytes_of := to_vec (canon (Object (full_document
                            (wire_of f (key_id self) (hex_encode (sig_bytes s)))))) |}
          | Err _ => Err SealingUnavailable
          | Panic => Panic
          end)
  | Err e => (pool self, Err e)
  | Panic => (pool self, Panic)
  end.
Proof.
  unfold seal. destruct (prepare self f) as [[u m]|e|] eqn:Hp; [|done|done].
  assert (u = unsigned_document f ∧ m = fields_message f) as [-> ->].
  { revert Hp. unfold prepare. destruct (validate_decision_coupling _ _); [|done|done].
    cbn [res_bind]. destruct (validate_size _ _); [|done|done]. cbn [res_bind].
    rewrite event_signed_message_fields. cbn [res_bind]. by intros [= -> ->]. }
  destruct (sign_digest _ _ _ _) as [p [s|e|]]; [|done|done]. cbn [map_err res_bind].
  rewrite (unsigned_document_wire f (key_id self) (hex_encode (sig_bytes s))).
  change (signed_document _ _ _) with (full_document
    (wire_of f (key_id self) (hex_encode (sig_bytes s)))).
  by rewrite canonical_bytes_canon by apply event_full_document_sortable.
Qed.

Lemma prepare_eq (self : AuditSealer P) f :
  prepare self f =
  let! _ := validate_decision_coupling (event_type f) (decision f) in
  let! _ := validate_size (unsigned_document f) (key_id self) in
  Ok (unsigned_document f, fields_message f).
Proof.
  unfold prepare. destruct (validate_decision_coupling _ _); [|done|done]. cbn [res_bind].
  destruct (validate_size _ _); [|done|done]. cbn [res_bind]. by rewrite event_signed_message_fields.
Qed.

(** The verifier's decision on a well-signed event that passed the sealing guards. *)
Lemma event_verify_genuine f k sig keys policy :
  let doc := wire_of f (avk_key_id k) (hex_encode sig) in
  typed_fields f → coupling_ok f = true →
  len (to_vec (canon (Object (full_document doc)))) ≤ MAX_BYTES →
  find_key keys (avk_key_id k) = Some k →
  p256_verify (avk_raw k) (fields_message f) sig = true →
  verify keys (to_vec (canon (Object (full_document doc)))) policy = policy_decision policy f.
Proof.
  intros doc Hty Hcpl Hsz Hk Hv. pose proof (wire_of_typed f (avk_key_id k) (hex_encode sig) Hty) as Hw.
  assert (from_slice (to_vec (canon (Object (full_document doc)))) ≫= de_WireDocument
          = Some doc) as Hp.
  { rewrite from_slice_to_vec.
    - by apply event_de_full_document.
    - by apply wf_canon, event_full_document_wf.
    - rewrite depth_canon. apply event_full_document_depth. }
  unfold verify. rewrite (proj2 (Z.leb_le _ _)), Hp by done. cbn [ok_or res_bind].
  change (w_schema_version doc =? 1) with true. cbn match. unfold policy_decision.
  change (ws_suite (w_signature doc)) with SUITE_V1.
  destruct (bool_decide (SUITE_V1 ∈ accepted_suites policy)); [|done]. cbn [negb].
  unfold doc at 1 2 3. cbn [w_event_type w_actor w_outcome wire_of wa_kind wire_actor].
  rewrite event_type_of_to, actor_kind_of_to, outcome_of_to. cbn [ok_or res_bind].
  assert (decision_coupled (event_type f) (w_decision doc)) as Hdc.
  { unfold coupling_ok in Hcpl. bool_simp. unfold doc. cbn [w_decision wire_of].
    destruct Hty as [_ Hty]. destruct (decision f) as [d|]; simpl in *; [|done]. bool_simp.
    split_and!; [done | by unfold len in *; rewrite length_fmap |].
    rewrite hex_decode_encode. eexists. split; [done|]. by apply Hty. }
  apply check_decision_coupled in Hdc as [Hreq Hchk]. rewrite bool_decide_true, Hchk by done.
  cbn [res_bind].
  change (required_components SUITE_V1) with (Ok (E := VerifyError) REQUIRED_COMPONENTS_V1).
  change (domain_prefix_for SUITE_V1) with (Ok (E := VerifyError) DOMAIN_PREFIX_V1).
  cbn [res_bind]. change (wrong_arity _ _) with false. cbn [negb].
  rewrite canonical_bytes_canon by apply event_full_document_sortable. cbn [res_bind].
  rewrite bool_decide_true by done. rewrite event_signed_message_of. cbn [res_bind].
  assert (message_of doc = fields_message f) as ->
    by (unfold fields_message; rewrite (unsigned_document_wire f (avk_key_id k) (hex_encode sig)); done).
  unfold doc at 1. cbn [check_components w_signature ws_components wire_of comp_key_id comp_value].
  rewrite Hk, hex_decode_encode. cbn [ok_or res_bind]. rewrite Hv. cbn [andb].
  change (w_authority_domain doc) with (as_str (authority_domain f)).
  destruct (bool_decide (as_str _ = _)); [|done]. cbn [negb].
  change (w_prev_hash doc) with (hex_encode (prev_hash f)). rewrite hex_decode_encode.
  cbn [ok_or res_bind]. destruct Hty as [Hph _]. rewrite (proj2 (Z.eqb_eq _ _)) by done. done.
Qed.
End roundtrip.

(** ** The signed message commits to the event *)

(** What the generated deserializers guarantee of integers. *)
Lemma de_decision_typed v d n :
  de_decision v = Some d → wd_granted_ttl_seconds d = Some n → in_u64 n.
Proof.
  unfold de_decision. intros Hd Hn. destruct (struct_fields _ _ _) as [l|]; [|done]. simpl in Hd.
  do 7 (destruct l as [|? l]; [done|]). destruct l; [|done].
  unfold required in Hd. simplify_option_eq.
  match goal with H : optional de_u64 ?o = Some _ |- _ => destruct o; simpl in H; [|simplify_eq] end.
  by eapply de_option_u64_range.
Qed.

Lemma de_WireDocument_typed v doc :
  w_schema_version doc = 1 → de_WireDocument v = Some doc → typed_wire doc.
Proof.
  unfold de_WireDocument. intros Hv Hd. destruct (struct_fields _ _ _) as [l|]; [|done]. simpl in Hd.
  do 13 (destruct l as [|? l]; [done|]). destruct l; [|done].
  unfold required in Hd. simplify_option_eq. split_and!; cbn.
  - by cbv.
  - by eapply de_u64_range.
  - intros d n -> Hn.
    match goal with H : optional de_decision ?o = Some _ |- _ =>
      destruct o as [[]|]; simpl in H; simplify_option_eq end;
    by eapply de_decision_typed.
Qed.

Lemma event_message_of_inj `{SerdeJsonLaws} d1 d2 k :
  typed_wire d1 → typed_wire d2 → message_of d1 = message_of d2 →
  canon <$> map_get k (unsigned_document_from_wire d1) =
  canon <$> map_get k (unsigned_document_from_wire d2).
Proof.
  intros Hv1 Hv2 Heq. unfold message_of in Heq. do 2 apply app_inv_head in Heq.
  assert (∀ d, (depth (Object (unsigned_document_from_wire d)) ≤ 127)%nat) as Hdep.
  { intros d. etrans; [apply (members_ok_depth 4), unsigned_members_depth | lia]. }
  apply to_vec_canon_inj in Heq; [|by auto using members_ok_wf, unsigned_members_wf..].
  apply canon_map_get; [apply unsigned_ok | apply unsigned_ok | done].
Qed.

(** The members that [verify] returns, looked up in the unsigned document. *)
Lemma unsigned_get doc :
  map_get "event_id" (unsigned_document_from_wire doc) = Some (VString (w_event_id doc)) ∧
  map_get "sequence" (unsigned_document_from_wire doc) = Some (jint (w_sequence doc)) ∧
  map_get "prev_hash" (unsigned_document_from_wire doc) = Some (VString (w_prev_hash doc)) ∧
  map_get "occurred_at" (unsigned_document_from_wire doc) = Some (VString (w_occurred_at doc)) ∧
  map_get "authority_domain" (unsigned_document_from_wire doc) =
    Some (VString (w_authority_domain doc)) ∧
  map_get "event_type" (unsigned_document_from_wire doc) = Some (VString (w_event_type doc)).
Proof.
  unfold unsigned_document_from_wire.
  destruct (w_target doc), (w_context doc), (w_decision doc); cbn [map_insert_opt fmap option_fmap option_map];
    split_and!; reflexivity.
Qed.

(** ** Theorems *)

Section theorems.
Context `{SerdeJsonLaws, AwsLc}.

(** What the holder of the bytes of a successful [seal] can do with them. *)
Lemma sealed_event_verifies {P} `{HsmSigner P} (self : AuditSealer P) p' f sealed pk k keys policy
    (Hseal : seal self f = (p', Ok sealed))
    (Htyped : typed_fields f)
    (Hkey : signs_for (key self) pk)
    (Hacc : accept_verifying_key SUITE_V1 (key_id self) pk = Ok k)
    (Hfind : find_key keys (key_id self) = Some k) :
  len (bytes_of sealed) ≤ MAX_BYTES ∧
  verify keys (bytes_of sealed) policy = policy_decision policy f.
Proof.
  rewrite event_seal_eq in Hseal. destruct (prepare self f) as [u|e|] eqn:Hprep; [|done|done].
  destruct (sign_digest _ _ _ _) as [p [s|e|]] eqn:Hs; simplify_eq.
  apply Hkey in Hs as [Hlen Hv].
  rewrite prepare_eq, validate_decision_coupling_ok in Hprep.
  destruct (coupling_ok f) eqn:Hcpl; [|by destruct (bool_decide _)]. cbn [res_bind] in Hprep.
  rewrite (validate_size_ok f (key_id self) (sig_bytes s) Hlen) in Hprep.
  destruct (_ <=? MAX_BYTES) eqn:Hsz; [|done]. bool_simp.
  unfold accept_verifying_key, accept_verifying_key_for in Hacc. rewrite bool_decide_true in Hacc by done.
  destruct (sec1_malformed pk); simplify_eq/=. split; [done|].
  by apply (event_verify_genuine f {| avk_key_id := key_id self; avk_raw := pk |}).
Qed.

(** C2. A sealed event is always verifiable: for a sealer whose key answers to the accepted
    verifying key found under its identifier, the bytes of every successful [seal] stay
    within [MAX_BYTES], and [verify] returns on them the sealed event id, sequence,
    previous hash, date, domain and type, unless the policy refuses the suite or
    expects another authority domain. *)
Theorem event_seal_then_verify {P} `{HsmSigner P} (self : AuditSealer P) p' f sealed pk k keys policy
    (Hseal : seal self f = (p', Ok sealed))
    (Htyped : typed_fields f)
    (Hkey : signs_for (key self) pk)
    (Hacc : accept_verifying_key SUITE_V1 (key_id self) pk = Ok k)
    (Hfind : find_key keys (key_id self) = Some k) :
  len (bytes_of sealed) ≤ MAX_BYTES ∧
  verify keys (bytes_of sealed) policy = policy_decision policy f.
Proof. by eapply sealed_event_verifies. Qed.

(** C4. [verify] accepts exactly the events that satisfy [accepted] (size, strict parse,
    schema, known enumerations, decision present exactly when the event type requires it
    and bounded, canonical bytes, one valid component, domain, 32-byte hashes) and panics
    on no input. *)
Theorem event_verify_iff_accepted keys bs policy :
  (∀ va, verify keys bs policy = Ok va ↔ ∃ doc, accepted keys bs policy doc va) ∧
  verify keys bs policy ≠ Panic.
Proof.
  split; [|apply event_verify_never_panics]. intros va. split; [apply event_verify_sound|].
  intros (doc & Hacc). by eapply event_verify_complete.
Qed.

(** A refused coupling reaches no signer. *)
Lemma refuses_uncoupled {P} `{HsmSigner P} (self : AuditSealer P) f :
  coupling_ok f = false → ∃ field, seal self f = (pool self, Err (InvalidFields field)).
Proof.
  intros Hc. rewrite event_seal_eq, prepare_eq, validate_decision_coupling_ok, Hc.
  destruct (bool_decide _); by eexists.
Qed.

(** C7. Refusal precedes signature: whatever 64-byte signature would be produced, an event
    with a wrong [decision] coupling, too many reasons, or whose sealed bytes would exceed
    [MAX_BYTES] is refused without any call to the signer; any other event costs exactly
    one signing call, whose failure is the only way to fail. *)
Theorem refused_before_signing {P} `{HsmSigner P} (self : AuditSealer P) f sig (Hsig : len sig = 64) :
  let size := len (to_vec (canon (Object (full_document (wire_of f (key_id self) (hex_encode sig)))))) in
  let call := sign_digest (pool self) (key self) EcdsaP256Sha256 (sha256 (fields_message f)) in
  if coupling_ok f && (size <=? MAX_BYTES)
  then (seal self f).1 = call.1 ∧ is_ok (seal self f).2 = is_ok call.2
  else ∃ field, seal self f = (pool self, Err (InvalidFields field)).
Proof.
  intros size call. rewrite event_seal_eq, prepare_eq, validate_decision_coupling_ok.
  destruct (coupling_ok f); simpl; [|destruct (bool_decide _); by eexists].
  rewrite (validate_size_ok f (key_id self) sig Hsig). fold size.
  destruct (size <=? MAX_BYTES); simpl; [|by eexists].
  unfold call. by destruct (sign_digest _ _ _ _) as [p [s|e|]].
Qed.

(** C6. Authenticity: if the accepted keys verify only messages of events that were sealed,
    then an accepted event is one of them, returned with its own identifier, sequence,
    previous hash, date, domain and type. *)
Theorem accepted_event_was_sealed (sealed : list AuditEventFields) keys bs policy va
    (Htyped : ∀ f, f ∈ sealed → typed_fields f)
    (Hunforgeable : ∀ k m s, k ∈ keys → p256_verify (avk_raw k) m s = true →
       m ∈ map fields_message sealed)
    (Hver : verify keys bs policy = Ok va) :
  ∃ f, f ∈ sealed ∧ va = verified_fields f ∧
    as_str (authority_domain f) = expected_authority_domain policy.
Proof.
  apply event_verify_sound in Hver as (doc & [? Hp Hsv ? Het ? ? ? ? (cmp & _ & _ & Hval) Hdom [Hph Hpl]
    (Hr1 & Hr2 & Hr3 & Hr4)]).
  destruct (from_slice bs) as [v|]; [|done]. apply de_WireDocument_typed in Hp; [|done].
  destruct Hval as (k & s & Hk & _ & Hv). apply find_key_id in Hk as [_ Hk].
  apply Hunforgeable in Hv; [|done]. apply list_elem_of_fmap in Hv as (f & Hm & Hf).
  unfold fields_message in Hm. rewrite (unsigned_document_wire f "" "") in Hm.
  assert (typed_wire (wire_of f "" "")) as Hw by (by apply wire_of_typed, Htyped).
  exists f. split; [done|].
  destruct (unsigned_get doc) as (G1 & G2 & G3 & G4 & G5 & G6).
  destruct (unsigned_get (wire_of f "" "")) as (F1 & F2 & F3 & F4 & F5 & F6).
  pose proof (λ k, event_message_of_inj doc (wire_of f "" "") k Hp Hw Hm) as Hget.
  pose proof (Hget "event_id") as E1. pose proof (Hget "sequence") as E2.
  pose proof (Hget "prev_hash") as E3. pose proof (Hget "occurred_at") as E4.
  pose proof (Hget "authority_domain") as E5. pose proof (Hget "event_type") as E6.
  rewrite G1, F1 in E1. rewrite G2, F2 in E2. rewrite G3, F3 in E3. rewrite G4, F4 in E4.
  rewrite G5, F5 in E5. rewrite G6, F6 in E6.
  cbn [fmap option_fmap option_map] in *. rewrite !canon_jint in E2. cbn [canon] in *.
  injection E1 as E1. injection E3 as E3. injection E4 as E4. injection E5 as E5. injection E6 as E6.
  assert (w_sequence doc = seq_value (sequence f)) as E2'.
  { apply (f_equal (mbind de_u64)) in E2. cbn [mbind option_bind] in E2.
    rewrite !de_u64_jint in E2 by (apply Hp || apply Hw). by injection E2. }
  rewrite E3, hex_decode_encode in Hph. rewrite E6, event_type_of_to in Het.
  destruct va; simpl in *. unfold verified_fields. split; congruence.
Qed.
End theorems.

(** ** The theorems at concrete inputs *)

Definition ref_audit_sealer : AuditSealer nat :=
  let key := {| label := "zs-audit-seal-v1" |} in
  {| pool := 0%nat; key := key; key_id := key_id_from_public_key (ref_public_key key) |}.

Definition ref_decision : DecisionInfo := {|
  request_id := MkUuid (require_v7 := false) "01900000-0000-4000-8000-000000000001" eq_refl;
  decision_hash := replicate 32 (u8_of 7);
  policy_version := AsciiText (max_len := 256) "corpus-1" eq_refl;
  reasons := [AsciiText (max_len := 256) "policy0" eq_refl];
  granted_ttl_seconds := Some 300; decision_signature := Some (replicate 64 (u8_of 9));
  decision_signature_key_id := None |}.

Definition ref_fields : AuditEventFields := {|
  event_id := MkUuid (require_v7 := true) "01900000-0000-7000-8000-000000000000" eq_refl;
  sequence := MkSequence 3 eq_refl; prev_hash := replicate 32 (u8_of 5);
  occurred_at := MkTimestamp "2026-01-01T00:00:00Z" eq_refl;
  authority_domain := AsciiText (max_len := 128) "prod" eq_refl; event_type := PolicyDecided;
  actor := {| actor_subject_id := AsciiText (max_len := 256) "alice" eq_refl; actor_kind := Human;
              actor_aal := Some Aal2; actor_auth_method := None |};
  target := None; outcome := Success;
  context := Some {| source_network := None; ticket_ref := None; justification := None |};
  decision := Some ref_decision |}.

Definition ref_audit_policy : AcceptancePolicy :=
  {| accepted_suites := [SUITE_V1]; expected_authority_domain := "prod" |}.

Definition ref_audit_key : AcceptedVerifyingKey :=
  {| avk_key_id := key_id ref_audit_sealer; avk_raw := ref_public_key (key ref_audit_sealer) |}.

Lemma ref_fields_typed : typed_fields ref_fields.
Proof.
  split; [done|]. intros d [= <-]. split; [done|]. intros n [= <-]. by cbv.
Qed.

Definition ref_event_doc : WireDocument :=
  wire_of ref_fields (key_id ref_audit_sealer)
    (hex_encode (fold_digest (fields_message ref_fields) ++
                 take 32 (drop 1 (ref_public_key (key ref_audit_sealer))))).
Definition ref_sealed_event : SealedAuditEvent :=
  {| bytes_of := to_vec (canon (Object (full_document ref_event_doc))) |}.

Lemma ref_event_fits :
  coupling_ok ref_fields && (len (to_vec (canon (Object (full_document (wire_of ref_fields
    (key_id ref_audit_sealer) (hex_encode (replicate 64 (u8_of 0)))))))) <=? MAX_BYTES) = true.
Proof. vm_compute. reflexivity. Qed.

Lemma ref_event_sealed : seal ref_audit_sealer ref_fields = (1%nat, Ok ref_sealed_event).
Proof.
  pose proof ref_event_fits as [Hc Hs]%andb_true_iff.
  rewrite event_seal_eq, prepare_eq, validate_decision_coupling_ok, Hc. cbn [res_bind].
  rewrite (validate_size_ok ref_fields _ (replicate 64 (u8_of 0))), Hs by done. reflexivity.
Qed.

Lemma event_seal_then_verify_witness :
  verify [ref_audit_key] (bytes_of ref_sealed_event) ref_audit_policy =
  Ok (verified_fields ref_fields).
Proof.
  destruct (event_seal_then_verify ref_audit_sealer 1%nat ref_fields ref_sealed_event
    (ref_public_key (key ref_audit_sealer)) ref_audit_key [ref_audit_key] ref_audit_policy) as [_ ->].
  - apply ref_event_sealed.
  - apply ref_fields_typed.
  - apply ref_signs_for.
  - vm_compute. reflexivity.
  - apply (find_key_head ref_audit_key).
  - vm_compute. reflexivity.
Defined.

(** An event without the decision that its type requires. *)
Definition ref_uncoupled : AuditEventFields := {|
  event_id := event_id ref_fields; sequence := sequence ref_fields; prev_hash := prev_hash ref_fields;
  occurred_at := occurred_at ref_fields; authority_domain := authority_domain ref_fields;
  event_type := PolicyDecided; actor := actor ref_fields; target := None; outcome := Success;
  context := None; decision := None |}.

Lemma refused_before_signing_witness :
  (seal ref_audit_sealer ref_fields).1 = 1%nat ∧
  ∃ field, seal ref_audit_sealer ref_uncoupled = (0%nat, Err (InvalidFields field)).
Proof.
  pose proof (refused_before_signing ref_audit_sealer ref_fields (replicate 64 (u8_of 0)) eq_refl) as H1.
  pose proof (refused_before_signing ref_audit_sealer ref_uncoupled (replicate 64 (u8_of 0)) eq_refl) as H2.
  cbv zeta in H1, H2. rewrite ref_event_fits in H1. split; [exact (proj1 H1) | exact H2].
Defined.

Lemma accepted_event_was_sealed_witness :
  let aws := one_message_aws (fields_message ref_fields) in
  ∃ f bs, verify [ref_audit_key] bs ref_audit_policy = Ok (verified_fields ref_fields) ∧
    f ∈ [ref_fields] ∧ verified_fields ref_fields = verified_fields f.
Proof.
  intros aws.
  assert (∃ bs, verify [ref_audit_key] bs ref_audit_policy = Ok (verified_fields ref_fields))
    as [bs V].
  { eexists. etrans; [apply (event_verify_genuine ref_fields ref_audit_key (replicate 64 (u8_of 0)))|].
    - apply ref_fields_typed.
    - done.
    - by vm_compute.
    - apply find_key_head.
    - by apply bool_decide_eq_true.
    - vm_compute. reflexivity. }
  destruct (accepted_event_was_sealed [ref_fields] [ref_audit_key] bs ref_audit_policy
    (verified_fields ref_fields)) as (f & Hf & Hva & _); [| | exact V | by exists f, bs].
  - intros f ->%list_elem_of_singleton. apply ref_fields_typed.
  - intros k m s _ Hm%bool_decide_eq_true. rewrite Hm. left.
Defined.

Lemma event_verify_iff_accepted_witness : verify [ref_audit_key] (as_bytes "{}") ref_audit_policy ≠ Panic.
Proof. apply (event_verify_iff_accepted [ref_audit_key] (as_bytes "{}") ref_audit_policy). Defined.
