(* ===== verification/AuthProof.v ===== *)
(** * [crates/zs-crypto/src/authenticator_proof.rs]: suite [authenticator-proof/v1]

    Acceptance of an authenticator's public key, verification of a proof of
    possession under the algorithm of the registered key, ceremony challenges. *)

From S2P Require Import Prelude.
From S2P Require Import Aws.

Definition SUITE_V1 : string := "authenticator-proof/v1".

Inductive Algorithm := Es256 | EdDsa.
#[export] Instance algorithm_eq_dec : EqDecision Algorithm.
Proof. solve_decision. Defined.

Record PublicKeyMaterial := { pkm_algorithm : Algorithm; pkm_raw : bytes }.
Record AcceptedKey := { ak_algorithm : Algorithm; ak_raw : bytes }.

(** [Verified(())]: no content, only [verify] makes one. *)
Inductive Verified := MkVerified.

Inductive Error :=
| UnknownSuite
| MalformedKey
| InvalidSignature
| MalformedChallenge.

Definition expected_len (a : Algorithm) : Z := match a with Es256 => 65 | EdDsa => 32 end.

Definition accept_key (suite : string) (material : PublicKeyMaterial) : res AcceptedKey Error :=
  guard! bool_decide (suite = SUITE_V1) else UnknownSuite in
  guard! len (pkm_raw material) =? expected_len (pkm_algorithm material) else MalformedKey in
  guard! negb (bool_decide (pkm_algorithm material = Es256) &&
               negb (bool_decide (pkm_raw material !! 0%nat = Some (u8_of 4)))) else MalformedKey in
  Ok {| ak_algorithm := pkm_algorithm material; ak_raw := pkm_raw material |}.

Definition verify `{AwsLc} (key : AcceptedKey) (message signature : bytes) : res Verified Error :=
  let ok := match ak_algorithm key with
            | Es256 => p256_verify (ak_raw key) message signature
            | EdDsa => ed25519_verify (ak_raw key) message signature
            end in
  guard! ok else InvalidSignature in Ok MkVerified.

(** ** Challenges *)

Record Challenge := { ch_bytes : bytes }.
Definition challenge_as_bytes (c : Challenge) : bytes := ch_bytes c.
Definition CHALLENGE_LEN : Z := 32.

(** [SystemRandom::fill] on a buffer of [n] bytes: the state of the generator, and the
    bytes drawn unless the generator is unavailable. *)
Class Csprng (R : Type) := {
  fill : R → Z → R * option bytes;
  fill_length r n r' bs : fill r n = (r', Some bs) → len bs = n;
}.

(** An unavailable generator is a panic: [expect]. *)
Definition new_challenge `{Csprng R} (rng : R) : R * res Challenge Error :=
  let '(rng, o) := fill rng CHALLENGE_LEN in
  (rng, let! bs := unwrap o in Ok {| ch_bytes := bs |}).

Definition accept_challenge (suite : string) (bs : bytes) : res Challenge Error :=
  guard! bool_decide (suite = SUITE_V1) else UnknownSuite in
  guard! len bs =? CHALLENGE_LEN else MalformedChallenge in
  Ok {| ch_bytes := bs |}.

(** [ct_eq]: equality of contents and lengths. *)
Definition challenge_matches (expected : Challenge) (presented : bytes) : bool :=
  bool_decide (ch_bytes expected = presented).

(** [sha256] of this file is the same façade as the one of [common.rs]. *)
Definition sha256 `{AwsLc} (data : bytes) : bytes := sha256_digest data.

(** ** Lemmas *)

Lemma accept_key_Ok suite m k :
  accept_key suite m = Ok k ↔
  suite = SUITE_V1 ∧ len (pkm_raw m) = expected_len (pkm_algorithm m) ∧
  (pkm_algorithm m = Es256 → pkm_raw m !! 0%nat = Some (u8_of 4)) ∧
  k = {| ak_algorithm := pkm_algorithm m; ak_raw := pkm_raw m |}.
Proof.
  unfold accept_key. case_bool_decide; [|naive_solver].
  destruct (len _ =? _) eqn:Hl; bool_simp; [|naive_solver].
  destruct (pkm_algorithm m) eqn:Ha; simpl.
  - destruct (decide (pkm_raw m !! 0%nat = Some (u8_of 4))) as [Hz|Hz];
      [rewrite bool_decide_true by done | rewrite bool_decide_false by done]; simpl; naive_solver.
  - naive_solver.
Qed.

Lemma accept_key_no_panic suite m : accept_key suite m ≠ Panic.
Proof. unfold accept_key. repeat (case_match; try done). Qed.

Lemma proof_verify_Ok `{AwsLc} k m s v :
  verify k m s = Ok v ↔
  match ak_algorithm k with
  | Es256 => p256_verify (ak_raw k) m s
  | EdDsa => ed25519_verify (ak_raw k) m s
  end = true.
Proof. unfold verify. destruct v, (ak_algorithm k); by case_match. Qed.

Lemma proof_verify_no_panic `{AwsLc} k m s : verify k m s ≠ Panic.
Proof. unfold verify. by case_match; case_match. Qed.

Lemma accept_challenge_Ok suite bs c :
  accept_challenge suite bs = Ok c ↔ suite = SUITE_V1 ∧ len bs = 32 ∧ c = {| ch_bytes := bs |}.
Proof.
  unfold accept_challenge, CHALLENGE_LEN. case_bool_decide; [|naive_solver].
  destruct (len bs =? 32) eqn:Hl; bool_simp; naive_solver.
Qed.

Lemma challenge_matches_true c p : challenge_matches c p = true ↔ ch_bytes c = p.
Proof. unfold challenge_matches. by rewrite bool_decide_eq_true. Qed.

