(* ===== verification/DecisionBinding.v ===== *)
(** * [crates/zs-crypto/src/decision_binding.rs]: [decision-binding/v1]

    The digest of a decision request and the digest of a policy corpus, with the
    framing that makes the corpus message unambiguous. *)

From S2P Require Import Prelude.
From S2P Require Import Json.
From S2P Require Import JsonCodec.
From S2P Require Import Aws.
From S2P Require Import Common.

Definition SUITE_V1 : string := "decision-binding/v1".

Record DecisionBinding := { db_suite : string; db_digest : bytes }.
Definition binding_as_bytes (b : DecisionBinding) : bytes := db_digest b.

(** [format!("{}:{}", self.suite, hex_encode(&self.digest))] *)
Definition to_hex_string (b : DecisionBinding) : string :=
  db_suite b +:+ ":" +:+ hex_encode (db_digest b).

(** [format!("{SUITE_V1}/request\0")] and [format!("{SUITE_V1}/policy-corpus\0")] *)
Definition request_prefix : bytes := as_bytes "decision-binding/v1/request" ++ [u8_of 0].
Definition corpus_prefix : bytes := as_bytes "decision-binding/v1/policy-corpus" ++ [u8_of 0].

Definition bind_request `{SerdeJson, AwsLc} {E} (request : value) : res DecisionBinding E :=
  let! doc := canonical_bytes request in
  Ok {| db_suite := SUITE_V1; db_digest := sha256 (request_prefix ++ doc) |}.

(** What [bind_request] hashes. *)
Definition request_message `{SerdeJson} (request : value) : bytes :=
  request_prefix ++ to_vec (canon request).

(** ** Policy corpus *)

Record CorpusFile := { relative_path : string; contents : string }.

Inductive CorpusBindingError :=
| InvalidEncoding (path : string)
| InvalidPath (path : string).

(** The UTF-8 encoding of U+FEFF. *)
Definition bom : bytes := [u8_of 239; u8_of 187; u8_of 191].

Definition starts_with (p s : bytes) : bool := bool_decide (take (length p) s = p).

(** One turn of the first loop. *)
Definition check_file (f : CorpusFile) : res unit CorpusBindingError :=
  let path := as_bytes (relative_path f) in
  guard! negb (existsb (λ b, bool_decide (b = u8_of 92)) path || starts_with ["/"%char] path)
    else InvalidPath (relative_path f) in
  guard! negb (starts_with bom (as_bytes (contents f))) else InvalidEncoding (relative_path f) in
  Ok tt.

(** Order of [sort_unstable_by]: byte order of the paths.  Files with the same path come
    in an order that the standard library leaves open; the theorems ask for distinct
    paths. *)
Definition path_le (a b : CorpusFile) : Prop := String.le (relative_path a) (relative_path b).
#[export] Instance path_le_dec a b : Decision (path_le a b).
Proof. unfold path_le. apply _. Defined.
#[export] Instance path_le_total : Total path_le.
Proof. intros a b. apply String.le_total. Qed.
#[export] Instance path_le_trans : Transitive path_le.
Proof. intros a b c. unfold path_le. intros. by etrans. Qed.

(** A length on eight bytes, then the text. *)
Definition framed (s : string) : bytes := to_be_bytes 8 (str_len s) ++ as_bytes s.
Definition file_bytes (f : CorpusFile) : bytes := framed (relative_path f) ++ framed (contents f).

Definition corpus_message (schema engine : string) (sorted : list CorpusFile) : bytes :=
  corpus_prefix ++ as_bytes "cedar-policy=" ++ as_bytes engine ++ [u8_of 0] ++
  framed schema ++ to_be_bytes 8 (len sorted) ++ concat (map file_bytes sorted).

Definition bind_policy_corpus `{AwsLc} (schema engine : string) (files : list CorpusFile) :
    res DecisionBinding CorpusBindingError :=
  let! _ := try_map check_file files in
  let sorted := merge_sort path_le files in
  Ok {| db_suite := SUITE_V1; db_digest := sha256 (corpus_message schema engine sorted) |}.

(** ** Lemmas: framing *)

(** Sizes that a [u64] can hold: every text in memory. *)
Definition fits (s : string) : Prop := str_len s ≤ u64_max.
Definition file_fits (f : CorpusFile) : Prop := fits (relative_path f) ∧ fits (contents f).

Lemma to_be_bytes_8_inj m n : 0 ≤ m ≤ u64_max → 0 ≤ n ≤ u64_max → to_be_bytes 8 m = to_be_bytes 8 n → m = n.
Proof.
  intros Hm Hn. apply to_be_bytes_inj; change (256 ^ Z.of_nat 8) with (u64_max + 1); lia.
Qed.

Lemma framed_inj s t r1 r2 :
  fits s → fits t → framed s ++ r1 = framed t ++ r2 → s = t ∧ r1 = r2.
Proof.
  unfold framed, fits. intros Hs Ht Heq. rewrite <- !app_assoc in Heq.
  apply app_inj_1 in Heq as [Hl Heq]; [|by rewrite !length_to_be_bytes].
  apply to_be_bytes_8_inj in Hl; [|by auto using str_len_nonneg..].
  apply app_inj_1 in Heq as [Hb Hr].
  - split; [by apply as_bytes_inj | done].
  - rewrite !length_as_bytes. unfold str_len in Hl. lia.
Qed.

Lemma file_bytes_inj f g r1 r2 :
  file_fits f → file_fits g → file_bytes f ++ r1 = file_bytes g ++ r2 → f = g ∧ r1 = r2.
Proof.
  intros [Hf1 Hf2] [Hg1 Hg2]. unfold file_bytes. rewrite <- !app_assoc. intros Heq.
  apply framed_inj in Heq as [Hp Heq]; [|done|done].
  apply framed_inj in Heq as [Hc Hr]; [|done|done].
  split; [|done]. destruct f, g; simpl in *; by subst.
Qed.

Lemma files_inj l1 l2 :
  Forall file_fits l1 → Forall file_fits l2 → length l1 = length l2 →
  concat (map file_bytes l1) = concat (map file_bytes l2) → l1 = l2.
Proof.
  intros H1 H2. revert l2 H2. induction H1 as [|f l1 Hf H1 IH]; intros [|g l2] H2 Hlen Heq; try done.
  inversion H2; subst. simpl in Heq. apply file_bytes_inj in Heq as [-> Heq]; [|done|done].
  f_equal. by apply IH; [|injection Hlen|].
Qed.

(** A text without a zero byte, closed by one, can be read off the front. *)
Lemma zero_terminated_inj (a b r1 r2 : bytes) :
  u8_of 0 ∉ a → u8_of 0 ∉ b → a ++ [u8_of 0] ++ r1 = b ++ [u8_of 0] ++ r2 → a = b ∧ r1 = r2.
Proof.
  revert b. induction a as [|x a IH]; intros [|y b] Ha Hb Heq; simpl in Heq.
  - by injection Heq.
  - injection Heq as <- _. exfalso. apply Hb. left.
  - injection Heq as -> _. exfalso. apply Ha. left.
  - injection Heq as <- Heq. rewrite not_elem_of_cons in Ha, Hb.
    destruct (IH b) as [-> ->]; [tauto | tauto | done | done].
Qed.

Lemma corpus_message_inj s1 e1 l1 s2 e2 l2 :
  u8_of 0 ∉ as_bytes e1 → u8_of 0 ∉ as_bytes e2 → fits s1 → fits s2 →
  Forall file_fits l1 → Forall file_fits l2 → len l1 ≤ u64_max → len l2 ≤ u64_max →
  corpus_message s1 e1 l1 = corpus_message s2 e2 l2 → s1 = s2 ∧ e1 = e2 ∧ l1 = l2.
Proof.
  intros He1 He2 Hs1 Hs2 Hf1 Hf2 Hl1 Hl2. unfold corpus_message. intros Heq.
  do 2 apply app_inv_head in Heq.
  apply zero_terminated_inj in Heq as [He Heq]; [|done|done].
  apply framed_inj in Heq as [Hs Heq]; [|done|done].
  apply app_inj_1 in Heq as [Hl Heq]; [|by rewrite !length_to_be_bytes].
  apply to_be_bytes_8_inj in Hl; [|by auto using len_nonneg..].
  split_and!; [done | by apply as_bytes_inj | apply files_inj; [done|done| |done]].
  unfold len in Hl. lia.
Qed.

Lemma path_sort_unique l1 l2 :
  NoDup (map relative_path l1) → l1 ≡ₚ l2 → merge_sort path_le l1 = merge_sort path_le l2.
Proof.
  intros Hnd Hp. apply (Sorted_unique_strong path_le).
  - intros f g. rewrite !merge_sort_Permutation, <- Hp. intros Hf Hg H1 H2.
    assert (relative_path f = relative_path g) as Heq by (by apply (anti_symm String.le)).
    apply list_elem_of_lookup in Hf as [i Hi]. apply list_elem_of_lookup in Hg as [j Hj].
    assert (i = j) as ->; [|congruence].
    eapply (NoDup_lookup _ i j _ Hnd).
    + rewrite list_lookup_fmap. by rewrite Hi.
    + rewrite list_lookup_fmap, Hj. simpl. congruence.
  - apply Sorted_merge_sort, _.
  - apply Sorted_merge_sort, _.
  - by rewrite !merge_sort_Permutation.
Qed.

Lemma check_files_Ok l :
  is_ok (try_map check_file l) = true ↔ Forall (λ f, check_file f = Ok tt) l.
Proof.
  induction l as [|f l IH]; simpl; [by split; [intros; apply Forall_nil_2|]|].
  rewrite Forall_cons. destruct (check_file f) as [[]| |]; simpl; [|naive_solver|naive_solver].
  destruct (try_map check_file l); simpl in *; naive_solver.
Qed.

Lemma bind_policy_corpus_Ok `{AwsLc} schema engine files b :
  bind_policy_corpus schema engine files = Ok b ↔
  Forall (λ f, check_file f = Ok tt) files ∧
  b = {| db_suite := SUITE_V1;
         db_digest := sha256 (corpus_message schema engine (merge_sort path_le files)) |}.
Proof.
  rewrite <- check_files_Ok. unfold bind_policy_corpus.
  destruct (try_map check_file files); simpl; naive_solver.
Qed.

(** ** Theorems *)

(** The corpus digest commits to the schema, the engine version and the exact set of
    files: two accepted corpora with the same binding have equal schema and version and
    hold the same paths with the same contents, or their two messages collide.  Moving
    text between files, renaming a file or splitting one changes the binding. *)
Theorem corpus_binding_commits `{AwsLc} s1 e1 fs1 s2 e2 fs2 b
    (Hok1 : bind_policy_corpus s1 e1 fs1 = Ok b) (Hok2 : bind_policy_corpus s2 e2 fs2 = Ok b)
    (He1 : u8_of 0 ∉ as_bytes e1) (He2 : u8_of 0 ∉ as_bytes e2)
    (Hs : fits s1 ∧ fits s2) (Hf1 : Forall file_fits fs1) (Hf2 : Forall file_fits fs2)
    (Hlen : len fs1 ≤ u64_max ∧ len fs2 ≤ u64_max) :
  (s1 = s2 ∧ e1 = e2 ∧ fs1 ≡ₚ fs2) ∨
  sha256_collide (corpus_message s1 e1 (merge_sort path_le fs1))
    (corpus_message s2 e2 (merge_sort path_le fs2)).
Proof.
  apply bind_policy_corpus_Ok in Hok1 as [_ ->]. apply bind_policy_corpus_Ok in Hok2 as [_ Hb].
  injection Hb as Hb. apply sha256_inj_or in Hb as [Hm|?]; [|by right]. left.
  destruct Hs as [Hs1 Hs2], Hlen as [Hl1 Hl2].
  apply corpus_message_inj in Hm as (-> & -> & Heq); try done.
  - split_and!; [done|done|].
    by rewrite <- (merge_sort_Permutation path_le fs1), Heq, merge_sort_Permutation.
  - by rewrite merge_sort_Permutation.
  - by rewrite merge_sort_Permutation.
  - unfold len. by rewrite (merge_sort_Permutation path_le fs1).
  - unfold len. by rewrite (merge_sort_Permutation path_le fs2).
Qed.

(** The binding does not depend on the order in which the files were read: a corpus with
    distinct paths has the same binding, or is refused, in whatever order it is listed;
    and it is refused exactly when some path holds a backslash or is absolute or some
    text starts with a byte order mark. *)
Theorem corpus_binding_order_independent `{AwsLc} schema engine fs1 fs2
    (Hdistinct : NoDup (map relative_path fs1)) (Hperm : fs1 ≡ₚ fs2) :
  (∀ b, (bind_policy_corpus schema engine fs1 = Ok b) ↔ (bind_policy_corpus schema engine fs2 = Ok b)) ∧
  (is_ok (bind_policy_corpus schema engine fs1) = true ↔
   ∀ f, f ∈ fs1 → (u8_of 92 ∉ as_bytes (relative_path f)) ∧
     starts_with ["/"%char] (as_bytes (relative_path f)) = false ∧
     starts_with bom (as_bytes (contents f)) = false).
Proof.
  split.
  - intros b. rewrite !bind_policy_corpus_Ok, (path_sort_unique fs1 fs2) by done. by rewrite Hperm.
  - unfold bind_policy_corpus. transitivity (is_ok (try_map check_file fs1) = true);
      [by destruct (try_map check_file fs1)|].
    rewrite check_files_Ok, Forall_forall. apply forall_proper. intros f. apply forall_proper. intros _.
    unfold check_file. rewrite <- (negb_involutive (existsb _ _ || _)), negb_orb.
    assert (existsb (λ b, bool_decide (b = u8_of 92)) (as_bytes (relative_path f)) = false ↔
            u8_of 92 ∉ as_bytes (relative_path f)) as <-.
    { rewrite <- not_true_iff_false, existsb_exists. split.
      - intros Hn Hin. apply Hn. exists (u8_of 92). split; [by apply list_elem_of_In | by apply bool_decide_eq_true].
      - intros Hn (x & Hin & ->%bool_decide_eq_true). by apply Hn, list_elem_of_In. }
    destruct (existsb _ _), (starts_with ["/"%char] _), (starts_with bom _); simpl; naive_solver.
Qed.

(** The request digest commits to the request document: two requests with the same
    binding are the same document up to the order of object members, or the two
    canonical texts collide; and a request with the binding of a corpus collides with it. *)
Theorem request_binding_commits `{SerdeJsonLaws, AwsLc} (r1 r2 : value) schema engine files
    (Hw : wf_value r1 = true ∧ wf_value r2 = true) (Hd : (depth r1 ≤ 127 ∧ depth r2 ≤ 127)%nat) :
  (bind_request (E := unit) r1 = bind_request r2 → veq r1 r2 ∨ sha256_collide (request_message r1) (request_message r2)) ∧
  (∀ b, bind_request (E := unit) r1 = Ok b → bind_policy_corpus schema engine files = Ok b →
        sha256_collide (request_message r1) (corpus_message schema engine (merge_sort path_le files))).
Proof.
  destruct Hw as [Hw1 Hw2], Hd as [Hd1 Hd2]. unfold bind_request.
  rewrite !canonical_bytes_canon by (by apply wf_sortable). cbn [res_bind]. split.
  - intros [= Hs]. apply sha256_inj_or in Hs as [Hs|?]; [|by right]. left.
    apply (app_inv_head request_prefix) in Hs. apply canon_veq; [done|done|]. by apply to_vec_canon_inj.
  - intros b [= <-] Hc. apply bind_policy_corpus_Ok in Hc as [_ Hc]. injection Hc as Hc.
    apply sha256_inj_or in Hc as [Hc|?]; [|done]. exfalso. unfold request_message in Hc.
    apply (f_equal (λ l, l !! 20%nat)) in Hc. unfold corpus_message, request_prefix, corpus_prefix in Hc.
    discriminate Hc.
Qed.

(** ** The theorems at concrete inputs *)

Definition ref_files : list CorpusFile :=
  [{| relative_path := "b.cedar"; contents := "permit" |};
   {| relative_path := "a.cedar"; contents := "forbid" |}].

Lemma ref_files_fit l : l ≡ₚ ref_files → Forall file_fits l.
Proof. intros ->. repeat constructor; by cbv. Qed.

Lemma corpus_binding_commits_witness :
  ∃ b, bind_policy_corpus "schema" "4.0" ref_files = Ok b ∧
    bind_policy_corpus "schema" "4.0" (rev ref_files) = Ok b ∧
    ref_files ≡ₚ rev ref_files.
Proof.
  eexists. split; [reflexivity|]. assert (bind_policy_corpus "schema" "4.0" (rev ref_files) =
    bind_policy_corpus "schema" "4.0" ref_files) as Hr by (vm_compute; reflexivity).
  split; [rewrite Hr; reflexivity|].
  edestruct (corpus_binding_commits "schema" "4.0" ref_files "schema" "4.0" (rev ref_files))
    as [(_ & _ & Hp)|[Hne _]]; [reflexivity | rewrite Hr; reflexivity | | | | | | | exact Hp |].
  - by apply (bool_decide_unpack _).
  - by apply (bool_decide_unpack _).
  - by split; cbv.
  - by apply ref_files_fit.
  - apply ref_files_fit. symmetry. apply Permutation_rev.
  - by split; cbv.
  - exfalso. apply Hne. vm_compute. reflexivity.
Defined.

Lemma corpus_binding_order_independent_witness :
  is_ok (bind_policy_corpus "schema" "4.0" ref_files) = true.
Proof.
  destruct (corpus_binding_order_independent "schema" "4.0" ref_files (rev ref_files)) as [_ Hok].
  - by apply (bool_decide_unpack _).
  - apply Permutation_rev.
  - apply Hok. apply Forall_forall. repeat (apply Forall_cons_2; [split_and!; [by apply (bool_decide_unpack _)|done|done]|]).
    apply Forall_nil_2.
Defined.

Definition ref_request : value := Object [("b", VString "1"); ("a", jint 2)].

Lemma request_binding_commits_witness :
  veq ref_request ref_request ∨ sha256_collide (request_message ref_request) (request_message ref_request).
Proof.
  destruct (request_binding_commits ref_request ref_request "s" "4" []) as [Hr _];
    [done | split; cbn; lia |]. by apply Hr.
Defined.
