(* ===== verification/DecisionSeal.v ===== *)
(** * [crates/zs-crypto/src/decision_seal.rs]: suite [decision-seal/v1]

    Sealing and verification of a decision given by its typed fields.  The file also
    states what separates the three signing suites from one another. *)

From S2P Require Import Prelude.
From S2P Require Import Json.
From S2P Require Import Serde.
From S2P Require Import JsonCodec.
From S2P Require Import Aws.
From S2P Require Import Signer.
From S2P Require Import Common.
From S2P Require Import Suite.
From S2P Require Import IdentityAssertion.
From S2P Require Import AuditSeal.

Definition SUITE_V1 : string := "decision-seal/v1".
Definition DOMAIN_PREFIX : string := "zero-secret/decision-seal/v1".

Record DecisionFields := {
  request_id : string;
  decision_hash : bytes;
  policy_version : string;
  effect_allow : bool;
  reasons : list string;
  max_ttl_seconds : Z;
  constraints : list string;
  issued_at : Timestamp;
}.

Inductive SealError := SealingUnavailable.
Definition opaque (e : HsmError) : SealError := SealingUnavailable.

Inductive VerifyError :=
| UnknownSuite
| MalformedKey
| MissingSignature
| UnknownKeyId
| InvalidSignature.

Record HsmSettings := {
  hs_module_path : string;
  hs_slot_id : option Z;
  hs_pin : string;
  hs_pool_size : Z;
  hs_acquire_timeout : Z;
  hs_key_label : string;
}.

Record DecisionSealer (P : Type) := {
  pool : P;
  key : KeyRef;
  key_id : string;
  public_key_sec1 : bytes;
}.
Arguments pool {P} _. Arguments key {P} _. Arguments key_id {P} _. Arguments public_key_sec1 {P} _.

Definition accept_verifying_key :
    string → string → bytes → res AcceptedVerifyingKey VerifyError :=
  accept_verifying_key_for SUITE_V1 UnknownSuite MalformedKey.

Definition sealed_members (f : DecisionFields) : list (string * value) :=
  [("suite", VString SUITE_V1);
   ("request_id", VString (request_id f));
   ("decision_hash", VString (hex_encode (decision_hash f)));
   ("policy_version", VString (policy_version f));
   ("effect", VString (if effect_allow f then "ALLOW" else "DENY"));
   ("reasons", jstrings (reasons f));
   ("max_ttl_seconds", jint (max_ttl_seconds f));
   ("constraints", jstrings (constraints f));
   ("issued_at", VString (ts_str (issued_at f)))].

Definition signed_message `{SerdeJson} {E} (f : DecisionFields) : res bytes E :=
  signed_message_with DOMAIN_PREFIX (sealed_members f).

Section seal.
Context `{SerdeJson, AwsLc} {W P : Type} `{HsmOpen W P, HsmSigner P}.

(** [DecisionSealer::open] *)
Definition open (w : W) (settings : HsmSettings) : res (DecisionSealer P) SealError :=
  let key := {| label := hs_key_label settings |} in
  let! pool := map_err opaque (pool_open w {|
    module_path := hs_module_path settings; slot_id := hs_slot_id settings;
    pin := hs_pin settings; pool_size := hs_pool_size settings;
    acquire_timeout := hs_acquire_timeout settings |}) in
  let '(pool, r) := public_key pool key in
  let! public_key := map_err opaque r in
  Ok {| pool := pool; key := key; key_id := key_id_from_public_key (pk_bytes public_key);
        public_key_sec1 := pk_bytes public_key |}.

Definition sealer_key_id (self : DecisionSealer P) : string := key_id self.

Definition accepted_verifying_key (self : DecisionSealer P) : res AcceptedVerifyingKey VerifyError :=
  accept_verifying_key SUITE_V1 (key_id self) (public_key_sec1 self).

(** [DecisionSealer::seal]: the signature and the key identifier. *)
Definition seal (self : DecisionSealer P) (f : DecisionFields) : P * res (bytes * string) SealError :=
  match signed_message f with
  | Ok message =>
      let digest := sha256 message in
      let '(p, r) := sign_digest (pool self) (key self) EcdsaP256Sha256 digest in
      (p, let! signature := map_err opaque r in Ok (sig_bytes signature, key_id self))
  | Err e => (pool self, Err e)
  | Panic => (pool self, Panic)
  end.
End seal.

Definition verify `{SerdeJson, AwsLc} (keys : list AcceptedVerifyingKey) (f : DecisionFields)
    (signature_key_id : string) (signature : bytes) : res unit VerifyError :=
  guard! negb ((str_len signature_key_id =? 0) || (len signature =? 0)) else MissingSignature in
  let! key := ok_or (find_key keys signature_key_id) UnknownKeyId in
  let! message := signed_message f in
  guard! p256_verify (avk_raw key) message signature else InvalidSignature in
  Ok tt.

(** ** Lemmas *)

(** What the Rust types say of the fields. *)
Definition typed_fields (f : DecisionFields) : Prop := in_u64 (max_ttl_seconds f).

Lemma sealed_sortable f : sortable (Object (sealed_members f)) = true.
Proof.
  unfold sealed_members. apply sortable_Object; [solve_keys|].
  solve_members ltac:(apply wf_sortable, jstrings_wf || apply sortable_jint).
Qed.
Lemma sealed_wf f : typed_fields f → wf_value (Object (sealed_members f)) = true.
Proof.
  intros Hf. apply wf_Object; [solve_keys|].
  solve_members ltac:(apply jstrings_wf || by apply in_u64_wf).
Qed.
Lemma sealed_depth f : (depth (Object (sealed_members f)) ≤ 127)%nat.
Proof.
  etrans; [apply (depth_Object 1) | lia]. unfold sealed_members.
  solve_members ltac:(apply jstrings_depth || (rewrite ?depth_jint; cbn [depth]; lia)).
Qed.

Definition fields_message `{SerdeJson} (f : DecisionFields) : bytes :=
  as_bytes DOMAIN_PREFIX ++ [u8_of 0] ++ to_vec (canon (Object (sealed_members f))).

Lemma decision_message_fields `{SerdeJson} {E} f : signed_message (E := E) f = Ok (fields_message f).
Proof.
  unfold signed_message, signed_message_with. rewrite canonical_bytes_canon; [done|].
  apply sealed_sortable.
Qed.

(** The signed message determines every field. *)
Lemma fields_message_inj `{SerdeJsonLaws} f g :
  typed_fields f → typed_fields g → fields_message f = fields_message g → f = g.
Proof.
  intros Hf Hg Heq. unfold fields_message in Heq. do 2 apply app_inv_head in Heq.
  apply to_vec_canon_inj in Heq; [|by auto using sealed_wf, sealed_depth..].
  assert (∀ k, canon <$> map_get k (sealed_members f) = canon <$> map_get k (sealed_members g)) as Hget
    by (intros k; apply canon_map_get; [solve_keys|solve_keys|done]).
  assert (∀ a b, Some (canon (VString a)) = Some (canon (VString b)) → a = b) as Hstr
    by (by intros a b [= ->]).
  pose proof (Hstr _ _ (Hget "request_id")) as E1.
  pose proof (hex_encode_inj _ _ (Hstr _ _ (Hget "decision_hash"))) as E2.
  pose proof (Hstr _ _ (Hget "policy_version")) as E3.
  pose proof (Hstr _ _ (Hget "effect")) as E4.
  assert (Some (canon (jstrings (reasons f))) = Some (canon (jstrings (reasons g)))) as E5
    by exact (Hget "reasons").
  assert (Some (canon (jint (max_ttl_seconds f))) = Some (canon (jint (max_ttl_seconds g)))) as E6
    by exact (Hget "max_ttl_seconds").
  assert (Some (canon (jstrings (constraints f))) = Some (canon (jstrings (constraints g)))) as E7
    by exact (Hget "constraints").
  pose proof (Timestamp_eq _ _ (Hstr _ _ (Hget "issued_at"))) as E8.
  rewrite !canon_jstrings in E5, E7. rewrite !canon_jint in E6.
  apply (f_equal (mbind (de_vec de_string))) in E5, E7. cbn [mbind option_bind] in E5, E7.
  rewrite !de_strings in E5, E7. apply (f_equal (mbind de_u64)) in E6. cbn [mbind option_bind] in E6.
  rewrite !de_u64_jint in E6 by done. 
  destruct f as [f1 f2 f3 f4 f5 f6 f7 f8], g as [g1 g2 g3 g4 g5 g6 g7 g8]; simpl in *.
  assert (f4 = g4) by (by destruct f4, g4). congruence.
Qed.

Lemma decision_seal_eq {P} `{SerdeJson, AwsLc, HsmSigner P} (self : DecisionSealer P) f :
  seal self f =
  let '(p, r) := sign_digest (pool self) (key self) EcdsaP256Sha256 (sha256 (fields_message f)) in
  (p, match r with Ok s => Ok (sig_bytes s, key_id self) | Err _ => Err SealingUnavailable | Panic => Panic end).
Proof. unfold seal. rewrite decision_message_fields. by destruct (sign_digest _ _ _ _) as [p [s|e|]]. Qed.

Lemma decision_verify_Ok `{SerdeJson, AwsLc} keys f kid sig :
  verify keys f kid sig = Ok tt ↔
  kid ≠ "" ∧ sig ≠ [] ∧
  ∃ k, find_key keys kid = Some k ∧ p256_verify (avk_raw k) (fields_message f) sig = true.
Proof.
  unfold verify. destruct kid as [|c kid]; [naive_solver|]. destruct sig as [|b sig]; [naive_solver|].
  assert ((str_len (String c kid) =? 0) = false) as -> by (by apply Z.eqb_neq; unfold str_len; simpl; lia).
  assert ((len (b :: sig) =? 0) = false) as -> by (by apply Z.eqb_neq; rewrite len_cons; pose proof (len_nonneg sig); lia).
  cbn [orb negb]. destruct (find_key keys (String c kid)) as [k|]; cbn [ok_or res_bind].
  - rewrite decision_message_fields. cbn [res_bind].
    destruct (p256_verify _ _ _) eqn:Hv; split; [eauto | done | done |].
    intros (_ & _ & k' & [= <-] & Hv'). congruence.
  - split; [done | by intros (_ & _ & k' & ? & _)].
Qed.

Lemma decision_verify_no_panic `{SerdeJson, AwsLc} keys f kid sig : verify keys f kid sig ≠ Panic.
Proof.
  unfold verify. destruct (negb _); [|done]. destruct (find_key keys kid); cbn [ok_or res_bind]; [|done].
  rewrite decision_message_fields. cbn [res_bind]. by destruct (p256_verify _ _ _).
Qed.

(** ** Theorems *)

Section theorems.
Context `{SerdeJsonLaws, AwsLc}.

(** C28. A sealed decision verifies under the sealer's own key, and the same signature
    verifies for no other decision unless the signing key accepts one signature for two
    messages: any change of effect, reason, TTL, constraint, version, hash, request or
    date is a different signed message. *)
Theorem decision_seal_then_verify {P} `{HsmSigner P} (self : DecisionSealer P) p' f sig kid k
    (Hseal : seal self f = (p', Ok (sig, kid)))
    (Hkey : signs_for (key self) (public_key_sec1 self))
    (Hkid : key_id self = key_id_from_public_key (public_key_sec1 self))
    (Hacc : accepted_verifying_key self = Ok k) :
  verify [k] f kid sig = Ok tt ∧
  ∀ g, typed_fields f → typed_fields g → f ≠ g → verify [k] g kid sig = Ok tt →
    ∃ m1 m2, m1 ≠ m2 ∧ p256_verify (avk_raw k) m1 sig = true ∧ p256_verify (avk_raw k) m2 sig = true.
Proof.
  rewrite decision_seal_eq in Hseal. destruct (sign_digest _ _ _ _) as [p [s|e|]] eqn:Hs; simplify_eq.
  apply Hkey in Hs as [Hlen Hv].
  unfold accepted_verifying_key, accept_verifying_key, accept_verifying_key_for in Hacc.
  rewrite bool_decide_true in Hacc by done. destruct (sec1_malformed _); simplify_eq/=.
  assert (key_id self ≠ "") as Hne.
  { intros He. pose proof (len_key_id (public_key_sec1 self)) as Hl. rewrite <- Hkid, He in Hl. done. }
  split.
  - apply decision_verify_Ok. split_and!; [done | by intros He; rewrite He in Hlen |].
    eexists. split; [apply (find_key_head {| avk_key_id := key_id self; avk_raw := _ |}) | done].
  - intros g Hf Hg Hfg Hver. apply decision_verify_Ok in Hver as (_ & _ & k' & Hk & Hv').
    rewrite (find_key_head {| avk_key_id := key_id self; avk_raw := _ |}) in Hk. injection Hk as <-.
    exists (fields_message f), (fields_message g). split_and!; [|done|done].
    intros Heq. by apply Hfg, fields_message_inj.
Qed.

(** [verify] accepts a decision exactly when the key identifier and the signature are
    not empty, the identifier names an accepted key and that key verifies the message of
    all the fields; a missing signature is never a pass, and no input panics. *)
Theorem decision_verify_iff keys f kid sig :
  (verify keys f kid sig = Ok tt ↔
   kid ≠ "" ∧ sig ≠ [] ∧
   ∃ k, find_key keys kid = Some k ∧ p256_verify (avk_raw k) (fields_message f) sig = true) ∧
  verify keys f "" sig = Err MissingSignature ∧ verify keys f kid [] = Err MissingSignature ∧
  verify keys f kid sig ≠ Panic.
Proof.
  split_and!; [apply decision_verify_Ok | done | | apply decision_verify_no_panic].
  unfold verify. by rewrite orb_true_r.
Qed.

(** Domain separation: no message signed for one of the three suites is a message of
    another one, whatever the documents, so a signature made for an assertion, an audit
    event or a decision is never a signature for one of the others. *)
Theorem suites_are_separated claims event decision :
  IdentityAssertion.claims_message claims ≠ AuditSeal.fields_message event ∧
  IdentityAssertion.claims_message claims ≠ fields_message decision ∧
  AuditSeal.fields_message event ≠ fields_message decision.
Proof.
  unfold IdentityAssertion.claims_message, AuditSeal.fields_message, fields_message.
  split_and!; intros Heq; apply domain_separation in Heq;
    [discriminate Heq | by apply (bool_decide_unpack _) | by apply (bool_decide_unpack _) ..].
Qed.
End theorems.

(** ** The theorems at concrete inputs *)

Definition ref_decision_sealer : DecisionSealer nat :=
  let key := {| label := "zs-decision-seal-v1" |} in
  {| pool := 0%nat; key := key; key_id := key_id_from_public_key (ref_public_key key);
     public_key_sec1 := ref_public_key key |}.

Definition ref_decision_fields : DecisionFields := {|
  request_id := "r1"; decision_hash := replicate 32 (u8_of 1); policy_version := "v1";
  effect_allow := true; reasons := ["policy0"]; max_ttl_seconds := 300; constraints := [];
  issued_at := MkTimestamp "2026-01-01T00:00:00Z" eq_refl |}.

Lemma decision_seal_then_verify_witness :
  ∃ sig kid k, seal ref_decision_sealer ref_decision_fields = (1%nat, Ok (sig, kid)) ∧
    verify [k] ref_decision_fields kid sig = Ok tt.
Proof.
  exists (fold_digest (fields_message ref_decision_fields) ++
          take 32 (drop 1 (ref_public_key (key ref_decision_sealer)))),
    (key_id ref_decision_sealer),
    {| avk_key_id := key_id ref_decision_sealer; avk_raw := public_key_sec1 ref_decision_sealer |}.
  assert (seal ref_decision_sealer ref_decision_fields = (1%nat, Ok
    (fold_digest (fields_message ref_decision_fields) ++
     take 32 (drop 1 (ref_public_key (key ref_decision_sealer))), key_id ref_decision_sealer))) as Hs
    by (rewrite decision_seal_eq; reflexivity).
  split; [exact Hs|].
  eapply (decision_seal_then_verify ref_decision_sealer); [exact Hs | apply ref_signs_for | reflexivity |].
  vm_compute. reflexivity.
Defined.
