(* ===== verification/Chain.v ===== *)
(** * [crates/zs-audit/src/chain.rs]: verification of the audit chain

    [verify_chain] walks opaque sealed events, remembers the last event of every
    authority domain in a map, and checks root, sequence and [prev_hash].  The
    theorems relate it to a specification per domain ([linked]) and show what the function
    cannot see (a truncated tail).  What a head commits to is in [AuditChain]: it takes
    entries that repeat what their bytes say, which this function does not look at. *)

From S2P Require Import Prelude.
From S2P Require Import Aws.

Definition CHAIN_ROOT : bytes := replicate 32 (u8_of 0).

Record ChainEntry := {
  authority_domain : string;
  sequence : Z;
  prev_hash : bytes;
  sealed_bytes : bytes;
}.

Inductive ChainError :=
| Empty
| InvalidRoot (domain : string)
| FirstSequenceNotZero (domain : string) (found : Z)
| SequenceGap (domain : string) (previous found : Z)
| BrokenLink (domain : string) (index : Z).

Definition hash_sealed_event `{AwsLc} (sealed : bytes) : bytes := sha256 sealed.

(** [last_by_domain]: sequence and bytes of the last event seen for a domain. *)
Abbreviation last_by_domain := (gmap string (Z * bytes)).

(** [prev_sequence + 1] on a [u64]: an overflow is a panic. *)
Definition next_u64 {E} (n : Z) : res Z E := if n <? u64_max then Ok (n + 1) else Panic.

(** The body of the loop: the checks of one entry. *)
Definition check_entry `{AwsLc} (last : last_by_domain) (index : Z) (e : ChainEntry) :
    res unit ChainError :=
  match last !! authority_domain e with
  | None =>
      guard! bool_decide (prev_hash e = CHAIN_ROOT) else InvalidRoot (authority_domain e) in
      guard! sequence e =? 0 else FirstSequenceNotZero (authority_domain e) (sequence e) in
      Ok tt
  | Some (prev_sequence, prev_sealed_bytes) =>
      let! expected := next_u64 prev_sequence in
      guard! sequence e =? expected
        else SequenceGap (authority_domain e) prev_sequence (sequence e) in
      guard! bool_decide (prev_hash e = hash_sealed_event prev_sealed_bytes)
        else BrokenLink (authority_domain e) index in
      Ok tt
  end.

Fixpoint verify_entries `{AwsLc} (last : last_by_domain) (index : Z) (entries : list ChainEntry) :
    res unit ChainError :=
  match entries with
  | [] => Ok tt
  | e :: entries' =>
      let! _ := check_entry last index e in
      verify_entries (<[authority_domain e := (sequence e, sealed_bytes e)]> last)
        (index + 1) entries'
  end.

Definition verify_chain `{AwsLc} (entries : list ChainEntry) : res unit ChainError :=
  match entries with
  | [] => Err Empty
  | _ => verify_entries ∅ 0 entries
  end.

(** ** Specification: the events of one domain *)

Definition domain_entries (d : string) (entries : list ChainEntry) : list ChainEntry :=
  filter (λ e, authority_domain e = d) entries.

(** A list of events linked from a given last event. *)
Fixpoint linked_from `{AwsLc} (prev : option (Z * bytes)) (l : list ChainEntry) : Prop :=
  match l with
  | [] => True
  | e :: l' =>
      match prev with
      | None => prev_hash e = CHAIN_ROOT ∧ sequence e = 0
      | Some (s, b) => sequence e = s + 1 ∧ prev_hash e = hash_sealed_event b
      end ∧ linked_from (Some (sequence e, sealed_bytes e)) l'
  end.

(** The same by position: event [i] has sequence [i] and points to the hash of event
    [i - 1], the first one to the root. *)
Definition linked `{AwsLc} (l : list ChainEntry) : Prop :=
  ∀ i e, l !! i = Some e → sequence e = Z.of_nat i ∧
    prev_hash e = match i with
                  | O => CHAIN_ROOT
                  | S j => from_option (hash_sealed_event ∘ sealed_bytes) [] (l !! j)
                  end.

(** Sequences recorded in the map stay below the number of events walked. *)
Definition last_bounded (last : last_by_domain) (index : Z) : Prop :=
  ∀ d s b, last !! d = Some (s, b) → 0 ≤ s < index.

(** ** Lemmas *)

Section chain.
Context `{AwsLc}.

Lemma domain_entries_cons d e l :
  domain_entries d (e :: l) =
  if bool_decide (authority_domain e = d) then e :: domain_entries d l else domain_entries d l.
Proof.
  unfold domain_entries. destruct (decide (authority_domain e = d)).
  - rewrite bool_decide_true, filter_cons_True by done. done.
  - rewrite bool_decide_false, filter_cons_False by done. done.
Qed.

Lemma check_entry_Ok last index e :
  last_bounded last index → index ≤ u64_max →
  check_entry last index e = Ok tt ↔
  match last !! authority_domain e with
  | None => prev_hash e = CHAIN_ROOT ∧ sequence e = 0
  | Some (s, b) => sequence e = s + 1 ∧ prev_hash e = hash_sealed_event b
  end.
Proof.
  intros Hl Hi. unfold check_entry. destruct (last !! _) as [[s b]|] eqn:Hd.
  - apply Hl in Hd. unfold next_u64. rewrite (proj2 (Z.ltb_lt _ _)) by lia. cbn [res_bind].
    destruct (sequence e =? s + 1) eqn:Hs; bool_simp; [|naive_solver].
    case_bool_decide; naive_solver.
  - case_bool_decide; [|naive_solver].
    destruct (sequence e =? 0) eqn:Hs; bool_simp; naive_solver.
Qed.

Lemma check_entry_no_panic last index e :
  last_bounded last index → index ≤ u64_max → check_entry last index e ≠ Panic.
Proof.
  intros Hl Hi. unfold check_entry. destruct (last !! _) as [[s b]|] eqn:Hd.
  - apply Hl in Hd. unfold next_u64. rewrite (proj2 (Z.ltb_lt _ _)) by lia. cbn [res_bind].
    destruct (sequence e =? s + 1); [|done]. by case_bool_decide.
  - case_bool_decide; [|done]. by destruct (sequence e =? 0).
Qed.

Lemma last_bounded_step last index e :
  last_bounded last index → 0 ≤ index ≤ u64_max → check_entry last index e = Ok tt →
  last_bounded (<[authority_domain e := (sequence e, sealed_bytes e)]> last) (index + 1).
Proof.
  intros Hl Hi Hc d s b. rewrite lookup_insert_Some. intros [[<- [= <- <-]]|[_ Hs]].
  - apply check_entry_Ok in Hc; [|done|lia].
    destruct (last !! authority_domain e) as [[s' b']|] eqn:Hd; [apply Hl in Hd|]; lia.
  - apply Hl in Hs. lia.
Qed.

(** Walking all domains at once is walking each domain on its own. *)
Lemma verify_entries_Ok l last index :
  last_bounded last index → 0 ≤ index → index + len l ≤ u64_max →
  verify_entries last index l = Ok tt ↔
  ∀ d, linked_from (last !! d) (domain_entries d l).
Proof.
  revert last index. induction l as [|e l IH]; intros last index Hl Hi Hlen; [done|].
  rewrite len_cons in Hlen. pose proof (len_nonneg l). simpl.
  destruct (check_entry last index e) as [[]| |] eqn:Hc; cbn [res_bind].
  - rewrite IH by (lia || (apply last_bounded_step; done || lia)).
    apply check_entry_Ok in Hc; [|done|lia]. split; intros Hd d; specialize (Hd d);
      rewrite domain_entries_cons in *; destruct (decide (authority_domain e = d)) as [<-|Hne].
    + rewrite bool_decide_true by done. rewrite lookup_insert_eq in Hd. done.
    + rewrite bool_decide_false by done. by rewrite lookup_insert_ne in Hd.
    + rewrite bool_decide_true in Hd by done. rewrite lookup_insert_eq. apply Hd.
    + rewrite bool_decide_false in Hd by done. by rewrite lookup_insert_ne.
  - split; [done|]. intros Hd. specialize (Hd (authority_domain e)).
    rewrite domain_entries_cons, bool_decide_true in Hd by done. destruct Hd as [Hd _].
    pose proof (proj2 (check_entry_Ok last index e Hl ltac:(lia)) Hd). congruence.
  - by apply check_entry_no_panic in Hc; [|done|lia].
Qed.

Lemma verify_entries_no_panic l last index :
  last_bounded last index → 0 ≤ index → index + len l ≤ u64_max →
  verify_entries last index l ≠ Panic.
Proof.
  revert last index. induction l as [|e l IH]; intros last index Hl Hi Hlen; [done|].
  rewrite len_cons in Hlen. pose proof (len_nonneg l). simpl.
  destruct (check_entry last index e) as [[]| |] eqn:Hc; cbn [res_bind]; [|done|].
  - apply IH; [apply last_bounded_step; [done|lia|done] | lia | lia].
  - by apply check_entry_no_panic in Hc; [|done|lia].
Qed.

Lemma linked_from_nth s0 b0 l i :
  linked_from (Some (s0, b0)) l →
  ∀ e, l !! i = Some e → sequence e = s0 + 1 + Z.of_nat i ∧
    prev_hash e = match i with
                  | O => hash_sealed_event b0
                  | S j => from_option (hash_sealed_event ∘ sealed_bytes) [] (l !! j)
                  end.
Proof.
  revert s0 b0 i. induction l as [|x l IH]; intros s0 b0 i Hl e He; [done|].
  destruct Hl as [[Hs Hp] Hl]. destruct i as [|i]; simpl in He.
  - injection He as <-. split; [lia | done].
  - specialize (IH _ _ _ Hl e He) as [IHs IHp]. split; [lia|].
    destruct i as [|i]; simpl in *; done.
Qed.

Lemma linked_from_linked l : linked_from None l ↔ linked l.
Proof.
  split.
  - destruct l as [|x l]; intros Hl; [intros i e; by rewrite lookup_nil|].
    destruct Hl as [[Hp Hs] Hl]. intros [|i] e He; simpl in He; [by simplify_eq|].
    destruct (linked_from_nth _ _ _ i Hl e He) as [Hse Hpe]. split; [lia|].
    rewrite Hpe. by destruct i.
  - assert (∀ s b l, (∀ i e, l !! i = Some e → sequence e = s + 1 + Z.of_nat i ∧
      prev_hash e = match i with O => hash_sealed_event b
        | S j => from_option (hash_sealed_event ∘ sealed_bytes) [] (l !! j) end) →
      linked_from (Some (s, b)) l) as Hgen.
    { intros s b l'. revert s b. induction l' as [|x l' IH]; intros s b Hx; [done|].
      split.
      - destruct (Hx 0%nat x eq_refl). split; [lia|done].
      - apply IH. intros i e He. destruct (Hx (S i) e He) as [Hs Hp].
        destruct (Hx 0%nat x eq_refl) as [Hs0 _]. split; [lia|]. rewrite Hp. by destruct i. }
    destruct l as [|x l]; intros Hl; [done|]. destruct (Hl 0%nat x eq_refl) as [Hs Hp].
    split; [done|]. apply Hgen. intros i e He. destruct (Hl (S i) e He) as [Hse Hpe].
    split; [lia|]. rewrite Hpe. by destruct i.
Qed.

Lemma verify_chain_linked l :
  len l ≤ u64_max →
  verify_chain l = Ok tt ↔ l ≠ [] ∧ ∀ d, linked (domain_entries d l).
Proof.
  intros Hlen. assert (verify_entries ∅ 0 l = Ok tt ↔ ∀ d, linked (domain_entries d l)) as Heq.
  { rewrite verify_entries_Ok; [| intros d s b; by rewrite lookup_empty | lia | lia].
    setoid_rewrite lookup_empty. by setoid_rewrite linked_from_linked. }
  unfold verify_chain. destruct l as [|e l]; [naive_solver|].
  rewrite Heq. naive_solver.
Qed.

Lemma linked_prefix l1 l2 : linked (l1 ++ l2) → linked l1.
Proof.
  intros Hl i x Hx. destruct (Hl i x) as [Hsq Hph]; [by apply lookup_app_l_Some|].
  split; [done|]. rewrite Hph. destruct i as [|i]; [done|].
  rewrite lookup_app_l; [done|]. apply lookup_lt_Some in Hx. lia.
Qed.

(** The last two events of a linked list. *)
Lemma linked_snoc2 l x e :
  linked ((l ++ [x]) ++ [e]) → prev_hash e = hash_sealed_event (sealed_bytes x).
Proof.
  intros Hl. destruct (Hl (S (length l)) e) as [_ Hp].
  - rewrite lookup_app_r by (rewrite length_app; simpl; lia).
    rewrite length_app. simpl. by replace (S (length l) - (length l + 1))%nat with 0%nat by lia.
  - rewrite Hp, lookup_app_l by (rewrite length_app; simpl; lia).
    by rewrite lookup_app_r, Nat.sub_diag by lia.
Qed.

(** Events of a linked list are determined by the hash of the last one, backwards, when
    sealed bytes fix sequence and previous hash; or two of them collide. *)
Lemma linked_same_head l1 l2 e1 e2 :
  linked (l1 ++ [e1]) → linked (l2 ++ [e2]) →
  (∀ x1 x2, x1 ∈ l1 ++ [e1] → x2 ∈ l2 ++ [e2] → sealed_bytes x1 = sealed_bytes x2 →
     sequence x1 = sequence x2 ∧ prev_hash x1 = prev_hash x2) →
  hash_sealed_event (sealed_bytes e1) = hash_sealed_event (sealed_bytes e2) →
  map sealed_bytes (l1 ++ [e1]) = map sealed_bytes (l2 ++ [e2]) ∨
  ∃ x1 x2, x1 ∈ l1 ++ [e1] ∧ x2 ∈ l2 ++ [e2] ∧ sha256_collide (sealed_bytes x1) (sealed_bytes x2).
Proof.
  revert e1 l2 e2. induction l1 as [|x1 l1 IH] using rev_ind; intros e1 l2 e2 H1 H2 Hread Hh.
  all: apply sha256_inj_or in Hh as [Hs|?]; [|right; exists e1, e2; set_solver].
  all: destruct (Hread e1 e2) as [Hseq Hp]; [set_solver | set_solver | done |].
  all: destruct (H1 _ e1 (list_lookup_middle _ [] e1 _ eq_refl)) as [Hq1 _];
    destruct (H2 _ e2 (list_lookup_middle _ [] e2 _ eq_refl)) as [Hq2 _].
  - destruct l2; [left; simpl; by rewrite Hs | simpl in *; lia].
  - destruct l2 as [|x2 l2 _] using rev_ind; [rewrite length_app in Hq1; simpl in *; lia|].
    rewrite (linked_snoc2 l1 x1 e1 H1), (linked_snoc2 l2 x2 e2 H2) in Hp.
    destruct (IH x1 l2 x2) as [Heq|(y1 & y2 & ? & ? & ?)];
      [by eapply linked_prefix | by eapply linked_prefix | | done | | right; exists y1, y2; set_solver].
    + intros y1 y2 Hy1 Hy2. apply Hread; set_solver.
    + left. rewrite (map_app _ (l1 ++ _)), (map_app _ (l2 ++ _)), Heq. simpl. by rewrite Hs.
Qed.
End chain.

(** ** Theorems *)

Section theorems.
Context `{AwsLc}.

(** C8. [verify_chain] accepts exactly the non-empty lists in which the events of every
    authority domain, taken in order, start at the root with sequence 0 and each point to
    the hash of the one before with the next sequence; it never panics (the [u64]
    increment cannot overflow) and refuses the empty list. *)
Theorem verify_chain_iff_linked l (Hlen : len l ≤ u64_max) :
  (verify_chain l = Ok tt ↔ l ≠ [] ∧ ∀ d, linked (domain_entries d l)) ∧ verify_chain l ≠ Panic.
Proof.
  split; [by apply verify_chain_linked|]. unfold verify_chain. destruct l as [|e l]; [done|].
  apply verify_entries_no_panic; [intros d s b; by rewrite lookup_empty | lia | lia].
Qed.

(** What [verify_chain] cannot see: every non-empty prefix of an accepted list is
    accepted, so removing the last events of a chain goes unnoticed without an external
    anchor; and the order in which domains are interleaved does not matter. *)
Theorem truncation_and_interleaving_accepted l l'
    (Hlen : len l ≤ u64_max) (Hlen' : len l' ≤ u64_max) (Hok : verify_chain l = Ok tt)
    (Hne : l' ≠ [])
    (Hsub : ∀ d, ∃ k, domain_entries d l = domain_entries d l' ++ k) :
  verify_chain l' = Ok tt.
Proof.
  apply verify_chain_linked; [done|]. apply verify_chain_linked in Hok as [_ Hl]; [|done].
  split; [done|]. intros d. destruct (Hsub d) as [k Hk]. specialize (Hl d). rewrite Hk in Hl.
  by eapply linked_prefix.
Qed.
End theorems.

(** ** The theorems at concrete inputs *)

Definition ref_entry (d : string) (s : Z) (prev : bytes) (text : string) : ChainEntry :=
  {| authority_domain := d; sequence := s; prev_hash := prev; sealed_bytes := as_bytes text |}.
Definition ref_chain : list ChainEntry :=
  let a0 := ref_entry "a" 0 CHAIN_ROOT "a0" in
  let b0 := ref_entry "b" 0 CHAIN_ROOT "b0" in
  let a1 := ref_entry "a" 1 (hash_sealed_event (as_bytes "a0")) "a1" in
  [a0; b0; a1].
(** The same events, in another order of domains, without the last one of [a]. *)
Definition ref_truncated : list ChainEntry :=
  [ref_entry "b" 0 CHAIN_ROOT "b0"; ref_entry "a" 0 CHAIN_ROOT "a0"].

Lemma ref_chain_ok : verify_chain ref_chain = Ok tt.
Proof. vm_compute. reflexivity. Qed.

Lemma verify_chain_iff_linked_witness : linked (domain_entries "a" ref_chain).
Proof.
  destruct (verify_chain_iff_linked ref_chain) as [Hiff _]; [by cbv|].
  exact (proj2 (proj1 Hiff ref_chain_ok) "a").
Defined.

Lemma truncation_and_interleaving_accepted_witness : verify_chain ref_truncated = Ok tt.
Proof.
  apply (truncation_and_interleaving_accepted ref_chain ref_truncated).
  - by cbv.
  - by cbv.
  - apply ref_chain_ok.
  - discriminate.
  - intros d. unfold ref_chain, ref_truncated. rewrite !domain_entries_cons. cbn [authority_domain ref_entry].
    destruct (decide ("a" = d)) as [<-|Ha].
    + exists [ref_entry "a" 1 (hash_sealed_event (as_bytes "a0")) "a1"]. reflexivity.
    + exists []. rewrite !(bool_decide_false ("a" = d)) by done. by rewrite app_nil_r.
Defined.
