(* ===== verification/AuditChain.v ===== *)
(** * Chains of verified events ([crates/zs-audit/tests/chain_vectors.rs])

    [verify_chain] walks the columns of its entries and never looks into the sealed bytes:
    it is the caller who fills the columns with what [audit_seal::verify] returned on the
    bytes, as the loop of [chain_vectors.rs] does.  For such entries ([verified_entry]) the
    hash of the last event of a domain commits to all the events before it. *)

From S2P Require Import Prelude.
From S2P Require Import Json.
From S2P Require Import Serde.
From S2P Require Import JsonCodec.
From S2P Require Import Aws.
From S2P Require Import Common.
From S2P Require Import Suite.
From S2P Require Import IdentityAssertion.
From S2P Require Import AuditSeal.
From S2P Require Import Chain.

(** [ChainEntry { .. }] from the bytes of an event and what [verify] returned on them. *)
Definition entry_of (bs : bytes) (verified : VerifiedAuditEvent) : ChainEntry := {|
  Chain.authority_domain := va_authority_domain verified;
  Chain.sequence := va_sequence verified;
  Chain.prev_hash := va_prev_hash verified;
  sealed_bytes := bs |}.

(** The entry of an event that verifies, under whatever keys and policy. *)
Definition verified_entry `{SerdeJson, AwsLc} (e : ChainEntry) : Prop :=
  ∃ keys policy verified,
    AuditSeal.verify keys (sealed_bytes e) policy = Ok verified ∧ e = entry_of (sealed_bytes e) verified.

Section lemmas.
Context `{SerdeJsonLaws, AwsLc}.

(** What [verify] returns is written in the bytes: keys and policy only decide whether. *)
Lemma verified_by_bytes keys1 keys2 bs policy1 policy2 va1 va2 :
  AuditSeal.verify keys1 bs policy1 = Ok va1 → AuditSeal.verify keys2 bs policy2 = Ok va2 → va1 = va2.
Proof.
  intros (doc1 & A1)%event_verify_sound (doc2 & A2)%event_verify_sound.
  destruct A1 as [_ P1 _ _ T1 _ _ _ _ _ _ [Q1 _] (R1 & R2 & R3 & R4)].
  destruct A2 as [_ P2 _ _ T2 _ _ _ _ _ _ [Q2 _] (S1 & S2 & S3 & S4)].
  rewrite P1 in P2. injection P2 as <-. destruct va1, va2; simpl in *. congruence.
Qed.

Lemma verified_entry_inj e1 e2 :
  verified_entry e1 → verified_entry e2 → sealed_bytes e1 = sealed_bytes e2 → e1 = e2.
Proof.
  intros (k1 & p1 & v1 & V1 & E1) (k2 & p2 & v2 & V2 & E2) Hs. rewrite E1, E2. rewrite <- Hs in V2 |- *.
  by rewrite (verified_by_bytes _ _ _ _ _ _ _ V1 V2).
Qed.

Lemma verified_entries_inj l1 l2 :
  Forall verified_entry l1 → Forall verified_entry l2 →
  map sealed_bytes l1 = map sealed_bytes l2 → l1 = l2.
Proof.
  intros Hl1. revert l2. induction Hl1 as [|e1 l1 He1 _ IH]; intros [|e2 l2] Hl2 Hs; try done.
  apply Forall_cons in Hl2 as [He2 Hl2]. injection Hs as Hs Hl. f_equal; [by apply verified_entry_inj|by apply IH].
Qed.
End lemmas.

(** ** Theorem *)

Section theorems.
Context `{SerdeJsonLaws, AwsLc}.

(** C27. A head commits to the history of its domain: take two lists whose entries repeat what
    [verify] returned on their sealed bytes, under whatever keys and policies, and which
    [verify_chain] accepts; if the last events of domain [d] have the same hash, the two
    lists hold the same events of [d], in the same order, or two of those events collide
    under SHA-256.  So rewriting, inserting or deleting an event before a known head takes
    a collision with an event that was there.  Entries whose columns were not read from
    their bytes are not covered: [verify_chain] does not compare the two. *)
Theorem head_commits_to_history l1 l2 d e1 e2
    (Hlen1 : len l1 ≤ u64_max) (Hlen2 : len l2 ≤ u64_max)
    (Hver1 : Forall verified_entry l1) (Hver2 : Forall verified_entry l2)
    (Hok1 : verify_chain l1 = Ok tt) (Hok2 : verify_chain l2 = Ok tt)
    (Hd1 : last (domain_entries d l1) = Some e1) (Hd2 : last (domain_entries d l2) = Some e2)
    (Hhead : hash_sealed_event (sealed_bytes e1) = hash_sealed_event (sealed_bytes e2)) :
  domain_entries d l1 = domain_entries d l2 ∨
  ∃ x1 x2, x1 ∈ domain_entries d l1 ∧ x2 ∈ domain_entries d l2 ∧
    sha256_collide (sealed_bytes x1) (sealed_bytes x2).
Proof.
  apply verify_chain_linked in Hok1 as [_ L1]; [|done].
  apply verify_chain_linked in Hok2 as [_ L2]; [|done].
  assert (∀ l, Forall verified_entry l → Forall verified_entry (domain_entries d l)) as Hsub
    by (intros l Hl; rewrite Forall_forall in Hl; apply Forall_forall;
        by intros x [_ Hx%Hl]%list_elem_of_filter).
  apply Hsub in Hver1, Hver2. specialize (L1 d). specialize (L2 d).
  apply last_Some in Hd1 as [p1 Hd1], Hd2 as [p2 Hd2]. rewrite Hd1 in *. rewrite Hd2 in *.
  destruct (linked_same_head p1 p2 e1 e2 L1 L2) as [Heq|?]; [|done| |by right].
  - intros x1 x2 Hx1 Hx2 Hs. rewrite Forall_forall in Hver1, Hver2.
    by rewrite (verified_entry_inj x1 x2 (Hver1 _ Hx1) (Hver2 _ Hx2) Hs).
  - left. by apply verified_entries_inj.
Qed.
End theorems.

(** ** The theorem at concrete inputs *)

(** A verification that accepts every signature, beside a given digest. *)
Definition accepting_aws (digest : bytes → bytes) (Hlen : ∀ m, length (digest m) = 32%nat) : AwsLc := {|
  sha256_digest := digest; p256_verify _ _ _ := true; ed25519_verify _ _ _ := true;
  sha256_digest_length := Hlen |}.

(** One digest that forgets its message, and the one of [ref_aws]. *)
Definition forgetful (m : bytes) : bytes := replicate 32 (u8_of 7).
Definition forgetful_aws : AwsLc := accepting_aws forgetful (λ _, eq_refl).
Definition folding_aws : AwsLc := accepting_aws fold_digest (λ _, length_to_be_bytes _ _).

(** A login recorded in a domain, and its entry. *)
Definition ref_event (domain : AuthorityDomain) (n : Sequence) (prev : bytes) (subject : SubjectId) :
    AuditEventFields := {|
  AuditSeal.event_id := AuditSeal.event_id ref_fields; AuditSeal.sequence := n;
  AuditSeal.prev_hash := prev; AuditSeal.occurred_at := AuditSeal.occurred_at ref_fields;
  AuditSeal.authority_domain := domain; AuditSeal.event_type := AuthenticationSucceeded;
  AuditSeal.actor := {| actor_subject_id := subject; actor_kind := Human; actor_aal := Some Aal2;
                        actor_auth_method := None |};
  AuditSeal.target := None; AuditSeal.outcome := Success; AuditSeal.context := None;
  AuditSeal.decision := None |}.
Definition ref_event_bytes (f : AuditEventFields) : bytes :=
  to_vec (canon (Object (full_document
    (wire_of f (avk_key_id ref_audit_key) (hex_encode (replicate 64 (u8_of 0))))))).
Definition ref_event_entry (f : AuditEventFields) : ChainEntry :=
  entry_of (ref_event_bytes f) (verified_fields f).

Lemma ref_event_verified digest Hlen f :
  len (AuditSeal.prev_hash f) = 32 → AuditSeal.decision f = None →
  coupling_ok f && (len (ref_event_bytes f) <=? MAX_BYTES) = true →
  verified_entry (H0 := accepting_aws digest Hlen) (ref_event_entry f).
Proof.
  intros Hp Hd [Hc Hs%Z.leb_le]%andb_true_iff.
  exists [ref_audit_key],
    {| accepted_suites := [SUITE_V1]; expected_authority_domain := as_str (AuditSeal.authority_domain f) |},
    (verified_fields f).
  split; [|done]. etrans; [apply (event_verify_genuine (H1 := accepting_aws digest Hlen) f ref_audit_key)|].
  - split; [done|]. intros d. by rewrite Hd.
  - done.
  - done.
  - apply find_key_head.
  - done.
  - unfold policy_decision. rewrite (bool_decide_true (_ ∈ _)) by (by left). by rewrite bool_decide_true.
Qed.

Definition prod : AuthorityDomain := AsciiText (max_len := 128) "prod" eq_refl.
Definition staging : AuthorityDomain := AsciiText (max_len := 128) "staging" eq_refl.
Definition alice : SubjectId := AsciiText (max_len := 256) "alice" eq_refl.
Definition mallory : SubjectId := AsciiText (max_len := 256) "mallory" eq_refl.

Definition first_event (domain : AuthorityDomain) (subject : SubjectId) : ChainEntry :=
  ref_event_entry (ref_event domain (MkSequence 0 eq_refl) CHAIN_ROOT subject).
Definition second_event (prev : bytes) : ChainEntry :=
  ref_event_entry (ref_event prod (MkSequence 1 eq_refl) prev alice).

(** Under the forgetful digest the history of a head can be rewritten. *)
Definition genuine : list ChainEntry := [first_event prod alice; second_event (forgetful [])].
Definition rewritten : list ChainEntry := [first_event prod mallory; second_event (forgetful [])].
(** Under the other one, two orders of two domains. *)
Definition linked_event : ChainEntry := second_event (fold_digest (sealed_bytes (first_event prod alice))).
Definition interleaved : list ChainEntry :=
  [first_event prod alice; first_event staging alice; linked_event].
Definition reordered : list ChainEntry :=
  [first_event staging alice; first_event prod alice; linked_event].

Ltac all_verified :=
  repeat first [apply Forall_nil_2 | apply Forall_cons_2];
  apply ref_event_verified; vm_compute; reflexivity.

Lemma rewritten_differs :
  map sealed_bytes (domain_entries "prod" genuine) ≠ map sealed_bytes (domain_entries "prod" rewritten).
Proof. apply (bool_decide_unpack _). vm_compute. exact I. Qed.

(** No two different events of the lists have the same digest. *)
Definition told_apart (l1 l2 : list ChainEntry) : bool :=
  forallb (λ x1, forallb (λ x2, bool_decide (sealed_bytes x1 = sealed_bytes x2) ||
    negb (bool_decide (fold_digest (sealed_bytes x1) = fold_digest (sealed_bytes x2)))) l2) l1.

Lemma told_apart_no_collision l1 l2 x1 x2 :
  told_apart l1 l2 = true → x1 ∈ l1 → x2 ∈ l2 →
  ¬ sha256_collide (H := folding_aws) (sealed_bytes x1) (sealed_bytes x2).
Proof.
  unfold told_apart. rewrite forallb_forall. intros Hl Hx1 Hx2 [Hne Hs].
  apply list_elem_of_In in Hx1, Hx2. specialize (Hl _ Hx1). rewrite forallb_forall in Hl.
  specialize (Hl _ Hx2). rewrite bool_decide_false, bool_decide_true in Hl by done. done.
Qed.

(** The history of [genuine] was rewritten under its head, so two of its events collide with
    the ones they replaced; the other digest tells all the events apart, so the two orders
    hold the same events of each domain. *)
Lemma head_commits_to_history_witness :
  (∃ x1 x2, x1 ∈ genuine ∧ x2 ∈ rewritten ∧
     sha256_collide (H := forgetful_aws) (sealed_bytes x1) (sealed_bytes x2)) ∧
  domain_entries "prod" interleaved = domain_entries "prod" reordered.
Proof.
  split.
  - destruct (head_commits_to_history (H1 := forgetful_aws) genuine rewritten "prod"
      (second_event (forgetful [])) (second_event (forgetful []))) as [Heq|(x1 & x2 & Hx1 & Hx2 & Hc)].
    + by cbv.
    + by cbv.
    + all_verified.
    + all_verified.
    + vm_compute. reflexivity.
    + vm_compute. reflexivity.
    + reflexivity.
    + reflexivity.
    + reflexivity.
    + exfalso. apply rewritten_differs. exact (f_equal (map sealed_bytes) Heq).
    + exists x1, x2. apply list_elem_of_filter in Hx1 as [_ Hx1], Hx2 as [_ Hx2]. by split_and!.
  - destruct (head_commits_to_history (H1 := folding_aws) interleaved reordered "prod"
      linked_event linked_event) as [Heq|(x1 & x2 & Hx1 & Hx2 & Hc)].
    + by cbv.
    + by cbv.
    + all_verified.
    + all_verified.
    + vm_compute. reflexivity.
    + vm_compute. reflexivity.
    + reflexivity.
    + reflexivity.
    + reflexivity.
    + exact Heq.
    + exfalso. refine (told_apart_no_collision _ _ x1 x2 _ Hx1 Hx2 Hc). vm_compute. reflexivity.
Defined.
