(* ===== verification/AuditRecord.v ===== *)
(** * [crates/zs-audit/src/record.rs] and [sink.rs]: audit records and their sink

    The content of an event before sealing, the traits [AuditSink] and
    [AuditChainStore] as classes, and [record_or_fail].  The enumerations repeat those
    of [audit_seal.rs]; that they agree is a theorem, as is that any interleaving of
    writers through a store that keeps the contract of [append] leaves a chain that
    [verify_chain] accepts. *)

From S2P Require Import Prelude.
From S2P Require Import Aws.
From S2P Require Import AuditSeal.
From S2P Require Import Chain.

Inductive EventType :=
| AuthenticatorRegistered
| AuthenticatorRevoked
| AuthenticationAttempted
| AuthenticationSucceeded
| AuthenticationFailed
| RecoveryInitiated
| QuorumOperation
| AuditChainVerified
| PolicyDecided
| CredentialIssued.

Definition event_type_contract_str (e : EventType) : string :=
  match e with
  | AuthenticatorRegistered => "authenticator.registered"
  | AuthenticatorRevoked => "authenticator.revoked"
  | AuthenticationAttempted => "authentication.attempted"
  | AuthenticationSucceeded => "authentication.succeeded"
  | AuthenticationFailed => "authentication.failed"
  | RecoveryInitiated => "recovery.initiated"
  | QuorumOperation => "quorum.operation"
  | AuditChainVerified => "audit.chain_verified"
  | PolicyDecided => "policy.decided"
  | CredentialIssued => "credential.issued"
  end.

Inductive ActorKind := Human | Workload | System.
Definition actor_kind_contract_str (k : ActorKind) : string :=
  match k with Human => "human" | Workload => "workload" | System => "system" end.

Record Actor := {
  subject_id : string;
  kind : ActorKind;
  aal : option string;
  auth_method : option string;
}.

Inductive Outcome := Success | Denied | OError.
Definition outcome_contract_str (o : Outcome) : string :=
  match o with Success => "success" | Denied => "denied" | OError => "error" end.

Record Target := { target_type : string; id : string }.
Record Context := {
  source_network : option string;
  ticket_ref : option string;
  justification : option string;
}.

Record AuditRecord := {
  rec_occurred_at : string;
  rec_authority_domain : string;
  rec_event_type : EventType;
  rec_actor : Actor;
  rec_target : option Target;
  rec_outcome : Outcome;
  rec_context : option Context;
}.

(** ** The traits *)

(** [AuditSink]: a sink of type [S], its receipts and errors. *)
Class AuditSink (S Receipt Error : Type) := {
  record : S → AuditRecord → S * res Receipt Error;
}.

Definition record_or_fail {S Receipt Error} `{AuditSink S Receipt Error} (sink : S) (r : AuditRecord) :
    S * res Receipt Error :=
  record sink r.

(** [AuditChainStore]: [append] compares the expected head and writes in one step. *)
Class AuditChainStore (S Error : Type) := {
  append : S → string → bytes → bytes → S * res Z Error;
}.

(** The contract stated with the trait, over the log of events a store holds: an append
    either changes nothing and fails, or adds one event that points to the head of its
    domain and has the next sequence, which it returns. *)
Class AuditChainStoreLaws (S Error : Type) `{AwsLc, AuditChainStore S Error} := {
  log : S → list ChainEntry;
  append_spec s d expected sealed s' r :
    append s d expected sealed = (s', r) →
    match r with
    | Ok n =>
        let own := domain_entries d (log s) in
        n = len own ∧
        expected = match last own with
                   | None => CHAIN_ROOT
                   | Some e => hash_sealed_event (sealed_bytes e)
                   end ∧
        log s' = log s ++ [{| Chain.authority_domain := d; Chain.sequence := n;
                              Chain.prev_hash := expected; sealed_bytes := sealed |}]
    | _ => log s' = log s
    end;
}.

(** One call of a writer: domain, expected head, sealed bytes. *)
Abbreviation append_call := (string * bytes * bytes)%type.

(** The store after a sequence of calls, of any writers in any order; failures are kept
    as they come, never retried. *)
Fixpoint run_appends {S Error} `{AuditChainStore S Error} (s : S) (calls : list append_call) : S :=
  match calls with
  | [] => s
  | (d, expected, sealed) :: calls' => run_appends (append s d expected sealed).1 calls'
  end.

(** The record enumerations seen as those of [audit_seal.rs]. *)
Definition to_seal (e : EventType) : AuditSeal.EventType :=
  match e with
  | AuthenticatorRegistered => AuditSeal.AuthenticatorRegistered
  | AuthenticatorRevoked => AuditSeal.AuthenticatorRevoked
  | AuthenticationAttempted => AuditSeal.AuthenticationAttempted
  | AuthenticationSucceeded => AuditSeal.AuthenticationSucceeded
  | AuthenticationFailed => AuditSeal.AuthenticationFailed
  | RecoveryInitiated => AuditSeal.RecoveryInitiated
  | QuorumOperation => AuditSeal.QuorumOperation
  | AuditChainVerified => AuditSeal.AuditChainVerified
  | PolicyDecided => AuditSeal.PolicyDecided
  | CredentialIssued => AuditSeal.CredentialIssued
  end.

(** ** A store in memory, for concrete inputs *)

Definition head_of `{AwsLc} (d : string) (l : list ChainEntry) : bytes :=
  match last (domain_entries d l) with
  | None => CHAIN_ROOT
  | Some e => hash_sealed_event (sealed_bytes e)
  end.

#[export] Instance mem_store : AuditChainStore (list ChainEntry) unit := {|
  append l d expected sealed :=
    if bool_decide (expected = head_of d l)
    then let n := len (domain_entries d l) in
         (l ++ [{| Chain.authority_domain := d; Chain.sequence := n;
                   Chain.prev_hash := expected; sealed_bytes := sealed |}], Ok n)
    else (l, Err tt)
|}.

#[export] Program Instance mem_store_laws : AuditChainStoreLaws (list ChainEntry) unit :=
  {| log l := l |}.
Next Obligation.
  intros l d expected sealed l' r. unfold append, mem_store, head_of.
  case_bool_decide; intros [= <- <-]; done.
Qed.

(** ** Theorems *)

Lemma linked_snoc `{AwsLc} l e :
  linked l → sequence e = len l →
  prev_hash e = match last l with None => CHAIN_ROOT | Some x => hash_sealed_event (sealed_bytes x) end →
  linked (l ++ [e]).
Proof.
  intros Hl Hs Hp i x Hx. destruct (decide (i < length l)%nat) as [Hi|Hi].
  - rewrite lookup_app_l in Hx by done. destruct (Hl i x Hx) as [Hsq Hph]. split; [done|].
    rewrite Hph. destruct i as [|i]; [done|]. by rewrite lookup_app_l by lia.
  - assert (i = length l) as ->.
    { apply lookup_lt_Some in Hx. rewrite length_app in Hx. simpl in Hx. lia. }
    rewrite lookup_app_r, Nat.sub_diag in Hx by lia. injection Hx as <-. split; [done|].
    rewrite Hp, last_lookup. destruct (length l) as [|n] eqn:Hn.
    + by rewrite (nil_length_inv l).
    + simpl. rewrite lookup_app_l by lia.
      destruct (lookup_lt_is_Some_2 l n) as [y Hy]; [lia|]. by rewrite Hy.
Qed.

Lemma domain_entries_app d l1 l2 :
  domain_entries d (l1 ++ l2) = domain_entries d l1 ++ domain_entries d l2.
Proof. apply filter_app. Qed.

Lemma append_keeps_linked {S Error} `{AuditChainStoreLaws S Error} s call :
  (∀ d, linked (domain_entries d (log s))) →
  (∀ d, linked (domain_entries d (log (run_appends s [call])))).
Proof.
  intros Hl d. destruct call as [[d' expected] sealed]. cbn [run_appends].
  destruct (append s d' expected sealed) as [s' r] eqn:Ha. cbn [fst].
  apply append_spec in Ha. destruct r as [n|e|]; [|by rewrite Ha..].
  destruct Ha as (-> & Hexp & ->). rewrite domain_entries_app, domain_entries_cons.
  cbn [Chain.authority_domain]. destruct (decide (d' = d)) as [->|Hne].
  - rewrite bool_decide_true by done. apply linked_snoc; [apply Hl | done | done].
  - rewrite bool_decide_false by done. rewrite app_nil_r. apply Hl.
Qed.

(** Through a store that keeps the contract of [AuditChainStore], any sequence of
    appends by any number of writers, failures included, leaves a log that
    [verify_chain] accepts: concurrent writers cannot fork a chain. *)
Theorem interleaved_appends_keep_chain {S Error} `{AuditChainStoreLaws S Error} (s : S) calls
    (Hempty : log s = []) (Hlen : len (log (run_appends s calls)) ≤ u64_max)
    (Hne : log (run_appends s calls) ≠ []) :
  verify_chain (log (run_appends s calls)) = Ok tt.
Proof.
  apply verify_chain_linked; [done|]. split; [done|]. clear Hlen Hne.
  assert (∀ d, linked (domain_entries d (log s))) as Hl
    by (intros d i e; rewrite Hempty; intros Hi; by destruct i).
  clear Hempty. revert s Hl. induction calls as [|c calls IH]; intros s Hl; [done|].
  replace (run_appends s (c :: calls)) with (run_appends (run_appends s [c]) calls)
    by (by destruct c as [[??]?]).
  apply IH. by apply append_keeps_linked.
Qed.

(** The enumerations of [zs-audit] and of the sealing suite spell the contract the same
    way, event type by event type, and no two event types share a string: a record
    converted for sealing keeps its type, and reading the string back gives it. *)
Theorem record_strings_agree e :
  event_type_contract_str e = event_type_str (to_seal e) ∧
  event_type_of_str (event_type_contract_str e) = Some (to_seal e) ∧
  (∀ e', event_type_contract_str e = event_type_contract_str e' → e = e').
Proof.
  split_and!; [by destruct e | by destruct e |]. intros e' Heq.
  assert (Some (to_seal e) = Some (to_seal e')) as Hs.
  { transitivity (event_type_of_str (event_type_contract_str e)); [by destruct e|].
    rewrite Heq. by destruct e'. }
  by destruct e, e'.
Qed.

(** Two writers of the same domain with the same expected head: the second one loses. *)
Definition ref_calls : list append_call :=
  [("a", CHAIN_ROOT, as_bytes "first"); ("a", CHAIN_ROOT, as_bytes "second");
   ("b", CHAIN_ROOT, as_bytes "other")].

Lemma interleaved_appends_keep_chain_witness :
  log (run_appends [] ref_calls) ≠ [] ∧ verify_chain (log (run_appends [] ref_calls)) = Ok tt.
Proof.
  split; [vm_compute; discriminate|].
  apply (interleaved_appends_keep_chain [] ref_calls); [done | vm_compute; discriminate | vm_compute; discriminate].
Defined.
