(* ===== verification/ClientData.v ===== *)
(** * [crates/zs-webauthn/src/client_data.rs], [flags.rs], [policy.rs]

    Verification of [clientDataJSON] against the expected ceremony, origin and
    challenge; the flag bits of [authenticatorData]; the attestation policy.  The
    base64 decoder is the parameter [Base64]. *)

From S2P Require Import Prelude.
From S2P Require Import Json.
From S2P Require Import Serde.
From S2P Require Import JsonCodec.
From S2P Require Import Common.
From S2P Require Import AuthProof.

(** ** Flags and policy *)

Definition FLAG_USER_PRESENT : Z := 1.
Definition FLAG_USER_VERIFIED : Z := 4.
Definition FLAG_ATTESTED_CRED_DATA : Z := 64.

(** [flags & FLAG != 0] *)
Definition has_flag (flags flag : Z) : bool := negb (Z.land flags flag =? 0).

Inductive AttestationPolicy := Any | Required.
#[export] Instance attestation_policy_eq_dec : EqDecision AttestationPolicy.
Proof. solve_decision. Defined.

(** ** Client data *)

(** [URL_SAFE_NO_PAD] of the [base64] crate, with what the code relies on. *)
Class Base64 := {
  url_safe_encode : bytes → string;
  url_safe_decode : string → option bytes;
  url_safe_decode_encode bs : url_safe_decode (url_safe_encode bs) = Some bs;
}.

Record ClientData := {
  ceremony_type : string;
  challenge : string;
  origin : string;
}.

(** Unknown members are ignored: no [deny_unknown_fields]. *)
Definition de_ClientData (v : value) : option ClientData :=
  fields ← struct_fields ["type"; "challenge"; "origin"] false v;
  match fields with
  | [f1; f2; f3] =>
      v1 ← required de_string f1; v2 ← required de_string f2; v3 ← required de_string f3;
      Some {| ceremony_type := v1; challenge := v2; origin := v3 |}
  | _ => None
  end.

Inductive Error :=
| InvalidJson
| UnexpectedType (found : string)
| UnexpectedOrigin (found : string)
| ChallengeMismatch
| InvalidChallengeEncoding.

Definition verify `{SerdeJson, Base64} (client_data_json : bytes) (expected_type expected_origin : string)
    (expected_challenge : Challenge) : res unit Error :=
  let! data := ok_or (from_slice client_data_json ≫= de_ClientData) InvalidJson in
  guard! bool_decide (ceremony_type data = expected_type) else UnexpectedType (ceremony_type data) in
  guard! bool_decide (origin data = expected_origin) else UnexpectedOrigin (origin data) in
  let! presented := ok_or (url_safe_decode (challenge data)) InvalidChallengeEncoding in
  guard! challenge_matches expected_challenge presented else ChallengeMismatch in
  Ok tt.

(** ** Lemmas *)

(** What [verify] accepts: the three fields, read from the JSON, are the expected ones. *)
Definition client_data_ok `{SerdeJson, Base64} (client_data_json : bytes)
    (expected_type expected_origin : string) (c : Challenge) : Prop :=
  ∃ data, from_slice client_data_json ≫= de_ClientData = Some data ∧
    ceremony_type data = expected_type ∧ origin data = expected_origin ∧
    url_safe_decode (challenge data) = Some (ch_bytes c).

Lemma client_verify_Ok `{SerdeJson, Base64} json ty org c :
  verify json ty org c = Ok tt ↔ client_data_ok json ty org c.
Proof.
  unfold verify, client_data_ok. destruct (from_slice json ≫= de_ClientData) as [d|]; cbn [ok_or res_bind];
    [|by split; [done | intros (? & ? & _)]].
  destruct (decide (ceremony_type d = ty)); [rewrite bool_decide_true by done|
    rewrite bool_decide_false by done; naive_solver].
  destruct (decide (origin d = org)); [rewrite bool_decide_true by done|
    rewrite bool_decide_false by done; naive_solver].
  destruct (url_safe_decode (challenge d)) as [p|] eqn:Hp; cbn [ok_or res_bind]; [|naive_solver].
  unfold challenge_matches. case_bool_decide as Hc.
  - split; [|done]. intros _. exists d. by subst.
  - split; [done|]. intros (d' & [= <-] & _ & _ & Hd). congruence.
Qed.

Lemma client_verify_no_panic `{SerdeJson, Base64} json ty org c : verify json ty org c ≠ Panic.
Proof.
  unfold verify. destruct (from_slice json ≫= de_ClientData) as [d|]; cbn [ok_or res_bind]; [|done].
  case_bool_decide; [|done]. case_bool_decide; [|done].
  destruct (url_safe_decode _); cbn [ok_or res_bind]; [|done]. by case_match.
Qed.

(** Bytes accepted for one ceremony are accepted for no other. *)
Lemma client_data_ceremony_unique `{SerdeJson, Base64} json ty1 org1 c1 ty2 org2 c2 :
  client_data_ok json ty1 org1 c1 → client_data_ok json ty2 org2 c2 →
  ty1 = ty2 ∧ org1 = org2 ∧ c1 = c2.
Proof.
  intros (d1 & H1 & <- & <- & Hc1) (d2 & H2 & <- & <- & Hc2). rewrite H1 in H2. injection H2 as <-.
  destruct c1, c2. simpl in *. split_and!; congruence.
Qed.

(** Bit test on a byte. *)
Lemma has_flag_testbit flags n :
  0 ≤ n → has_flag flags (2 ^ n) = Z.testbit flags n.
Proof.
  intros Hn. unfold has_flag. destruct (Z.testbit flags n) eqn:Ht.
  - apply negb_true_iff, Z.eqb_neq. intros Hz.
    assert (Z.testbit (Z.land flags (2 ^ n)) n = false) as Hf by (rewrite Hz; apply Z.bits_0).
    rewrite Z.land_spec, Ht, Z.pow2_bits_true in Hf; [done|lia].
  - apply negb_false_iff, Z.eqb_eq, Z.bits_inj'. intros m Hm. rewrite Z.land_spec, Z.bits_0.
    rewrite Z.pow2_bits_eqb by lia. destruct (n =? m) eqn:He; [|by rewrite andb_false_r].
    apply Z.eqb_eq in He as <-. by rewrite Ht.
Qed.


(** Hexadecimal as a computable stand-in for base64, for concrete inputs. *)
#[export] Program Instance ref_base64 : Base64 := {|
  url_safe_encode := Common.hex_encode; url_safe_decode := Common.hex_decode
|}.
Next Obligation. apply Common.hex_decode_encode. Qed.
