(* ===== verification/Cose.v ===== *)
(** * [crates/zs-webauthn/src/cose.rs]: from a COSE key to the suite's key material

    [CoseKey::from_slice] of the [coset] crate and the CBOR reader of [ciborium] are
    parameters; the CBOR value type is given by its constructors. *)

From S2P Require Import Prelude.
From S2P Require Import AuthProof.

(** ** CBOR values *)

Inductive cbor :=
| CInteger (n : Z)
| CBytes (bs : bytes)
| CText (s : string)
| CArray (l : list cbor)
| CMap (m : list (cbor * cbor))
| CTag (tag : Z) (v : cbor)
| CBool (b : bool)
| CFloat (bits : Z)
| CNull.

Definition as_text (v : cbor) : option string := match v with CText s => Some s | _ => None end.
Definition cbor_bytes (v : cbor) : option bytes := match v with CBytes b => Some b | _ => None end.
Definition as_map (v : cbor) : option (list (cbor * cbor)) :=
  match v with CMap m => Some m | _ => None end.

(** [map.iter().find_map(|(k, v)| (k.as_text() == Some(key)).then_some(v))] *)
Fixpoint text_get (m : list (cbor * cbor)) (key : string) : option cbor :=
  match m with
  | [] => None
  | (k, v) :: m' => if bool_decide (as_text k = Some key) then Some v else text_get m' key
  end.

(** [ciborium::de::from_reader] on a slice: the first value and the number of bytes
    read. *)
Class Ciborium := {
  from_reader : bytes → option (cbor * Z);
  from_reader_consumed bs v n : from_reader bs = Some (v, n) → 0 ≤ n ≤ len bs;
}.

(** ** COSE keys *)

Inductive label := LInt (n : Z) | LText (s : string).
Inductive key_type := EC2 | OKP | OtherKeyType.
Record CoseKey := { kty : key_type; params : list (label * cbor) }.

Class Coset := { cose_from_slice : bytes → option CoseKey }.

Inductive Error :=
| InvalidCbor
| UnsupportedKeyType
| MissingOrInvalidParameter.

(** [key.params.iter().find_map(...)] *)
Fixpoint param (ps : list (label * cbor)) (wanted : Z) : option cbor :=
  match ps with
  | [] => None
  | (LInt n, v) :: ps' => if n =? wanted then Some v else param ps' wanted
  | (LText _, _) :: ps' => param ps' wanted
  end.
Definition int_param (ps : list (label * cbor)) (wanted : Z) : option Z :=
  match param ps wanted with Some (CInteger i) => Some i | _ => None end.
Definition bytes_param (ps : list (label * cbor)) (wanted : Z) : option bytes :=
  match param ps wanted with Some (CBytes b) => Some b | _ => None end.

Definition extract_public_key_material `{Coset} (cose_key_bytes : bytes) :
    res PublicKeyMaterial Error :=
  let! key := ok_or (cose_from_slice cose_key_bytes) InvalidCbor in
  match kty key with
  | EC2 =>
      guard! bool_decide (int_param (params key) (-1) = Some 1) else UnsupportedKeyType in
      let! x := ok_or (bytes_param (params key) (-2)) MissingOrInvalidParameter in
      let! y := ok_or (bytes_param (params key) (-3)) MissingOrInvalidParameter in
      guard! negb (negb (len x =? 32) || negb (len y =? 32)) else MissingOrInvalidParameter in
      Ok {| pkm_algorithm := Es256; pkm_raw := u8_of 4 :: x ++ y |}
  | OKP =>
      guard! bool_decide (int_param (params key) (-1) = Some 6) else UnsupportedKeyType in
      let! x := ok_or (bytes_param (params key) (-2)) MissingOrInvalidParameter in
      guard! len x =? 32 else MissingOrInvalidParameter in
      Ok {| pkm_algorithm := EdDsa; pkm_raw := x |}
  | OtherKeyType => Err UnsupportedKeyType
  end.

(** ** Lemmas *)

(** The two key shapes of the suite. *)
Definition cose_key_material (key : CoseKey) (m : PublicKeyMaterial) : Prop :=
  (∃ x y, kty key = EC2 ∧ int_param (params key) (-1) = Some 1 ∧
     bytes_param (params key) (-2) = Some x ∧ bytes_param (params key) (-3) = Some y ∧
     len x = 32 ∧ len y = 32 ∧ m = {| pkm_algorithm := Es256; pkm_raw := u8_of 4 :: x ++ y |}) ∨
  (∃ x, kty key = OKP ∧ int_param (params key) (-1) = Some 6 ∧
     bytes_param (params key) (-2) = Some x ∧ len x = 32 ∧
     m = {| pkm_algorithm := EdDsa; pkm_raw := x |}).

Lemma extract_Ok `{Coset} bs m :
  extract_public_key_material bs = Ok m ↔
  ∃ key, cose_from_slice bs = Some key ∧ cose_key_material key m.
Proof.
  unfold extract_public_key_material.
  destruct (cose_from_slice bs) as [key|]; cbn [ok_or res_bind]; [|by split; [|intros (? & ? & _)]].
  transitivity (cose_key_material key m); [|split; [by exists key | by intros (? & [= <-] & ?)]].
  unfold cose_key_material. destruct (kty key).
  - case_bool_decide; [|split; [done | intros [(? & ? & ? & ? & _)|(? & ? & _)]; congruence]].
    destruct (bytes_param _ (-2)) as [x|]; cbn [ok_or res_bind];
      [|split; [done | intros [(? & ? & ? & ? & ? & _)|(? & ? & _)]; congruence]].
    destruct (bytes_param _ (-3)) as [y|]; cbn [ok_or res_bind];
      [|split; [done | intros [(? & ? & ? & ? & ? & ? & _)|(? & ? & _)]; congruence]].
    destruct (len x =? 32) eqn:Hx, (len y =? 32) eqn:Hy; simpl; bool_simp.
    1: { split; [intros [= <-]; left; by exists x, y|].
         intros [(? & ? & _ & _ & [= <-] & [= <-] & _ & _ & ->)|(? & ? & _)]; [done|congruence]. }
    all: split; [done|]; intros [(? & ? & _ & _ & [= <-] & [= <-] & ? & ? & _)|(? & ? & _)];
      [lia | congruence].
  - case_bool_decide; [|split; [done | intros [(? & ? & ? & _)|(? & ? & ? & _)]; congruence]].
    destruct (bytes_param _ (-2)) as [x|]; cbn [ok_or res_bind];
      [|split; [done | intros [(? & ? & ? & _)|(? & ? & ? & ? & _)]; congruence]].
    destruct (len x =? 32) eqn:Hx; bool_simp.
    + split; [intros [= <-]; right; by exists x|].
      intros [(? & ? & ? & _)|(? & _ & _ & [= <-] & _ & ->)]; [congruence|done].
    + split; [done|]. intros [(? & ? & ? & _)|(? & _ & _ & [= <-] & ? & _)]; [congruence|lia].
  - split; [done|]. intros [(? & ? & ? & _)|(? & ? & _)]; congruence.
Qed.

Lemma extract_no_panic `{Coset} bs : extract_public_key_material bs ≠ Panic.
Proof.
  unfold extract_public_key_material. destruct (cose_from_slice bs) as [key|]; cbn [ok_or res_bind]; [|done].
  destruct (kty key); [| |done]; (case_bool_decide; [|done]);
    destruct (bytes_param _ (-2)); cbn [ok_or res_bind]; try done.
  - destruct (bytes_param _ (-3)); cbn [ok_or res_bind]; [|done]. by destruct (negb _).
  - by destruct (_ =? 32).
Qed.

(** Extracted material is always accepted by the suite. *)
Lemma extract_accepted `{Coset} bs m :
  extract_public_key_material bs = Ok m →
  accept_key SUITE_V1 m = Ok {| ak_algorithm := pkm_algorithm m; ak_raw := pkm_raw m |}.
Proof.
  intros (key & _ & [(x & y & _ & _ & _ & _ & Hx & Hy & ->)|(x & _ & _ & _ & Hx & ->)])%extract_Ok;
    apply accept_key_Ok; simpl; split_and!; try done.
  rewrite len_cons, len_app. lia.
Qed.
