(* ===== verification/Registration.v ===== *)
(** * [crates/zs-webauthn/src/registration.rs]: the registration ceremony

    Parsing of [authenticatorData], the "packed" self-attestation and the whole
    ceremony, with the order of its refusals. *)

From S2P Require Import Prelude.
From S2P Require Import Json.
From S2P Require Import JsonCodec.
From S2P Require Import Aws.
From S2P Require Import AuthProof.
From S2P Require Import ClientData.
From S2P Require Import Cose.

Definition MAX_ATTESTATION_OBJECT_LEN : Z := 64 * 1024.

Record RegistrationCeremonyInput := {
  client_data_json : bytes;
  attestation_object : bytes;
  expected_origin : string;
  expected_rp_id : string;
  expected_challenge : Challenge;
  policy : AttestationPolicy;
}.

Record RegistrationOutcome := {
  credential_id : bytes;
  sign_count : Z;
  attestation_format : string;
  aaguid : bytes;
  public_key_algorithm : Algorithm;
  public_key_raw : bytes;
}.

Inductive RegistrationError :=
| ClientDataError (e : ClientData.Error)
| AttestationObjectTooLarge
| InvalidCbor
| MalformedAttestationObject
| MalformedAuthenticatorData
| RpIdMismatch
| MissingAttestedCredentialData
| UserNotPresent
| CoseError (e : Cose.Error)
| UnsupportedAttestationFormat (fmt : string)
| AttestationRequiredButAbsent
| AttestationCertificateChainUnsupported
| MalformedAttestationStatement
| InvalidAttestationSignature.

(** ** [authenticatorData] *)

Definition rp_id_hash `{AwsLc} (rp_id : string) : bytes := AuthProof.sha256 (as_bytes rp_id).

Record AttestedCredentialData := {
  acd_aaguid : bytes;
  acd_credential_id : bytes;
  acd_public_key_cbor : bytes;
}.

Record ParsedAuthenticatorData := {
  pad_rp_id_hash : bytes;
  pad_flags : Z;
  pad_sign_count : Z;
  pad_attested_credential_data : option AttestedCredentialData;
}.

(** [18.checked_add(n).filter(|&end| end <= rest.len())], on a 64-bit [usize]. *)
Definition cred_id_end (rest : bytes) (cred_id_len : Z) : option Z :=
  let e := 18 + cred_id_len in
  if (e <=? u64_max) && (e <=? len rest) then Some e else None.

Definition parse_attested_credential_data `{Ciborium} (rest : bytes) :
    res AttestedCredentialData RegistrationError :=
  guard! negb (len rest <? 18) else MalformedAuthenticatorData in
  let! aaguid := slice rest 0 16 in
  let! l0 := index rest 16 in
  let! l1 := index rest 17 in
  let cred_id_len := from_be_bytes [l0; l1] in
  let! cred_end := ok_or (cred_id_end rest cred_id_len) MalformedAuthenticatorData in
  let! credential_id := slice rest 18 cred_end in
  let! key_bytes := slice_from rest cred_end in
  let! (_, consumed) := ok_or (from_reader key_bytes) MalformedAuthenticatorData in
  let! public_key_cbor := slice key_bytes 0 consumed in
  Ok {| acd_aaguid := aaguid; acd_credential_id := credential_id;
        acd_public_key_cbor := public_key_cbor |}.

Definition parse_authenticator_data `{Ciborium} (data : bytes) :
    res ParsedAuthenticatorData RegistrationError :=
  guard! negb (len data <? 37) else MalformedAuthenticatorData in
  let! rp_id_hash := slice data 0 32 in
  let! flags := index data 32 in
  let! c0 := index data 33 in let! c1 := index data 34 in
  let! c2 := index data 35 in let! c3 := index data 36 in
  let sign_count := from_be_bytes [c0; c1; c2; c3] in
  let! attested :=
    if has_flag (u8_val flags) FLAG_ATTESTED_CRED_DATA
    then let! rest := slice_from data 37 in map_ok Some (parse_attested_credential_data rest)
    else Ok None in
  Ok {| pad_rp_id_hash := rp_id_hash; pad_flags := u8_val flags; pad_sign_count := sign_count;
        pad_attested_credential_data := attested |}.

(** ** The "packed" statement *)

Definition verify_packed_attestation `{AwsLc} (att_stmt : option cbor)
    (auth_data client_data_json : bytes) (key : AcceptedKey) : res unit RegistrationError :=
  let! map := ok_or (att_stmt ≫= as_map) MalformedAttestationStatement in
  guard! negb (bool_decide (is_Some (text_get map "x5c")))
    else AttestationCertificateChainUnsupported in
  let! sig := ok_or (text_get map "sig" ≫= cbor_bytes) MalformedAttestationStatement in
  let client_data_hash := AuthProof.sha256 client_data_json in
  let signed_message := auth_data ++ client_data_hash in
  let! _ := map_err (λ _, InvalidAttestationSignature) (AuthProof.verify key signed_message sig) in
  Ok tt.

(** ** The ceremony *)

Definition verify_registration_ceremony `{SerdeJson, Base64, AwsLc, Ciborium, Coset}
    (input : RegistrationCeremonyInput) : res RegistrationOutcome RegistrationError :=
  let! _ := map_err ClientDataError (ClientData.verify (client_data_json input) "webauthn.create"
              (expected_origin input) (expected_challenge input)) in
  guard! negb (MAX_ATTESTATION_OBJECT_LEN <? len (attestation_object input))
    else AttestationObjectTooLarge in
  let! (cbor, _) := ok_or (from_reader (attestation_object input)) InvalidCbor in
  let! map := ok_or (as_map cbor) MalformedAttestationObject in
  let! fmt := ok_or (text_get map "fmt" ≫= as_text) MalformedAttestationObject in
  let! auth_data := ok_or (text_get map "authData" ≫= cbor_bytes) MalformedAttestationObject in
  guard! bool_decide (fmt = "none") || bool_decide (fmt = "packed")
    else UnsupportedAttestationFormat fmt in
  guard! negb (bool_decide (policy input = Required) && bool_decide (fmt = "none"))
    else AttestationRequiredButAbsent in
  let! parsed := parse_authenticator_data auth_data in
  guard! bool_decide (pad_rp_id_hash parsed = rp_id_hash (expected_rp_id input)) else RpIdMismatch in
  guard! has_flag (pad_flags parsed) FLAG_USER_PRESENT else UserNotPresent in
  guard! has_flag (pad_flags parsed) FLAG_ATTESTED_CRED_DATA else MissingAttestedCredentialData in
  let! cred := ok_or (pad_attested_credential_data parsed) MissingAttestedCredentialData in
  let! key_material := map_err CoseError (extract_public_key_material (acd_public_key_cbor cred)) in
  let! accepted_key := map_err (λ _, MalformedAttestationObject) (accept_key SUITE_V1 key_material) in
  let! _ :=
    if bool_decide (fmt = "packed")
    then verify_packed_attestation (text_get map "attStmt") auth_data (client_data_json input) accepted_key
    else Ok tt in
  Ok {| credential_id := acd_credential_id cred; sign_count := pad_sign_count parsed;
        attestation_format := if bool_decide (fmt = "none") then "none" else "packed";
        aaguid := acd_aaguid cred; public_key_algorithm := pkm_algorithm key_material;
        public_key_raw := pkm_raw key_material |}.

(** ** Layout of [authenticatorData] *)

(** The bytes that [rpIdHash], flags, counter and the rest make. *)
Definition auth_data_bytes (rp : bytes) (flags : u8) (cnt : bytes) (rest : bytes) : bytes :=
  rp ++ flags :: cnt ++ rest.

(** Every sufficiently long text splits that way. *)
Lemma auth_data_split data :
  37 ≤ len data → ∃ rp f c0 c1 c2 c3 rest,
    data = auth_data_bytes rp f [c0; c1; c2; c3] rest ∧ len rp = 32.
Proof.
  intros Hlen. destruct (split_at data 32) as (rp & k & -> & Hrp); [lia|]. rewrite len_app in Hlen.
  destruct (split_at k 5) as (h & rest & -> & Hh); [lia|].
  apply len_S_inv in Hh as (f & h1 & -> & Hh); [|lia]. apply len_S_inv in Hh as (c0 & h2 & -> & Hh); [|lia].
  apply len_S_inv in Hh as (c1 & h3 & -> & Hh); [|lia]. apply len_S_inv in Hh as (c2 & h4 & -> & Hh); [|lia].
  apply len_S_inv in Hh as (c3 & h5 & -> & Hh); [|lia]. apply len_0_inv in Hh as ->.
  by exists rp, f, c0, c1, c2, c3, rest.
Qed.

(** What the fixed reads of both ceremonies return on such a text. *)
Lemma auth_data_reads {E} rp f c0 c1 c2 c3 rest :
  len rp = 32 →
  let data := auth_data_bytes rp f [c0; c1; c2; c3] rest in
  slice (E := E) data 0 32 = Ok rp ∧ index (E := E) data 32 = Ok f ∧
  index (E := E) data 33 = Ok c0 ∧ index (E := E) data 34 = Ok c1 ∧
  index (E := E) data 35 = Ok c2 ∧ index (E := E) data 36 = Ok c3 ∧
  slice_from (E := E) data 37 = Ok rest ∧ (len data <? 37) = false.
Proof.
  intros Hrp data. assert (∀ h t, data = rp ++ h ++ t → len (rp ++ h) = 32 + len h) as Hl
    by (intros h t _; by rewrite len_app, Hrp).
  assert (∀ h x t, data = rp ++ h ++ x :: t → index (E := E) data (32 + len h) = Ok x) as Hidx.
  { intros h x t ->. rewrite app_assoc. apply index_app. by rewrite len_app, Hrp. }
  split_and!.
  - by apply (slice_app [] rp).
  - by apply (Hidx [] f (c0 :: c1 :: c2 :: c3 :: rest)).
  - by apply (Hidx [f] c0 (c1 :: c2 :: c3 :: rest)).
  - by apply (Hidx [f; c0] c1 (c2 :: c3 :: rest)).
  - by apply (Hidx [f; c0; c1] c2 (c3 :: rest)).
  - by apply (Hidx [f; c0; c1; c2] c3 rest).
  - unfold data, auth_data_bytes.
    change (rp ++ f :: [c0; c1; c2; c3] ++ rest) with (rp ++ [f; c0; c1; c2; c3] ++ rest).
    rewrite app_assoc. apply slice_from_app. by rewrite len_app, Hrp.
  - unfold data, auth_data_bytes. rewrite len_app, len_cons, len_app, Hrp.
    change (len [c0; c1; c2; c3]) with 4. pose proof (len_nonneg rest). apply Z.ltb_ge. lia.
Qed.

(** The attested data: AAGUID, credential identifier with its length, COSE key. *)
Definition attested_layout `{Ciborium} (rest : bytes) (a : AttestedCredentialData) : Prop :=
  ∃ l0 l1 key_bytes v n,
    rest = acd_aaguid a ++ l0 :: l1 :: acd_credential_id a ++ key_bytes ∧
    len (acd_aaguid a) = 16 ∧ len (acd_credential_id a) = from_be_bytes [l0; l1] ∧
    from_reader key_bytes = Some (v, n) ∧ acd_public_key_cbor a = take (Z.to_nat n) key_bytes.

Lemma u16_bound l0 l1 : 0 ≤ from_be_bytes [l0; l1] < 65536.
Proof. exact (from_be_bytes_bounds [l0; l1]). Qed.

Lemma parse_attested_split `{Ciborium} ag l0 l1 rest' :
  len ag = 16 →
  parse_attested_credential_data (ag ++ l0 :: l1 :: rest') =
  if from_be_bytes [l0; l1] <=? len rest'
  then
    let cid := take (Z.to_nat (from_be_bytes [l0; l1])) rest' in
    let key_bytes := drop (Z.to_nat (from_be_bytes [l0; l1])) rest' in
    match from_reader key_bytes with
    | Some (_, n) => Ok {| acd_aaguid := ag; acd_credential_id := cid;
                           acd_public_key_cbor := take (Z.to_nat n) key_bytes |}
    | None => Err MalformedAuthenticatorData
    end
  else Err MalformedAuthenticatorData.
Proof.
  intros Hag. pose proof (u16_bound l0 l1) as Hn. set (n := from_be_bytes [l0; l1]) in *.
  pose proof (len_nonneg rest'). unfold parse_attested_credential_data.
  assert (len (ag ++ l0 :: l1 :: rest') = 18 + len rest') as Hlen by (rewrite len_app, !len_cons; lia).
  rewrite (proj2 (Z.ltb_ge _ 18)) by lia. cbn [negb].
  rewrite (slice_app [] ag (l0 :: l1 :: rest') 0 16) by (done || lia). cbn [res_bind].
  rewrite (index_app ag (l1 :: rest') l0 16) by done. cbn [res_bind].
  assert (index (E := RegistrationError) (ag ++ l0 :: l1 :: rest') 17 = Ok l1) as ->.
  { change (ag ++ l0 :: l1 :: rest') with (ag ++ [l0] ++ l1 :: rest'). rewrite app_assoc.
    apply index_app. by rewrite len_app, Hag. }
  cbn [res_bind]. fold n. unfold cred_id_end. rewrite Hlen.
  destruct (n <=? len rest') eqn:Hle; bool_simp.
  - rewrite (proj2 (Z.leb_le (18 + n) u64_max)), (proj2 (Z.leb_le (18 + n) (18 + len rest')))
      by (unfold u64_max; lia). cbn [andb ok_or res_bind].
    destruct (split_at rest' n) as (cid & kb & -> & Hcid); [lia|].
    rewrite take_app_length', drop_app_length' by (unfold len in Hcid; lia). cbv zeta.
    change (ag ++ l0 :: l1 :: cid ++ kb) with (ag ++ [l0; l1] ++ cid ++ kb). rewrite app_assoc.
    assert (len (ag ++ [l0; l1]) = 18) as H18 by (by rewrite len_app, Hag).
    rewrite (slice_app (ag ++ [l0; l1]) cid kb) by (done || lia). cbn [res_bind].
    rewrite app_assoc, slice_from_app by (rewrite len_app; lia). cbn [res_bind].
    destruct (from_reader kb) as [[v m]|] eqn:Hr; cbn [ok_or res_bind]; [|done].
    apply from_reader_consumed in Hr. rewrite slice_Ok by lia. cbn [res_bind].
    by rewrite drop_0, Z.sub_0_r.
  - rewrite (proj2 (Z.leb_gt (18 + n) (18 + len rest'))) by lia. by rewrite andb_false_r.
Qed.

Lemma parse_attested_Ok `{Ciborium} rest a :
  parse_attested_credential_data rest = Ok a ↔ attested_layout rest a.
Proof.
  destruct (decide (len rest < 18)) as [Hs|Hs].
  - unfold parse_attested_credential_data. rewrite (proj2 (Z.ltb_lt _ _)) by done. split; [done|].
    intros (l0 & l1 & kb & v & n & -> & Ha & _). rewrite len_app, !len_cons, len_app in Hs.
    pose proof (len_nonneg kb). pose proof (len_nonneg (acd_credential_id a)). lia.
  - destruct (split_at rest 16) as (ag & k & -> & Hag); [lia|]. rewrite len_app in Hs.
    destruct (split_at k 2) as (h & rest' & -> & Hh); [lia|].
    apply len_S_inv in Hh as (l0 & h1 & -> & Hh); [|lia]. apply len_S_inv in Hh as (l1 & h2 & -> & Hh); [|lia].
    apply len_0_inv in Hh as ->. change (ag ++ [l0; l1] ++ rest') with (ag ++ l0 :: l1 :: rest').
    rewrite parse_attested_split by done. pose proof (u16_bound l0 l1) as Hn. split.
    + destruct (_ <=? _) eqn:Hle; [|done]. cbv zeta. destruct (from_reader _) as [[v n]|] eqn:Hr; [|done].
      intros [= <-]. bool_simp. exists l0, l1, (drop (Z.to_nat (from_be_bytes [l0; l1])) rest'), v, n. simpl.
      rewrite take_drop. split_and!; [done|done| |done|done].
      unfold len in *. rewrite length_take. lia.
    + intros (l0' & l1' & kb & v & n & Heq & Ha & Hc & Hr & Hk).
      apply app_inj_1 in Heq as [-> Heq]; [|unfold len in *; lia]. injection Heq as -> -> ->.
      rewrite len_app, Hc, (proj2 (Z.leb_le _ _)) by (pose proof (len_nonneg kb); lia). cbv zeta.
      rewrite <- Hc. rewrite take_app_length', drop_app_length' by (unfold len; lia).
      rewrite Hr, <- Hk. by destruct a.
Qed.

Lemma parse_attested_no_panic `{Ciborium} rest : parse_attested_credential_data rest ≠ Panic.
Proof.
  destruct (decide (len rest < 18)) as [Hs|Hs].
  - unfold parse_attested_credential_data. by rewrite (proj2 (Z.ltb_lt _ _)) by done.
  - destruct (split_at rest 16) as (ag & k & -> & Hag); [lia|]. rewrite len_app in Hs.
    destruct (split_at k 2) as (h & rest' & -> & Hh); [lia|].
    apply len_S_inv in Hh as (l0 & h1 & -> & Hh); [|lia]. apply len_S_inv in Hh as (l1 & h2 & -> & Hh); [|lia].
    apply len_0_inv in Hh as ->. change (ag ++ [l0; l1] ++ rest') with (ag ++ l0 :: l1 :: rest').
    rewrite parse_attested_split by done. destruct (_ <=? _); [|done]. cbv zeta.
    by destruct (from_reader _) as [[v n]|].
Qed.

(** The whole text: hash, flags, counter, and the attested data when bit 6 is set. *)
Definition auth_data_layout `{Ciborium} (data : bytes) (p : ParsedAuthenticatorData) : Prop :=
  ∃ f c0 c1 c2 c3 rest,
    data = auth_data_bytes (pad_rp_id_hash p) f [c0; c1; c2; c3] rest ∧
    len (pad_rp_id_hash p) = 32 ∧ pad_flags p = u8_val f ∧
    pad_sign_count p = from_be_bytes [c0; c1; c2; c3] ∧
    match pad_attested_credential_data p with
    | None => Z.testbit (u8_val f) 6 = false
    | Some a => Z.testbit (u8_val f) 6 = true ∧ attested_layout rest a
    end.

Lemma parse_split `{Ciborium} rp f c0 c1 c2 c3 rest :
  len rp = 32 →
  parse_authenticator_data (auth_data_bytes rp f [c0; c1; c2; c3] rest) =
  let p a := {| pad_rp_id_hash := rp; pad_flags := u8_val f;
                pad_sign_count := from_be_bytes [c0; c1; c2; c3]; pad_attested_credential_data := a |} in
  if Z.testbit (u8_val f) 6
  then map_ok (p ∘ Some) (parse_attested_credential_data rest) else Ok (p None).
Proof.
  intros Hrp. unfold parse_authenticator_data.
  destruct (auth_data_reads (E := RegistrationError) rp f c0 c1 c2 c3 rest Hrp)
    as (-> & -> & -> & -> & -> & -> & -> & ->). cbn [negb res_bind].
  change FLAG_ATTESTED_CRED_DATA with (2 ^ 6). rewrite has_flag_testbit by lia.
  destruct (Z.testbit (u8_val f) 6); [|done].
  by destruct (parse_attested_credential_data rest).
Qed.

Lemma parse_Ok `{Ciborium} data p :
  parse_authenticator_data data = Ok p ↔ auth_data_layout data p.
Proof.
  destruct (decide (len data < 37)) as [Hs|Hs].
  - unfold parse_authenticator_data. rewrite (proj2 (Z.ltb_lt _ _)) by done. split; [done|].
    intros (f & c0 & c1 & c2 & c3 & rest & -> & Hrp & _). unfold auth_data_bytes in Hs.
    rewrite len_app, len_cons, len_app, Hrp in Hs. pose proof (len_nonneg rest).
    change (len [c0; c1; c2; c3]) with 4 in Hs. lia.
  - destruct (auth_data_split data) as (rp & f & c0 & c1 & c2 & c3 & rest & -> & Hrp); [lia|].
    rewrite parse_split by done. cbv zeta. split.
    + destruct (Z.testbit (u8_val f) 6) eqn:Hb.
      * destruct (parse_attested_credential_data rest) as [a| |] eqn:Ha; [|done|done]. intros [= <-].
        apply parse_attested_Ok in Ha. by exists f, c0, c1, c2, c3, rest.
      * intros [= <-]. by exists f, c0, c1, c2, c3, rest.
    + intros (f' & d0 & d1 & d2 & d3 & rest' & Heq & Hrp' & Hfl & Hsc & Hacd).
      unfold auth_data_bytes in Heq. apply app_inj_1 in Heq as [-> Heq]; [|unfold len in *; lia].
      injection Heq as -> -> -> -> -> ->.
      destruct p as [prp pf psc [a|]]; simpl in *; subst.
      * destruct Hacd as [-> Ha]. apply parse_attested_Ok in Ha. by rewrite Ha.
      * by rewrite Hacd.
Qed.

Lemma parse_no_panic `{Ciborium} data : parse_authenticator_data data ≠ Panic.
Proof.
  destruct (decide (len data < 37)) as [Hs|Hs].
  - unfold parse_authenticator_data. by rewrite (proj2 (Z.ltb_lt _ _)) by done.
  - destruct (auth_data_split data) as (rp & f & c0 & c1 & c2 & c3 & rest & -> & Hrp); [lia|].
    rewrite parse_split by done. cbv zeta. destruct (Z.testbit _ _); [|done].
    destruct (parse_attested_credential_data rest) eqn:Ha; [done|done|].
    by apply parse_attested_no_panic in Ha.
Qed.

(** ** Specification of the ceremony *)

Section ceremony.
Context `{SerdeJson, Base64, AwsLc, Ciborium, Coset}.

(** A "packed" self-attestation: no certificate chain, a signature by the registered key
    over the authenticator data and the hash of the client data. *)
Definition packed_ok (att_stmt : option cbor) (auth_data client : bytes) (key : AcceptedKey) : Prop :=
  ∃ map sig, att_stmt = Some (CMap map) ∧ text_get map "x5c" = None ∧
    text_get map "sig" = Some (CBytes sig) ∧
    AuthProof.verify key (auth_data ++ AuthProof.sha256 client) sig = Ok MkVerified.

Lemma verify_packed_Ok att_stmt auth_data client key :
  verify_packed_attestation att_stmt auth_data client key = Ok tt ↔
  packed_ok att_stmt auth_data client key.
Proof.
  unfold verify_packed_attestation, packed_ok.
  destruct (att_stmt ≫= as_map) as [map|] eqn:Hm; cbn [ok_or res_bind].
  - assert (att_stmt = Some (CMap map)) as ->
      by (destruct att_stmt as [[]|]; simpl in Hm; by simplify_eq).
    destruct (text_get map "x5c") as [v|] eqn:Hx; cbn; [split; [done | naive_solver]|].
    destruct (text_get map "sig" ≫= cbor_bytes) as [sig|] eqn:Hs; cbn [ok_or res_bind].
    + assert (text_get map "sig" = Some (CBytes sig)) as Hsig
        by (destruct (text_get map "sig") as [[]|]; simpl in Hs; by simplify_eq).
      destruct (AuthProof.verify _ _ _) as [[]|e|] eqn:Hv; cbn [map_err res_bind].
      * split; [|done]. intros _. by exists map, sig.
      * split; [done|]. intros (? & ? & [= <-] & _ & ? & Hv'). congruence.
      * split; [done|]. intros (? & ? & [= <-] & _ & ? & Hv'). congruence.
    + split; [done|]. intros (? & ? & [= <-] & _ & Hsig & _). by rewrite Hsig in Hs.
  - split; [done|]. intros (map & ? & -> & _). done.
Qed.

Lemma verify_packed_no_panic att_stmt auth_data client key :
  verify_packed_attestation att_stmt auth_data client key ≠ Panic.
Proof.
  unfold verify_packed_attestation. destruct (att_stmt ≫= as_map); cbn [ok_or res_bind]; [|done].
  destruct (negb _); [|done]. destruct (text_get _ "sig" ≫= cbor_bytes); cbn [ok_or res_bind]; [|done].
  destruct (AuthProof.verify _ _ _) as [[]|e|] eqn:Hv; [done|done|].
  by apply AuthProof.proof_verify_no_panic in Hv.
Qed.

(** What a registration establishes, without any order of checks. *)
Record registered (input : RegistrationCeremonyInput) (out : RegistrationOutcome)
    (map : list (cbor * cbor)) (fmt : string) (auth_data : bytes)
    (p : ParsedAuthenticatorData) (cred : AttestedCredentialData) (m : PublicKeyMaterial) : Prop := {
  reg_client : client_data_ok (client_data_json input) "webauthn.create" (expected_origin input)
                 (expected_challenge input);
  reg_size : len (attestation_object input) ≤ MAX_ATTESTATION_OBJECT_LEN;
  reg_cbor : fst <$> from_reader (attestation_object input) = Some (CMap map);
  reg_fmt : text_get map "fmt" = Some (CText fmt) ∧ (fmt = "none" ∨ fmt = "packed");
  reg_auth_data : text_get map "authData" = Some (CBytes auth_data);
  reg_policy : policy input = Required → fmt = "packed";
  reg_layout : auth_data_layout auth_data p;
  reg_rp : pad_rp_id_hash p = rp_id_hash (expected_rp_id input);
  reg_present : Z.testbit (pad_flags p) 0 = true;
  reg_cred : pad_attested_credential_data p = Some cred;
  reg_key : ∃ key, cose_from_slice (acd_public_key_cbor cred) = Some key ∧ cose_key_material key m;
  reg_packed : fmt = "packed" → packed_ok (text_get map "attStmt") auth_data (client_data_json input)
                 {| ak_algorithm := pkm_algorithm m; ak_raw := pkm_raw m |};
  reg_out : out = {| credential_id := acd_credential_id cred; sign_count := pad_sign_count p;
                     attestation_format := fmt; aaguid := acd_aaguid cred;
                     public_key_algorithm := pkm_algorithm m; public_key_raw := pkm_raw m |};
}.

Lemma text_field map k t : text_get map k ≫= as_text = Some t ↔ text_get map k = Some (CText t).
Proof. destruct (text_get map k) as [[]|]; simpl; naive_solver. Qed.
Lemma bytes_field map k t : text_get map k ≫= cbor_bytes = Some t ↔ text_get map k = Some (CBytes t).
Proof. destruct (text_get map k) as [[]|]; simpl; naive_solver. Qed.

(** The attested data are there exactly when bit 6 is set. *)
Lemma layout_flag6 data p :
  auth_data_layout data p →
  Z.testbit (pad_flags p) 6 = bool_decide (is_Some (pad_attested_credential_data p)).
Proof.
  intros (f & c0 & c1 & c2 & c3 & rest & _ & _ & -> & _ & Ha).
  destruct (pad_attested_credential_data p); [|done]. destruct Ha as [-> _]. done.
Qed.

Lemma verify_registration_sound input out :
  verify_registration_ceremony input = Ok out →
  ∃ map fmt auth_data p cred m, registered input out map fmt auth_data p cred m.
Proof.
  unfold verify_registration_ceremony.
  destruct (ClientData.verify _ _ _ _) as [[]| |] eqn:Hcd; cbn [map_err res_bind]; try done.
  apply ClientData.client_verify_Ok in Hcd. outer_guard Hsz.
  destruct (from_reader (attestation_object input)) as [[v n]|] eqn:Hr; cbn [ok_or res_bind]; [|done].
  destruct (as_map v) as [map|] eqn:Hm; cbn [ok_or res_bind]; [|done].
  destruct (text_get map "fmt" ≫= as_text) as [fmt|] eqn:Hf; cbn [ok_or res_bind]; [|done].
  destruct (text_get map "authData" ≫= cbor_bytes) as [ad|] eqn:Had; cbn [ok_or res_bind]; [|done].
  outer_guard Hfmt. outer_guard Hpol.
  destruct (parse_authenticator_data ad) as [p| |] eqn:Hp; cbn [res_bind]; try done.
  apply parse_Ok in Hp. outer_guard Hrp. outer_guard Hup. outer_guard Hat.
  destruct (pad_attested_credential_data p) as [cred|] eqn:Hcred; cbn [ok_or res_bind]; [|done].
  destruct (extract_public_key_material _) as [m| |] eqn:Hx; cbn [map_err res_bind]; try done.
  rewrite (extract_accepted _ _ Hx). cbn [map_err res_bind].
  assert (fmt = "none" ∨ fmt = "packed") as Hf2
    by (apply orb_true_iff in Hfmt as [?|?]; bool_simp; auto).
  destruct (if bool_decide (fmt = "packed") then _ else _) as [[]| |] eqn:Hpk; cbn [res_bind]; try done.
  intros [= <-]. exists map, fmt, ad, p, cred, m. bool_simp. apply extract_Ok in Hx.
  constructor; try done.
  - by destruct v; simpl in Hm; simplify_eq; rewrite Hr.
  - by split; [apply text_field|].
  - by apply bytes_field.
  - intros Hreq. destruct Hf2 as [->|?]; [|done]. rewrite Hreq in Hpol. done.
  - change FLAG_USER_PRESENT with (2 ^ 0) in Hup. by rewrite has_flag_testbit in Hup.
  - intros ->. rewrite bool_decide_true in Hpk by done. by apply verify_packed_Ok.
  - f_equal. by destruct Hf2 as [->| ->].
Qed.

Lemma verify_registration_complete input out map fmt auth_data p cred m :
  registered input out map fmt auth_data p cred m →
  verify_registration_ceremony input = Ok out.
Proof.
  intros [Hcd Hsz Hr [Hf Hf2] Had Hpol Hp Hrp Hup Hcred Hkey Hpk ->].
  unfold verify_registration_ceremony. rewrite (proj2 (ClientData.client_verify_Ok _ _ _ _)) by done.
  cbn [map_err res_bind]. rewrite (proj2 (Z.ltb_ge _ _)) by done. cbn [negb].
  destruct (from_reader (attestation_object input)) as [[v n]|]; [|done]. injection Hr as ->.
  cbn [ok_or res_bind as_map]. rewrite (proj2 (text_field map "fmt" fmt)) by done. cbn [ok_or res_bind].
  rewrite (proj2 (bytes_field map "authData" auth_data)) by done. cbn [ok_or res_bind].
  assert (bool_decide (fmt = "none") || bool_decide (fmt = "packed") = true) as ->
    by (by destruct Hf2 as [->| ->]).
  assert (negb (bool_decide (policy input = Required) && bool_decide (fmt = "none")) = true) as ->.
  { destruct (policy input); [done|]. by rewrite Hpol. }
  pose proof (layout_flag6 _ _ Hp) as H6. apply parse_Ok in Hp. rewrite Hp. cbn [res_bind].
  rewrite bool_decide_true by done.
  change FLAG_USER_PRESENT with (2 ^ 0). change FLAG_ATTESTED_CRED_DATA with (2 ^ 6).
  rewrite !has_flag_testbit, Hup, H6, Hcred by lia. cbn [ok_or res_bind].
  rewrite (bool_decide_true (is_Some (Some cred))) by done.
  apply extract_Ok in Hkey. rewrite Hkey. cbn [map_err res_bind].
  rewrite (extract_accepted _ _ Hkey). cbn [map_err res_bind].
  destruct Hf2 as [->| ->]; cbn -[verify_packed_attestation]; [done|].
  by rewrite (proj2 (verify_packed_Ok _ _ _ _) (Hpk eq_refl)).
Qed.

Lemma verify_registration_no_panic input : verify_registration_ceremony input ≠ Panic.
Proof.
  unfold verify_registration_ceremony.
  destruct (ClientData.verify _ _ _ _) as [[]| |] eqn:Hcd; cbn [map_err res_bind];
    [|done|by apply ClientData.client_verify_no_panic in Hcd]. outer_guard Hsz.
  destruct (from_reader (attestation_object input)) as [[v n]|]; cbn [ok_or res_bind]; [|done].
  destruct (as_map v) as [map|]; cbn [ok_or res_bind]; [|done].
  destruct (text_get map "fmt" ≫= as_text) as [fmt|]; cbn [ok_or res_bind]; [|done].
  destruct (text_get map "authData" ≫= cbor_bytes) as [ad|]; cbn [ok_or res_bind]; [|done].
  outer_guard Hfmt. outer_guard Hpol.
  destruct (parse_authenticator_data ad) as [p| |] eqn:Hp; cbn [res_bind];
    [|done|by apply parse_no_panic in Hp]. outer_guard Hrp. outer_guard Hup. outer_guard Hat.
  destruct (pad_attested_credential_data p) as [cred|]; cbn [ok_or res_bind]; [|done].
  destruct (extract_public_key_material _) as [m| |] eqn:Hx; cbn [map_err res_bind];
    [|done|by apply extract_no_panic in Hx].
  rewrite (extract_accepted _ _ Hx). cbn [map_err res_bind].
  destruct (bool_decide (fmt = "packed")); [|done].
  destruct (verify_packed_attestation _ _ _ _) eqn:Hpk; [done|done|].
  by apply verify_packed_no_panic in Hpk.
Qed.
End ceremony.

(** ** Theorems *)

(** The text of an authenticator that registers a credential. *)
Definition encode_attested (rp : bytes) (flags : u8) (count : Z) (ag cid key_bytes : bytes) : bytes :=
  rp ++ flags :: to_be_bytes 4 count ++
  ag ++ to_be_bytes 2 (len cid) ++ cid ++ key_bytes.

(** C29. The registration ceremony succeeds exactly when its specification [registered] holds:
    client data for [webauthn.create], the expected origin and challenge; an attestation
    object of bounded size, format none or packed, not none under policy Required;
    authenticator data for the expected relying party with user presence and attested
    credential; a COSE key of the suite; for packed, a self-signature over the
    authenticator data and the client data hash.  The outcome is read from those parts,
    and no input makes the ceremony panic. *)
Theorem registration_iff_specified `{SerdeJson, Base64, AwsLc, Ciborium, Coset} input :
  (∀ out, verify_registration_ceremony input = Ok out ↔
     ∃ map fmt auth_data p cred m, registered input out map fmt auth_data p cred m) ∧
  verify_registration_ceremony input ≠ Panic.
Proof.
  split; [|apply verify_registration_no_panic]. intros out. split; [apply verify_registration_sound|].
  intros (map & fmt & ad & p & cred & m & Hreg). by eapply verify_registration_complete.
Qed.

(** Parsing inverts the layout of the specification: 32 bytes of relying-party hash, the
    flags, a big-endian 32-bit counter, the AAGUID, a credential identifier preceded by
    its 16-bit length and a self-delimited COSE key, whatever follows the key. *)
Theorem parse_encoded_auth_data `{Ciborium} rp flags count ag cid key_cbor trailing v
    (Hrp : len rp = 32) (Hag : len ag = 16) (Hcount : in_u32 count) (Hcid : len cid < 65536)
    (Hflag : Z.testbit (u8_val flags) 6 = true)
    (Hkey : from_reader (key_cbor ++ trailing) = Some (v, len key_cbor)) :
  parse_authenticator_data (encode_attested rp flags count ag cid (key_cbor ++ trailing)) =
  Ok {| pad_rp_id_hash := rp; pad_flags := u8_val flags; pad_sign_count := count;
        pad_attested_credential_data := Some {|
          acd_aaguid := ag; acd_credential_id := cid; acd_public_key_cbor := key_cbor |} |}.
Proof.
  apply parse_Ok. pose proof (length_to_be_bytes 4 count) as H4.
  pose proof (length_to_be_bytes 2 (len cid)) as H2. pose proof (len_nonneg cid).
  assert (from_be_bytes (to_be_bytes 4 count) = count) as Hc4
    by (apply from_to_be_bytes; unfold in_u32, u32_max in Hcount; lia).
  assert (from_be_bytes (to_be_bytes 2 (len cid)) = len cid) as Hc2 by (apply from_to_be_bytes; lia).
  unfold encode_attested.
  destruct (to_be_bytes 4 count) as [|c0 [|c1 [|c2 [|c3 [|]]]]]; try done.
  destruct (to_be_bytes 2 (len cid)) as [|l0 [|l1 [|]]]; try done.
  exists flags, c0, c1, c2, c3, (ag ++ l0 :: l1 :: cid ++ key_cbor ++ trailing). simpl.
  split_and!; try done.
  exists l0, l1, (key_cbor ++ trailing), v, (len key_cbor). simpl. split_and!; try done.
  unfold len. by rewrite Nat2Z.id, take_app_length.
Qed.

(** ** The theorems at concrete inputs *)

(** A reader of one-byte items: enough to delimit a key in an example. *)
#[export] Program Instance ref_ciborium : Ciborium := {|
  from_reader bs := match bs with [] => None | b :: _ => Some (CInteger (u8_val b), 1) end
|}.
Next Obligation. intros [|b bs] v n; [done|]. intros [= _ <-]. rewrite len_cons. pose proof (len_nonneg bs). lia. Qed.

Lemma parse_encoded_auth_data_witness :
  is_ok (parse_authenticator_data (encode_attested (replicate 32 (u8_of 1)) (u8_of 65) 7
    (replicate 16 (u8_of 2)) (replicate 20 (u8_of 3)) ([u8_of 9] ++ [u8_of 8; u8_of 8]))) = true.
Proof.
  rewrite (parse_encoded_auth_data (replicate 32 (u8_of 1)) (u8_of 65) 7 (replicate 16 (u8_of 2))
    (replicate 20 (u8_of 3)) [u8_of 9] [u8_of 8; u8_of 8] (CInteger 9)); try reflexivity.
  split; vm_compute; discriminate.
Defined.
