(* ===== verification/Authentication.v ===== *)
(** * [crates/zs-webauthn/src/authentication.rs]: the authentication ceremony

    Verification of an assertion against a credential of the registry, with its
    revocation, counter and assurance level. *)

From S2P Require Import Prelude.
From S2P Require Import Json.
From S2P Require Import JsonCodec.
From S2P Require Import Aws.
From S2P Require Import AuthProof.
From S2P Require Import ClientData.
From S2P Require Import Cose.
From S2P Require Import Registration.

Record RegisteredCredential := {
  rc_subject_id : string;
  rc_credential_id : bytes;
  rc_public_key_algorithm : Algorithm;
  rc_public_key_raw : bytes;
  counter_supported : bool;
  stored_sign_count : Z;
  revoked : bool;
}.

Record AuthenticationCeremonyInput := {
  client_data_json : bytes;
  authenticator_data : bytes;
  signature : bytes;
  expected_origin : string;
  expected_rp_id : string;
  expected_challenge : Challenge;
  credential : RegisteredCredential;
}.

Inductive Aal := Aal1 | Aal2.

Record AuthenticationClaims := {
  cl_subject_id : string;
  cl_credential_id : bytes;
  cl_aal : Aal;
  cl_method : string;
  cl_new_sign_count : Z;
}.

Inductive AuthenticationError :=
| ClientDataError (e : ClientData.Error)
| MalformedAuthenticatorData
| RpIdMismatch
| UserNotPresent
| MalformedRegisteredKey
| InvalidSignature
| SignCounterRegression
| AuthenticatorRevoked.

Definition rp_id_hash `{AwsLc} (rp_id : string) : bytes := AuthProof.sha256 (as_bytes rp_id).

Record ParsedAssertionAuthData := {
  paa_rp_id_hash : bytes;
  paa_flags : Z;
  paa_sign_count : Z;
}.

Definition parse_authenticator_data (data : bytes) : res ParsedAssertionAuthData AuthenticationError :=
  guard! negb (len data <? 37) else MalformedAuthenticatorData in
  let! rp_id_hash := slice data 0 32 in
  let! flags := index data 32 in
  let! c0 := index data 33 in let! c1 := index data 34 in
  let! c2 := index data 35 in let! c3 := index data 36 in
  Ok {| paa_rp_id_hash := rp_id_hash; paa_flags := u8_val flags;
        paa_sign_count := from_be_bytes [c0; c1; c2; c3] |}.

Definition verify_authentication_ceremony `{SerdeJson, Base64, AwsLc}
    (input : AuthenticationCeremonyInput) : res AuthenticationClaims AuthenticationError :=
  guard! negb (revoked (credential input)) else AuthenticatorRevoked in
  let! _ := map_err ClientDataError (ClientData.verify (client_data_json input) "webauthn.get"
              (expected_origin input) (expected_challenge input)) in
  let! parsed := parse_authenticator_data (authenticator_data input) in
  guard! bool_decide (paa_rp_id_hash parsed = rp_id_hash (expected_rp_id input)) else RpIdMismatch in
  guard! has_flag (paa_flags parsed) FLAG_USER_PRESENT else UserNotPresent in
  guard! negb (counter_supported (credential input) &&
               (paa_sign_count parsed <=? stored_sign_count (credential input)))
    else SignCounterRegression in
  let! accepted_key := map_err (λ _, MalformedRegisteredKey) (accept_key SUITE_V1
    {| pkm_algorithm := rc_public_key_algorithm (credential input);
       pkm_raw := rc_public_key_raw (credential input) |}) in
  let client_data_hash := AuthProof.sha256 (client_data_json input) in
  let signed_message := authenticator_data input ++ client_data_hash in
  let! _ := map_err (λ _, InvalidSignature)
              (AuthProof.verify accepted_key signed_message (signature input)) in
  Ok {| cl_subject_id := rc_subject_id (credential input);
        cl_credential_id := rc_credential_id (credential input);
        cl_aal := if has_flag (paa_flags parsed) FLAG_USER_VERIFIED then Aal2 else Aal1;
        cl_method := if counter_supported (credential input)
                     then "webauthn/device-bound" else "webauthn/synced-or-unknown";
        cl_new_sign_count := paa_sign_count parsed |}.

(** ** Lemmas *)

(** The fixed prefix; what follows byte 37 is ignored. *)
Definition assertion_layout (data : bytes) (p : ParsedAssertionAuthData) : Prop :=
  ∃ f c0 c1 c2 c3 rest,
    data = auth_data_bytes (paa_rp_id_hash p) f [c0; c1; c2; c3] rest ∧
    len (paa_rp_id_hash p) = 32 ∧ paa_flags p = u8_val f ∧
    paa_sign_count p = from_be_bytes [c0; c1; c2; c3].

Lemma assertion_parse_split rp f c0 c1 c2 c3 rest :
  len rp = 32 →
  parse_authenticator_data (auth_data_bytes rp f [c0; c1; c2; c3] rest) =
  Ok {| paa_rp_id_hash := rp; paa_flags := u8_val f; paa_sign_count := from_be_bytes [c0; c1; c2; c3] |}.
Proof.
  intros Hrp. unfold parse_authenticator_data.
  by destruct (auth_data_reads (E := AuthenticationError) rp f c0 c1 c2 c3 rest Hrp)
    as (-> & -> & -> & -> & -> & -> & _ & ->).
Qed.

Lemma assertion_parse_Ok data p : parse_authenticator_data data = Ok p ↔ assertion_layout data p.
Proof.
  destruct (decide (len data < 37)) as [Hs|Hs].
  - unfold parse_authenticator_data. rewrite (proj2 (Z.ltb_lt _ _)) by done. split; [done|].
    intros (f & c0 & c1 & c2 & c3 & rest & -> & Hrp & _). unfold auth_data_bytes in Hs.
    rewrite len_app, len_cons, len_app, Hrp in Hs. pose proof (len_nonneg rest).
    change (len [c0; c1; c2; c3]) with 4 in Hs. lia.
  - destruct (auth_data_split data) as (rp & f & c0 & c1 & c2 & c3 & rest & -> & Hrp); [lia|].
    rewrite assertion_parse_split by done. split.
    + intros [= <-]. by exists f, c0, c1, c2, c3, rest.
    + intros (f' & d0 & d1 & d2 & d3 & rest' & Heq & Hrp' & Hfl & Hsc).
      unfold auth_data_bytes in Heq. apply app_inj_1 in Heq as [-> Heq]; [|unfold len in *; lia].
      injection Heq as -> -> -> -> -> ->. destruct p; simpl in *; by subst.
Qed.

Lemma assertion_parse_no_panic data : parse_authenticator_data data ≠ Panic.
Proof.
  destruct (decide (len data < 37)) as [Hs|Hs].
  - unfold parse_authenticator_data. by rewrite (proj2 (Z.ltb_lt _ _)) by done.
  - destruct (auth_data_split data) as (rp & f & c0 & c1 & c2 & c3 & rest & -> & Hrp); [lia|].
    by rewrite assertion_parse_split by done.
Qed.

Section ceremony.
Context `{SerdeJson, Base64, AwsLc}.

(** What an authentication establishes about the registry's credential. *)
Record authenticated (input : AuthenticationCeremonyInput) (claims : AuthenticationClaims)
    (p : ParsedAssertionAuthData) : Prop := {
  aut_not_revoked : revoked (credential input) = false;
  aut_client : client_data_ok (client_data_json input) "webauthn.get" (expected_origin input)
                 (expected_challenge input);
  aut_layout : assertion_layout (authenticator_data input) p;
  aut_rp : paa_rp_id_hash p = rp_id_hash (expected_rp_id input);
  aut_present : Z.testbit (paa_flags p) 0 = true;
  aut_counter : counter_supported (credential input) = true →
    stored_sign_count (credential input) < paa_sign_count p;
  aut_signature :
    let c := credential input in
    ∃ k, accept_key SUITE_V1 {| pkm_algorithm := rc_public_key_algorithm c;
                                pkm_raw := rc_public_key_raw c |} = Ok k ∧
      AuthProof.verify k (authenticator_data input ++ AuthProof.sha256 (client_data_json input))
        (signature input) = Ok MkVerified;
  aut_claims :
    let c := credential input in
    claims = {| cl_subject_id := rc_subject_id c; cl_credential_id := rc_credential_id c;
                cl_aal := if Z.testbit (paa_flags p) 2 then Aal2 else Aal1;
                cl_method := if counter_supported c then "webauthn/device-bound"
                             else "webauthn/synced-or-unknown";
                cl_new_sign_count := paa_sign_count p |};
}.

Lemma verify_authentication_sound input claims :
  verify_authentication_ceremony input = Ok claims → ∃ p, authenticated input claims p.
Proof.
  unfold verify_authentication_ceremony. outer_guard Hrev.
  destruct (ClientData.verify _ _ _ _) as [[]| |] eqn:Hcd; cbn [map_err res_bind]; try done.
  apply ClientData.client_verify_Ok in Hcd.
  destruct (parse_authenticator_data _) as [p| |] eqn:Hp; cbn [res_bind]; try done.
  apply assertion_parse_Ok in Hp. outer_guard Hrp. outer_guard Hup. outer_guard Hcnt.
  destruct (accept_key _ _) as [k| |] eqn:Hk; cbn [map_err res_bind]; try done.
  destruct (AuthProof.verify _ _ _) as [[]| |] eqn:Hv; cbn [map_err res_bind]; try done.
  intros [= <-]. exists p. bool_simp. constructor; try done.
  - change FLAG_USER_PRESENT with (2 ^ 0) in Hup. by rewrite has_flag_testbit in Hup.
  - intros Hs. rewrite Hs in Hcnt. simpl in Hcnt. bool_simp. lia.
  - by exists k.
  - change FLAG_USER_VERIFIED with (2 ^ 2). by rewrite has_flag_testbit.
Qed.

Lemma verify_authentication_complete input claims p :
  authenticated input claims p → verify_authentication_ceremony input = Ok claims.
Proof.
  intros [Hrev Hcd Hp Hrp Hup Hcnt (k & Hk & Hv) ->]. unfold verify_authentication_ceremony.
  rewrite Hrev, (proj2 (ClientData.client_verify_Ok _ _ _ _)) by done. cbn [negb map_err res_bind].
  apply assertion_parse_Ok in Hp. rewrite Hp. cbn [res_bind]. rewrite bool_decide_true by done.
  change FLAG_USER_PRESENT with (2 ^ 0). change FLAG_USER_VERIFIED with (2 ^ 2).
  rewrite !has_flag_testbit, Hup by lia.
  assert (counter_supported (credential input) &&
    (paa_sign_count p <=? stored_sign_count (credential input)) = false) as ->.
  { destruct (counter_supported _); [|done]. simpl. apply Z.leb_gt. by apply Hcnt. }
  cbn [negb]. rewrite Hk. cbn [map_err res_bind]. rewrite Hv. done.
Qed.

Lemma verify_authentication_no_panic input : verify_authentication_ceremony input ≠ Panic.
Proof.
  unfold verify_authentication_ceremony. outer_guard Hrev.
  destruct (ClientData.verify _ _ _ _) as [[]| |] eqn:Hcd; cbn [map_err res_bind];
    [|done|by apply ClientData.client_verify_no_panic in Hcd].
  destruct (parse_authenticator_data _) as [p| |] eqn:Hp; cbn [res_bind];
    [|done|by apply assertion_parse_no_panic in Hp]. outer_guard Hrp. outer_guard Hup. outer_guard Hcnt.
  destruct (accept_key _ _) as [k| |] eqn:Hk; cbn [map_err res_bind];
    [|done|by apply accept_key_no_panic in Hk].
  destruct (AuthProof.verify _ _ _) as [[]| |] eqn:Hv; cbn [map_err res_bind];
    [done|done|by apply AuthProof.proof_verify_no_panic in Hv].
Qed.
End ceremony.

(** ** Theorems *)

(** C30. The authentication ceremony succeeds exactly when its specification [authenticated]
    holds: the registry's credential is not revoked; the client data are for
    [webauthn.get], the expected origin and challenge; the authenticator data are for
    the expected relying party with user presence; where counters are supported, the
    counter is strictly above the stored one; and the registered key, under its own
    algorithm, verifies the authenticator data and the client data hash.  Identity comes
    from the registry, assurance from the verified flags.  No input panics. *)
Theorem authentication_iff_specified `{SerdeJson, Base64, AwsLc} input :
  (∀ claims, verify_authentication_ceremony input = Ok claims ↔ ∃ p, authenticated input claims p) ∧
  verify_authentication_ceremony input ≠ Panic.
Proof.
  split; [|apply verify_authentication_no_panic]. intros claims.
  split; [apply verify_authentication_sound|]. intros [p Hp]. by eapply verify_authentication_complete.
Qed.

(** Ceremonies cannot be confused or replayed across contexts: client data accepted by
    one ceremony are accepted by no ceremony of the other kind, for no other origin and
    for no other challenge. *)
Theorem ceremonies_not_confused `{SerdeJson, Base64, AwsLc, Ciborium, Coset}
    (a : AuthenticationCeremonyInput) claims
    (Hok : verify_authentication_ceremony a = Ok claims) :
  (∀ (r : RegistrationCeremonyInput),
     Registration.client_data_json r = client_data_json a →
     is_ok (verify_registration_ceremony r) = false) ∧
  (∀ (a' : AuthenticationCeremonyInput),
     client_data_json a' = client_data_json a → is_ok (verify_authentication_ceremony a') = true →
     expected_origin a' = expected_origin a ∧ expected_challenge a' = expected_challenge a).
Proof.
  apply verify_authentication_sound in Hok as [p [_ Hcd _ _ _ _ _ _]]. split.
  - intros r Hr. destruct (verify_registration_ceremony r) as [out| |] eqn:Hreg; [|done|done].
    apply verify_registration_sound in Hreg as (? & ? & ? & ? & ? & ? & [Hrc _ _ _ _ _ _ _ _ _ _ _ _]).
    rewrite Hr in Hrc. destruct (client_data_ceremony_unique _ _ _ _ _ _ _ Hrc Hcd) as [? _]. done.
  - intros a' Ha Hok'. destruct (verify_authentication_ceremony a') as [cl| |] eqn:Haut; try done.
    apply verify_authentication_sound in Haut as [p' [_ Hcd' _ _ _ _ _ _]]. rewrite Ha in Hcd'.
    by destruct (client_data_ceremony_unique _ _ _ _ _ _ _ Hcd' Hcd) as (_ & -> & ->).
Qed.

(** ** The theorems at concrete inputs *)

Definition ref_client_data : bytes :=
  to_vec (Object [("type", VString "webauthn.get"); ("challenge", VString (url_safe_encode (replicate 32 (u8_of 1))));
                  ("origin", VString "https://idp.example")]).

Definition ref_auth_data : bytes :=
  auth_data_bytes (rp_id_hash "idp.example") (u8_of 5) [u8_of 0; u8_of 0; u8_of 0; u8_of 8] [].

Definition ref_credential : RegisteredCredential := {|
  rc_subject_id := "alice"; rc_credential_id := replicate 16 (u8_of 3);
  rc_public_key_algorithm := EdDsa; rc_public_key_raw := replicate 32 (u8_of 7);
  counter_supported := true; stored_sign_count := 7; revoked := false |}.

Definition ref_auth_input : AuthenticationCeremonyInput := {|
  client_data_json := ref_client_data; authenticator_data := ref_auth_data;
  signature := fold_digest (ref_auth_data ++ fold_digest ref_client_data) ++
               take 32 (drop 1 (replicate 32 (u8_of 7)));
  expected_origin := "https://idp.example"; expected_rp_id := "idp.example";
  expected_challenge := {| ch_bytes := replicate 32 (u8_of 1) |}; credential := ref_credential |}.

#[local] Instance ref_coset : Coset := {| cose_from_slice _ := None |}.

Definition ref_auth_claims : AuthenticationClaims := {|
  cl_subject_id := "alice"; cl_credential_id := replicate 16 (u8_of 3); cl_aal := Aal2;
  cl_method := "webauthn/device-bound"; cl_new_sign_count := 8 |}.

Lemma ref_authenticated : verify_authentication_ceremony ref_auth_input = Ok ref_auth_claims.
Proof.
  apply (verify_authentication_complete ref_auth_input _
    {| paa_rp_id_hash := rp_id_hash "idp.example"; paa_flags := 5; paa_sign_count := 8 |}).
  split.
  - done.
  - exists {| ceremony_type := "webauthn.get"; challenge := url_safe_encode (replicate 32 (u8_of 1));
              origin := "https://idp.example" |}.
    split_and!; [|done|done|apply url_safe_decode_encode].
    change (client_data_json ref_auth_input) with ref_client_data. unfold ref_client_data.
    rewrite from_slice_to_vec; [reflexivity | reflexivity | cbn; lia].
  - exists (u8_of 5), (u8_of 0), (u8_of 0), (u8_of 0), (u8_of 8), []. by split_and!.
  - reflexivity.
  - reflexivity.
  - intros _. by cbn.
  - eexists. split; [reflexivity|]. apply AuthProof.proof_verify_Ok. by apply bool_decide_eq_true.
  - reflexivity.
Qed.

(** A registration that presents the client data of the authentication above. *)
Definition ref_confused_input : RegistrationCeremonyInput := {|
  Registration.client_data_json := ref_client_data; attestation_object := [];
  Registration.expected_origin := "https://idp.example";
  Registration.expected_rp_id := "idp.example";
  Registration.expected_challenge := {| ch_bytes := replicate 32 (u8_of 1) |}; policy := Any |}.

Lemma ceremonies_not_confused_witness :
  is_ok (verify_registration_ceremony ref_confused_input) = false.
Proof.
  exact (proj1 (ceremonies_not_confused ref_auth_input ref_auth_claims ref_authenticated) ref_confused_input eq_refl).
Defined.
