(* ===== verification/Recovery.v ===== *)
(** * [crates/zs-webauthn/src/recovery.rs] and [store.rs]: quorum, storage contracts

    [verify_quorum] over approvals that can only be made from the claims of a verified
    authentication; the traits [ChallengeStore] and [SignCounterStore] as classes with
    the contracts their comments state. *)

From S2P Require Import Prelude.
From S2P Require Import AuthProof.
From S2P Require Import Authentication.

Definition MINIMUM_THRESHOLD : Z := 2.

Record RecoveryApproval := { approval_claims : AuthenticationClaims }.
Definition from_verified_authentication (claims : AuthenticationClaims) : RecoveryApproval :=
  {| approval_claims := claims |}.
Definition approval_credential_id (a : RecoveryApproval) : bytes :=
  cl_credential_id (approval_claims a).

Inductive RecoveryError :=
| ThresholdBelowMinimum
| QuorumNotReached (distinct threshold : Z).

Record RecoveryOutcome := { approving_credential_ids : list bytes }.

(** The [HashSet] of credential identifiers; the outcome lists it in some order. *)
Definition distinct_ids (approvals : list RecoveryApproval) : gset bytes :=
  list_to_set (map approval_credential_id approvals).

Definition verify_quorum (approvals : list RecoveryApproval) (threshold : Z) :
    res RecoveryOutcome RecoveryError :=
  guard! negb (threshold <? MINIMUM_THRESHOLD) else ThresholdBelowMinimum in
  let distinct := distinct_ids approvals in
  let n := Z.of_nat (size distinct) in
  guard! negb (n <? threshold) else QuorumNotReached n threshold in
  Ok {| approving_credential_ids := elements distinct |}.

(** ** Storage contracts ([store.rs]) *)

(** [ChallengeStore::consume]: one atomic operation. *)
Class ChallengeStore (S Error : Type) := {
  consume : S → Challenge → S * res (option unit) Error;
}.

(** [SignCounterStore::advance]: compares and writes in one operation. *)
Class SignCounterStore (S Error : Type) := {
  advance : S → bytes → Z → S * res bool Error;
}.

(** The contracts, over the live challenges (neither used nor expired; time may only
    remove some) and the counters a store holds. *)
Class ChallengeStoreLaws (S Error : Type) `{ChallengeStore S Error} := {
  live : S → gset bytes;
  consume_spec s c s' r :
    consume s c = (s', r) →
    match r with
    | Ok (Some _) => (ch_bytes c ∈ live s) ∧ live s' ⊆ live s ∖ {[ ch_bytes c ]}
    | _ => live s' ⊆ live s
    end;
}.

Class SignCounterStoreLaws (S Error : Type) `{SignCounterStore S Error} := {
  counter : S → bytes → option Z;
  advance_spec s cred n s' r :
    advance s cred n = (s', r) →
    match r with
    | Ok true => (∃ old, counter s cred = Some old ∧ old < n) ∧ counter s' cred = Some n ∧
                 ∀ other, other ≠ cred → counter s' other = counter s other
    | _ => ∀ other, counter s' other = counter s other
    end;
}.

(** Calls of any clients in any order, with what each of them was answered. *)
Fixpoint run_consumes {S Error} `{ChallengeStore S Error} (s : S) (calls : list Challenge) :
    list (Challenge * res (option unit) Error) :=
  match calls with
  | [] => []
  | c :: calls' => let '(s', r) := consume s c in (c, r) :: run_consumes s' calls'
  end.

Fixpoint run_advances {S Error} `{SignCounterStore S Error} (s : S) (calls : list (bytes * Z)) :
    list (bytes * Z * res bool Error) :=
  match calls with
  | [] => []
  | (cred, n) :: calls' =>
      let '(s', r) := advance s cred n in (cred, n, r) :: run_advances s' calls'
  end.

(** Answers that let a ceremony go on. *)
Fixpoint consumed {Error} (c : Challenge) (log : list (Challenge * res (option unit) Error)) : nat :=
  match log with
  | [] => 0
  | (c', Ok (Some _)) :: log' =>
      if bool_decide (ch_bytes c' = ch_bytes c) then S (consumed c log') else consumed c log'
  | _ :: log' => consumed c log'
  end.
Definition advanced {Error} (cred : bytes) (log : list (bytes * Z * res bool Error)) : list Z :=
  omap (λ x, if bool_decide (x.1.1 = cred) && match x.2 with Ok true => true | _ => false end
             then Some x.1.2 else None) log.

(** ** Lemmas *)

Lemma elem_of_distinct x approvals :
  x ∈ distinct_ids approvals ↔ ∃ a, a ∈ approvals ∧ approval_credential_id a = x.
Proof.
  unfold distinct_ids. rewrite elem_of_list_to_set. split.
  - intros (a & -> & Ha)%list_elem_of_fmap. by exists a.
  - intros (a & Ha & <-). by apply list_elem_of_fmap_2.
Qed.

Lemma run_consumes_dead {S Error} `{ChallengeStoreLaws S Error} (s : S) calls c :
  ch_bytes c ∉ live s → consumed c (run_consumes s calls) = 0%nat.
Proof.
  revert s. induction calls as [|c' calls IH]; intros s Hs; [done|]. simpl.
  destruct (consume s c') as [s' r] eqn:Hc. apply consume_spec in Hc. simpl.
  destruct r as [[u|]|e|]; [|apply IH; set_solver..].
  destruct Hc as [Hin Hsub]. rewrite bool_decide_false by congruence. apply IH. set_solver.
Qed.

Lemma run_consumes_once {S Error} `{ChallengeStoreLaws S Error} (s : S) calls c :
  (consumed c (run_consumes s calls) ≤ 1)%nat.
Proof.
  revert s. induction calls as [|c' calls IH]; intros s; [simpl; lia|]. simpl.
  destruct (consume s c') as [s' r] eqn:Hc. apply consume_spec in Hc. simpl.
  destruct r as [[u|]|e|]; [|apply IH..]. destruct Hc as [Hin Hsub].
  case_bool_decide as Heq; [|apply IH]. rewrite run_consumes_dead; [done|]. set_solver.
Qed.

(** Counters granted to one credential, in the order of the calls, are increasing. *)
Lemma run_advances_sorted {S Error} `{SignCounterStoreLaws S Error} (s : S) calls cred :
  StronglySorted Z.lt (advanced cred (run_advances s calls)) ∧
  ∀ n, n ∈ advanced cred (run_advances s calls) → ∃ old, counter s cred = Some old ∧ old < n.
Proof.
  revert s. induction calls as [|[cred' n] calls IH]; intros s.
  { split; [constructor | intros n Hn; by apply elem_of_nil in Hn]. }
  simpl. destruct (advance s cred' n) as [s' r] eqn:Ha. apply advance_spec in Ha.
  unfold advanced. simpl. fold (advanced cred (run_advances s' calls)).
  destruct (IH s') as [Hss Hb].
  destruct (decide (cred' = cred)) as [->|Hne].
  - rewrite bool_decide_true by done. destruct r as [[]|e|]; simpl.
    + destruct Ha as ((old & Hold & Hlt) & Hn & _). split.
      * constructor; [done|]. apply Forall_forall. intros m Hm. apply Hb in Hm as (o & Ho & ?). 
        rewrite Hn in Ho. injection Ho as <-. done.
      * intros m [->|Hm]%elem_of_cons; [by exists old|]. apply Hb in Hm as (o & Ho & ?).
        rewrite Hn in Ho. injection Ho as <-. exists old. split; [done|lia].
    + split; [done|]. intros m Hm. rewrite <- Ha. auto.
    + split; [done|]. intros m Hm. rewrite <- Ha. auto.
    + split; [done|]. intros m Hm. rewrite <- Ha. auto.
  - rewrite bool_decide_false by done. simpl. split; [done|]. intros m Hm. apply Hb in Hm.
    destruct r as [[]|e|]; [destruct Ha as (_ & _ & Ha)|..]; by rewrite <- Ha.
Qed.

(** ** Theorems *)

(** C31. A recovery is granted exactly when the threshold is at least 2 and at least that many
    distinct credentials approved; the outcome lists each approving credential once and
    nothing else.  No single credential can recover alone, however often it approves. *)
Theorem quorum_iff approvals threshold :
  (∀ out, verify_quorum approvals threshold = Ok out ↔
     2 ≤ threshold ∧ threshold ≤ Z.of_nat (size (distinct_ids approvals)) ∧
     out = {| approving_credential_ids := elements (distinct_ids approvals) |}) ∧
  (∀ out, verify_quorum approvals threshold = Ok out →
     NoDup (approving_credential_ids out) ∧ threshold ≤ len (approving_credential_ids out) ∧
     ∀ x, x ∈ approving_credential_ids out ↔ ∃ a, a ∈ approvals ∧ approval_credential_id a = x) ∧
  (∀ x, (∀ a, a ∈ approvals → approval_credential_id a = x) →
     is_ok (verify_quorum approvals threshold) = false).
Proof.
  assert (∀ out, verify_quorum approvals threshold = Ok out ↔
     2 ≤ threshold ∧ threshold ≤ Z.of_nat (size (distinct_ids approvals)) ∧
     out = {| approving_credential_ids := elements (distinct_ids approvals) |}) as Hiff.
  { intros out. unfold verify_quorum, MINIMUM_THRESHOLD.
    destruct (threshold <? 2) eqn:H2; bool_simp; simpl; [split; [done | lia]|].
    destruct (Z.of_nat _ <? threshold) eqn:Hq; bool_simp; simpl; [split; [done | lia]|].
    split; [by intros [= <-] | by intros (_ & _ & ->)]. }
  split_and!; [done | |].
  - intros out (_ & Ht & ->)%Hiff. simpl. split_and!; [apply NoDup_elements | exact Ht |].
    intros x. by rewrite elem_of_elements, elem_of_distinct.
  - intros x Hx. apply not_true_is_false. intros Hok.
    assert (∃ out, verify_quorum approvals threshold = Ok out) as [out Hv]
      by (destruct (verify_quorum approvals threshold); [eauto|done|done]).
    apply Hiff in Hv as (H2 & Ht & _). exfalso.
    assert (distinct_ids approvals ⊆ {[ x ]}) as Hsub.
    { intros y (a & Ha & <-)%elem_of_distinct. rewrite (Hx a Ha). set_solver. }
    apply subseteq_size in Hsub. rewrite size_singleton in Hsub. lia.
Qed.

(** Through stores that keep their contracts, whatever the interleaving of clients, a
    challenge lets at most one ceremony go on, and the counters granted to a credential
    strictly increase: neither a replayed challenge nor a cloned authenticator gets two
    grants. *)
Theorem at_most_one_grant {S1 E1 S2 E2} `{ChallengeStoreLaws S1 E1, SignCounterStoreLaws S2 E2}
    (cs : S1) (ks : S2) challenges counters c cred :
  (consumed c (run_consumes cs challenges) ≤ 1)%nat ∧
  StronglySorted Z.lt (advanced cred (run_advances ks counters)).
Proof. split; [apply run_consumes_once | apply run_advances_sorted]. Qed.

(** The quorum counts credentials, not people: two approvals of one subject made with two
    of its authenticators reach a threshold of 2. *)
Theorem one_subject_two_credentials c1 c2
    (Hsubject : cl_subject_id c1 = cl_subject_id c2)
    (Hcreds : cl_credential_id c1 ≠ cl_credential_id c2) :
  is_ok (verify_quorum [from_verified_authentication c1; from_verified_authentication c2] 2) = true.
Proof.
  unfold verify_quorum. cbn [Z.ltb]. change (2 <? MINIMUM_THRESHOLD) with false. cbn [negb].
  assert (size (distinct_ids [from_verified_authentication c1; from_verified_authentication c2]) = 2%nat)
    as ->; [|done].
  unfold distinct_ids. rewrite size_list_to_set; [done|].
  apply NoDup_cons. split; [|apply NoDup_singleton]. rewrite list_elem_of_singleton. done.
Qed.

Definition ref_claims_of (cred : Z) : AuthenticationClaims := {|
  cl_subject_id := "alice"; cl_credential_id := [u8_of cred]; cl_aal := Aal2;
  cl_method := "webauthn/device-bound"; cl_new_sign_count := 1 |}.

Lemma one_subject_two_credentials_witness :
  is_ok (verify_quorum (map from_verified_authentication [ref_claims_of 1; ref_claims_of 2]) 2) = true.
Proof. apply (one_subject_two_credentials (ref_claims_of 1) (ref_claims_of 2)); [reflexivity | discriminate]. Defined.

(** ** Stores in memory, for concrete inputs *)

#[export] Instance mem_challenges : ChallengeStore (gset bytes) unit := {|
  consume s c := if bool_decide (ch_bytes c ∈ s) then (s ∖ {[ ch_bytes c ]}, Ok (Some tt)) else (s, Ok None)
|}.
#[export] Program Instance mem_challenges_laws : ChallengeStoreLaws (gset bytes) unit := {| live s := s |}.
Next Obligation. intros s c s' r. simpl. case_bool_decide; intros [= <- <-]; set_solver. Qed.

#[export] Instance mem_counters : SignCounterStore (gmap bytes Z) unit := {|
  advance s cred n :=
    match s !! cred with
    | Some old => if old <? n then (<[cred := n]> s, Ok true) else (s, Ok false)
    | None => (s, Ok false)
    end
|}.
#[export] Program Instance mem_counters_laws : SignCounterStoreLaws (gmap bytes Z) unit :=
  {| counter s cred := s !! cred |}.
Next Obligation.
  intros s cred n s' r. simpl. destruct (s !! cred) as [old|] eqn:Ho; [|by intros [= <- <-]].
  destruct (old <? n) eqn:Hl; intros [= <- <-]; [|done]. bool_simp. split_and!.
  - by exists old.
  - apply lookup_insert_eq.
  - intros other Hne. by rewrite lookup_insert_ne.
Qed.

Definition ref_challenge : Challenge := {| ch_bytes := replicate 32 (u8_of 1) |}.

Lemma at_most_one_grant_witness :
  (consumed ref_challenge (run_consumes ({[ ch_bytes ref_challenge ]} : gset bytes)
     [ref_challenge; ref_challenge]) ≤ 1)%nat ∧
  StronglySorted Z.lt (advanced [u8_of 1] (run_advances ({[ [u8_of 1] := 4 ]} : gmap bytes Z)
     [([u8_of 1], 5); ([u8_of 1], 5); ([u8_of 1], 6)])).
Proof. apply at_most_one_grant. Defined.
