(* ===== verification/Calendar.v ===== *)
(** * Calendar arithmetic of [apps/policy-engine/src/lib.rs]

    Conversions between seconds since 1970 and RFC 3339 text.  All values are [i64] in
    the source; a 64-bit number of seconds gives fewer than 2^47 days, and no
    intermediate value leaves the type.  The theorems: the two day conversions are
    inverse of each other, the text parses back to the second it was made from, the
    text is an accepted [Timestamp] exactly for the years 0 to 9999, and within them
    the order of texts is the order of times, which is what the validity window of an
    assertion relies on. *)

From S2P Require Import Prelude.
From S2P Require Import Aws.
From S2P Require Import Common.

(** [div_euclid] and [rem_euclid] with a positive divisor are [Z.div] and [Z.modulo]. *)
Definition civil_from_days (z : Z) : Z * Z * Z :=
  let z := z + 719468 in
  let era := z / 146097 in
  let doe := z mod 146097 in
  let yoe := (doe - doe / 1460 + doe / 36524 - doe / 146096) / 365 in
  let y := yoe + era * 400 in
  let doy := doe - (365 * yoe + yoe / 4 - yoe / 100) in
  let mp := (5 * doy + 2) / 153 in
  let d := doy - (153 * mp + 2) / 5 + 1 in
  let m := if mp <? 10 then mp + 3 else mp - 9 in
  let y := if m <=? 2 then y + 1 else y in
  (y, wrap_u32 m, wrap_u32 d).

Definition days_from_civil (y m d : Z) : Z :=
  let y := if m <=? 2 then y - 1 else y in
  let era := y / 400 in
  let yoe := y mod 400 in
  let mp := if 2 <? m then m - 3 else m + 9 in
  let doy := (153 * mp + 2) / 5 + d - 1 in
  let doe := yoe * 365 + yoe / 4 - yoe / 100 + doy in
  era * 146097 + doe - 719468.

(** [format!("{year:04}-{month:02}-{day:02}T{hour:02}:{minute:02}:{second:02}Z")] *)
Definition format_rfc3339 (year month day hour minute second : Z) : bytes :=
  fmt_int_pad 4 year ++ ["-"%char] ++ fmt_int_pad 2 month ++ ["-"%char] ++ fmt_int_pad 2 day ++
  ["T"%char] ++ fmt_int_pad 2 hour ++ [":"%char] ++ fmt_int_pad 2 minute ++ [":"%char] ++
  fmt_int_pad 2 second ++ ["Z"%char].

Definition rfc3339_from_seconds (total_seconds : Z) : string :=
  let days := total_seconds / 86400 in
  let seconds_of_day := total_seconds mod 86400 in
  let '(year, month, day) := civil_from_days days in
  let hour := seconds_of_day / 3600 in
  let minute := (seconds_of_day mod 3600) / 60 in
  let second := seconds_of_day mod 60 in
  from_utf8_bytes (format_rfc3339 year month day hour minute second).

(** [str::parse::<i64>]: an optional sign and at least one digit, within the type. *)
Definition parse_i64 (bs : bytes) : option Z :=
  let digits l := if negb (len l =? 0) && forallb is_ascii_digit l then Some (dec_value l) else None in
  let r := match bs with
           | "-"%char :: l => Z.opp <$> digits l
           | "+"%char :: l => digits l
           | _ => digits bs
           end in
  n ← r; if between i64_min n i64_max then Some n else None.

(** [from_utf8(&bytes[i..j]).unwrap().parse().unwrap()] *)
Definition parse_field {E} (bs : bytes) (i j : Z) : res Z E :=
  let! part := slice bs i j in
  unwrap (parse_i64 part).

Definition request_time_from_rfc3339 {E} (s : string) : res Z E :=
  let bytes := as_bytes s in
  let! year := parse_field bytes 0 4 in
  let! month := parse_field bytes 5 7 in
  let! day := parse_field bytes 8 10 in
  let! hour := parse_field bytes 11 13 in
  let! minute := parse_field bytes 14 16 in
  let! second := parse_field bytes 17 19 in
  Ok (days_from_civil year month day * 86400 + hour * 3600 + minute * 60 + second).

(** ** Lemmas: years of a 400-year era *)

(** First day of a year of the era, counted from 1 March of year 0. *)
Definition year_start (yoe : Z) : Z := 365 * yoe + yoe / 4 - yoe / 100.

Definition year_of_day (doe : Z) : Z :=
  (doe - doe / 1460 + doe / 36524 - doe / 146096) / 365.

Lemma year_of_day_mono a b : 0 ≤ a ≤ b → b < 146097 → year_of_day a ≤ year_of_day b.
Proof.
  intros Hab Hb. unfold year_of_day. apply Z.div_le_mono; [lia|].
  assert (b < 146096 ∨ b = 146096) as [Hb'| ->] by lia.
  - rewrite (Z.div_small a 146096), (Z.div_small b 146096) by lia.
    pose proof (Z.div_le_mono a b 36524 ltac:(lia) ltac:(lia)).
    pose proof (Z.div_mod b 1460 ltac:(lia)). pose proof (Z.div_mod a 1460 ltac:(lia)).
    pose proof (Z.mod_pos_bound a 1460 ltac:(lia)). pose proof (Z.mod_pos_bound b 1460 ltac:(lia)). lia.
  - assert (a = 146096 ∨ a < 146096) as [->|Ha] by lia; [lia|].
    rewrite (Z.div_small a 146096) by lia.
    pose proof (Z.div_le_mono a 146095 36524 ltac:(lia) ltac:(lia)) as H1.
    change (146095 / 36524) with 3 in H1.
    change (146096 - 146096 / 1460 + 146096 / 36524 - 146096 / 146096) with (146096 - 100 + 4 - 1).
    pose proof (Z.div_mod a 1460 ltac:(lia)). pose proof (Z.mod_pos_bound a 1460 ltac:(lia)). lia.
Qed.

(** The year formula is right at both ends of each of the 400 years. *)
Definition year_ends_ok (n : nat) : bool :=
  let y := Z.of_nat n in
  let last := if y =? 399 then 146096 else year_start (y + 1) - 1 in
  (year_of_day (year_start y) =? y) && (year_of_day last =? y).

Lemma all_year_ends_ok : forallb year_ends_ok (seq 0 400) = true.
Proof. vm_compute. reflexivity. Qed.

Lemma year_ends y :
  0 ≤ y < 400 → year_of_day (year_start y) = y ∧
  year_of_day (if y =? 399 then 146096 else year_start (y + 1) - 1) = y.
Proof.
  intros Hy. pose proof all_year_ends_ok as Hall. rewrite forallb_forall in Hall.
  specialize (Hall (Z.to_nat y)). unfold year_ends_ok in Hall. rewrite Z2Nat.id in Hall by lia.
  assert (In (Z.to_nat y) (seq 0 400)) as Hin by (apply in_seq; lia).
  specialize (Hall Hin). apply andb_true_iff in Hall as [H1 H2]. by rewrite !Z.eqb_eq in *.
Qed.

Lemma year_start_range y : 0 ≤ y < 400 → 0 ≤ year_start y < 146097.
Proof. unfold year_start. intros Hy. Z.to_euclidean_division_equations. lia. Qed.

(** Length of a year, from its start. *)
Definition year_length (y : Z) : Z := if y =? 399 then 366 else year_start (y + 1) - year_start y.

Lemma year_of_day_spec y doy :
  0 ≤ y < 400 → 0 ≤ doy < year_length y → year_of_day (year_start y + doy) = y.
Proof.
  intros Hy Hd. destruct (year_ends y Hy) as [H1 H2]. unfold year_length in Hd.
  pose proof (year_start_range y Hy).
  destruct (y =? 399) eqn:Hl; bool_simp.
  - subst y. change (399 =? 399) with true in H2. cbn iota in H2.
    assert (year_start 399 + doy ≤ 146096) by (change (year_start 399) with 145731; lia).
    pose proof (year_of_day_mono (year_start 399) (year_start 399 + doy) ltac:(lia) ltac:(lia)).
    pose proof (year_of_day_mono (year_start 399 + doy) 146096 ltac:(lia) ltac:(lia)). lia.
  - pose proof (year_start_range (y + 1) ltac:(lia)).
    pose proof (year_of_day_mono (year_start y) (year_start y + doy) ltac:(lia) ltac:(lia)).
    pose proof (year_of_day_mono (year_start y + doy) (year_start (y + 1) - 1) ltac:(lia) ltac:(lia)). lia.
Qed.

(** Every day of an era lies in the year that the formula gives. *)
Lemma year_of_day_bounds doe :
  0 ≤ doe < 146097 →
  0 ≤ year_of_day doe < 400 ∧ 0 ≤ doe - year_start (year_of_day doe) < year_length (year_of_day doe).
Proof.
  intros Hd. pose proof (year_of_day_mono 0 doe ltac:(lia) ltac:(lia)) as H0.
  pose proof (year_of_day_mono doe 146096 ltac:(lia) ltac:(lia)) as H1.
  change (year_of_day 0) with 0 in H0. change (year_of_day 146096) with 399 in H1.
  assert (0 ≤ year_of_day doe < 400) as Hy by lia. split; [done|].
  set (y := year_of_day doe) in *. destruct (year_ends y Hy) as [E1 E2].
  pose proof (year_start_range y Hy) as Hr. split.
  - assert (¬ doe < year_start y); [|lia]. intros Hlt.
    destruct (decide (y = 0)) as [->|Hy0]; [change (year_start 0) with 0 in *; lia|].
    destruct (year_ends (y - 1) ltac:(lia)) as [_ E3].
    destruct (y - 1 =? 399) eqn:Hf; [bool_simp; lia|]. replace (y - 1 + 1) with y in E3 by lia.
    pose proof (year_of_day_mono doe (year_start y - 1) ltac:(lia) ltac:(lia)). unfold y in *. lia.
  - unfold year_length. destruct (y =? 399) eqn:Hl; bool_simp.
    + rewrite Hl. change (year_start 399) with 145731. lia.
    + assert (¬ year_start (y + 1) ≤ doe); [|lia]. intros Hle.
      destruct (year_ends (y + 1) ltac:(lia)) as [E3 _].
      pose proof (year_of_day_mono (year_start (y + 1)) doe ltac:(pose proof (year_start_range (y + 1)); lia) ltac:(lia)).
      unfold y in *. lia.
Qed.

(** ** The Gregorian calendar, as the specification *)

Definition is_leap (y : Z) : bool := (y mod 4 =? 0) && (negb (y mod 100 =? 0) || (y mod 400 =? 0)).

Definition days_in_month (y m : Z) : Z :=
  if m =? 2 then (if is_leap y then 29 else 28)
  else if (m =? 4) || (m =? 6) || (m =? 9) || (m =? 11) then 30 else 31.

Definition valid_date (y m d : Z) : Prop := 1 ≤ m ≤ 12 ∧ 1 ≤ d ≤ days_in_month y m.

(** A year that starts on 1 March has 366 days when the February at its end has 29. *)
Definition year_length_leap_ok (n : nat) : bool :=
  let y := Z.of_nat n in year_length y =? (if is_leap (y + 1) then 366 else 365).

Lemma all_year_length_leap_ok : forallb year_length_leap_ok (seq 0 400) = true.
Proof. vm_compute. reflexivity. Qed.

Lemma is_leap_era era y : is_leap (y + era * 400) = is_leap y.
Proof.
  assert (Hm : ∀ k c, c ≠ 0 → k * c = 400 → (y + era * 400) mod c = y mod c).
  { intros k c Hc Hk. rewrite <- Hk, Z.mul_assoc. by apply Z.mod_add. }
  unfold is_leap. by rewrite (Hm 100 4), (Hm 4 100), (Hm 1 400) by lia.
Qed.

Lemma year_length_leap y :
  0 ≤ y < 400 → year_length y = if is_leap (y + 1) then 366 else 365.
Proof.
  intros Hy. pose proof all_year_length_leap_ok as Hall. rewrite forallb_forall in Hall.
  specialize (Hall (Z.to_nat y) ltac:(apply in_seq; lia)). unfold year_length_leap_ok in Hall.
  rewrite Z2Nat.id in Hall by lia. by apply Z.eqb_eq in Hall.
Qed.

(** ** Months of a year that starts in March *)

Definition month_of_day (doy : Z) : Z := (5 * doy + 2) / 153.
Definition month_start (mp : Z) : Z := (153 * mp + 2) / 5.
Definition civil_month (mp : Z) : Z := if mp <? 10 then mp + 3 else mp - 9.

(** Days of the month number [mp] in a year of [n] days. *)
Definition month_length (n mp : Z) : Z :=
  if mp =? 11 then n - 337 else month_start (mp + 1) - month_start mp.

Definition month_ok (n : nat) : bool :=
  let doy := Z.of_nat n in
  let mp := month_of_day doy in
  between 0 mp 11 && (month_start mp <=? doy) &&
  ((mp =? 11) || (doy <? month_start (mp + 1))).

Lemma all_month_ok : forallb month_ok (seq 0 366) = true.
Proof. vm_compute. reflexivity. Qed.

Lemma month_of_day_bounds n doy :
  0 ≤ doy < n → n ≤ 366 →
  0 ≤ month_of_day doy ≤ 11 ∧
  0 ≤ doy - month_start (month_of_day doy) < month_length n (month_of_day doy).
Proof.
  intros Hd Hn. pose proof all_month_ok as Hall. rewrite forallb_forall in Hall.
  specialize (Hall (Z.to_nat doy) ltac:(apply in_seq; lia)). unfold month_ok in Hall.
  rewrite Z2Nat.id in Hall by lia. rewrite !andb_true_iff, orb_true_iff in Hall.
  destruct Hall as [[Hb Hs] Hl]. unfold between in Hb. bool_simp. split; [lia|].
  unfold month_length. destruct (month_of_day doy =? 11) eqn:He; bool_simp.
  - rewrite He. change (month_start 11) with 337. rewrite He in Hs. change (month_start 11) with 337 in Hs. lia.
  - destruct Hl as [Hl|Hl]; bool_simp; lia.
Qed.

Lemma month_of_day_spec n mp d :
  365 ≤ n ≤ 366 → 0 ≤ mp ≤ 11 → 0 ≤ d < month_length n mp →
  month_of_day (month_start mp + d) = mp ∧ 0 ≤ month_start mp + d < n.
Proof.
  intros Hn Hmp Hd. unfold month_length in Hd. unfold month_of_day.
  destruct (mp =? 11) eqn:He; bool_simp.
  - subst mp. change (month_start 11) with 337. split; [|lia].
    symmetry. apply (Z.div_unique _ _ _ (5 * (337 + d) + 2 - 153 * 11)); lia.
  - unfold month_start in *. Z.to_euclidean_division_equations. lia.
Qed.

(** Month lengths are those of the calendar. *)
Lemma month_length_civil y mp :
  0 ≤ mp ≤ 11 →
  month_length (if is_leap (y + 1) then 366 else 365) mp =
  days_in_month (if civil_month mp <=? 2 then y + 1 else y) (civil_month mp).
Proof.
  intros Hmp. unfold month_length, days_in_month. set (b := is_leap _).
  assert (Hc : mp = 11 ∨ 0 ≤ mp ≤ 10) by lia. destruct Hc as [->|Hc].
  - change (civil_month 11 <=? 2) with true. cbn iota. fold b. by destruct b.
  - assert ((civil_month mp =? 2) = false) as -> by (unfold civil_month; destruct (mp <? 10) eqn:E; bool_simp; lia).
    assert ((mp =? 11) = false) as -> by lia. clear b.
    assert (Hin : In mp [0; 1; 2; 3; 4; 5; 6; 7; 8; 9; 10]) by (cbn; lia).
    cbn in Hin. repeat (destruct Hin as [<-|Hin]; [reflexivity|]). done.
Qed.

(** ** Months counted from March of year 0 *)

(** Day number of the first day of month [M]: March of year 0 is month 0. *)
Definition month_first (M : Z) : Z :=
  M / 12 / 400 * 146097 + year_start (M / 12 mod 400) + month_start (M mod 12) - 719468.

Definition month_size (M : Z) : Z :=
  month_length (if is_leap (M / 12 + 1) then 366 else 365) (M mod 12).

Definition civil_index (y m : Z) : Z := 12 * y + m - 3.

Lemma month_size_pos M : 28 ≤ month_size M ≤ 31.
Proof.
  unfold month_size. rewrite month_length_civil by (pose proof (Z.mod_pos_bound M 12); lia).
  unfold days_in_month. repeat case_match; lia.
Qed.

Lemma is_leap_mod y : is_leap (y mod 400 + 1) = is_leap (y + 1).
Proof.
  rewrite <- (is_leap_era (y / 400) (y mod 400 + 1)). f_equal.
  pose proof (Z.div_mod y 400). lia.
Qed.

Lemma month_first_succ M : month_first (M + 1) = month_first M + month_size M.
Proof.
  unfold month_first, month_size. rewrite <- is_leap_mod.
  pose proof (Z.mod_pos_bound (M / 12) 400 ltac:(lia)) as Hy.
  rewrite <- (year_length_leap _ Hy). unfold month_length.
  destruct (M mod 12 =? 11) eqn:Hm; bool_simp.
  - assert ((M + 1) / 12 = M / 12 + 1 ∧ (M + 1) mod 12 = 0) as [-> ->] by (Z.to_euclidean_division_equations; lia).
    rewrite Hm. change (month_start 0) with 0. change (month_start 11) with 337.
    set (y := M / 12) in *. unfold year_length. destruct (y mod 400 =? 399) eqn:H9; bool_simp.
    + assert ((y + 1) / 400 = y / 400 + 1 ∧ (y + 1) mod 400 = 0) as [-> ->] by (Z.to_euclidean_division_equations; lia).
      rewrite H9. change (year_start 0) with 0. change (year_start 399) with 145731. lia.
    + assert ((y + 1) / 400 = y / 400 ∧ (y + 1) mod 400 = y mod 400 + 1) as [-> ->] by (Z.to_euclidean_division_equations; lia).
      lia.
  - assert ((M + 1) / 12 = M / 12 ∧ (M + 1) mod 12 = M mod 12 + 1) as [-> ->] by (Z.to_euclidean_division_equations; lia).
    lia.
Qed.

Lemma month_first_mono M N : M < N → month_first M + month_size M ≤ month_first N.
Proof.
  intros HMN. rewrite <- month_first_succ.
  assert (∀ k : nat, month_first (M + 1) ≤ month_first (M + 1 + Z.of_nat k)) as Hk.
  { intros k. induction k as [|k IH]; [rewrite Z.add_0_r; lia|].
    replace (M + 1 + Z.of_nat (S k)) with (M + 1 + Z.of_nat k + 1) by lia.
    rewrite (month_first_succ (M + 1 + Z.of_nat k)).
    pose proof (month_size_pos (M + 1 + Z.of_nat k)). lia. }
  specialize (Hk (Z.to_nat (N - (M + 1)))). by replace (M + 1 + _) with N in Hk by lia.
Qed.

(** [days_from_civil] is the first day of the month plus the day in it. *)
Lemma civil_index_split y m :
  1 ≤ m ≤ 12 →
  civil_index y m / 12 = (if m <=? 2 then y - 1 else y) ∧
  civil_index y m mod 12 = (if 2 <? m then m - 3 else m + 9).
Proof.
  intros Hm. unfold civil_index. destruct (m <=? 2) eqn:E; bool_simp.
  - rewrite (proj2 (Z.ltb_ge 2 m)) by lia. Z.to_euclidean_division_equations. lia.
  - rewrite (proj2 (Z.ltb_lt 2 m)) by lia. Z.to_euclidean_division_equations. lia.
Qed.

Lemma days_from_civil_month y m d :
  1 ≤ m ≤ 12 → days_from_civil y m d = month_first (civil_index y m) + (d - 1).
Proof.
  intros Hm. destruct (civil_index_split y m Hm) as [H1 H2].
  unfold days_from_civil, month_first. rewrite H1, H2. unfold year_start, month_start. lia.
Qed.

Lemma month_size_civil y m : 1 ≤ m ≤ 12 → month_size (civil_index y m) = days_in_month y m.
Proof.
  intros Hm. destruct (civil_index_split y m Hm) as [H1 H2]. unfold month_size. rewrite H1, H2.
  rewrite month_length_civil by (destruct (2 <? m) eqn:?; bool_simp; lia). unfold civil_month.
  destruct (m <=? 2) eqn:E; bool_simp.
  - rewrite (proj2 (Z.ltb_ge 2 m)) by lia. rewrite (proj2 (Z.ltb_ge (m + 9) 10)) by lia.
    replace (m + 9 - 9) with m by lia. rewrite (proj2 (Z.leb_le m 2)) by lia. f_equal. lia.
  - rewrite (proj2 (Z.ltb_lt 2 m)) by lia. rewrite (proj2 (Z.ltb_lt (m - 3) 10)) by lia.
    replace (m - 3 + 3) with m by lia. by rewrite (proj2 (Z.leb_gt m 2)) by lia.
Qed.

(** Dates and days are in the same order. *)
Lemma days_from_civil_mono y m d y' m' d' :
  valid_date y m d → valid_date y' m' d' →
  civil_index y m < civil_index y' m' ∨ (y = y' ∧ m = m' ∧ d < d') →
  days_from_civil y m d < days_from_civil y' m' d'.
Proof.
  intros [Hm Hd] [Hm' Hd'] H. rewrite !days_from_civil_month by done.
  destruct H as [H|(-> & -> & H)]; [|lia].
  pose proof (month_first_mono _ _ H). rewrite month_size_civil in * by done. lia.
Qed.

(** ** Days to dates and back *)

Lemma civil_month_inv mp :
  0 ≤ mp ≤ 11 →
  1 ≤ civil_month mp ≤ 12 ∧ (2 <? civil_month mp) = negb (civil_month mp <=? 2) ∧
  (if civil_month mp <=? 2 then civil_month mp + 9 else civil_month mp - 3) = mp.
Proof.
  intros Hmp. split_and!; [unfold civil_month; destruct (mp <? 10) eqn:E; bool_simp; lia..| | ].
  - by rewrite Z.leb_antisym, negb_involutive.
  - unfold civil_month. destruct (mp <? 10) eqn:E; bool_simp.
    + rewrite (proj2 (Z.leb_gt _ _)); lia.
    + rewrite (proj2 (Z.leb_le _ _)); lia.
Qed.

Lemma civil_from_days_spec z :
  ∃ y m d, civil_from_days z = (y, m, d) ∧ valid_date y m d ∧ days_from_civil y m d = z.
Proof.
  pose proof (Z.mod_pos_bound (z + 719468) 146097 ltac:(lia)) as Hdoe.
  pose proof (Z.div_mod (z + 719468) 146097 ltac:(lia)) as Hz.
  unfold civil_from_days. cbv zeta. set (doe := (z + 719468) mod 146097) in *.
  set (era := (z + 719468) / 146097) in *.
  destruct (year_of_day_bounds doe Hdoe) as [Hy Hdoy]. fold (year_of_day doe).
  set (yoe := year_of_day doe) in *. fold (year_start yoe).
  set (doy := doe - year_start yoe) in *. rewrite (year_length_leap _ Hy) in Hdoy.
  destruct (month_of_day_bounds _ _ Hdoy) as [Hmp Hd]; [destruct (is_leap _); lia|].
  fold (month_of_day doy). set (mp := month_of_day doy) in *. fold (month_start mp).
  fold (civil_month mp). rewrite month_length_civil in Hd by done.
  destruct (civil_month_inv mp Hmp) as (Hm & Hneg & Hinv).
  assert (valid_date (if civil_month mp <=? 2 then yoe + era * 400 + 1 else yoe + era * 400)
    (civil_month mp) (doy - month_start mp + 1)) as Hv.
  { split; [done|]. unfold days_in_month in *. destruct (civil_month mp <=? 2) eqn:E.
    - replace (yoe + era * 400 + 1) with (yoe + 1 + era * 400) by lia. rewrite is_leap_era. lia.
    - rewrite is_leap_era. lia. }
  assert (doy - month_start mp + 1 ≤ 31).
  { destruct Hv as [_ Hv]. eapply Z.le_trans; [apply Hv|]. unfold days_in_month. repeat case_match; lia. }
  unfold wrap_u32. rewrite !Z.mod_small by lia.
  eexists _, _, _. split; [done|]. split; [exact Hv|].
  unfold days_from_civil. rewrite Hneg.
  assert ((if civil_month mp <=? 2
      then (if civil_month mp <=? 2 then yoe + era * 400 + 1 else yoe + era * 400) - 1
      else (if civil_month mp <=? 2 then yoe + era * 400 + 1 else yoe + era * 400)) = yoe + era * 400) as ->
    by (case_match; lia).
  rewrite Z.div_add, Z.mod_add, Z.div_small, Z.mod_small by lia. rewrite if_negb, Hinv.
  fold (month_start mp) (year_start yoe). unfold year_start in *. lia.
Qed.

(** C37. [civil_from_days] and [days_from_civil] are inverse bijections between the day
    numbers and the dates of the Gregorian calendar (the months of 28 to 31 days, with a
    29 February in the years divisible by 4 but not by 100 unless by 400), and they keep
    the order: a later date is a larger day number.  Nothing is lost in the casts to
    [u32]. *)
Theorem civil_days_bijection :
  (∀ z, let '(y, m, d) := civil_from_days z in valid_date y m d ∧ days_from_civil y m d = z) ∧
  (∀ y m d, valid_date y m d → civil_from_days (days_from_civil y m d) = (y, m, d)) ∧
  (∀ y m d y' m' d', valid_date y m d → valid_date y' m' d' →
     y < y' ∨ (y = y' ∧ (m < m' ∨ (m = m' ∧ d < d'))) →
     days_from_civil y m d < days_from_civil y' m' d').
Proof.
  assert (Hmono : ∀ y m d y' m' d', valid_date y m d → valid_date y' m' d' →
     y < y' ∨ (y = y' ∧ (m < m' ∨ (m = m' ∧ d < d'))) →
     days_from_civil y m d < days_from_civil y' m' d').
  { intros y m d y' m' d' Hv Hv' H. apply days_from_civil_mono; [done..|].
    unfold civil_index. destruct Hv as [? _], Hv' as [? _]. lia. }
  split_and!; [..|exact Hmono].
  - intros z. by destruct (civil_from_days_spec z) as (y & m & d & -> & ? & ?).
  - intros y m d Hv. destruct (civil_from_days_spec (days_from_civil y m d)) as (y' & m' & d' & -> & Hv' & Heq).
    pose proof (Hmono _ _ _ _ _ _ Hv Hv') as H1. pose proof (Hmono _ _ _ _ _ _ Hv' Hv) as H2.
    assert (y = y' ∧ m = m' ∧ d = d') as (-> & -> & ->); [|done].
    destruct (Z.lt_trichotomy y y') as [|[|]]; [lia| |lia].
    destruct (Z.lt_trichotomy m m') as [|[|]]; [lia| |lia].
    destruct (Z.lt_trichotomy d d') as [|[|]]; lia.
Qed.

(** 29 February 2024. *)
Lemma civil_days_bijection_witness :
  valid_date 2024 2 29 ∧ civil_from_days (days_from_civil 2024 2 29) = (2024, 2, 29) ∧
  days_from_civil 2024 2 29 < days_from_civil 2024 3 1.
Proof.
  destruct civil_days_bijection as (_ & Hb & Hm).
  assert (H : valid_date 2024 2 29) by (unfold valid_date; change (days_in_month 2024 2) with 29; lia).
  assert (H' : valid_date 2024 3 1) by (unfold valid_date; change (days_in_month 2024 3) with 31; lia).
  split; [exact H|]. split; [exact (Hb _ _ _ H)|]. apply (Hm _ _ _ _ _ _ H H'). right. lia.
Defined.

(** ** The order of texts *)

(** [String.compare] on the bytes. *)
Fixpoint bytes_compare (a b : bytes) : comparison :=
  match a, b with
  | [], [] => Eq
  | [], _ :: _ => Lt
  | _ :: _, [] => Gt
  | x :: a', y :: b' => match Ascii.compare x y with Eq => bytes_compare a' b' | c => c end
  end.

Lemma bytes_compare_string s t : bytes_compare (as_bytes s) (as_bytes t) = String.compare s t.
Proof.
  revert t. induction s as [|x s IH]; intros [|y t]; simpl; try done. by rewrite IH.
Qed.

Lemma ascii_compare_val x y : Ascii.compare x y = (u8_val x ?= u8_val y).
Proof. unfold Ascii.compare, u8_val. by rewrite N2Z.inj_compare. Qed.

Lemma bytes_compare_refl a : bytes_compare a a = Eq.
Proof. induction a as [|x a IH]; simpl; [done|]. by rewrite ascii_compare_val, Z.compare_refl. Qed.

(** Lexicographic order, block by block. *)
Definition then_compare (c1 c2 : comparison) : comparison := match c1 with Eq => c2 | c => c end.

Lemma bytes_compare_app a a' b b' :
  length a = length a' →
  bytes_compare (a ++ b) (a' ++ b') = then_compare (bytes_compare a a') (bytes_compare b b').
Proof.
  revert a'. induction a as [|x a IH]; intros [|x' a'] Hl; simplify_eq/=; [done|].
  rewrite IH by done. by destruct (Ascii.compare x x').
Qed.

Lemma dec_value_cons x l :
  dec_value (x :: l) = (u8_val x - 48) * 10 ^ len l + dec_value l.
Proof.
  induction l as [|y l IH] using rev_ind.
  { change (0 * 10 + (u8_val x - 48) = (u8_val x - 48) * 1 + 0). lia. }
  change (x :: l ++ [y]) with ((x :: l) ++ [y]). rewrite !dec_value_snoc, IH, len_app.
  change (len [y]) with 1. rewrite Z.pow_add_r, Z.pow_1_r by (try lia; apply len_nonneg). ring.
Qed.

(** Equally long digit texts compare like the numbers they spell. *)
Lemma bytes_compare_digits a b :
  length a = length b → forallb is_ascii_digit a = true → forallb is_ascii_digit b = true →
  bytes_compare a b = (dec_value a ?= dec_value b).
Proof.
  revert b. induction a as [|x a IH]; intros [|y b] Hl Ha Hb; simplify_eq/=; [done|].
  apply andb_true_iff in Ha as [Hx Ha], Hb as [Hy Hb].
  rewrite (IH b) by done. rewrite ascii_compare_val, !dec_value_cons.
  replace (len b) with (len a) by (unfold len; lia).
  pose proof (forallb_digit_range a Ha) as Ra. pose proof (forallb_digit_range b Hb) as Rb.
  replace (len b) with (len a) in Rb by (unfold len; lia). set (p := 10 ^ len a) in *.
  destruct (u8_val x ?= u8_val y) eqn:Hc.
  - apply Z.compare_eq in Hc. rewrite Hc. symmetry. apply Z.add_compare_mono_l.
  - symmetry. rewrite Z.compare_lt_iff in *.
    pose proof (Z.mul_le_mono_nonneg_r (u8_val x + 1) (u8_val y) p ltac:(lia) ltac:(lia)). lia.
  - symmetry. rewrite Z.compare_gt_iff in *.
    pose proof (Z.mul_le_mono_nonneg_r (u8_val y + 1) (u8_val x) p ltac:(lia) ltac:(lia)). lia.
Qed.

Lemma bytes_compare_padded w m n :
  0 ≤ m < 10 ^ Z.of_nat w → 0 ≤ n < 10 ^ Z.of_nat w → w ≠ O → (w ≤ 20)%nat →
  bytes_compare (fmt_int_pad w m) (fmt_int_pad w n) = (m ?= n).
Proof.
  intros Hm Hn Hw Hw20. destruct (fmt_int_pad_spec w m) as (L1 & V1 & D1); [done..|].
  destruct (fmt_int_pad_spec w n) as (L2 & V2 & D2); [done..|].
  rewrite bytes_compare_digits, V1, V2; [done|congruence|done|done].
Qed.

(** ** RFC 3339 texts *)

(** 0000-01-01T00:00:00Z to 9999-12-31T23:59:59Z. *)
Definition four_digit_years (s : Z) : Prop := -62167219200 ≤ s ≤ 253402300799.

Lemma valid_date_small y m d : valid_date y m d → 1 ≤ m ≤ 12 ∧ 1 ≤ d ≤ 31.
Proof. intros [Hm Hd]. unfold days_in_month in Hd. repeat case_match; lia. Qed.

Lemma civil_year_range y m d :
  valid_date y m d → 0 ≤ y ≤ 9999 ↔ -719528 ≤ days_from_civil y m d ≤ 2932896.
Proof.
  intros Hv. pose proof (valid_date_small _ _ _ Hv) as [Hm Hd].
  assert (F : valid_date 0 1 1) by (split; cbn; lia).
  assert (L : valid_date 9999 12 31) by (split; cbn; lia).
  change (-719528) with (days_from_civil 0 1 1). change 2932896 with (days_from_civil 9999 12 31).
  split.
  - intros Hy. split; apply Z.nlt_ge; intros Hlt.
    + assert (civil_index 0 1 < civil_index y m ∨ 0 = y ∧ 1 = m ∧ 1 < d ∨ (0 = y ∧ 1 = m ∧ 1 = d)) as HH
        by (unfold civil_index; lia).
      destruct HH as [H|[H|(? & ? & ?)]]; [| |subst; lia];
        pose proof (days_from_civil_mono _ _ _ _ _ _ F Hv ltac:(tauto)); lia.
    + assert (civil_index y m < civil_index 9999 12 ∨ y = 9999 ∧ m = 12 ∧ d < 31 ∨ (y = 9999 ∧ m = 12 ∧ d = 31)) as HH
        by (unfold civil_index; lia).
      destruct HH as [H|[H|(? & ? & ?)]]; [| |subst; lia];
        pose proof (days_from_civil_mono _ _ _ _ _ _ Hv L ltac:(tauto)); lia.
  - intros Hz. split; apply Z.nlt_ge; intros Hlt.
    + pose proof (days_from_civil_mono _ _ _ _ _ _ Hv F ltac:(unfold civil_index; lia)). lia.
    + pose proof (days_from_civil_mono _ _ _ _ _ _ L Hv ltac:(unfold civil_index; lia)). lia.
Qed.

(** The text of a second, by its fields. *)
Lemma rfc3339_fields s :
  ∃ y m d h mi se, rfc3339_from_seconds s = from_utf8_bytes (format_rfc3339 y m d h mi se) ∧
    valid_date y m d ∧ 0 ≤ h < 24 ∧ 0 ≤ mi < 60 ∧ 0 ≤ se < 60 ∧
    s = days_from_civil y m d * 86400 + h * 3600 + mi * 60 + se.
Proof.
  unfold rfc3339_from_seconds.
  destruct (civil_from_days_spec (s / 86400)) as (y & m & d & -> & Hv & Hz).
  eexists y, m, d, _, _, _. split; [reflexivity|]. split; [done|]. rewrite Hz.
  clear. Z.to_euclidean_division_equations. lia.
Qed.

Lemma four_digit_years_iff y m d h mi se :
  valid_date y m d → 0 ≤ h < 24 → 0 ≤ mi < 60 → 0 ≤ se < 60 →
  four_digit_years (days_from_civil y m d * 86400 + h * 3600 + mi * 60 + se) ↔ 0 ≤ y ≤ 9999.
Proof. intros Hv Hh Hmi Hse. rewrite (civil_year_range y m d Hv). unfold four_digit_years. lia. Qed.

(** The digits of each field, where the year has four. *)
Lemma format_rfc3339_digits y m d h mi se :
  0 ≤ y ≤ 9999 → valid_date y m d → 0 ≤ h < 24 → 0 ≤ mi < 60 → 0 ≤ se < 60 →
  Forall (λ p : nat * Z, length (fmt_int_pad p.1 p.2) = p.1 ∧ dec_value (fmt_int_pad p.1 p.2) = p.2 ∧
    forallb is_ascii_digit (fmt_int_pad p.1 p.2) = true)
    [(4%nat, y); (2%nat, m); (2%nat, d); (2%nat, h); (2%nat, mi); (2%nat, se)].
Proof.
  intros Hy [Hm Hd]%valid_date_small Hh Hmi Hse.
  repeat constructor; cbn [fst snd]; apply fmt_int_pad_spec; try done; cbn; lia.
Qed.

Lemma rfc3339_year_digits y m d h mi se :
  valid_date y m d → 0 ≤ h < 24 → 0 ≤ mi < 60 → 0 ≤ se < 60 →
  0 ≤ y ≤ 9999 → timestamp_ok (from_utf8_bytes (format_rfc3339 y m d h mi se)) = true.
Proof.
  intros Hv Hh Hmi Hse Hy. pose proof (format_rfc3339_digits _ _ _ _ _ _ Hy Hv Hh Hmi Hse) as Hf.
  unfold timestamp_ok, format_rfc3339. rewrite as_bytes_of.
  repeat (apply Forall_cons in Hf as [(? & _ & ?) Hf]; cbn [fst snd] in * ).
  destruct (fmt_int_pad 4 y) as [|y1 [|y2 [|y3 [|y4 [|]]]]]; try done.
  destruct (fmt_int_pad 2 m) as [|m1 [|m2 [|]]]; try done.
  destruct (fmt_int_pad 2 d) as [|d1 [|d2 [|]]]; try done.
  destruct (fmt_int_pad 2 h) as [|h1 [|h2 [|]]]; try done.
  destruct (fmt_int_pad 2 mi) as [|i1 [|i2 [|]]]; try done.
  destruct (fmt_int_pad 2 se) as [|s1 [|s2 [|]]]; try done.
  cbn [forallb] in *. bool_simp. cbn -[is_ascii_digit].
  repeat match goal with H : is_ascii_digit _ = true |- _ => rewrite H; clear H end.
  vm_compute. reflexivity.
Qed.

Lemma length_dec_digits_ge f k n : 10 ^ Z.of_nat k ≤ n → (k < f)%nat → (k < length (dec_digits f n))%nat.
Proof.
  revert k n. induction f as [|f IH]; intros k n Hn Hk; [lia|]. simpl. rewrite length_app. simpl.
  destruct k as [|k]; [lia|].
  replace (Z.of_nat (S k)) with (Z.of_nat k + 1) in Hn by lia. rewrite Z.pow_add_r, Z.pow_1_r in Hn by lia.
  pose proof (Z.pow_pos_nonneg 10 (Z.of_nat k)). rewrite (proj2 (Z.ltb_ge n 10)) by lia.
  specialize (IH k (n / 10)). assert (10 ^ Z.of_nat k ≤ n / 10) by (apply Z.div_le_lower_bound; lia). lia.
Qed.

Lemma len_fmt_int_pad_ge w n : Z.of_nat w ≤ len (fmt_int_pad w n).
Proof. unfold fmt_int_pad. rewrite !len_app. unfold len. rewrite length_replicate. lia. Qed.
Lemma len_fmt_int_pad_long w k n :
  10 ^ Z.of_nat k ≤ n → (k < 20)%nat → Z.of_nat k < len (fmt_int_pad w n).
Proof.
  intros Hn Hk. pose proof (Z.pow_pos_nonneg 10 (Z.of_nat k)).
  unfold fmt_int_pad. rewrite (Z.abs_eq n), !len_app by lia.
  pose proof (length_dec_digits_ge 20 k n Hn Hk). unfold fmt_nat, len. lia.
Qed.

Lemma rfc3339_year_digits_inv y m d h mi se :
  timestamp_ok (from_utf8_bytes (format_rfc3339 y m d h mi se)) = true → 0 ≤ y ≤ 9999.
Proof.
  unfold timestamp_ok. rewrite as_bytes_of. intros Ht. bool_simp.
  match goal with H : len _ = 20, H' : all_enum _ _ _ = true |- _ => rename H into Hlen, H' into Hall end.
  destruct (Z.lt_ge_cases y 0) as [Hy|Hy].
  - exfalso. unfold format_rfc3339, fmt_int_pad at 1 in Hall. by rewrite (proj2 (Z.ltb_lt y 0)) in Hall by lia.
  - split; [done|]. apply Z.nlt_ge. intros Hlt. unfold format_rfc3339 in Hlen. rewrite !len_app in Hlen.
    pose proof (len_fmt_int_pad_long 4 4 y ltac:(cbn; lia) ltac:(lia)).
    pose proof (len_fmt_int_pad_ge 2 m). pose proof (len_fmt_int_pad_ge 2 d).
    pose proof (len_fmt_int_pad_ge 2 h). pose proof (len_fmt_int_pad_ge 2 mi).
    pose proof (len_fmt_int_pad_ge 2 se). unfold len at 2 4 6 8 10 12 in Hlen. cbn [length] in Hlen. lia.
Qed.

Lemma rfc3339_timestamp_iff s : timestamp_ok (rfc3339_from_seconds s) = true ↔ four_digit_years s.
Proof.
  destruct (rfc3339_fields s) as (y & m & d & h & mi & se & -> & Hv & Hh & Hmi & Hse & ->).
  rewrite four_digit_years_iff by done. split.
  - apply rfc3339_year_digits_inv.
  - by apply rfc3339_year_digits.
Qed.

(** Times compare like their fields. *)
Lemma seconds_compare y m d h mi se y' m' d' h' mi' se' :
  valid_date y m d → 0 ≤ h < 24 → 0 ≤ mi < 60 → 0 ≤ se < 60 →
  valid_date y' m' d' → 0 ≤ h' < 24 → 0 ≤ mi' < 60 → 0 ≤ se' < 60 →
  then_compare (y ?= y') (then_compare (m ?= m') (then_compare (d ?= d')
    (then_compare (h ?= h') (then_compare (mi ?= mi') (se ?= se'))))) =
  (days_from_civil y m d * 86400 + h * 3600 + mi * 60 + se ?=
   days_from_civil y' m' d' * 86400 + h' * 3600 + mi' * 60 + se').
Proof.
  intros Hv Hh Hmi Hse Hv' Hh' Hmi' Hse'.
  pose proof (days_from_civil_mono _ _ _ _ _ _ Hv Hv') as H1.
  pose proof (days_from_civil_mono _ _ _ _ _ _ Hv' Hv) as H2.
  destruct Hv as [Hm _], Hv' as [Hm' _]. unfold civil_index in *.
  destruct (Z.compare_spec y y') as [->|Hy|Hy]; cbn [then_compare];
    [|symmetry; rewrite Z.compare_lt_iff; lia|symmetry; rewrite Z.compare_gt_iff; lia].
  destruct (Z.compare_spec m m') as [->|Hy|Hy]; cbn [then_compare];
    [|symmetry; rewrite Z.compare_lt_iff; lia|symmetry; rewrite Z.compare_gt_iff; lia].
  destruct (Z.compare_spec d d') as [->|Hy|Hy]; cbn [then_compare];
    [|symmetry; rewrite Z.compare_lt_iff; lia|symmetry; rewrite Z.compare_gt_iff; lia].
  clear H1 H2. set (D := days_from_civil _ _ _) in *. clearbody D.
  destruct (Z.compare_spec h h') as [->|Hy|Hy]; cbn [then_compare];
    [|symmetry; rewrite Z.compare_lt_iff; lia|symmetry; rewrite Z.compare_gt_iff; lia].
  destruct (Z.compare_spec mi mi') as [->|Hy|Hy]; cbn [then_compare];
    [|symmetry; rewrite Z.compare_lt_iff; lia|symmetry; rewrite Z.compare_gt_iff; lia].
  symmetry. apply Z.add_compare_mono_l.
Qed.

Lemma rfc3339_order s t :
  four_digit_years s → four_digit_years t →
  String.compare (rfc3339_from_seconds s) (rfc3339_from_seconds t) = (s ?= t).
Proof.
  destruct (rfc3339_fields s) as (y & m & d & h & mi & se & -> & Hv & Hh & Hmi & Hse & ->).
  destruct (rfc3339_fields t) as (y' & m' & d' & h' & mi' & se' & -> & Hv' & Hh' & Hmi' & Hse' & ->).
  rewrite !four_digit_years_iff by done. intros Hy Hy'.
  rewrite <- seconds_compare, <- bytes_compare_string, !as_bytes_of by done. unfold format_rfc3339.
  pose proof (valid_date_small _ _ _ Hv) as [Hm Hd]. pose proof (valid_date_small _ _ _ Hv') as [Hm' Hd'].
  assert (L4 : ∀ n, 0 ≤ n ≤ 9999 → length (fmt_int_pad 4 n) = 4%nat) by (intros; apply fmt_int_pad_spec; cbn; lia).
  assert (L2 : ∀ n, 0 ≤ n ≤ 99 → length (fmt_int_pad 2 n) = 2%nat) by (intros; apply fmt_int_pad_spec; cbn; lia).
  rewrite !bytes_compare_app by (rewrite ?L4, ?L2 by lia; done).
  rewrite !bytes_compare_padded by (cbn; lia).
  change (bytes_compare ["-"%char] ["-"%char]) with Eq. change (bytes_compare ["T"%char] ["T"%char]) with Eq.
  change (bytes_compare [":"%char] [":"%char]) with Eq. change (bytes_compare ["Z"%char] ["Z"%char]) with Eq.
  cbn [then_compare]. do 5 f_equal. by destruct (se ?= se').
Qed.

(** Reading a field of digits that lies between two known parts. *)
Lemma parse_field_digits {E} l a b c i j n :
  l = a ++ b ++ c → len a = i → i + len b = j → b ≠ [] → len b < 5 → forallb is_ascii_digit b = true → dec_value b = n →
  parse_field (E := E) l i j = Ok n.
Proof.
  intros -> Hi Hj Hb Hlen Hd Hn. unfold parse_field. rewrite (slice_app _ _ _ _ _ Hi Hj). cbn [res_bind].
  pose proof (forallb_digit_range b Hd) as Hr.
  assert (10 ^ len b ≤ 10 ^ 5) by (apply Z.pow_le_mono_r; lia). change (10 ^ 5) with 100000 in *.
  assert (parse_i64 b = Some n) as ->; [|done].
  destruct b as [|x b]; [done|].
  assert (x ≠ "-"%char ∧ x ≠ "+"%char) as [H1 H2] by (by split; intros ->).
  transitivity (if between i64_min n i64_max then Some n else None).
  2: { unfold between, i64_min, i64_max. rewrite (proj2 (Z.leb_le _ n)), (proj2 (Z.leb_le n _)) by lia. done. }
  assert ((if negb (len (x :: b) =? 0) && forallb is_ascii_digit (x :: b) then Some (dec_value (x :: b)) else None) = Some n) as Hs.
  { rewrite Hd, Hn, len_cons. pose proof (len_nonneg b). by rewrite (proj2 (Z.eqb_neq _ 0)) by lia. }
  unfold parse_i64. rewrite Hs. by destruct x as [[][][][][][][][]].
Qed.

Lemma rfc3339_round_trip {E} s :
  four_digit_years s → request_time_from_rfc3339 (E := E) (rfc3339_from_seconds s) = Ok s.
Proof.
  destruct (rfc3339_fields s) as (y & m & d & h & mi & se & -> & Hv & Hh & Hmi & Hse & ->).
  rewrite four_digit_years_iff by done. intros Hy.
  pose proof (format_rfc3339_digits _ _ _ _ _ _ Hy Hv Hh Hmi Hse) as Hf.
  unfold request_time_from_rfc3339. rewrite as_bytes_of. unfold format_rfc3339.
  repeat (apply Forall_cons in Hf as [(? & ? & ?) Hf]; cbn [fst snd] in * ).
  destruct (fmt_int_pad 4 y) as [|y1 [|y2 [|y3 [|y4 [|]]]]]; try done.
  destruct (fmt_int_pad 2 m) as [|m1 [|m2 [|]]]; try done.
  destruct (fmt_int_pad 2 d) as [|d1 [|d2 [|]]]; try done.
  destruct (fmt_int_pad 2 h) as [|h1 [|h2 [|]]]; try done.
  destruct (fmt_int_pad 2 mi) as [|i1 [|i2 [|]]]; try done.
  destruct (fmt_int_pad 2 se) as [|s1 [|s2 [|]]]; try done.
  cbn [app]. set (L := y1 :: _). set (F := (λ a b c i j n, @parse_field_digits E L a b c i j n)).
  rewrite (F [] [y1; y2; y3; y4] _ 0 4 y eq_refl) by done. cbn [res_bind].
  rewrite (F [y1; y2; y3; y4; "-"%char] [m1; m2] _ 5 7 m eq_refl) by done. cbn [res_bind].
  rewrite (F (take 8 L) [d1; d2] _ 8 10 d eq_refl) by done. cbn [res_bind].
  rewrite (F (take 11 L) [h1; h2] _ 11 13 h eq_refl) by done. cbn [res_bind].
  rewrite (F (take 14 L) [i1; i2] _ 14 16 mi eq_refl) by done. cbn [res_bind].
  by rewrite (F (take 17 L) [s1; s2] _ 17 19 se eq_refl) by done.
Qed.

(** The text [rfc3339_from_seconds] makes of a time is one that [Timestamp::new]
    accepts for exactly the times of the years 0 to 9999; over these years the string order
    in which an assertion's validity window is tested is the order of times; and
    [request_time_from_rfc3339] reads back the very second the text was made from, without
    any of its [unwrap]s panicking. *)
Theorem rfc3339_faithful :
  (∀ s, timestamp_ok (rfc3339_from_seconds s) = true ↔ four_digit_years s) ∧
  (∀ s t, four_digit_years s → four_digit_years t →
     String.compare (rfc3339_from_seconds s) (rfc3339_from_seconds t) = (s ?= t)) ∧
  (∀ E s, four_digit_years s → request_time_from_rfc3339 (E := E) (rfc3339_from_seconds s) = Ok s).
Proof.
  split_and!.
  - apply rfc3339_timestamp_iff.
  - apply rfc3339_order.
  - apply @rfc3339_round_trip.
Qed.

(** 2026-07-14T09:30:00Z, and a second later. *)
Lemma rfc3339_faithful_witness :
  rfc3339_from_seconds 1784021400 = "2026-07-14T09:30:00Z"%string ∧
  String.compare (rfc3339_from_seconds 1784021400) (rfc3339_from_seconds 1784021401) = Lt ∧
  request_time_from_rfc3339 (E := unit) (rfc3339_from_seconds 1784021400) = Ok 1784021400.
Proof.
  destruct rfc3339_faithful as (_ & Hc & Hr). split; [vm_compute; reflexivity|]. split.
  - rewrite Hc; [reflexivity|..]; unfold four_digit_years; lia.
  - apply Hr. unfold four_digit_years. lia.
Defined.
