(* ===== verification/PolicyProto.v ===== *)
(** * [contracts/proto/policy/v1/decision.proto]: the messages of the decision point

    The records that [prost] generates from the contract: a message field is optional, an
    enumeration is its [i32] number, [bytes] and [repeated] fields are vectors, a map field
    is a [HashMap], given here as its entries in the map's iteration order (distinct keys,
    any order). *)

From S2P Require Import Prelude.

(** [prost_types::Timestamp] and [prost_types::Duration] *)
Record proto_time := { seconds : Z; nanos : Z }.

Record Principal := {
  subject_id : string;
  aal : Z;
  auth_method : string;
  authenticated_at : option proto_time;
  roles : list string;
  pr_authority_domain : string;
}.

Record Action := { verb : string }.

Record Resource := {
  rtype : string;
  rid : string;
  rs_authority_domain : string;
  attributes : list (string * string);
}.

Record DevicePosture := {
  managed : bool;
  disk_encrypted : bool;
  agent_version : string;
  evaluated_at : option proto_time;
}.

Record Approval := {
  approver_id : string;
  approved_at : option proto_time;
  ap_signature : bytes;
}.

Record Context := {
  requested_at : option proto_time;
  source_network : string;
  posture : option DevicePosture;
  ticket_ref : string;
  justification : string;
  approvals : list Approval;
}.

Record DecisionRequest := {
  request_id : string;
  principal : option Principal;
  action : option Action;
  resource : option Resource;
  context : option Context;
  dr_policy_version : string;
}.

Inductive Effect := Deny | Allow.
(** [Effect as i32] *)
Definition effect_i32 (e : Effect) : Z := match e with Deny => 0 | Allow => 1 end.

Record DecisionResponse := {
  effect : Z;
  reasons : list string;
  max_ttl : option proto_time;
  constraints : list string;
  decision_hash : bytes;
  policy_version : string;
  issued_at : option proto_time;
  decision_signature : bytes;
  decision_signature_key_id : string;
}.

Record VerifyDecisionRequest := { decision : option DecisionResponse }.
Record VerifyDecisionResponse := { valid : bool; reason : string }.
