(* ===== verification/Pdp.v ===== *)
(** * [crates/zs-policy/src/pdp.rs]: the policy decision point

    Loading of a corpus, translation of a request and evaluation.  Cedar
    ([cedar_policy]) and the file system are not in the repository: they are the classes
    [Cedar] and [Fs]; a Cedar value is built only through Cedar's constructors, so the
    model keeps the order in which the code calls them and the text of every refusal. *)

From S2P Require Import Prelude.
From S2P Require Import Json.
From S2P Require Import Serde.
From S2P Require Import JsonCodec.
From S2P Require Import Aws.
From S2P Require Import Common.
From S2P Require Import DecisionBinding.
From S2P Require Import PolicyProto.

Definition NAMESPACE : string := "ZeroSecret".
Definition CEDAR_ENGINE_VERSION : string := "4.12.0".

(** ** Cedar and the file system *)

(** A returned [Result]: these calls do not panic. *)
Definition Result (A E : Type) : Type := A + E.
Definition lift {A E} (r : Result A E) : res A E := match r with inl a => Ok a | inr e => Err e end.

Inductive CedarDecision := CedarAllow | CedarDeny.

(** The parts of [cedar_policy] that the code calls; an error is its [to_string()]. *)
Class Cedar := {
  Schema : Type;
  PolicySet : Type;
  EntityTypeName : Type;
  EntityUid : Type;
  RestrictedExpression : Type;
  Entity : Type;
  Entities : Type;
  CedarContext : Type;
  CedarRequest : Type;
  schema_from_json_str : string → Result Schema string;
  parse_policies : string → Result PolicySet string;
  parse_type_name : string → Result EntityTypeName string;
  from_type_name_and_id : EntityTypeName → string → EntityUid;
  new_string : string → RestrictedExpression;
  new_long : Z → RestrictedExpression;
  new_bool : bool → RestrictedExpression;
  new_set : list RestrictedExpression → RestrictedExpression;
  new_record : list (string * RestrictedExpression) → Result RestrictedExpression string;
  entity_new : EntityUid → gmap string RestrictedExpression → Result Entity string;
  from_entities : list Entity → Schema → Result Entities string;
  context_from_pairs : list (string * RestrictedExpression) → Result CedarContext string;
  request_new : EntityUid → EntityUid → EntityUid → CedarContext → Schema → Result CedarRequest string;
  (** the decision and the set of identifiers of the policies that determined it *)
  is_authorized : CedarRequest → PolicySet → Entities → CedarDecision * gset string;
  annotation : PolicySet → string → string → option string;
}.

(** [Diagnostics::reason] iterates a hash set: one answer lists it in some order, another
    answer maybe in another. *)
Class SetOrder := {
  iter_set : gset string → list string;
  iter_set_perm X : iter_set X ≡ₚ elements X;
}.

(** [std::fs]: a directory is listed in an order of its own, each entry by its file name
    or with an error. *)
Class Fs := {
  IoError : Type;
  read_to_string : bytes → Result string IoError;
  read_dir : bytes → Result (list (Result bytes IoError)) IoError;
}.

(** ** Loading *)

Inductive PdpLoadError `{Fs} :=
| ReadSchema (e : IoError)
| SchemaError (e : string)
| ReadCorpus (e : IoError)
| Policies (e : string)
| Binding (e : CorpusBindingError).

Record Pdp `{Cedar} := {
  schema : Schema;
  policies : PolicySet;
  pdp_policy_version : string;
}.

(** [Path::join] with a file name: [DirEntry::path]. *)
Definition entry_path (dir name : bytes) : bytes :=
  match last dir with
  | None => name
  | Some c => if bool_decide (c = "/"%char) then dir ++ name else dir ++ "/"%char :: name
  end.

(** What follows the last dot of a name, and what comes before it. *)
Fixpoint rsplit_dot (name : bytes) : option (bytes * bytes) :=
  match name with
  | [] => None
  | c :: rest =>
      match rsplit_dot rest with
      | Some (before, after) => Some (c :: before, after)
      | None => if bool_decide (c = "."%char) then Some ([], rest) else None
      end
  end.

(** [Path::extension]: nothing for a name that starts with its only dot. *)
Definition extension (name : bytes) : option bytes :=
  match rsplit_dot name with
  | Some (before, after) => if bool_decide (before = []) then None else Some after
  | None => None
  end.

Definition is_cedar_file (name : bytes) : bool :=
  bool_decide (extension name = Some (as_bytes "cedar")).

(** [str::from_utf8(bytes).is_ok()]: no overlong form, no surrogate, at most U+10FFFF. *)
Fixpoint utf8_ok (bs : bytes) : bool :=
  let cont := λ b lo hi, between lo (u8_val b) hi in
  match bs with
  | [] => true
  | b :: r =>
      let n := u8_val b in
      if n <? 128 then utf8_ok r
      else if between 194 n 223 then
        match r with c :: r' => cont c 128 191 && utf8_ok r' | _ => false end
      else if between 224 n 239 then
        match r with
        | c :: d :: r' =>
            cont c (if n =? 224 then 160 else 128) (if n =? 237 then 159 else 191) &&
            cont d 128 191 && utf8_ok r'
        | _ => false
        end
      else if between 240 n 244 then
        match r with
        | c :: d :: e :: r' =>
            cont c (if n =? 240 then 144 else 128) (if n =? 244 then 143 else 191) &&
            cont d 128 191 && cont e 128 191 && utf8_ok r'
        | _ => false
        end
      else false
  end.

(** [path.file_name().and_then(|n| n.to_str()).unwrap_or_default().to_string()] *)
Definition relative_name (name : bytes) : string :=
  if utf8_ok name then from_utf8_bytes name else "".

(** The loop over the entries of the directory: each corpus file's name and text. *)
Fixpoint read_corpus `{Fs} (dir : bytes) (entries : list (Result bytes IoError)) :
    res (list (string * string)) PdpLoadError :=
  match entries with
  | [] => Ok []
  | entry :: rest =>
      let! name := map_err ReadCorpus (lift entry) in
      if negb (is_cedar_file name) then read_corpus dir rest
      else
        let! contents := map_err ReadCorpus (lift (read_to_string (entry_path dir name))) in
        let! files := read_corpus dir rest in
        Ok ((relative_name name, contents) :: files)
  end.

(** [[..].join("\n")] *)
Definition newline : ascii := u8_of 10.
Definition join_lines (texts : list string) : string :=
  from_utf8_bytes (join [newline] (map (λ t, as_bytes t) texts)).

Definition file_le (a b : string * string) : Prop := String.le a.1 b.1.
#[export] Instance file_le_dec a b : Decision (file_le a b).
Proof. unfold file_le. apply _. Defined.

Definition corpus_files (files : list (string * string)) : list CorpusFile :=
  map (λ f, {| relative_path := f.1; contents := f.2 |}) files.

Definition load `{Cedar, Fs, AwsLc} (schema_path policies_dir : bytes) : res Pdp PdpLoadError :=
  let! schema_json := map_err ReadSchema (lift (read_to_string schema_path)) in
  let! schema := map_err SchemaError (lift (schema_from_json_str schema_json)) in
  let! entries := map_err ReadCorpus (lift (read_dir policies_dir)) in
  let! cedar_files := read_corpus policies_dir entries in
  let cedar_files := merge_sort file_le cedar_files in
  guard! negb (bool_decide (cedar_files = []))
    else Policies "aucun fichier .cedar dans le corpus" in
  let! policies := map_err Policies (lift (parse_policies (join_lines cedar_files.*2))) in
  let! binding := map_err Binding
    (bind_policy_corpus schema_json CEDAR_ENGINE_VERSION (corpus_files cedar_files)) in
  Ok {| schema := schema; policies := policies; pdp_policy_version := to_hex_string binding |}.

Definition get_policy_version `{Cedar} (self : Pdp) : string := pdp_policy_version self.

(** ** Translation *)

Section translate.
Context `{Cedar}.

Definition entity_uid (type_name id : string) : res EntityUid string :=
  let! type_name := map_err (λ e, "type_entite_invalide:" +:+ e)
    (lift (parse_type_name (NAMESPACE +:+ "::" +:+ type_name))) in
  Ok (from_type_name_and_id type_name id).

Definition auth_level_to_str (aal : Z) : string :=
  match aal with
  | 1 => "AAL1"
  | 2 => "AAL2"
  | 3 => "AAL3"
  | _ => ""
  end.

Definition principal_entity (p : Principal) : res Entity string :=
  let! uid := entity_uid "Principal" (subject_id p) in
  let! authenticated_at := map_ok seconds
    (ok_or (authenticated_at p) "principal_authenticated_at_absent") in
  let attrs : gmap string RestrictedExpression :=
    <["authority_domain" := new_string (pr_authority_domain p)]>
    (<["roles" := new_set (map new_string (roles p))]>
    (<["authenticated_at" := new_long authenticated_at]>
    (<["auth_method" := new_string (auth_method p)]>
    (<["aal" := new_string (auth_level_to_str (aal p))]>
    (<["subject_id" := new_string (subject_id p)]> ∅))))) in
  map_err (λ e, "entite_principal_invalide:" +:+ e) (lift (entity_new uid attrs)).

Definition database_entity (r : Resource) : res Entity string :=
  let! uid := entity_uid "Database" (rid r) in
  let! environment := ok_or (map_get "environment" (attributes r))
    "resource_attribute_environment_absent" in
  let attrs : gmap string RestrictedExpression :=
    <["environment" := new_string environment]>
    (<["authority_domain" := new_string (rs_authority_domain r)]> ∅) in
  map_err (λ e, "entite_resource_invalide:" +:+ e) (lift (entity_new uid attrs)).

(** One turn of the loop over the approvals. *)
Definition approval_record (a : Approval) : res RestrictedExpression string :=
  let! approved_at := map_ok seconds (ok_or (approved_at a) "approbation_approved_at_absente") in
  map_err (λ e, "contexte_approbation_invalide:" +:+ e)
    (lift (new_record [("approver_id", new_string (approver_id a)); ("approved_at", new_long approved_at)])).

Definition build_context (c : Context) : res CedarContext string :=
  let! requested_at := map_ok seconds (ok_or (requested_at c) "context_requested_at_absent") in
  let! posture := ok_or (posture c) "context_posture_absent" in
  let! evaluated_at := map_ok seconds (ok_or (evaluated_at posture) "posture_evaluated_at_absent") in
  let! posture_record := map_err (λ e, "contexte_posture_invalide:" +:+ e)
    (lift (new_record [("managed", new_bool (managed posture));
                 ("disk_encrypted", new_bool (disk_encrypted posture));
                 ("agent_version", new_string (agent_version posture));
                 ("evaluated_at", new_long evaluated_at)])) in
  let! approvals := try_map approval_record (approvals c) in
  map_err (λ e, "contexte_invalide:" +:+ e)
    (lift (context_from_pairs [("requested_at", new_long requested_at);
                         ("source_network", new_string (source_network c));
                         ("posture", posture_record);
                         ("ticket_ref", new_string (ticket_ref c));
                         ("justification", new_string (justification c));
                         ("approvals", new_set approvals)])).

Definition translate (request : DecisionRequest) (schema : Schema) :
    res (CedarRequest * Entities) string :=
  let! principal := ok_or (principal request) "principal_absent" in
  let! resource := ok_or (resource request) "resource_absent" in
  let! action := ok_or (action request) "action_absent" in
  let! context := ok_or (context request) "context_absent" in
  guard! bool_decide (rtype resource = "Database")
    else "resource_type_inconnu:" +:+ rtype resource in
  let! principal_uid := entity_uid "Principal" (subject_id principal) in
  let! principal_ent := principal_entity principal in
  let! resource_uid := entity_uid "Database" (rid resource) in
  let! resource_ent := database_entity resource in
  let! action_uid := entity_uid "Action" (verb action) in
  let! cedar_context := build_context context in
  let! entities := map_err (λ e, "entites_invalides:" +:+ e)
    (lift (from_entities [principal_ent; resource_ent] schema)) in
  let! cedar_request := map_err (λ e, "requete_invalide:" +:+ e)
    (lift (request_new principal_uid action_uid resource_uid cedar_context schema)) in
  Ok (cedar_request, entities).
End translate.

(** ** The document that is hashed *)

Definition jseconds (t : option proto_time) : value := jopt (λ t, jint (seconds t)) t.

Definition principal_members (p : Principal) : list (string * value) :=
  [("subject_id", VString (subject_id p));
   ("aal", jint (aal p));
   ("auth_method", VString (auth_method p));
   ("authenticated_at", jseconds (authenticated_at p));
   ("roles", jstrings (roles p));
   ("authority_domain", VString (pr_authority_domain p))].

Definition attribute_members (m : list (string * string)) : list (string * value) :=
  map (λ kv, (kv.1, VString kv.2)) m.

Definition resource_members (r : Resource) : list (string * value) :=
  [("type", VString (rtype r));
   ("id", VString (rid r));
   ("authority_domain", VString (rs_authority_domain r));
   ("attributes", Object (attribute_members (attributes r)))].

Definition posture_members (p : DevicePosture) : list (string * value) :=
  [("managed", Bool (managed p));
   ("disk_encrypted", Bool (disk_encrypted p));
   ("agent_version", VString (agent_version p));
   ("evaluated_at", jseconds (evaluated_at p))].

Definition approval_members (a : Approval) : list (string * value) :=
  [("approver_id", VString (approver_id a)); ("approved_at", jseconds (approved_at a))].

Definition context_members (c : Context) : list (string * value) :=
  [("requested_at", jseconds (requested_at c));
   ("source_network", VString (source_network c));
   ("posture", jopt (λ p, Object (posture_members p)) (posture c));
   ("ticket_ref", VString (ticket_ref c));
   ("justification", VString (justification c));
   ("approvals", Array (map (λ a, Object (approval_members a)) (approvals c)))].

Definition request_members (r : DecisionRequest) : list (string * value) :=
  [("request_id", VString (request_id r));
   ("principal", jopt (λ p, Object (principal_members p)) (principal r));
   ("action", jopt (λ a, Object [("verb", VString (verb a))]) (action r));
   ("resource", jopt (λ x, Object (resource_members x)) (resource r));
   ("context", jopt (λ c, Object (context_members c)) (context r));
   ("policy_version", VString (dr_policy_version r))].

Definition request_to_json (r : DecisionRequest) : value := Object (request_members r).

(** ** Evaluation *)

Definition deny (rs : list string) (hash : bytes) (version : string) : DecisionResponse := {|
  effect := effect_i32 Deny; reasons := rs; max_ttl := None; constraints := [];
  decision_hash := hash; policy_version := version; issued_at := None;
  decision_signature := []; decision_signature_key_id := "" |}.

(** [annotation(id, "id").map(str::to_string).unwrap_or_else(|| id.to_string())] *)
Definition reason_of `{Cedar} (policies : PolicySet) (id : string) : string :=
  default id (annotation policies id "id").

Definition decide `{Cedar, SerdeJson, AwsLc, O : SetOrder} {E} (self : Pdp) (request : DecisionRequest) :
    res DecisionResponse E :=
  let! binding := bind_request (request_to_json request) in
  let decision_hash := binding_as_bytes binding in
  if negb (bool_decide (dr_policy_version request = "")) &&
     negb (bool_decide (dr_policy_version request = pdp_policy_version self))
  then Ok (deny ["policy_version_indisponible"] decision_hash (pdp_policy_version self))
  else
    match translate request (schema self) with
    | Panic => Panic
    | Err reason => Ok (deny [reason] decision_hash (pdp_policy_version self))
    | Ok (cedar_request, entities) =>
        let '(decision, ids) := is_authorized cedar_request (policies self) entities in
        let eff := match decision with CedarAllow => Allow | CedarDeny => Deny end in
        Ok {| effect := effect_i32 eff; reasons := map (reason_of (policies self)) (iter_set ids);
              max_ttl := None; constraints := []; decision_hash := decision_hash;
              policy_version := pdp_policy_version self; issued_at := None;
              decision_signature := []; decision_signature_key_id := "" |}
    end.

(** ** Lemmas: what the request document carries *)

(** The types of the contract, and distinct keys in the attribute map. *)
Definition in_i32 (z : Z) : Prop := - 2 ^ 31 ≤ z < 2 ^ 31.
Definition typed_time (t : option proto_time) : Prop := ∀ x, t = Some x → in_i64 (seconds x).
Definition distinct_attributes (r : DecisionRequest) : Prop :=
  ∀ x, resource r = Some x → NoDup (attributes x).*1.
Definition typed_context (c : Context) : Prop :=
  typed_time (requested_at c) ∧ (∀ p, posture c = Some p → typed_time (evaluated_at p)) ∧
  Forall (λ a, typed_time (approved_at a)) (approvals c).
Definition typed_request (r : DecisionRequest) : Prop :=
  (∀ p, principal r = Some p → in_i32 (aal p) ∧ typed_time (authenticated_at p)) ∧
  distinct_attributes r ∧ (∀ c, context r = Some c → typed_context c).

(** What the hash keeps of a request: the attributes in key order, no approval signature,
    no fraction of a second. *)
Definition hashed_time (t : option proto_time) : option proto_time :=
  (λ t, {| seconds := seconds t; nanos := 0 |}) <$> t.
Definition hashed_principal (p : Principal) : Principal := {|
  subject_id := subject_id p; aal := aal p; auth_method := auth_method p;
  authenticated_at := hashed_time (authenticated_at p); roles := roles p;
  pr_authority_domain := pr_authority_domain p |}.
Definition hashed_resource (x : Resource) : Resource := {|
  rtype := rtype x; rid := rid x; rs_authority_domain := rs_authority_domain x;
  attributes := merge_sort key_le (attributes x) |}.
Definition hashed_posture (p : DevicePosture) : DevicePosture := {|
  managed := managed p; disk_encrypted := disk_encrypted p; agent_version := agent_version p;
  evaluated_at := hashed_time (evaluated_at p) |}.
Definition hashed_approval (a : Approval) : Approval := {|
  approver_id := approver_id a; approved_at := hashed_time (approved_at a); ap_signature := [] |}.
Definition hashed_context (c : Context) : Context := {|
  requested_at := hashed_time (requested_at c); source_network := source_network c;
  posture := hashed_posture <$> posture c; ticket_ref := ticket_ref c;
  justification := justification c; approvals := map hashed_approval (approvals c) |}.
Definition hashed (r : DecisionRequest) : DecisionRequest := {|
  request_id := request_id r; principal := hashed_principal <$> principal r;
  action := action r; resource := hashed_resource <$> resource r;
  context := hashed_context <$> context r; dr_policy_version := dr_policy_version r |}.

(** A reader of canonical documents, total: what is missing reads as an empty value. *)
Definition field (k : string) (v : value) : value :=
  match v with Object m => default Null (map_get k m) | _ => Null end.
Definition rd_string (v : value) : string := match v with VString s => s | _ => "" end.
Definition rd_bool (v : value) : bool := match v with Bool b => b | _ => false end.
Definition rd_int (v : value) : Z :=
  match v with Number (PosInt n) | Number (NegInt n) => n | _ => 0 end.
Definition rd_opt {A} (f : value → A) (v : value) : option A :=
  match v with Null => None | _ => Some (f v) end.
Definition rd_list {A} (f : value → A) (v : value) : list A :=
  match v with Array l => map f l | _ => [] end.
Definition rd_time : value → option proto_time :=
  rd_opt (λ v, {| seconds := rd_int v; nanos := 0 |}).
Definition rd_attributes (v : value) : list (string * string) :=
  match v with Object m => map (λ kv, (kv.1, rd_string kv.2)) m | _ => [] end.

Definition rd_principal (v : value) : Principal := {|
  subject_id := rd_string (field "subject_id" v); aal := rd_int (field "aal" v);
  auth_method := rd_string (field "auth_method" v);
  authenticated_at := rd_time (field "authenticated_at" v);
  roles := rd_list rd_string (field "roles" v);
  pr_authority_domain := rd_string (field "authority_domain" v) |}.
Definition rd_resource (v : value) : Resource := {|
  rtype := rd_string (field "type" v); rid := rd_string (field "id" v);
  rs_authority_domain := rd_string (field "authority_domain" v);
  attributes := rd_attributes (field "attributes" v) |}.
Definition rd_posture (v : value) : DevicePosture := {|
  managed := rd_bool (field "managed" v); disk_encrypted := rd_bool (field "disk_encrypted" v);
  agent_version := rd_string (field "agent_version" v);
  evaluated_at := rd_time (field "evaluated_at" v) |}.
Definition rd_approval (v : value) : Approval := {|
  approver_id := rd_string (field "approver_id" v); approved_at := rd_time (field "approved_at" v);
  ap_signature := [] |}.
Definition rd_context (v : value) : Context := {|
  requested_at := rd_time (field "requested_at" v);
  source_network := rd_string (field "source_network" v);
  posture := rd_opt rd_posture (field "posture" v);
  ticket_ref := rd_string (field "ticket_ref" v);
  justification := rd_string (field "justification" v);
  approvals := rd_list rd_approval (field "approvals" v) |}.
Definition rd_request (v : value) : DecisionRequest := {|
  request_id := rd_string (field "request_id" v);
  principal := rd_opt rd_principal (field "principal" v);
  action := rd_opt (λ v, {| verb := rd_string (field "verb" v) |}) (field "action" v);
  resource := rd_opt rd_resource (field "resource" v);
  context := rd_opt rd_context (field "context" v);
  dr_policy_version := rd_string (field "policy_version" v) |}.

Lemma field_canon k m v :
  NoDup m.*1 → map_get k m = Some v → field k (canon (Object m)) = canon v.
Proof.
  intros Hnd Hk. simpl. set (m' := map _ m).
  rewrite <- (map_get_perm m') by (rewrite ?merge_sort_Permutation; unfold m'; rewrite ?fmap_canon_keys; done).
  unfold m'. by rewrite (map_get_fmap canon), Hk.
Qed.

(** Reading a declared member of a document given by its members. *)
Ltac read_fields :=
  repeat (erewrite field_canon; [|solve_keys|reflexivity]).

Lemma rd_jint n : rd_int (canon (jint n)) = n.
Proof. rewrite canon_jint. unfold jint. by destruct (n <? 0). Qed.
Lemma rd_time_canon t : rd_time (canon (jseconds t)) = hashed_time t.
Proof.
  destruct t as [t|]; [|done]. simpl. unfold rd_time, jint. by destruct (seconds t <? 0).
Qed.
Lemma rd_strings_canon l : rd_list rd_string (canon (jstrings l)) = l.
Proof. rewrite canon_jstrings. unfold jstrings. simpl. by induction l as [|s l IH]; simpl; [|f_equal]. Qed.
Lemma attribute_keys m : (attribute_members m).*1 = m.*1.
Proof. unfold attribute_members. induction m as [|[k v] m IH]; csimpl; [done|]. by f_equal. Qed.
Lemma map_sort_keys {A B} (f : A → B) (m : list (string * A)) :
  NoDup m.*1 → map (λ kv, (kv.1, f kv.2)) (merge_sort key_le m) =
               merge_sort key_le (map (λ kv, (kv.1, f kv.2)) m).
Proof.
  intros Hnd. set (g := λ kv : string * A, (kv.1, f kv.2)).
  assert (∀ l : list (string * A), (map g l).*1 = l.*1) as Hk.
  { intros l. induction l as [|[k v] l IH]; csimpl; [done|]. by f_equal. }
  apply (Sorted_unique_strong key_le).
  - intros [k1 x1] [k2 x2]. rewrite !merge_sort_Permutation.
    intros H1 H2 Hle1 Hle2. assert (k1 = k2) as -> by (by apply (anti_symm String.le)).
    rewrite <- Hk in Hnd. apply (map_get_Some _ _ _ Hnd) in H1, H2. congruence.
  - apply (Sorted_fmap g key_le); [done | apply Sorted_merge_sort, _].
  - apply Sorted_merge_sort, _.
  - etransitivity; [apply Permutation_map, merge_sort_Permutation | symmetry; apply merge_sort_Permutation].
Qed.

Lemma rd_principal_canon p : rd_principal (canon (Object (principal_members p))) = hashed_principal p.
Proof.
  unfold rd_principal, principal_members. read_fields.
  by rewrite rd_jint, rd_time_canon, rd_strings_canon.
Qed.
Lemma rd_resource_canon x :
  NoDup (attributes x).*1 → rd_resource (canon (Object (resource_members x))) = hashed_resource x.
Proof.
  intros Hnd. unfold rd_resource, resource_members. read_fields. unfold hashed_resource. f_equal.
  cbn [canon rd_attributes]. rewrite <- (map_sort_keys canon) by (by rewrite attribute_keys).
  unfold attribute_members. rewrite <- (map_sort_keys VString) by done. rewrite !map_map.
  etransitivity; [apply (map_ext _ id); by intros [k v] | apply map_id].
Qed.
Lemma rd_posture_canon p : rd_posture (canon (Object (posture_members p))) = hashed_posture p.
Proof. unfold rd_posture, posture_members. read_fields. by rewrite rd_time_canon. Qed.
Lemma rd_approval_canon a : rd_approval (canon (Object (approval_members a))) = hashed_approval a.
Proof. unfold rd_approval, approval_members. read_fields. by rewrite rd_time_canon. Qed.
Lemma rd_opt_object {A B} (f : value → B) (h : A → B) (mem : A → list (string * value)) o :
  (∀ x, o = Some x → f (canon (Object (mem x))) = h x) →
  rd_opt f (canon (jopt (λ x, Object (mem x)) o)) = h <$> o.
Proof. destruct o as [x|]; simpl; [|done]. intros Hf. by rewrite <- Hf. Qed.
Lemma rd_context_canon c : rd_context (canon (Object (context_members c))) = hashed_context c.
Proof.
  unfold rd_context, context_members. read_fields. unfold hashed_context.
  rewrite rd_time_canon. f_equal.
  - apply rd_opt_object. intros p _. apply rd_posture_canon.
  - cbn [canon rd_list]. rewrite !map_map. apply map_ext. intros a. apply rd_approval_canon.
Qed.
Lemma rd_request_canon r :
  distinct_attributes r → rd_request (canon (request_to_json r)) = hashed r.
Proof.
  intros Hd. unfold rd_request, request_to_json, request_members. read_fields. unfold hashed. f_equal.
  - apply rd_opt_object. intros p _. apply rd_principal_canon.
  - destruct (action r) as [[v]|]; [|done]. done.
  - apply rd_opt_object. intros x Hx. by apply rd_resource_canon, Hd.
  - apply rd_opt_object. intros c _. apply rd_context_canon.
Qed.

(** The document is within what the canonical form accepts. *)
Lemma attribute_sortable m : NoDup m.*1 → sortable (Object (attribute_members m)) = true.
Proof.
  intros Hnd. apply sortable_Object; [by rewrite attribute_keys|].
  unfold attribute_members. apply Forall_map, Forall_true. by intros [k v].

Qed.
Lemma attribute_wf m : NoDup m.*1 → wf_value (Object (attribute_members m)) = true.
Proof.
  intros Hnd. apply wf_Object; [by rewrite attribute_keys|].
  unfold attribute_members. apply Forall_map, Forall_true. by intros [k v].

Qed.
Lemma attribute_depth m : (depth (Object (attribute_members m)) ≤ 1)%nat.
Proof. apply depth_Object. unfold attribute_members. apply Forall_map, Forall_true. by intros [k v]. Qed.

Lemma jseconds_sortable t : sortable (jseconds t) = true.
Proof. destruct t; [apply sortable_jint | done]. Qed.
Lemma jseconds_wf t : typed_time t → wf_value (jseconds t) = true.
Proof.
  destruct t as [t|]; [|done]. intros Ht. apply wf_jint.
  specialize (Ht _ eq_refl). unfold in_i64, i64_max, u64_max in *. lia.
Qed.
Lemma jseconds_depth t : depth (jseconds t) = 0%nat.
Proof. destruct t; [apply depth_jint | done]. Qed.

Lemma jopt_property {A} (Q : value → Prop) (f : A → value) o :
  Q Null → (∀ x, o = Some x → Q (f x)) → Q (jopt f o).
Proof. destruct o; simpl; auto. Qed.

(** One goal per member that is not settled by computation. *)
Ltac member_goals tac :=
  repeat (apply Forall_cons_2; [cbn [fst snd]|]); try apply Forall_nil_2; try reflexivity; tac.

Lemma request_sortable r : distinct_attributes r → sortable (request_to_json r) = true.
Proof.
  intros Hd. apply sortable_Object; [solve_keys|]. unfold request_members.
  member_goals ltac:(apply (jopt_property (λ v, sortable v = true)); [done|intros ? Hx]).
  - apply sortable_Object; [solve_keys|]. unfold principal_members.
    member_goals ltac:(first [apply wf_sortable, jstrings_wf | apply jseconds_sortable | apply sortable_jint]).
  - done.
  - apply sortable_Object; [solve_keys|]. unfold resource_members.
    member_goals ltac:(by apply attribute_sortable, Hd).
  - apply sortable_Object; [solve_keys|]. unfold context_members.
    member_goals ltac:(first [apply jseconds_sortable
      | apply (jopt_property (λ v, sortable v = true)); [done|intros p _] | idtac]).
    + apply sortable_Object; [solve_keys|]. unfold posture_members. member_goals ltac:(apply jseconds_sortable).
    + simpl. apply forallb_forall. intros v (a & <- & _)%in_map_iff.
      apply sortable_Object; [solve_keys|]. unfold approval_members. member_goals ltac:(apply jseconds_sortable).
Qed.

Lemma request_wf r : typed_request r → wf_value (request_to_json r) = true.
Proof.
  intros (Hp & Hd & Hc). apply wf_Object; [solve_keys|]. unfold request_members.
  member_goals ltac:(apply (jopt_property (λ v, wf_value v = true)); [done|intros ? Hx]).
  - apply Hp in Hx as [Ha Ht]. apply wf_Object; [solve_keys|]. unfold principal_members.
    member_goals ltac:(first [apply jstrings_wf | by apply jseconds_wf
      | apply wf_jint; unfold in_i32, i64_min, u64_max in *; lia]).
  - done.
  - apply wf_Object; [solve_keys|]. unfold resource_members.
    member_goals ltac:(by apply attribute_wf, Hd).
  - apply Hc in Hx as (Ht & Hpos & Hap). apply wf_Object; [solve_keys|]. unfold context_members.
    member_goals ltac:(first [by apply jseconds_wf
      | apply (jopt_property (λ v, wf_value v = true)); [done|intros p Hx] | idtac]).
    + apply wf_Object; [solve_keys|]. unfold posture_members. member_goals ltac:(by apply jseconds_wf, Hpos).
    + simpl. apply forallb_forall. intros v (a & <- & Hin%list_elem_of_In)%in_map_iff.
      apply wf_Object; [solve_keys|]. unfold approval_members.
      member_goals ltac:(apply jseconds_wf; by eapply Forall_forall in Hap).
Qed.

Lemma request_depth r : (depth (request_to_json r) ≤ 127)%nat.
Proof.
  etrans; [apply (depth_Object 4)|lia]. unfold request_members.
  member_goals ltac:(first [cbn [depth]; lia | apply (jopt_property (λ v, depth v ≤ 4)%nat); [simpl; lia|intros ? _]]).
  - etrans; [apply (depth_Object 1)|lia]. unfold principal_members.
    member_goals ltac:(first [apply jstrings_depth | rewrite ?jseconds_depth, ?depth_jint; cbn [depth]; lia]).
  - simpl. lia.
  - etrans; [apply (depth_Object 1)|lia]. unfold resource_members.
    member_goals ltac:(first [apply attribute_depth | cbn [depth]; lia]).
  - apply (depth_Object 3). unfold context_members.
    member_goals ltac:(first [rewrite jseconds_depth; lia
      | apply (jopt_property (λ v, depth v ≤ 3)%nat); [simpl; lia|intros p _] | idtac]).
    all: try (cbn [depth]; lia).
    + etrans; [apply (depth_Object 0)|lia]. unfold posture_members.
      member_goals ltac:(rewrite ?jseconds_depth; cbn [depth]; lia).
    + simpl. apply le_n_S. induction (approvals _) as [|a l IH]; simpl; [lia|].
      apply Nat.max_lub; [|exact IH]. rewrite jseconds_depth. simpl. lia.
Qed.

(** Nothing but the hashed part enters the document or the translation. *)
Lemma canon_object_members m1 m2 :
  Forall2 (λ x y : string * value, x.1 = y.1 ∧ canon x.2 = canon y.2) m1 m2 →
  canon (Object m1) = canon (Object m2).
Proof. intros H. simpl. by rewrite (map_pointwise_eq _ _ H). Qed.

Ltac same_members := apply canon_object_members; repeat (apply Forall2_cons_2; [split; [done|]; try done|]); try apply Forall2_nil_2.

Lemma jseconds_hashed t : jseconds (hashed_time t) = jseconds t.
Proof. by destruct t. Qed.
Lemma canon_jopt {A} (f : A → value) (g : A → A) o :
  (∀ x, o = Some x → canon (f (g x)) = canon (f x)) → canon (jopt f (g <$> o)) = canon (jopt f o).
Proof. destruct o; simpl; auto. Qed.

Lemma canon_hashed r :
  distinct_attributes r → canon (request_to_json (hashed r)) = canon (request_to_json r).
Proof.
  intros Hd. unfold request_to_json, request_members. same_members; cbn [fst snd hashed principal resource context].
  - apply canon_jopt. intros p _. unfold principal_members. same_members. cbn. by rewrite jseconds_hashed.
  - apply canon_jopt. intros x Hx. unfold resource_members. same_members. cbn [snd hashed_resource attributes].
    simpl. f_equal. unfold attribute_members.
    apply merge_sort_key_unique.
    + rewrite fmap_canon_keys. fold (attribute_members (merge_sort key_le (attributes x))).
      rewrite attribute_keys, merge_sort_Permutation. by apply Hd.
    + do 2 apply Permutation_map. apply merge_sort_Permutation.
  - apply canon_jopt. intros c _. unfold context_members. same_members; cbn [snd hashed_context requested_at posture approvals].
    + by rewrite jseconds_hashed.
    + apply canon_jopt. intros p _. unfold posture_members. same_members. cbn. by rewrite jseconds_hashed.
    + simpl. f_equal. rewrite !map_map. apply map_ext. intros a. unfold approval_members. same_members.
      cbn. by rewrite jseconds_hashed.
Qed.

Section translate_lemmas.
Context `{Cedar}.

Lemma seconds_hashed {E} t (e : E) :
  map_ok seconds (ok_or (hashed_time t) e) = map_ok seconds (ok_or t e).
Proof. by destruct t. Qed.

Lemma translate_hashed r s : distinct_attributes r → translate (hashed r) s = translate r s.
Proof.
  intros Hd. unfold translate. destruct r as [rid' p a x c v]. cbn [hashed principal resource action context] in *.
  destruct p as [p|]; cbn [fmap option_fmap option_map ok_or res_bind]; [|done].
  destruct x as [x|]; cbn [fmap option_fmap option_map ok_or res_bind]; [|done].
  destruct a as [a|]; cbn [fmap option_fmap option_map ok_or res_bind]; [|done].
  destruct c as [c|]; cbn [fmap option_fmap option_map ok_or res_bind]; [|done].
  assert (principal_entity (hashed_principal p) = principal_entity p) as ->.
  { unfold principal_entity. cbn [hashed_principal subject_id authenticated_at]. by rewrite seconds_hashed. }
  assert (database_entity (hashed_resource x) = database_entity x) as ->.
  { unfold database_entity. cbn [hashed_resource rid attributes].
    rewrite (map_get_perm (merge_sort key_le (attributes x)) (attributes x)); [done| |apply merge_sort_Permutation].
    rewrite merge_sort_Permutation. by apply Hd. }
  assert (build_context (hashed_context c) = build_context c) as ->; [|done].
  unfold build_context. cbn [hashed_context requested_at posture approvals source_network ticket_ref justification].
  rewrite seconds_hashed.
  assert (try_map approval_record (map hashed_approval (approvals c)) = try_map approval_record (approvals c)) as ->.
  { induction (approvals c) as [|y l IH]; simpl; [done|]. rewrite IH.
    unfold approval_record at 1. cbn [hashed_approval approved_at approver_id]. by rewrite seconds_hashed. }
  destruct (posture c) as [p'|]; cbn [fmap option_fmap option_map ok_or]; [|done].
  unfold hashed_posture. cbn [res_bind evaluated_at managed disk_encrypted agent_version]. by rewrite seconds_hashed.
Qed.

Lemma lift_no_panic {A E} (r : Result A E) : lift r ≠ Panic.
Proof. by destruct r. Qed.
(** The pieces of a translation are built from calls that return. *)
Ltac no_panic :=
  repeat first
    [ apply bind_no_panic; [|intros ?] | apply map_err_no_panic | apply lift_no_panic
    | apply map_ok_no_panic | apply ok_or_no_panic | done ].

Lemma entity_uid_no_panic t i : entity_uid t i ≠ Panic.
Proof. unfold entity_uid. no_panic. Qed.

Lemma translate_no_panic r s : translate r s ≠ Panic.
Proof.
  pose proof entity_uid_no_panic as Hu. unfold translate. do 4 (apply bind_no_panic; [apply ok_or_no_panic|intros ?]).
  case_bool_decide; [|done].
  apply bind_no_panic; [apply Hu|intros ?].
  apply bind_no_panic; [unfold principal_entity; no_panic; apply Hu|intros ?].
  apply bind_no_panic; [apply Hu|intros ?].
  apply bind_no_panic; [unfold database_entity; no_panic; apply Hu|intros ?].
  apply bind_no_panic; [apply Hu|intros ?].
  apply bind_no_panic; [|intros ?; no_panic].
  unfold build_context. no_panic. apply try_map_no_panic. intros a. unfold approval_record. no_panic.
Qed.
End translate_lemmas.

(** ** Lemmas: evaluation *)

(** The version that the request asks for, when it asks for one, is the loaded one. *)
Definition pinned `{Cedar} (self : Pdp) (r : DecisionRequest) : Prop :=
  dr_policy_version r = "" ∨ dr_policy_version r = pdp_policy_version self.

Definition request_digest `{SerdeJson, AwsLc} (r : DecisionRequest) : bytes :=
  sha256 (request_message (request_to_json r)).

Definition unsealed (resp : DecisionResponse) : Prop :=
  issued_at resp = None ∧ decision_signature resp = [] ∧ decision_signature_key_id resp = "" ∧
  max_ttl resp = None ∧ constraints resp = [].

Definition evaluated `{Cedar, SetOrder} (self : Pdp) (hash : bytes) (q : CedarRequest) (es : Entities) :
    DecisionResponse :=
  let d := is_authorized q (policies self) es in {|
    effect := effect_i32 (match d.1 with CedarAllow => Allow | CedarDeny => Deny end);
    reasons := map (reason_of (policies self)) (iter_set d.2); max_ttl := None; constraints := [];
    decision_hash := hash; policy_version := pdp_policy_version self; issued_at := None;
    decision_signature := []; decision_signature_key_id := "" |}.

(** The same answer, up to the order of its reasons. *)
Definition with_reasons (l : list string) (d : DecisionResponse) : DecisionResponse := {|
  effect := effect d; reasons := l; max_ttl := max_ttl d; constraints := constraints d;
  decision_hash := decision_hash d; policy_version := policy_version d; issued_at := issued_at d;
  decision_signature := decision_signature d;
  decision_signature_key_id := decision_signature_key_id d |}.
Definition same_answer (a b : DecisionResponse) : Prop :=
  reasons a ≡ₚ reasons b ∧ with_reasons [] a = with_reasons [] b.

#[export] Instance same_answer_equiv : Equivalence same_answer.
Proof.
  split.
  - by intros a.
  - by intros a b [? ?].
  - intros a b c [? ?] [? ?]. split; [by etrans | congruence].
Qed.

Lemma same_answer_short a b : same_answer a b → len (reasons a) ≤ 1 → a = b.
Proof.
  intros [Hp He] Hl. assert (reasons a = reasons b) as Hr.
  { destruct (reasons a) as [|x [|y l]]; [by apply Permutation_nil in Hp | by apply Permutation_length_1_inv in Hp |].
    rewrite !len_cons in Hl. pose proof (len_nonneg l). lia. }
  destruct a, b. unfold with_reasons in He. simpl in *. congruence.
Qed.

Lemma evaluated_same `{Cedar} (O1 O2 : SetOrder) self hash q es :
  same_answer (evaluated (H0 := O1) self hash q es) (evaluated (H0 := O2) self hash q es).
Proof.
  split; [|done]. simpl. apply Permutation_map. by rewrite !iter_set_perm.
Qed.

Section decide_lemmas.
Context `{Cedar, SerdeJson, AwsLc, SetOrder}.

Lemma bind_request_Ok {E} r :
  distinct_attributes r →
  bind_request (E := E) (request_to_json r) =
  Ok {| db_suite := SUITE_V1; db_digest := request_digest r |}.
Proof. intros Hd. unfold bind_request. by rewrite canonical_bytes_canon by (by apply request_sortable). Qed.

Lemma decide_eq {E} self r :
  distinct_attributes r →
  decide (E := E) self r = Ok (
    if bool_decide (pinned self r) then
      match translate r (schema self) with
      | Ok (q, es) => evaluated self (request_digest r) q es
      | Err reason => deny [reason] (request_digest r) (pdp_policy_version self)
      | Panic => deny [] (request_digest r) (pdp_policy_version self)
      end
    else deny ["policy_version_indisponible"] (request_digest r) (pdp_policy_version self)).
Proof.
  intros Hd. unfold decide. rewrite bind_request_Ok by done. cbn [res_bind binding_as_bytes db_digest].
  assert (negb (bool_decide (dr_policy_version r = "")) &&
          negb (bool_decide (dr_policy_version r = pdp_policy_version self)) =
          negb (bool_decide (pinned self r))) as ->.
  { rewrite <- negb_orb. f_equal. symmetry. apply bool_decide_or. }
  destruct (bool_decide (pinned self r)); [|done]. cbn [negb].
  pose proof (translate_no_panic r (schema self)).
  destruct (translate r (schema self)) as [[q es]|e|]; [|done|done].
  unfold evaluated. by destruct (is_authorized _ _ _).
Qed.

Lemma decide_hash {E} self r resp :
  distinct_attributes r → decide (E := E) self r = Ok resp → decision_hash resp = request_digest r.
Proof.
  intros Hd. rewrite decide_eq by done. intros [= <-].
  destruct (bool_decide _); [|done]. by destruct (translate _ _) as [[q es]|e|].
Qed.
End decide_lemmas.

(** What [translate] asks of a request. *)
Definition translatable (r : DecisionRequest) : Prop :=
  ∃ p x a c po, principal r = Some p ∧ resource r = Some x ∧ action r = Some a ∧
    context r = Some c ∧ posture c = Some po ∧ rtype x = "Database" ∧
    is_Some (map_get "environment" (attributes x)) ∧ is_Some (authenticated_at p) ∧
    is_Some (requested_at c) ∧ is_Some (evaluated_at po) ∧
    Forall (λ a, is_Some (approved_at a)) (approvals c).

Lemma translate_Ok `{Cedar} r s qe : translate r s = Ok qe → translatable r.
Proof.
  unfold translate. intros Ht. ok_inv. 
  match goal with H : (if ?b then _ else _) = Ok _ |- _ => destruct b eqn:Htype; [|done] end. ok_inv.
  unfold principal_entity, database_entity, build_context in *. ok_inv. bool_simp.
  do 5 eexists. split_and!; try done; try by eexists.
  apply Forall_forall. intros y Hy.
  match goal with H : try_map approval_record _ = Ok _ |- _ => apply try_map_Ok in H; rename H into Hall end.
  apply list_elem_of_lookup in Hy as [i Hi]. eapply Forall2_lookup_l in Hall as (z & _ & Hz); [|exact Hi].
  unfold approval_record in Hz. ok_inv. by eexists.
Qed.

(** ** Lemmas: loading *)

(** What a file system promises: distinct names in a directory, sizes of a [u64]. *)
Class FsLaws (F : Fs) := {
  dir_names_distinct dir entries n1 n2 i j :
    read_dir dir = inl entries → entries !! i = Some (inl n1) → entries !! j = Some (inl n2) →
    n1 = n2 → i = j;
  dir_fits dir entries : read_dir dir = inl entries → len entries ≤ u64_max;
  names_fit dir entries i n :
    read_dir dir = inl entries → entries !! i = Some (inl n) → len n ≤ u64_max;
  texts_fit path text : read_to_string path = inl text → fits text;
}.

(** Every name of the directory is UTF-8. *)
Definition utf8_names `{Fs} (dir : bytes) : Prop :=
  ∀ entries i n, read_dir dir = inl entries → entries !! i = Some (inl n) → utf8_ok n = true.

Section load_lemmas.
Context `{F : Fs}.

Lemma lift_Ok {A E} (r : Result A E) a : lift r = Ok a ↔ r = inl a.
Proof. destruct r; simpl; naive_solver. Qed.

Lemma read_corpus_origin dir entries files :
  read_corpus dir entries = Ok files →
  (length files ≤ length entries)%nat ∧
  ∀ f, f ∈ files → ∃ i n, entries !! i = Some (inl n) ∧ f.1 = relative_name n ∧
    read_to_string (entry_path dir n) = inl f.2.
Proof.
  revert files. induction entries as [|e rest IH]; simpl; intros files Hr.
  { injection Hr as <-. split; [done|]. intros f Hf. by apply not_elem_of_nil in Hf. }
  ok_inv. match goal with H : lift e = Ok _ |- _ => apply lift_Ok in H as -> end.
  destruct (negb _).
  - destruct (IH _ ltac:(eassumption)) as [Hlen Hall]. split; [lia|].
    intros f Hf. destruct (Hall f Hf) as (i & n & Hi & ?). by exists (S i), n.
  - ok_inv. match goal with H : lift _ = Ok _ |- _ => apply lift_Ok in H end. simplify_eq.
    match goal with H : read_corpus _ _ = Ok _ |- _ => destruct (IH _ H) as [Hlen Hall] end.
    split; [simpl; lia|]. intros f [->|Hf]%elem_of_cons.
    + by exists 0%nat; eexists.
    + destruct (Hall f Hf) as (i & n & Hi & ?). by exists (S i), n.
Qed.

Lemma read_corpus_names dir entries files :
  (∀ i j n1 n2, entries !! i = Some (inl n1) → entries !! j = Some (inl n2) →
     relative_name n1 = relative_name n2 → i = j) →
  read_corpus dir entries = Ok files → NoDup files.*1.
Proof.
  revert files. induction entries as [|e rest IH]; simpl; intros files Hinj Hr.
  { injection Hr as <-. apply NoDup_nil_2. }
  ok_inv. match goal with H : lift e = Ok _ |- _ => apply lift_Ok in H as -> end.
  assert (Hinj' : ∀ i j n1 n2, rest !! i = Some (inl n1) → rest !! j = Some (inl n2) →
     relative_name n1 = relative_name n2 → i = j).
  { intros i j n1 n2 Hi Hj Heq. by injection (Hinj (S i) (S j) _ _ Hi Hj Heq). }
  destruct (negb _); [by apply IH|]. ok_inv. simplify_eq. csimpl. apply NoDup_cons. split; [|by apply IH].
  intros (f & Heq & Hf)%list_elem_of_fmap.
  match goal with H : read_corpus _ _ = Ok _ |- _ => destruct (read_corpus_origin _ _ _ H) as [_ Hall] end.
  destruct (Hall f Hf) as (i & n & Hi & Hn & _).
  specialize (Hinj 0%nat (S i) _ _ eq_refl Hi). rewrite <- Hn in Hinj. by specialize (Hinj Heq).
Qed.

Context `{Cedar, AwsLc}.

(** What a successful load read and computed. *)
(** What a load read, and the message that its version is the digest of. *)
Definition read_by (sp dir : bytes) (schema_json : string) (files : list (string * string)) : Prop :=
  read_to_string sp = inl schema_json ∧
  ∃ entries, read_dir dir = inl entries ∧ read_corpus dir entries = Ok files.
Definition loaded_message (schema_json : string) (files : list (string * string)) : bytes :=
  corpus_message schema_json CEDAR_ENGINE_VERSION
    (merge_sort path_le (corpus_files (merge_sort file_le files))).

Lemma load_Ok sp dir pdp :
  load sp dir = Ok pdp →
  ∃ schema_json entries files,
    read_to_string sp = inl schema_json ∧ schema_from_json_str schema_json = inl (schema pdp) ∧
    read_dir dir = inl entries ∧ read_corpus dir entries = Ok files ∧ files ≠ [] ∧
    parse_policies (join_lines (merge_sort file_le files).*2) = inl (policies pdp) ∧
    pdp_policy_version pdp = SUITE_V1 +:+ ":" +:+ hex_encode (sha256 (loaded_message schema_json files)).
Proof.
  unfold load. intros Hl. ok_inv.
  match goal with H : (if ?b then _ else _) = Ok _ |- _ => destruct b eqn:Hne; [|done] end. ok_inv.
  repeat match goal with H : lift _ = Ok _ |- _ => apply lift_Ok in H end.
  match goal with H : bind_policy_corpus _ _ _ = Ok _ |- _ => apply bind_policy_corpus_Ok in H as [_ ->] end.
  bool_simp. simplify_eq/=. do 3 eexists. split_and!; try done.
  intros ->. by apply Hne.
Qed.

Lemma relative_name_inj n1 n2 :
  utf8_ok n1 = true → utf8_ok n2 = true → relative_name n1 = relative_name n2 → n1 = n2.
Proof.
  unfold relative_name. intros -> -> Heq. by rewrite <- (as_bytes_of n1), <- (as_bytes_of n2), Heq.
Qed.

Context `{!FsLaws F}.

Lemma loaded_files dir entries files :
  utf8_names dir → read_dir dir = inl entries → read_corpus dir entries = Ok files →
  NoDup files.*1 ∧ Forall file_fits (corpus_files files) ∧ len files ≤ u64_max.
Proof.
  intros Hu Hd Hr. split_and!.
  - eapply read_corpus_names; [|exact Hr]. intros i j n1 n2 Hi Hj Heq.
    eapply dir_names_distinct; [exact Hd | exact Hi | exact Hj |].
    apply relative_name_inj; eauto.
  - apply Forall_map, Forall_forall. intros f Hf.
    destruct (read_corpus_origin _ _ _ Hr) as [_ Hall]. destruct (Hall f Hf) as (i & n & Hi & Hn & Ht).
    split; simpl; [|by eapply texts_fit].
    rewrite Hn. unfold relative_name. rewrite (Hu _ _ _ Hd Hi). unfold fits.
    rewrite <- len_as_bytes, as_bytes_of. by eapply names_fit.
  - destruct (read_corpus_origin _ _ _ Hr) as [Hlen _]. pose proof (dir_fits _ _ Hd). unfold len in *. lia.
Qed.
End load_lemmas.

Lemma corpus_files_perm l1 l2 : corpus_files l1 ≡ₚ corpus_files l2 → l1 ≡ₚ l2.
Proof.
  intros Hp. assert (∀ l, map (λ f, (relative_path f, contents f)) (corpus_files l) = l) as Hinv.
  { intros l. unfold corpus_files. rewrite map_map. etransitivity; [apply (map_ext _ id)|apply map_id].
    by intros [? ?]. }
  rewrite <- (Hinv l1), <- (Hinv l2). by apply Permutation_map.
Qed.

Lemma file_sort_unique l1 l2 :
  NoDup l1.*1 → l1 ≡ₚ l2 → merge_sort file_le l1 = merge_sort file_le l2.
Proof. apply (merge_sort_key_unique (A := string)). Qed.

Lemma loaded_message_inj s1 s2 fs1 fs2 :
  fits s1 → fits s2 → Forall file_fits (corpus_files fs1) → Forall file_fits (corpus_files fs2) →
  len fs1 ≤ u64_max → len fs2 ≤ u64_max →
  loaded_message s1 fs1 = loaded_message s2 fs2 → s1 = s2 ∧ fs1 ≡ₚ fs2.
Proof.
  intros Hs1 Hs2 Hfit1 Hfit2 Hlen1 Hlen2 Hm.
  assert (Hperm : ∀ l, merge_sort path_le (corpus_files (merge_sort file_le l)) ≡ₚ corpus_files l).
  { intros l. rewrite merge_sort_Permutation. apply Permutation_map, merge_sort_Permutation. }
  apply corpus_message_inj in Hm as (-> & _ & Hfiles); try done.
  - split; [done|]. apply corpus_files_perm. by rewrite <- Hperm, Hfiles, Hperm.
  - by apply (bool_decide_unpack _).
  - by apply (bool_decide_unpack _).
  - by rewrite Hperm.
  - by rewrite Hperm.
  - unfold len in *. rewrite Hperm. unfold corpus_files. by rewrite length_map.
  - unfold len in *. rewrite Hperm. unfold corpus_files. by rewrite length_map.
Qed.

(** ** Theorems *)

Section theorems.
Context `{HC : Cedar, HS : SerdeJson, HA : AwsLc, HO : SetOrder}.

(** C32. [decide] always answers: for every request whose attribute map has distinct keys
    it returns a response, never an error or a panic.  The response carries the digest of
    the request and the loaded version and is not yet sealed.  A requested version other
    than the loaded one is a refusal whatever the rest of the request; a translation
    failure is a refusal with its reason; otherwise the answer is Cedar's, its policies
    named by their [@id] annotation. *)
Theorem decide_total {E} (self : Pdp) (r : DecisionRequest) (Hd : distinct_attributes r) :
  ∃ resp, decide (E := E) self r = Ok resp ∧
    decision_hash resp = request_digest r ∧ policy_version resp = pdp_policy_version self ∧
    unsealed resp ∧
    (¬ pinned self r → effect resp = effect_i32 Deny ∧ reasons resp = ["policy_version_indisponible"]) ∧
    (pinned self r → ∀ reason, translate r (schema self) = Err reason →
       effect resp = effect_i32 Deny ∧ reasons resp = [reason]) ∧
    (pinned self r → ∀ q es, translate r (schema self) = Ok (q, es) →
       (effect resp = effect_i32 Allow ↔ (is_authorized q (policies self) es).1 = CedarAllow) ∧
       (effect resp = effect_i32 Deny ↔ (is_authorized q (policies self) es).1 = CedarDeny) ∧
       reasons resp = map (reason_of (policies self)) (iter_set (is_authorized q (policies self) es).2)).
Proof.
  eexists. split; [by apply decide_eq|]. destruct (base.decide (pinned self r)) as [Hp|Hp].
  - rewrite bool_decide_true by done. pose proof (translate_no_panic r (schema self)).
    destruct (translate r (schema self)) as [[q es]|e|]; [| |done]; (split_and!; try done).
    + intros _ q' es' [= <- <-]. unfold evaluated. destruct (is_authorized _ _ _) as [[] ids]; simpl; naive_solver.
    + by intros _ e' [= <-].
  - rewrite bool_decide_false by done. by split_and!.
Qed.

(** Refusal by default: an answer that allows is only given to a request that names a
    principal with its authentication date, an action, a database with its environment, and
    a context with its date, a dated posture and a date on every approval; whose version,
    if any, is the loaded one; and on which Cedar answered [Allow]. *)
Theorem allow_needs_everything {E} (self : Pdp) (r : DecisionRequest) resp
    (Hd : distinct_attributes r) (Hdec : decide (E := E) self r = Ok resp)
    (Hallow : effect resp = effect_i32 Allow) :
  pinned self r ∧ translatable r ∧
  ∃ q es, translate r (schema self) = Ok (q, es) ∧ (is_authorized q (policies self) es).1 = CedarAllow.
Proof.
  rewrite decide_eq in Hdec by done. injection Hdec as <-.
  destruct (base.decide (pinned self r)) as [Hp|Hp];
    [rewrite bool_decide_true in Hallow by done | by rewrite bool_decide_false in Hallow by done].
  split; [done|]. destruct (translate r (schema self)) as [[q es]|e|] eqn:Ht; [|done|done].
  split; [by eapply translate_Ok|]. exists q, es. split; [done|].
  unfold evaluated in Hallow. by destruct (is_authorized _ _ _) as [[] ids].
Qed.

(** C33. The hash of the request determines the answer: two requests with the same
    [decision_hash] get the same response from the same decision point, up to the order of
    the reasons, unless their two canonical texts collide.  Whatever the hash leaves out (approval
    signatures, fractions of seconds, the order of the attribute map) has no influence on a
    decision.  Only the order of the reasons is left to the iteration of a hash set: with at
    most one reason the two responses are equal. *)
Theorem hash_determines_response `{!SerdeJsonLaws} (O1 O2 : SetOrder) {E} (self : Pdp) r1 r2 resp1 resp2
    (Ht1 : typed_request r1) (Ht2 : typed_request r2)
    (Hdec1 : decide (O := O1) (E := E) self r1 = Ok resp1)
    (Hdec2 : decide (O := O2) (E := E) self r2 = Ok resp2) :
  (decision_hash resp1 = decision_hash resp2 →
     (hashed r1 = hashed r2 ∧ same_answer resp1 resp2) ∨
     sha256_collide (request_message (request_to_json r1)) (request_message (request_to_json r2))) ∧
  (hashed r1 = hashed r2 → same_answer resp1 resp2) ∧
  (same_answer resp1 resp2 → len (reasons resp1) ≤ 1 → resp1 = resp2).
Proof.
  pose proof Ht1 as (_ & Hd1 & _). pose proof Ht2 as (_ & Hd2 & _).
  assert (Hsame : hashed r1 = hashed r2 → same_answer resp1 resp2).
  { intros Heq. rewrite (decide_eq (H2 := O1)) in Hdec1 by done. rewrite (decide_eq (H2 := O2)) in Hdec2 by done.
    injection Hdec1 as <-. injection Hdec2 as <-.
    unfold request_digest, request_message. rewrite <- (canon_hashed r1), <- (canon_hashed r2) by done.
    rewrite <- (translate_hashed r1), <- (translate_hashed r2), Heq by done.
    assert (dr_policy_version r1 = dr_policy_version r2) as Hv by exact (f_equal dr_policy_version Heq).
    assert (bool_decide (pinned self r1) = bool_decide (pinned self r2)) as ->
      by (apply bool_decide_ext; unfold pinned; by rewrite Hv).
    repeat case_match; [apply evaluated_same | reflexivity..]. }
  split_and!; [|exact Hsame|apply same_answer_short].
  intros Hhash. assert (request_digest r1 = request_digest r2) as Hdig.
  { by rewrite <- (decide_hash (H2 := O1) _ _ _ Hd1 Hdec1), <- (decide_hash (H2 := O2) _ _ _ Hd2 Hdec2). }
  apply sha256_inj_or in Hdig as [Hm|?]; [|by right]. left. apply app_inv_head in Hm.
  apply to_vec_canon_inj in Hm; [|by auto using request_wf, request_depth..].
  assert (hashed r1 = hashed r2) as Hh by (by rewrite <- (rd_request_canon r1), <- (rd_request_canon r2), Hm).
  split; [done | by apply Hsame].
Qed.

(** C34. Replay: the policy version determines the decision point.  Two loads, from
    different directories or file systems, that report the same [policy_version] read the
    same schema and, in whatever order the directories list them, the same corpus files, and
    give the same decision point, which answers every request alike; unless the two messages
    whose digests are the versions collide. *)
Theorem version_determines_decisions (F1 F2 : Fs) `{!FsLaws F1, !FsLaws F2} sp1 dir1 sp2 dir2 pdp1 pdp2
    (Hload1 : load (H0 := F1) sp1 dir1 = Ok pdp1) (Hload2 : load (H0 := F2) sp2 dir2 = Ok pdp2)
    (Hutf1 : utf8_names (H := F1) dir1) (Hutf2 : utf8_names (H := F2) dir2)
    (Hversion : get_policy_version pdp1 = get_policy_version pdp2) :
  ∃ s1 files1 s2 files2,
    read_by (F := F1) sp1 dir1 s1 files1 ∧ read_by (F := F2) sp2 dir2 s2 files2 ∧
    ((s1 = s2 ∧ files1 ≡ₚ files2 ∧ pdp1 = pdp2 ∧ ∀ E r, decide (E := E) pdp1 r = decide pdp2 r) ∨
     sha256_collide (loaded_message s1 files1) (loaded_message s2 files2)).
Proof.
  apply load_Ok in Hload1 as (s1 & es1 & fs1 & Hs1 & Hsc1 & Hd1 & Hf1 & _ & Hp1 & Hv1).
  apply load_Ok in Hload2 as (s2 & es2 & fs2 & Hs2 & Hsc2 & Hd2 & Hf2 & _ & Hp2 & Hv2).
  destruct (loaded_files _ _ _ Hutf1 Hd1 Hf1) as (Hn1 & Hfit1 & Hlen1).
  destruct (loaded_files _ _ _ Hutf2 Hd2 Hf2) as (Hn2 & Hfit2 & Hlen2).
  exists s1, fs1, s2, fs2. split; [by split; [|exists es1]|]. split; [by split; [|exists es2]|].
  unfold get_policy_version in Hversion. pose proof Hversion as Hver. rewrite Hv1, Hv2 in Hversion.
  apply (f_equal as_bytes) in Hversion. rewrite !as_bytes_app in Hversion.
  do 2 apply app_inv_head in Hversion. apply as_bytes_inj, hex_encode_inj, sha256_inj_or in Hversion as [Hm|?]; [|by right].
  left. apply loaded_message_inj in Hm as [-> Hp];
    [|exact (texts_fit _ _ Hs1)|exact (texts_fit _ _ Hs2)|done..].
  rewrite (file_sort_unique _ _ Hn1 Hp) in Hp1.
  assert (pdp1 = pdp2) as ->; [|done]. clear Hv1 Hv2. destruct pdp1, pdp2; simpl in *. congruence.
Qed.
End theorems.

(** ** The theorems at concrete inputs *)

(** A small Cedar: it allows a request whose principal has the attribute [aal] equal to
    AAL3, by one policy whose annotation names it. *)
Inductive ref_expr :=
| RString (s : string)
| RLong (z : Z)
| RBool (b : bool)
| RSet (l : list ref_expr)
| RRecord (m : list (string * ref_expr)).

Definition ref_authorized (entities : list ((string * string) * gmap string ref_expr)) :
    CedarDecision * gset string :=
  match entities with
  | (_, attrs) :: _ =>
      match attrs !! "aal" with
      | Some (RString "AAL3") => (CedarAllow, {[ "policy0" ]})
      | _ => (CedarDeny, ∅)
      end
  | [] => (CedarDeny, ∅)
  end.

#[export] Instance ref_order : SetOrder := {| iter_set := elements; iter_set_perm X := reflexivity _ |}.

#[export] Instance ref_cedar : Cedar := {|
  Schema := string; PolicySet := string; EntityTypeName := string; EntityUid := string * string;
  RestrictedExpression := ref_expr; Entity := (string * string) * gmap string ref_expr;
  Entities := list ((string * string) * gmap string ref_expr);
  CedarContext := list (string * ref_expr); CedarRequest := unit;
  schema_from_json_str := inl; parse_policies := inl; parse_type_name := inl;
  from_type_name_and_id t i := (t, i);
  new_string := RString; new_long := RLong; new_bool := RBool; new_set := RSet;
  new_record m := inl (RRecord m); entity_new uid attrs := inl (uid, attrs);
  from_entities es _ := inl es; context_from_pairs := inl; request_new _ _ _ _ _ := inl tt;
  is_authorized _ _ es := ref_authorized es;
  annotation _ id _ := if bool_decide (id = "policy0") then Some "db-connect-production" else None;
|}.

Definition ref_pdp : Pdp := {| schema := "s"; policies := "p"; pdp_policy_version := "v" |}.

Definition at_time (s n : Z) : option proto_time := Some {| seconds := s; nanos := n |}.

(** The nominal request of the unit tests; [n] sets what the hash leaves out. *)
Definition ref_request (n : Z) (sig : bytes) (attrs : list (string * string)) : DecisionRequest := {|
  request_id := "req-1";
  principal := Some {| subject_id := "sub-6b2f9c"; aal := 3; auth_method := "webauthn/device-bound";
    authenticated_at := at_time 1787500680 n; roles := ["dba"]; pr_authority_domain := "corp.eu-west" |};
  action := Some {| verb := "db.connect" |};
  resource := Some {| rtype := "Database"; rid := "db-billing-prod"; rs_authority_domain := "corp.eu-west";
    attributes := attrs |};
  context := Some {| requested_at := at_time 1787500800 n; source_network := "10.42.0.0/16";
    posture := Some {| managed := true; disk_encrypted := true; agent_version := "2.4.1";
      evaluated_at := at_time 1787499000 n |};
    ticket_ref := "INC-482913"; justification := "incident";
    approvals := [{| approver_id := "sub-a1f2e8"; approved_at := at_time 1787500200 n; ap_signature := sig |}] |};
  dr_policy_version := "" |}.

Definition ref_attrs : list (string * string) := [("environment", "production"); ("tier", "1")].

Lemma ref_request_distinct n sig attrs :
  bool_decide (NoDup attrs.*1) = true → distinct_attributes (ref_request n sig attrs).
Proof. by intros Hnd%bool_decide_eq_true x [= <-]. Qed.

Lemma at_time_typed s n : in_i64 s → typed_time (at_time s n).
Proof. by intros Hs x [= <-]. Qed.

Lemma ref_request_typed n sig attrs :
  bool_decide (NoDup attrs.*1) = true → typed_request (ref_request n sig attrs).
Proof.
  intros Hnd. assert (∀ z, 0 ≤ z ≤ 2000000000 → in_i64 z) as Hz by (unfold in_i64, i64_min, i64_max; lia).
  split_and!; [|by apply ref_request_distinct|].
  - intros p [= <-]. split; [unfold in_i32; simpl; lia|]. apply at_time_typed, Hz. lia.
  - intros c [= <-]. split_and!; [apply at_time_typed, Hz; lia | | apply Forall_singleton].
    + intros p [= <-]. apply at_time_typed, Hz. lia.
    + apply at_time_typed, Hz. lia.
Qed.

Lemma decide_total_witness :
  ∃ resp, decide (E := unit) ref_pdp (ref_request 0 [] ref_attrs) = Ok resp ∧
    decision_hash resp = request_digest (ref_request 0 [] ref_attrs) ∧
    effect resp = effect_i32 Allow ∧ reasons resp = ["db-connect-production"].
Proof.
  destruct (decide_total (E := unit) ref_pdp (ref_request 0 [] ref_attrs)) as (resp & Hd & Hh & _ & _ & _ & _ & Hq).
  { by apply ref_request_distinct. }
  exists resp. destruct (Hq (or_introl eq_refl) tt _ ltac:(reflexivity)) as (Ha & _ & Hr).
  split; [exact Hd|]. split; [exact Hh|]. split; [by apply Ha | exact Hr].
Defined.

Lemma allow_needs_everything_witness :
  ∃ resp, decide (E := unit) ref_pdp (ref_request 0 [] ref_attrs) = Ok resp ∧
    effect resp = effect_i32 Allow ∧ translatable (ref_request 0 [] ref_attrs).
Proof.
  eexists. assert (Hd : distinct_attributes (ref_request 0 [] ref_attrs)) by (by apply ref_request_distinct).
  split; [by apply decide_eq|]. split; [reflexivity|].
  refine (proj1 (proj2 (allow_needs_everything (E := unit) ref_pdp _ _ Hd (decide_eq _ _ Hd) _))). reflexivity.
Defined.

Lemma hash_determines_response_witness :
  ∃ resp, decide (E := unit) ref_pdp (ref_request 0 [] ref_attrs) = Ok resp ∧
    decide (E := unit) ref_pdp (ref_request 5 [u8_of 1] (rev ref_attrs)) = Ok resp ∧
    effect resp = effect_i32 Allow.
Proof.
  assert (H1 : distinct_attributes (ref_request 0 [] ref_attrs)) by (by apply ref_request_distinct).
  assert (H2 : distinct_attributes (ref_request 5 [u8_of 1] (rev ref_attrs))) by (by apply ref_request_distinct).
  eexists. split; [by apply decide_eq|]. split; [|reflexivity].
  etransitivity; [apply (decide_eq _ _ H2)|]. apply (f_equal Ok). symmetry.
  destruct (hash_determines_response ref_order ref_order (E := unit) ref_pdp (ref_request 0 [] ref_attrs)
    (ref_request 5 [u8_of 1] (rev ref_attrs)) _ _ (ref_request_typed 0 [] ref_attrs eq_refl)
    (ref_request_typed 5 [u8_of 1] (rev ref_attrs) eq_refl) (decide_eq _ _ H1) (decide_eq _ _ H2))
    as (_ & Hsame & Hshort).
  refine (Hshort (Hsame _) _); [reflexivity | by cbv].
Defined.

(** A file system with a schema and two corpus files, listed in the order [names]. *)
Definition ref_entries (names : list bytes) : list (Result bytes unit) := map inl names.

Definition ref_fs (names : list bytes) : Fs := {|
  IoError := unit;
  read_to_string p := inl (from_utf8_bytes (take 4 p));
  read_dir _ := inl (ref_entries names);
|}.

Definition ref_names : list bytes := [as_bytes "a.cedar"; as_bytes "README.md"; as_bytes "b.cedar"].

Lemma ref_fs_laws names :
  bool_decide (NoDup names) = true → len names ≤ u64_max → Forall (λ n, len n ≤ u64_max) names →
  FsLaws (ref_fs names).
Proof.
  intros Hnd%bool_decide_eq_true Hlen Hall. split; simpl; unfold ref_entries.
  - intros dir entries n1 n2 i j [= <-] Hi Hj ->. rewrite list_lookup_fmap in Hi, Hj.
    apply fmap_Some in Hi as (x & Hi & [= <-]). apply fmap_Some in Hj as (y & Hj & [= <-]).
    by eapply NoDup_lookup.
  - intros dir entries [= <-]. unfold len. by rewrite length_map.
  - intros dir entries i n [= <-] Hi. rewrite list_lookup_fmap in Hi.
    apply fmap_Some in Hi as (x & Hi & [= <-]). by eapply Forall_lookup in Hall.
  - intros path text [= <-]. unfold fits. rewrite <- len_as_bytes, as_bytes_of. unfold len.
    rewrite length_take. unfold u64_max. lia.
Qed.

Lemma ref_names_fit l : l ≡ₚ ref_names → len l ≤ u64_max ∧ Forall (λ n, len n ≤ u64_max) l.
Proof. intros Hp. unfold len at 1. rewrite Hp. split; [by cbv|]. by repeat constructor. Qed.

Lemma ref_names_utf8 names :
  forallb utf8_ok names = true → utf8_names (H := ref_fs names) (as_bytes "policies").
Proof.
  intros Hall entries i n [= <-] Hi. unfold ref_entries in Hi. rewrite list_lookup_fmap in Hi.
  apply fmap_Some in Hi as (x & Hi & [= <-]). rewrite forallb_forall in Hall.
  by apply Hall, list_elem_of_In, (list_elem_of_lookup_2 _ i).
Qed.

Definition ref_load (names : list bytes) : res Pdp (PdpLoadError (H := ref_fs names)) :=
  load (H0 := ref_fs names) (as_bytes "schema") (as_bytes "policies").
Definition ref_loaded (names : list bytes) : Pdp :=
  match ref_load names with Ok p => p | _ => ref_pdp end.

Lemma version_determines_decisions_witness :
  ref_load ref_names = Ok (ref_loaded ref_names) ∧
  ref_load (rev ref_names) = Ok (ref_loaded (rev ref_names)) ∧
  ref_loaded ref_names = ref_loaded (rev ref_names).
Proof.
  assert (H1 : ref_load ref_names = Ok (ref_loaded ref_names)) by reflexivity.
  assert (H2 : ref_load (rev ref_names) = Ok (ref_loaded (rev ref_names))) by reflexivity.
  split; [exact H1|]. split; [exact H2|].
  destruct (ref_names_fit ref_names) as [L1 F1]; [done|].
  destruct (ref_names_fit (rev ref_names)) as [L2 F2]; [symmetry; apply Permutation_rev|].
  destruct (version_determines_decisions (ref_fs ref_names) (ref_fs (rev ref_names))
    (FsLaws0 := ref_fs_laws ref_names eq_refl L1 F1) (FsLaws1 := ref_fs_laws (rev ref_names) eq_refl L2 F2)
    _ _ _ _ _ _ H1 H2) as (s1 & fs1 & s2 & fs2 & R1 & R2 & [(_ & _ & Heq & _)|[Hne _]]);
    [by apply ref_names_utf8 | by apply ref_names_utf8 | reflexivity | exact Heq | exfalso].
  destruct R1 as [[= <-] (? & [= <-] & [= <-])], R2 as [[= <-] (? & [= <-] & [= <-])].
  apply Hne. vm_compute. reflexivity.
Defined.
