(* ===== verification/PolicyEngine.v ===== *)
(** * [apps/policy-engine]: the decision service

    The two handlers of [PolicyDecisionService] over the decision point ([Pdp]) and the
    sealer ([DecisionSeal]).  The gRPC transport is not in the repository: a handler is a
    function of the engine, its HSM session pool, the clock and the message, and returns the
    response or a [Status].  A handler that panics is [Panic]; a panic in the blocking task
    that seals is a [Status], as the task's join error is mapped to one. *)

From S2P Require Import Prelude.
From S2P Require Import Json.
From S2P Require Import JsonCodec.
From S2P Require Import Aws.
From S2P Require Import Signer.
From S2P Require Import Common.
From S2P Require Import Suite.
From S2P Require Import DecisionSeal.
From S2P Require Import Calendar.
From S2P Require Import PolicyProto.
From S2P Require Import DecisionBinding.
From S2P Require Import Pdp.

(** [tonic::Status]: its code, and the constant part of its message. *)
Inductive Code := Internal | Unavailable.
Record Status := { code : Code; message : string }.

(** [rfc3339_now]: [now] is the clock's whole number of seconds since 1970, cast to [i64]; a
    clock set before 1970 is a panic. *)
Definition rfc3339_now {E} (now : Z) : res string E :=
  if now <? 0 then Panic else Ok (rfc3339_from_seconds (wrap_i64 now)).

(** [VerifyError]'s [to_string()] *)
Definition verify_error_text (e : VerifyError) : string :=
  match e with
  | UnknownSuite => "suite inconnue ou retirée"
  | MalformedKey => "clé publique malformée"
  | MissingSignature => "signature ou identifiant de clé absent"
  | UnknownKeyId => "identifiant de clé inconnu"
  | InvalidSignature => "signature invalide"
  end.

(** [d.seconds.max(0) as u64], absent as zero *)
Definition sealed_ttl (max_ttl : option proto_time) : Z :=
  match max_ttl with Some d => Z.max (seconds d) 0 | None => 0 end.

Definition decision_fields (response : DecisionResponse) (issued_at_str : string) :
    res DecisionFields FieldError :=
  let! issued_at := Timestamp_new issued_at_str in
  Ok {| DecisionSeal.request_id := "";
        DecisionSeal.decision_hash := decision_hash response;
        DecisionSeal.policy_version := policy_version response;
        DecisionSeal.effect_allow := effect response =? effect_i32 Allow;
        DecisionSeal.reasons := reasons response;
        DecisionSeal.max_ttl_seconds := sealed_ttl (max_ttl response);
        DecisionSeal.constraints := constraints response;
        DecisionSeal.issued_at := issued_at |}.

(** Assigning the three seal fields of a response. *)
Definition with_seal (r : DecisionResponse) (t : Z) (signature : bytes) (key_id : string) :
    DecisionResponse := {|
  effect := effect r; reasons := reasons r; max_ttl := max_ttl r; constraints := constraints r;
  decision_hash := decision_hash r; policy_version := policy_version r;
  issued_at := Some {| seconds := t; nanos := 0 |};
  decision_signature := signature; decision_signature_key_id := key_id |}.

Record PolicyEngine `{Cedar} (P : Type) := {
  pdp : Pdp;
  sealer : DecisionSealer P;
  verifying_key : AcceptedVerifyingKey;
}.
Arguments pdp {_ P} _. Arguments sealer {_ P} _. Arguments verifying_key {_ P} _.

Definition invalid_response (why : string) : VerifyDecisionResponse :=
  {| valid := false; reason := why |}.

Section engine.
Context `{Cedar, SerdeJson, AwsLc, SetOrder} {P : Type} `{HsmSigner P}.

(** [PolicyEngine::new] *)
Definition new (pdp : Pdp) (sealer : DecisionSealer P) : res (PolicyEngine P) VerifyError :=
  let! verifying_key := accepted_verifying_key sealer in
  Ok {| pdp := pdp; sealer := sealer; verifying_key := verifying_key |}.

(** [serve]: the engine that the server runs; a failed derivation is an [expect] panic. *)
Definition serve {E} (pdp : Pdp) (sealer : DecisionSealer P) : res (PolicyEngine P) E :=
  expect (new pdp sealer).

(** The session pool is shared by the requests: a handler starts from its current state and
    leaves the next one. *)
Definition sealer_at (self : PolicyEngine P) (p : P) : DecisionSealer P := {|
  pool := p; key := key (sealer self); key_id := key_id (sealer self);
  public_key_sec1 := public_key_sec1 (sealer self) |}.

(** [decide], from the evaluated response to the sealed one. *)
Definition seal_response (self : PolicyEngine P) (p : P) (response : DecisionResponse)
    (issued_at_str : string) : P * res DecisionResponse Status :=
  match decision_fields response issued_at_str with
  | Err _ => (p, Err {| code := Internal; message := "horodatage de décision invalide" |})
  | Panic => (p, Panic)
  | Ok fields =>
      let '(p, r) := seal (sealer_at self p) fields in
      (p,
       match r with
       | Panic => Err {| code := Internal; message := "tâche de scellement interrompue" |}
       | Err _ => Err {| code := Unavailable; message := "scellement de la décision indisponible" |}
       | Ok (signature, key_id) =>
           let! t := request_time_from_rfc3339 issued_at_str in
           Ok (with_seal response t signature key_id)
       end)
  end.

(** [PolicyDecisionService::decide] *)
Definition decide (self : PolicyEngine P) (p : P) (now : Z) (request : DecisionRequest) :
    P * res DecisionResponse Status :=
  match Pdp.decide (pdp self) request with
  | Ok response =>
      match rfc3339_now now with
      | Ok issued_at_str => seal_response self p response issued_at_str
      | Err e => (p, Err e)
      | Panic => (p, Panic)
      end
  | Err e => (p, Err e)
  | Panic => (p, Panic)
  end.

(** [PolicyDecisionService::verify_decision] *)
Definition verify_decision (self : PolicyEngine P) (request : VerifyDecisionRequest) :
    res VerifyDecisionResponse Status :=
  match decision request with
  | None => Ok (invalid_response "decision_absente")
  | Some decision =>
      match issued_at decision with
      | None => Ok (invalid_response "issued_at_absent")
      | Some ts =>
          match decision_fields decision (rfc3339_from_seconds (seconds ts)) with
          | Err _ => Ok (invalid_response "issued_at_invalide")
          | Panic => Panic
          | Ok fields =>
              match verify [verifying_key self] fields (decision_signature_key_id decision)
                      (decision_signature decision) with
              | Ok _ => Ok {| valid := true; reason := "" |}
              | Err e => Ok (invalid_response (verify_error_text e))
              | Panic => Panic
              end
          end
      end
  end.
End engine.

(** ** Lemmas *)

(** The sealed fields of a response, dated by [t]. *)
Definition fields_at (response : DecisionResponse) (t : Timestamp) : DecisionFields := {|
  DecisionSeal.request_id := "";
  DecisionSeal.decision_hash := decision_hash response;
  DecisionSeal.policy_version := policy_version response;
  DecisionSeal.effect_allow := effect response =? effect_i32 Allow;
  DecisionSeal.reasons := reasons response;
  DecisionSeal.max_ttl_seconds := sealed_ttl (max_ttl response);
  DecisionSeal.constraints := constraints response;
  DecisionSeal.issued_at := t |}.

Lemma decision_fields_Ok r s f :
  decision_fields r s = Ok f ↔ ∃ t, ts_str t = s ∧ f = fields_at r t.
Proof.
  unfold decision_fields. destruct (Timestamp_new s) as [t|e|] eqn:Ht; cbn [res_bind].
  - apply Timestamp_new_iff in Ht. split.
    + intros [= <-]. by exists t.
    + intros (t' & Ht' & ->). assert (t = t') as -> by (apply Timestamp_eq; congruence). done.
  - split; [done|]. intros (t & Hs & _). apply Timestamp_new_iff in Hs. congruence.
  - split; [done|]. intros (t & Hs & _). apply Timestamp_new_iff in Hs. congruence.
Qed.

Lemma decision_fields_cases r s :
  (timestamp_ok s = true ∧ ∃ t, ts_str t = s ∧ decision_fields r s = Ok (fields_at r t)) ∨
  (timestamp_ok s = false ∧ ∃ e, decision_fields r s = Err e).
Proof.
  destruct (timestamp_ok s) eqn:Hs; [left | right]; (split; [done|]).
  - exists (MkTimestamp s Hs). split; [done|]. apply decision_fields_Ok. by exists (MkTimestamp s Hs).
  - unfold decision_fields, Timestamp_new.
    destruct (Sumbool.sumbool_of_bool (timestamp_ok s)) as [Hok|Hno]; [congruence|]. by eexists.
Qed.

Lemma verify_error_text_nonempty e : verify_error_text e ≠ "".
Proof. by destruct e. Qed.

Lemma wrap_i64_small z : in_i64 z → wrap_i64 z = z.
Proof. unfold in_i64, i64_min, i64_max, wrap_i64. intros Hz. rewrite Z.mod_small; lia. Qed.

Lemma four_digit_i64 z : four_digit_years z → in_i64 z.
Proof. unfold four_digit_years, in_i64, i64_min, i64_max. lia. Qed.

(** ** Theorems *)

Section theorems.
Context `{HC : Cedar, HJ : SerdeJsonLaws, HA : AwsLc, HO : SetOrder} {P : Type} `{HP : HsmSigner P}.

Lemma decide_returns {E} (self : Pdp) r :
  distinct_attributes r → ∃ response, Pdp.decide (E := E) self r = Ok response.
Proof. intros Hd. eexists. by apply decide_eq. Qed.

(** What [decide] does with the evaluated response, on every branch. *)
Lemma seal_response_eq (self : PolicyEngine P) p response now :
  four_digit_years now →
  ∃ t, ts_str t = rfc3339_from_seconds now ∧
    seal_response self p response (rfc3339_from_seconds now) =
    let '(p', r) := sign_digest p (key (sealer self)) EcdsaP256Sha256
                      (sha256 (fields_message (fields_at response t))) in
    (p', match r with
         | Ok s => Ok (with_seal response now (sig_bytes s) (key_id (sealer self)))
         | Err _ => Err {| code := Unavailable; message := "scellement de la décision indisponible" |}
         | Panic => Err {| code := Internal; message := "tâche de scellement interrompue" |}
         end).
Proof.
  intros Hnow. pose proof (proj2 (rfc3339_timestamp_iff now) Hnow) as Hok.
  destruct (decision_fields_cases response (rfc3339_from_seconds now)) as [(_ & t & Ht & Hf)|(? & _)]; [|congruence].
  exists t. split; [done|]. unfold seal_response. rewrite Hf, decision_seal_eq. cbn [pool key sealer_at].
  destruct (sign_digest _ _ _ _) as [p' [s|e|]]; [|done|done].
  rewrite rfc3339_round_trip by done. done.
Qed.

(** C36. The decision service on every branch, for a clock of the years 1970 to 9999: the
    request is evaluated, the digest of the evaluated response dated by the clock is signed
    once, and the answer is that response with its seal and its date; a failed or
    interrupted signature is an error status, so no response leaves unsealed.  With a clock
    past the year 9999 every request is an error and the key is not used. *)
Theorem service_decide_outcome (self : PolicyEngine P) p now r
    (Hd : distinct_attributes r) (Hclock : 0 ≤ now ≤ i64_max) :
  ∃ response, Pdp.decide (E := Status) (pdp self) r = Ok response ∧
    (four_digit_years now → ∃ t, ts_str t = rfc3339_from_seconds now ∧
       decide self p now r =
       let '(p', s) := sign_digest p (key (sealer self)) EcdsaP256Sha256
                         (sha256 (fields_message (fields_at response t))) in
       (p', match s with
            | Ok s => Ok (with_seal response now (sig_bytes s) (key_id (sealer self)))
            | Err _ => Err {| code := Unavailable; message := "scellement de la décision indisponible" |}
            | Panic => Err {| code := Internal; message := "tâche de scellement interrompue" |}
            end)) ∧
    (¬ four_digit_years now →
       decide self p now r = (p, Err {| code := Internal; message := "horodatage de décision invalide" |})).
Proof.
  destruct (decide_returns (E := Status) (pdp self) r Hd) as [response Hresp].
  exists response. split; [done|]. unfold decide. rewrite Hresp.
  unfold rfc3339_now. rewrite (proj2 (Z.ltb_ge now 0)) by lia.
  rewrite wrap_i64_small by (unfold in_i64, i64_min in *; lia).
  split; [by apply seal_response_eq|]. intros Hno.
  destruct (decision_fields_cases response (rfc3339_from_seconds now)) as [(Hok & _)|(_ & e & He)].
  - by apply rfc3339_timestamp_iff in Hok.
  - unfold seal_response. by rewrite He.
Qed.

(** C35. End to end: a response that the service returns verifies at the same service, and is
    the evaluated decision with the clock's second and the seal: nothing else of it was
    changed. *)
Theorem decide_then_verify_decision (pdp0 : Pdp) (sealer0 : DecisionSealer P) (self : PolicyEngine P)
    p p' now r resp
    (Hnew : new pdp0 sealer0 = Ok self)
    (Hkey : signs_for (P := P) (key sealer0) (public_key_sec1 sealer0))
    (Hkid : key_id sealer0 = key_id_from_public_key (public_key_sec1 sealer0))
    (Hd : distinct_attributes r) (Hclock : 0 ≤ now) (Hyear : four_digit_years now)
    (Hdec : decide self p now r = (p', Ok resp)) :
  verify_decision self {| decision := Some resp |} = Ok {| valid := true; reason := "" |} ∧
  issued_at resp = Some {| seconds := now; nanos := 0 |} ∧
  ∃ response, Pdp.decide (E := Status) pdp0 r = Ok response ∧
    resp = with_seal response now (decision_signature resp) (key_id sealer0).
Proof.
  unfold new, accepted_verifying_key, accept_verifying_key, accept_verifying_key_for in Hnew.
  rewrite bool_decide_true in Hnew by done. destruct (sec1_malformed _); [done|].
  injection Hnew as <-. destruct (decide_returns (E := Status) pdp0 r Hd) as [response Hresp].
  unfold decide in Hdec. cbn [pdp] in Hdec. rewrite Hresp in Hdec.
  unfold rfc3339_now in Hdec. rewrite (proj2 (Z.ltb_ge now 0)) in Hdec by lia.
  rewrite wrap_i64_small in Hdec by (by apply four_digit_i64).
  match type of Hdec with seal_response ?e _ _ _ = _ =>
    destruct (seal_response_eq e p response now Hyear) as (t & Ht & Heq) end.
  rewrite Heq in Hdec. cbn [sealer] in Hdec.
  destruct (sign_digest _ _ _ _) as [p1 [s|e|]] eqn:Hs; [|done|done]. injection Hdec as <- <-.
  apply Hkey in Hs as [Hlen Hv]. split_and!; [|done|].
  - unfold verify_decision. cbn [decision with_seal issued_at].
    rewrite (proj2 (decision_fields_Ok _ _ (fields_at response t))) by (by exists t).
    cbn [decision_signature_key_id decision_signature verifying_key].
    rewrite (proj2 (decision_verify_Ok _ _ _ _)); [done|]. split_and!.
    + intros He. change (key_id sealer0 = ""%string) in He. pose proof (len_key_id (public_key_sec1 sealer0)) as Hl. rewrite <- Hkid, He in Hl. done.
    + intros He. change (sig_bytes s = []) in He. by rewrite He in Hlen.
    + eexists. split; [apply (find_key_head {| avk_key_id := key_id sealer0; avk_raw := _ |}) | done].
  - by exists response.
Qed.

(** When the answer to a message is valid. *)
Lemma verify_decision_spec (self : PolicyEngine P) request :
  ∃ v, verify_decision self request = Ok v ∧ (valid v = true ↔ reason v = "") ∧
    (valid v = true ↔
     ∃ d ts t, decision request = Some d ∧ issued_at d = Some ts ∧ four_digit_years (seconds ts) ∧
       ts_str t = rfc3339_from_seconds (seconds ts) ∧
       decision_signature_key_id d ≠ "" ∧ decision_signature d ≠ [] ∧
       decision_signature_key_id d = avk_key_id (verifying_key self) ∧
       p256_verify (avk_raw (verifying_key self)) (fields_message (fields_at d t)) (decision_signature d) = true).
Proof.
  unfold verify_decision. destruct (decision request) as [d|]; [|eexists; split; [done|]; naive_solver].
  destruct (issued_at d) as [ts|] eqn:Hts; [|eexists; split; [done|]; naive_solver].
  destruct (decision_fields_cases d (rfc3339_from_seconds (seconds ts))) as [(Hok & t & Ht & ->)|(Hno & e & ->)].
  2: { eexists. split; [done|]. split; [done|]. split; [done|].
       intros (d' & ts' & t & [= <-] & Hts' & Hy & _). rewrite Hts in Hts'. injection Hts' as <-.
       apply rfc3339_timestamp_iff in Hy. congruence. }
  apply rfc3339_timestamp_iff in Hok.
  pose proof (decision_verify_Ok [verifying_key self] (fields_at d t) (decision_signature_key_id d) (decision_signature d)) as Hv.
  pose proof (decision_verify_no_panic [verifying_key self] (fields_at d t) (decision_signature_key_id d) (decision_signature d)) as Hnp.
  assert (Hiff : (∃ k, find_key [verifying_key self] (decision_signature_key_id d) = Some k ∧
      p256_verify (avk_raw k) (fields_message (fields_at d t)) (decision_signature d) = true) ↔
    decision_signature_key_id d = avk_key_id (verifying_key self) ∧
      p256_verify (avk_raw (verifying_key self)) (fields_message (fields_at d t)) (decision_signature d) = true).
  { simpl. case_bool_decide; naive_solver. }
  rewrite Hiff in Hv.
  destruct (verify _ _ _ _) as [[]|e|]; [..|done].
  - eexists. split; [done|]. split; [done|]. split; [|done]. intros _.
    destruct (proj1 Hv eq_refl) as (? & ? & ? & ?). by exists d, ts, t.
  - eexists. split; [done|]. split; [split; [done|] |].
    + simpl. intros He. by apply verify_error_text_nonempty in He.
    + split; [done|]. intros (d' & ts' & t' & [= <-] & Hts' & _ & Ht' & Hrest). rewrite Hts in Hts'. injection Hts' as <-.
      assert (t' = t) as -> by (apply Timestamp_eq; congruence). by apply Hv in Hrest.
Qed.

(** [verify_decision] answers every message: it never fails and never panics, whatever
    the number of seconds received; its reason is empty exactly when the decision is valid;
    and it is valid exactly when the decision is present, dated in the years 0 to 9999, and
    carries a non-empty signature under the service's key identifier that the service's key
    verifies for the message of its sealed fields. *)
Theorem verify_decision_iff (self : PolicyEngine P) request :
  ∃ v, verify_decision self request = Ok v ∧ (valid v = true ↔ reason v = "") ∧
    (valid v = true ↔
     ∃ d ts t, decision request = Some d ∧ issued_at d = Some ts ∧ four_digit_years (seconds ts) ∧
       ts_str t = rfc3339_from_seconds (seconds ts) ∧
       decision_signature_key_id d ≠ "" ∧ decision_signature d ≠ [] ∧
       decision_signature_key_id d = avk_key_id (verifying_key self) ∧
       p256_verify (avk_raw (verifying_key self)) (fields_message (fields_at d t)) (decision_signature d) = true).
Proof. apply verify_decision_spec. Qed.

(** What the seal covers of a response. *)
Definition sealed_view (d : DecisionResponse) : bytes * string * bool * list string * Z * list string * option Z :=
  (decision_hash d, policy_version d, effect d =? effect_i32 Allow, reasons d, sealed_ttl (max_ttl d),
   constraints d, seconds <$> issued_at d).

Lemma sealed_ttl_u64 o : (∀ d, o = Some d → in_i64 (seconds d)) → in_u64 (sealed_ttl o).
Proof.
  destruct o as [d|]; simpl; [|done]. intros Hd. specialize (Hd _ eq_refl).
  unfold in_i64, in_u64, i64_max, i64_min, u64_max in *. lia.
Qed.

(** What the seal of a decision covers, exactly: the request hash, the version, whether
    the effect is [ALLOW], the reasons, the constraints, the whole non-negative seconds of
    the TTL and the whole seconds of the date.  Responses that agree on these and on the
    signature get the same verdict: the nanoseconds of the date, the fraction or the sign of
    a TTL and the number of a refusing effect are not sealed.  And when one signature is
    valid for two responses they agree on these, unless the key verifies one signature for
    two messages. *)
Theorem seal_covers_view (self : PolicyEngine P) d1 d2
    (Hsig : decision_signature d1 = decision_signature d2)
    (Hkid : decision_signature_key_id d1 = decision_signature_key_id d2)
    (Httl1 : ∀ d, max_ttl d1 = Some d → in_i64 (seconds d))
    (Httl2 : ∀ d, max_ttl d2 = Some d → in_i64 (seconds d)) :
  let verdict := λ d, verify_decision self {| decision := Some d |} in
  (sealed_view d1 = sealed_view d2 → verdict d1 = verdict d2) ∧
  (verdict d1 = Ok {| valid := true; reason := "" |} →
   verdict d2 = Ok {| valid := true; reason := "" |} →
   sealed_view d1 = sealed_view d2 ∨
   ∃ m1 m2, m1 ≠ m2 ∧ p256_verify (avk_raw (verifying_key self)) m1 (decision_signature d1) = true ∧
     p256_verify (avk_raw (verifying_key self)) m2 (decision_signature d1) = true).
Proof.
  intros verdict. split.
  - intros [= Hh Hv He Hr Ht Hc Hi]. unfold verdict, verify_decision. cbn [decision].
    destruct (issued_at d1) as [t1|], (issued_at d2) as [t2|]; try done. injection Hi as Hi.
    unfold decision_fields. change (effect_i32 Allow) with 1. by rewrite Hsig, Hkid, Hh, Hv, He, Hr, Ht, Hc, Hi.
  - intros V1 V2. destruct (verify_decision_spec self {| decision := Some d1 |}) as (v1 & Hv1 & _ & Hiff1).
    destruct (verify_decision_spec self {| decision := Some d2 |}) as (v2 & Hv2 & _ & Hiff2).
    unfold verdict in V1, V2. rewrite Hv1 in V1. rewrite Hv2 in V2. injection V1 as ->. injection V2 as ->.
    destruct (proj1 Hiff1 eq_refl) as (? & ts1 & t1 & [= <-] & Hi1 & Hy1 & Ht1 & _ & _ & _ & Hm1).
    destruct (proj1 Hiff2 eq_refl) as (? & ts2 & t2 & [= <-] & Hi2 & Hy2 & Ht2 & _ & _ & _ & Hm2).
    destruct (base.decide (fields_message (fields_at d1 t1) = fields_message (fields_at d2 t2))) as [Heq|Hne].
    + left. apply fields_message_inj in Heq; [|by apply sealed_ttl_u64..]. injection Heq as Hh Hv He Hr Ht Hc Ht12.
      unfold sealed_view. change (effect_i32 Allow) with 1. rewrite Hh, Hv, He, Hr, Ht, Hc, Hi1, Hi2. cbn [fmap option_fmap option_map].
      assert (Ok (E := unit) (seconds ts1) = Ok (seconds ts2)) as [= ->]; [|done].
      rewrite <- !rfc3339_round_trip, <- Ht1, <- Ht2, Ht12 by done. done.
    + right. rewrite Hsig in *. by exists (fields_message (fields_at d1 t1)), (fields_message (fields_at d2 t2)).
Qed.
End theorems.

(** ** The theorems at concrete inputs *)

Definition ref_engine : PolicyEngine nat := {|
  pdp := ref_pdp; sealer := ref_decision_sealer;
  verifying_key := {| avk_key_id := key_id ref_decision_sealer;
                      avk_raw := public_key_sec1 ref_decision_sealer |} |}.

(** 2026-07-14T09:30:00Z *)
Definition ref_now : Z := 1784021400.

Lemma ref_now_year : four_digit_years ref_now.
Proof. unfold four_digit_years, ref_now. lia. Qed.

Lemma service_decide_outcome_witness :
  ∃ t resp, ts_str t = rfc3339_from_seconds ref_now ∧
    decide ref_engine 0%nat ref_now (ref_request 0 [] ref_attrs) = (1%nat, Ok resp) ∧
    issued_at resp = Some {| seconds := ref_now; nanos := 0 |}.
Proof.
  destruct (service_decide_outcome ref_engine 0%nat ref_now (ref_request 0 [] ref_attrs)) as (response & _ & Hd & _).
  - by apply ref_request_distinct.
  - unfold ref_now, i64_max. lia.
  - destruct (Hd ref_now_year) as (t & Ht & Heq). exists t. eexists. split; [exact Ht|].
    split; [exact Heq | reflexivity].
Defined.

Lemma decide_then_verify_decision_witness :
  ∃ resp, decide ref_engine 0%nat ref_now (ref_request 0 [] ref_attrs) = (1%nat, Ok resp) ∧
    effect resp = effect_i32 Allow ∧
    verify_decision ref_engine {| decision := Some resp |} = Ok {| valid := true; reason := "" |}.
Proof.
  assert (Hd : distinct_attributes (ref_request 0 [] ref_attrs)) by (by apply ref_request_distinct).
  assert (Hx : ∃ response, Pdp.decide (E := Status) (pdp ref_engine) (ref_request 0 [] ref_attrs) = Ok response ∧
    effect response = effect_i32 Allow) by (eexists; split; [by apply decide_eq | reflexivity]).
  destruct Hx as (response & Hr & Ha).
  destruct (seal_response_eq ref_engine 0%nat response ref_now ref_now_year) as (t & _ & Heq).
  assert (Hnow : rfc3339_now (E := Status) ref_now = Ok (rfc3339_from_seconds ref_now)) by reflexivity.
  eexists. assert (Hdec : decide ref_engine 0%nat ref_now (ref_request 0 [] ref_attrs) =
    (1%nat, Ok (with_seal response ref_now _ _))) by (unfold decide; rewrite Hr, Hnow; exact Heq).
  split; [exact Hdec|]. split; [exact Ha|].
  apply (decide_then_verify_decision ref_pdp ref_decision_sealer ref_engine 0%nat 1%nat ref_now
    (ref_request 0 [] ref_attrs) _); [reflexivity | apply ref_signs_for | reflexivity | | | apply ref_now_year | exact Hdec].
  - by apply ref_request_distinct.
  - unfold ref_now. lia.
Defined.

(** A response, and the same with other nanoseconds and a negative TTL. *)
Definition ref_response (ttl n : Z) : DecisionResponse := {|
  effect := 1; reasons := []; max_ttl := Some {| seconds := ttl; nanos := n |}; constraints := [];
  decision_hash := []; policy_version := "v"; issued_at := Some {| seconds := ref_now; nanos := n |};
  decision_signature := [u8_of 1]; decision_signature_key_id := "k" |}.

Lemma seal_covers_view_witness :
  verify_decision ref_engine {| decision := Some (ref_response 0 0) |} =
  verify_decision ref_engine {| decision := Some (ref_response (-5) 999) |}.
Proof.
  assert (Ht : ∀ z d, max_ttl (ref_response (-5) z) = Some d ∨ max_ttl (ref_response 0 z) = Some d → in_i64 (seconds d)).
  { intros z d [[= <-]|[= <-]]; unfold in_i64, i64_min, i64_max; simpl; lia. }
  assert (Hv : sealed_view (ref_response 0 0) = sealed_view (ref_response (-5) 999)) by reflexivity.
  destruct (seal_covers_view ref_engine (ref_response 0 0) (ref_response (-5) 999)) as [Hview _];
    [reflexivity | reflexivity | by eauto | by eauto |].
  exact (Hview Hv).
Defined.
