(* ===== verification/AuditProto.v ===== *)
(** * [contracts/proto/audit/v1/sealing.proto]: the messages of the audit sealing service

    The records that [prost] generates from the contract: a message field is an option,
    [optional] scalars too, [bytes] are byte vectors, [uint64] and [uint32] are integers
    kept at their width by the theorems that need it. *)

From S2P Require Import Prelude.
From S2P Require Import PolicyProto.

Record ProtoActor := {
  pa_subject_id : string;
  pa_kind : string;
  pa_aal : option string;
  pa_auth_method : option string;
}.

Record ProtoTarget := { pt_type : string; pt_id : string }.

Record ProtoContext := {
  pc_source_network : option string;
  pc_ticket_ref : option string;
  pc_justification : option string;
}.

Record ProtoDecision := {
  pd_request_id : string;
  pd_decision_hash : bytes;
  pd_policy_version : string;
  pd_reasons : list string;
  pd_granted_ttl_seconds : option Z;
  pd_decision_signature : option bytes;
  pd_decision_signature_key_id : option string;
}.

Record SealRequest := {
  sr_event_id : string;
  sr_sequence : Z;
  sr_prev_hash : bytes;
  sr_occurred_at : option PolicyProto.proto_time;
  sr_authority_domain : string;
  sr_event_type : string;
  sr_actor : option ProtoActor;
  sr_target : option ProtoTarget;
  sr_outcome : string;
  sr_context : option ProtoContext;
  sr_decision : option ProtoDecision;
}.

Record SealResponse := { sr_sealed_bytes : bytes }.
Record HashPreviousRequest := { hp_sealed_bytes : bytes }.
Record HashPreviousResponse := { hp_digest : bytes }.
