(* ===== verification/AuditSealerApp.v ===== *)
(** * [apps/audit-sealer/src/lib.rs]: the audit sealing service

    The two handlers of [AuditSealingService] over [AuditSealer], and the translation of a
    request into event fields with the order of its refusals.  The gRPC transport is not in
    the repository: a handler is a function of the sealer, its current HSM session pool and
    the message, and returns the response or a [Status]. *)

From S2P Require Import Prelude.
From S2P Require Import Json.
From S2P Require Import JsonCodec.
From S2P Require Import Aws.
From S2P Require Import Signer.
From S2P Require Import Common.
From S2P Require Import Suite.
From S2P Require Import Chain.
From S2P Require Import IdentityAssertion.
From S2P Require Import AuditSeal.
From S2P Require Import Calendar.
From S2P Require Import AuditProto.

Inductive Code := InvalidArgument | Unavailable.
Record Status := { code : Code; message : string }.

(** [FieldError]'s [to_string()] *)
Definition field_error_text (e : FieldError) : string :=
  "champ invalide : '" +:+ field_name e +:+ "'".

(** [SealError]'s [to_string()] *)
Definition seal_error_text (e : SealError) : string :=
  match e with
  | InvalidFields f => "contenu d'événement invalide : champ '" +:+ f +:+ "'"
  | SealingUnavailable => "scellement indisponible"
  end.

(** ** Strings of the contract *)

Definition event_type_from_str : string → option EventType :=
  match_str [
    ("authenticator.registered", AuthenticatorRegistered);
    ("authenticator.revoked", AuthenticatorRevoked);
    ("authentication.attempted", AuthenticationAttempted);
    ("authentication.succeeded", AuthenticationSucceeded);
    ("authentication.failed", AuthenticationFailed);
    ("recovery.initiated", RecoveryInitiated);
    ("quorum.operation", QuorumOperation);
    ("audit.chain_verified", AuditChainVerified);
    ("policy.decided", PolicyDecided);
    ("credential.issued", CredentialIssued)].

Definition actor_kind_from_str : string → option ActorKind :=
  match_str [("human", Human); ("workload", Workload); ("system", System)].

Definition outcome_from_str : string → option Outcome :=
  match_str [("success", Success); ("denied", Denied); ("error", OError)].

Definition assurance_level_from_str : string → option AssuranceLevel :=
  match_str [("AAL1", Aal1); ("AAL2", Aal2); ("AAL3", Aal3)].

#[global] Arguments event_type_from_str _ : simpl never.
#[global] Arguments actor_kind_from_str _ : simpl never.
#[global] Arguments outcome_from_str _ : simpl never.
#[global] Arguments assurance_level_from_str _ : simpl never.

(** ** Calendar, repeated from [policy-engine] *)

Definition civil_from_days (z : Z) : Z * Z * Z :=
  let z := z + 719468 in
  let era := z / 146097 in
  let doe := z mod 146097 in
  let yoe := (doe - doe / 1460 + doe / 36524 - doe / 146096) / 365 in
  let y := yoe + era * 400 in
  let doy := doe - (365 * yoe + yoe / 4 - yoe / 100) in
  let mp := (5 * doy + 2) / 153 in
  let d := doy - (153 * mp + 2) / 5 + 1 in
  let m := if mp <? 10 then mp + 3 else mp - 9 in
  let y := if m <=? 2 then y + 1 else y in
  (y, wrap_u32 m, wrap_u32 d).

Definition rfc3339_from_seconds (total_seconds : Z) : string :=
  let days := total_seconds / 86400 in
  let seconds_of_day := total_seconds mod 86400 in
  let '(year, month, day) := civil_from_days days in
  let hour := seconds_of_day / 3600 in
  let minute := (seconds_of_day mod 3600) / 60 in
  let second := seconds_of_day mod 60 in
  from_utf8_bytes (format_rfc3339 year month day hour minute second).

(** ** From a request to event fields *)

(** [Vec<u8>] to [[u8; 32]] by [try_into] *)
Definition array32 {E} (bs : bytes) (e : E) : res bytes E :=
  guard! len bs =? 32 else e in Ok bs.

(** [map_err(|e| e.to_string())] *)
Definition text_err {A} (r : res A FieldError) : res A string := map_err field_error_text r.

Definition actor_from_proto (a : ProtoActor) : res Actor string :=
  let! kind := ok_or (actor_kind_from_str (pa_kind a)) "actor_kind_inconnu" in
  let! aal := try_opt (λ s, ok_or (assurance_level_from_str s) "aal_inconnu") (pa_aal a) in
  let! auth_method := text_err (try_opt AuthMethod_new (pa_auth_method a)) in
  let! subject_id := text_err (SubjectId_new (pa_subject_id a)) in
  Ok {| actor_subject_id := subject_id; actor_kind := kind; actor_aal := aal;
        actor_auth_method := auth_method |}.

Definition target_from_proto (t : ProtoTarget) : res Target string :=
  let! target_type := text_err (ShortText_new (pt_type t)) in
  let! id := text_err (ShortText_new (pt_id t)) in
  Ok {| target_type := target_type; target_id := id |}.

Definition decision_from_proto (d : ProtoDecision) : res DecisionInfo string :=
  let! decision_hash := array32 (pd_decision_hash d) "decision_hash_doit_faire_32_octets" in
  let! reasons := text_err (try_map Reason_new (pd_reasons d)) in
  let! request_id := text_err (RequestId_new (pd_request_id d)) in
  let! policy_version := text_err (PolicyVersion_new (pd_policy_version d)) in
  let! key_id := text_err (try_opt ShortText_new (pd_decision_signature_key_id d)) in
  Ok {| request_id := request_id; decision_hash := decision_hash;
        policy_version := policy_version; reasons := reasons;
        granted_ttl_seconds := pd_granted_ttl_seconds d;
        decision_signature := pd_decision_signature d;
        decision_signature_key_id := key_id |}.

Definition context_from_proto (c : ProtoContext) : res Context string :=
  let! source_network := text_err (try_opt ShortText_new (pc_source_network c)) in
  let! ticket_ref := text_err (try_opt ShortText_new (pc_ticket_ref c)) in
  let! justification := text_err (try_opt Justification_new (pc_justification c)) in
  Ok {| source_network := source_network; ticket_ref := ticket_ref;
        justification := justification |}.

Definition fields_from_request (req : SealRequest) : res AuditEventFields string :=
  let! event_type := ok_or (event_type_from_str (sr_event_type req))
                       "event_type_inconnu_ou_non_supporte" in
  let! outcome := ok_or (outcome_from_str (sr_outcome req)) "outcome_inconnu" in
  let! prev_hash := array32 (sr_prev_hash req) "prev_hash_doit_faire_32_octets" in
  let! occurred_at := ok_or (sr_occurred_at req) "occurred_at_absent" in
  let occurred_at_str := rfc3339_from_seconds (PolicyProto.seconds occurred_at) in
  let! actor := ok_or (sr_actor req) "actor_absent" in
  let! actor := actor_from_proto actor in
  let! target := try_opt target_from_proto (sr_target req) in
  let! context := try_opt context_from_proto (sr_context req) in
  let! decision := try_opt decision_from_proto (sr_decision req) in
  let! event_id := text_err (EventId_new (sr_event_id req)) in
  let! sequence := text_err (Sequence_new (sr_sequence req)) in
  let! occurred_at := text_err (Timestamp_new occurred_at_str) in
  let! authority_domain := text_err (AuthorityDomain_new (sr_authority_domain req)) in
  Ok {| event_id := event_id; sequence := sequence; prev_hash := prev_hash;
        occurred_at := occurred_at; authority_domain := authority_domain;
        event_type := event_type; actor := actor; target := target; outcome := outcome;
        context := context; decision := decision |}.

(** ** The handlers *)

Record SealerService (P : Type) := { sealer : AuditSealer P }.
Arguments sealer {P} _.

Section service.
Context `{SerdeJson, AwsLc} {P : Type} `{HsmSigner P}.

(** [SealerService::new] *)
Definition new (sealer : AuditSealer P) : SealerService P := {| sealer := sealer |}.

(** The sealer with the current state of its session pool, shared by the requests. *)
Definition sealer_at (self : SealerService P) (p : P) : AuditSealer P :=
  {| pool := p; key := key (sealer self); key_id := key_id (sealer self) |}.

(** [AuditSealingService::seal] *)
Definition seal_handler (self : SealerService P) (p : P) (request : SealRequest) :
    P * res SealResponse Status :=
  match fields_from_request request with
  | Err reason => (p, Err {| code := InvalidArgument; message := reason |})
  | Panic => (p, Panic)
  | Ok fields =>
      let '(p, r) := seal (sealer_at self p) fields in
      (p,
        let! sealed := map_err (λ e, {| code := Unavailable;
                         message := "scellement indisponible : " +:+ seal_error_text e |}) r in
        Ok {| sr_sealed_bytes := event_as_bytes sealed |})
  end.

(** [AuditSealingService::hash_previous] *)
Definition hash_previous (self : SealerService P) (request : HashPreviousRequest) :
    res HashPreviousResponse Status :=
  Ok {| hp_digest := Chain.hash_sealed_event (hp_sealed_bytes request) |}.
End service.

(** ** Lemmas: each translation is the inverse of its contract form *)

Lemma match_str_Some {A} (table : list (string * A)) (text : A → string) :
  (∀ a, match_str table (text a) = Some a) →
  forallb (λ p, bool_decide (p.1 = text p.2)) table = true →
  ∀ s a, match_str table s = Some a ↔ s = text a.
Proof.
  intros Hto Hof s a. split; [|by intros ->]. clear Hto. induction table as [|[k x] table IH]; [done|].
  simpl in *. bool_simp. case_bool_decide; [|by apply IH]. intros [= <-]. congruence.
Qed.

Lemma event_type_from_str_Some s e : event_type_from_str s = Some e ↔ s = event_type_str e.
Proof. apply match_str_Some; [by intros [] | done]. Qed.
Lemma actor_kind_from_str_Some s k : actor_kind_from_str s = Some k ↔ s = actor_kind_str k.
Proof. apply match_str_Some; [by intros [] | done]. Qed.
Lemma outcome_from_str_Some s o : outcome_from_str s = Some o ↔ s = outcome_str o.
Proof. apply match_str_Some; [by intros [] | done]. Qed.
Lemma assurance_level_from_str_Some s l : assurance_level_from_str s = Some l ↔ s = aal_as_str l.
Proof. apply match_str_Some; [by intros [] | done]. Qed.

(** [f] accepts exactly the images of [g]: what "validated text" means for every field. *)
Definition inverts {A B E} (f : A → res B E) (g : B → A) : Prop := ∀ a b, f a = Ok b ↔ a = g b.

Lemma inverts_ok_or {A B E} (f : A → option B) (e : E) g :
  (∀ a b, f a = Some b ↔ a = g b) → inverts (λ a, ok_or (f a) e) g.
Proof. intros H a b. specialize (H a b). destruct (f a); simpl; naive_solver. Qed.
Lemma inverts_text {A B} (f : A → res B FieldError) g : inverts f g → inverts (λ a, text_err (f a)) g.
Proof.
  intros H a b. specialize (H a b). unfold text_err. destruct (f a); simpl; naive_solver.
Qed.
Lemma inverts_ascii max field : inverts (ascii_text_new max field) as_str.
Proof. intros s a. rewrite ascii_text_new_iff. naive_solver. Qed.
Lemma inverts_uuid v7 field : inverts (uuid_new v7 field) uuid_str.
Proof. intros s a. rewrite uuid_new_iff. naive_solver. Qed.
Lemma inverts_Timestamp : inverts Timestamp_new ts_str.
Proof. intros s a. rewrite Timestamp_new_iff. naive_solver. Qed.
Lemma inverts_Sequence : inverts Sequence_new seq_value.
Proof.
  intros n [m Hm]. simpl. unfold Sequence_new. split.
  - destruct (Sumbool.sumbool_of_bool _); [|done]. by intros [= ->].
  - intros ->. destruct (Sumbool.sumbool_of_bool _) as [H|H]; [|congruence].
    do 2 f_equal. apply (proof_irrel _).
Qed.
Lemma inverts_opt {A B E} (f : A → res B E) g : inverts f g → inverts (try_opt f) (fmap g).
Proof.
  intros H [a|] [b|]; simpl; [|by destruct (f a)|done|done].
  specialize (H a b). destruct (f a) as [x| |]; simpl; naive_solver.
Qed.
Lemma inverts_map {A B E} (f : A → res B E) g : inverts f g → inverts (try_map f) (fmap g).
Proof.
  intros H l ys. rewrite try_map_Ok. split.
  - induction 1 as [|x y l' ys' Hx _ IH]; [done|]. rewrite (proj1 (H x y) Hx), IH. done.
  - intros ->. apply Forall2_fmap_l, Forall_Forall2_diag, Forall_forall. intros y _. by apply H.
Qed.

Create HintDb inverts.
#[export] Hint Resolve inverts_ok_or inverts_text inverts_ascii inverts_uuid inverts_Timestamp
  inverts_Sequence inverts_opt inverts_map event_type_from_str_Some actor_kind_from_str_Some
  outcome_from_str_Some assurance_level_from_str_Some : inverts.

(** Undo a pipeline of inverted constructors, in both directions. *)
Lemma bind_inverts {A B C E} (f : A → res B E) g (k : B → res C E) b :
  inverts f g → res_bind (f (g b)) k = k b.
Proof. intros H. by rewrite (proj2 (H (g b) b) eq_refl). Qed.

Lemma array32_Ok {E} (bs : bytes) (e : E) b : array32 bs e = Ok b ↔ len bs = 32 ∧ b = bs.
Proof. unfold array32. destruct (len bs =? 32) eqn:Hl; bool_simp; naive_solver. Qed.

(** ** The request of given fields *)

Definition proto_of_actor (a : Actor) : ProtoActor := {|
  pa_subject_id := as_str (actor_subject_id a); pa_kind := actor_kind_str (actor_kind a);
  pa_aal := aal_as_str <$> actor_aal a; pa_auth_method := as_str <$> actor_auth_method a |}.
Definition proto_of_target (t : Target) : ProtoTarget :=
  {| pt_type := as_str (target_type t); pt_id := as_str (target_id t) |}.
Definition proto_of_context (c : Context) : ProtoContext := {|
  pc_source_network := as_str <$> source_network c; pc_ticket_ref := as_str <$> ticket_ref c;
  pc_justification := as_str <$> justification c |}.
Definition proto_of_decision (d : DecisionInfo) : ProtoDecision := {|
  pd_request_id := uuid_str (request_id d); pd_decision_hash := decision_hash d;
  pd_policy_version := as_str (policy_version d); pd_reasons := as_str <$> reasons d;
  pd_granted_ttl_seconds := granted_ttl_seconds d;
  pd_decision_signature := decision_signature d;
  pd_decision_signature_key_id := as_str <$> decision_signature_key_id d |}.

(** [t]: the date of the request, of which the seconds alone are read. *)
Definition request_of (f : AuditEventFields) (t : PolicyProto.proto_time) : SealRequest := {|
  sr_event_id := uuid_str (event_id f); sr_sequence := seq_value (sequence f);
  sr_prev_hash := prev_hash f; sr_occurred_at := Some t;
  sr_authority_domain := as_str (authority_domain f);
  sr_event_type := event_type_str (event_type f); sr_actor := Some (proto_of_actor (actor f));
  sr_target := proto_of_target <$> target f; sr_outcome := outcome_str (outcome f);
  sr_context := proto_of_context <$> context f; sr_decision := proto_of_decision <$> decision f |}.

Definition hash_of_32 (d : DecisionInfo) : Prop := len (decision_hash d) = 32.

(** A translation that returned: every argument is the image of the value read from it. *)
Ltac undo :=
  unfold text_err in *; ok_inv;
  repeat match goal with
  | H : array32 _ _ = Ok _ |- _ => apply array32_Ok in H as [? ->]
  | H : ?f ?a = Some ?b |- _ => apply (event_type_from_str_Some a b) in H
  | H : ?f ?a = Some ?b |- _ => apply (actor_kind_from_str_Some a b) in H
  | H : ?f ?a = Some ?b |- _ => apply (outcome_from_str_Some a b) in H
  | H : try_opt ?f ?o = Ok ?b |- _ =>
      eapply (inverts_opt f _ ltac:(eauto with inverts) o b) in H
  | H : try_map ?f ?o = Ok ?b |- _ =>
      eapply (inverts_map f _ ltac:(eauto with inverts) o b) in H
  | H : ?f ?a = Ok ?b |- _ =>
      first [ apply (inverts_ascii _ _ a b) in H | apply (inverts_uuid _ _ a b) in H
            | apply (inverts_Timestamp a b) in H | apply (inverts_Sequence a b) in H ]
  end; simplify_eq/=.

(** The converse: the image of a value is translated back to it. *)
Ltac redo_field :=
  first
  [ apply array32_Ok; split; [eassumption | reflexivity]
  | apply ok_or_Ok; first [ apply event_type_from_str_Some | apply actor_kind_from_str_Some
                          | apply outcome_from_str_Some | reflexivity ]; reflexivity
  | eapply (inverts_opt _ _); [solve [eauto with inverts]|]; reflexivity
  | apply map_err_Ok; first
    [ eapply inverts_ascii; reflexivity | eapply inverts_uuid; reflexivity
    | eapply inverts_Timestamp; reflexivity | eapply inverts_Sequence; reflexivity
    | eapply inverts_opt; [solve [eauto with inverts] | reflexivity]
    | eapply inverts_map; [solve [eauto with inverts] | reflexivity] ] ].
Ltac redo := repeat (apply bind_Ok; eexists; split; [redo_field|]).

Lemma inverts_actor : inverts actor_from_proto proto_of_actor.
Proof.
  intros [s k l m] [s' k' l' m']. unfold actor_from_proto, proto_of_actor. cbn. split.
  - intros H. undo. done.
  - intros [= -> -> -> ->]. redo. done.
Qed.

Lemma inverts_target : inverts target_from_proto proto_of_target.
Proof.
  intros [t i] [t' i']. unfold target_from_proto, proto_of_target. cbn. split.
  - intros H. undo. done.
  - intros [= -> ->]. redo. done.
Qed.

Lemma inverts_context : inverts context_from_proto proto_of_context.
Proof.
  intros [n t j] [n' t' j']. unfold context_from_proto, proto_of_context. cbn. split.
  - intros H. undo. done.
  - intros [= -> -> ->]. redo. done.
Qed.

(** A decision also needs a hash of 32 bytes, the type of the field. *)
Lemma decision_from_proto_Ok d d' :
  decision_from_proto d = Ok d' ↔ hash_of_32 d' ∧ d = proto_of_decision d'.
Proof.
  destruct d as [a b c r g s k], d' as [a' b' c' r' g' s' k'].
  unfold decision_from_proto, proto_of_decision, hash_of_32. cbn. split.
  - intros H. undo. done.
  - intros (Hl & [= -> -> -> -> -> -> ->]). redo. done.
Qed.

#[export] Hint Resolve inverts_actor inverts_target inverts_context : inverts.

Lemma decision_opt_Ok o o' :
  try_opt decision_from_proto o = Ok o' ↔ (∀ d, o' = Some d → hash_of_32 d) ∧ o = proto_of_decision <$> o'.
Proof.
  destruct o as [d|], o' as [d'|]; simpl; unfold map_ok.
  - pose proof (decision_from_proto_Ok d d') as Hd.
    destruct (decision_from_proto d) as [x| |]; naive_solver.
  - destruct (decision_from_proto d); naive_solver.
  - naive_solver.
  - naive_solver.
Qed.

(** The calendar of this file is the one of [policy-engine]. *)
Lemma rfc3339_same s : rfc3339_from_seconds s = Calendar.rfc3339_from_seconds s.
Proof. reflexivity. Qed.

Lemma fields_from_request_Ok req f :
  fields_from_request req = Ok f ↔
  len (prev_hash f) = 32 ∧ (∀ d, decision f = Some d → hash_of_32 d) ∧
  ∃ t, ts_str (occurred_at f) = rfc3339_from_seconds (PolicyProto.seconds t) ∧ req = request_of f t.
Proof.
  destruct req as [e s p o a ty ac tg ou c d], f as [e' s' p' o' a' ty' ac' tg' ou' c' d'].
  unfold fields_from_request, request_of.
  cbn [sr_event_type sr_outcome sr_prev_hash sr_occurred_at sr_actor sr_target sr_context
    sr_decision sr_event_id sr_sequence sr_authority_domain AuditSeal.prev_hash AuditSeal.decision
    AuditSeal.occurred_at AuditSeal.event_id AuditSeal.sequence AuditSeal.authority_domain event_type
    actor target outcome context]. split.
  - intros H. ok_inv. rewrite decision_opt_Ok in *. 
    undo. destruct H7 as [Hd ->]. apply inverts_actor in H4 as ->. split_and!; [done|done|].
    by exists x2.
  - intros (Hp & Hd & t & Ht & [= -> -> -> -> -> -> -> -> -> -> ->]). redo.
    apply bind_Ok. eexists. split; [by apply inverts_actor|]. redo.
    apply bind_Ok. eexists. split; [by apply decision_opt_Ok|]. redo.
    apply bind_Ok. eexists. split; [by apply map_err_Ok, Timestamp_new_iff|]. redo. done.
Qed.

Section service_lemmas.
Context `{SerdeJson, AwsLc} {P : Type} `{HsmSigner P}.

(** Both branches of the handler. *)
Lemma seal_handler_eq (self : SealerService P) p req :
  seal_handler self p req =
  match fields_from_request req with
  | Ok f =>
      ((seal (sealer_at self p) f).1,
       match (seal (sealer_at self p) f).2 with
       | Ok sealed => Ok {| sr_sealed_bytes := bytes_of sealed |}
       | Err e => Err {| code := Unavailable;
                         message := "scellement indisponible : " +:+ seal_error_text e |}
       | Panic => Panic
       end)
  | Err reason => (p, Err {| code := InvalidArgument; message := reason |})
  | Panic => (p, Panic)
  end.
Proof.
  unfold seal_handler. destruct (fields_from_request req); [|done|done].
  by destruct (seal _ _) as [p' [s|e|]].
Qed.

(** A request that passes every guard of the service and of the sealer. *)
Definition sealable (self : SealerService P) (req : SealRequest) (f : AuditEventFields) : Prop :=
  fields_from_request req = Ok f ∧
  coupling_ok f && (len (to_vec (canon (Object (full_document (wire_of f (key_id (sealer self))
    (hex_encode (replicate 64 (u8_of 0)))))))) <=? MAX_BYTES) = true.
End service_lemmas.

(** It is answered by one signature. *)
Lemma sealable_handler `{SerdeJsonLaws, AwsLc} {P} `{HsmSigner P} (self : SealerService P) p req f :
  sealable self req f →
  seal_handler self p req =
  let '(p', r) := sign_digest p (key (sealer self)) EcdsaP256Sha256 (sha256 (fields_message f)) in
  (p', match r with
       | Ok s => Ok {| sr_sealed_bytes := to_vec (canon (Object (full_document
                         (wire_of f (key_id (sealer self)) (hex_encode (sig_bytes s)))))) |}
       | Err _ => Err {| code := Unavailable;
                         message := "scellement indisponible : " +:+ seal_error_text SealingUnavailable |}
       | Panic => Panic
       end).
Proof.
  intros [Hf [Hc Hs]%andb_true_iff]. rewrite seal_handler_eq, Hf, event_seal_eq, prepare_eq.
  rewrite validate_decision_coupling_ok, Hc. cbn [res_bind].
  pose proof (validate_size_ok f (key_id (sealer self)) (replicate 64 (u8_of 0)) eq_refl) as Hv. rewrite Hs in Hv.
  change (key_id (sealer_at self p)) with (key_id (sealer self)). rewrite Hv. cbn [res_bind].
  change (AuditSeal.pool (sealer_at self p)) with p. change (key (sealer_at self p)) with (key (sealer self)).
  by destruct (sign_digest _ _ _ _) as [p' [s|e|]].
Qed.

Lemma array32_no_panic {E} bs (e : E) : array32 bs e ≠ Panic.
Proof. unfold array32. by destruct (_ =? _). Qed.
Lemma Sequence_new_no_panic n : Sequence_new n ≠ Panic.
Proof. unfold Sequence_new. by destruct Sumbool.sumbool_of_bool. Qed.

(** Every step of a translation is a constructor, which does not panic. *)
Ltac no_panic_step :=
  first
  [ done | apply bind_no_panic; [|intros ?] | apply map_err_no_panic | apply array32_no_panic
  | apply ok_or_no_panic | apply try_opt_no_panic; intros ? | apply try_map_no_panic; intros ?
  | apply Sequence_new_no_panic | apply ascii_text_new_no_panic | apply uuid_new_no_panic
  | apply Timestamp_new_no_panic ].

Lemma fields_from_request_no_panic req : fields_from_request req ≠ Panic.
Proof.
  unfold fields_from_request.
  repeat first [no_panic_step | unfold actor_from_proto | unfold target_from_proto
    | unfold context_from_proto | unfold decision_from_proto ].
Qed.

(** ** Theorems *)

(** The translation of a request loses and invents nothing: it returns fields exactly
    for the requests that are made of them (every text accepted by its constructor, every
    name one of the contract, hashes of 32 bytes, a date whose seconds spell the sealed
    text), and panics on none.  Two requests translated to the same fields differ at most
    in the nanoseconds of the date, and no date outside the years 0 to 9999 is accepted. *)
Theorem fields_from_request_iff req :
  (∀ f, fields_from_request req = Ok f ↔
    len (prev_hash f) = 32 ∧ (∀ d, decision f = Some d → hash_of_32 d) ∧
    ∃ t, ts_str (occurred_at f) = rfc3339_from_seconds (PolicyProto.seconds t) ∧
      req = request_of f t) ∧
  fields_from_request req ≠ Panic ∧
  (∀ f req', fields_from_request req = Ok f → fields_from_request req' = Ok f →
    ∃ s n n', four_digit_years s ∧
      req = request_of f {| PolicyProto.seconds := s; PolicyProto.nanos := n |} ∧
      req' = request_of f {| PolicyProto.seconds := s; PolicyProto.nanos := n' |}).
Proof.
  split_and!; [apply fields_from_request_Ok | apply fields_from_request_no_panic |].
  intros f req' (_ & _ & [s n] & Hs & ->)%fields_from_request_Ok
    (_ & _ & [s' n'] & Hs' & ->)%fields_from_request_Ok.
  rewrite rfc3339_same in *. cbn [PolicyProto.seconds] in *.
  assert (four_digit_years s) as Hy by (apply rfc3339_timestamp_iff; rewrite <- Hs; apply ts_ok).
  assert (four_digit_years s') as Hy' by (apply rfc3339_timestamp_iff; rewrite <- Hs'; apply ts_ok).
  assert (s = s') as <-.
  { apply Z.compare_eq. rewrite <- (rfc3339_order s s'), <- Hs, <- Hs' by done.
    rewrite <- bytes_compare_string. apply bytes_compare_refl. }
  by exists s, n, n'.
Qed.

(** End to end: what the service answers to a request is the sealed form of that request.
    When the sealer's key answers to the accepted verifying key, the bytes of a response
    stay within the size limit and verify, for the domain the request names, as an event
    with the identifier, sequence, previous hash, date, domain and type of the request.  A
    request that cannot be translated is refused as [INVALID_ARGUMENT] and one that
    breaks the coupling of type and decision as [UNAVAILABLE]; neither reaches the
    signer. *)
Theorem seal_request_then_verify `{SerdeJsonLaws, AwsLc} {P} `{HsmSigner P}
    (self : SealerService P) p req pk k keys
    (Httl : ∀ d n, sr_decision req = Some d → pd_granted_ttl_seconds d = Some n → in_u32 n)
    (Hkey : signs_for (key (sealer self)) pk)
    (Hacc : accept_verifying_key SUITE_V1 (key_id (sealer self)) pk = Ok k)
    (Hfind : find_key keys (key_id (sealer self)) = Some k) :
  let policy := {| accepted_suites := [SUITE_V1];
                   expected_authority_domain := sr_authority_domain req |} in
  match fields_from_request req with
  | Ok f =>
      (∀ p' resp, seal_handler self p req = (p', Ok resp) →
        len (sr_sealed_bytes resp) ≤ MAX_BYTES ∧
        ∃ va t, verify keys (sr_sealed_bytes resp) policy = Ok va ∧ sr_occurred_at req = Some t ∧
          va_event_id va = sr_event_id req ∧ va_sequence va = sr_sequence req ∧
          va_prev_hash va = sr_prev_hash req ∧
          va_occurred_at va = rfc3339_from_seconds (PolicyProto.seconds t) ∧
          va_authority_domain va = sr_authority_domain req ∧
          event_type_str (va_event_type va) = sr_event_type req) ∧
      (coupling_ok f = false → ∃ field, seal_handler self p req =
        (p, Err {| code := Unavailable; message :=
          "scellement indisponible : " +:+ seal_error_text (InvalidFields field) |}))
  | Err reason => seal_handler self p req = (p, Err {| code := InvalidArgument; message := reason |})
  | Panic => False
  end.
Proof.
  intros policy. rewrite seal_handler_eq.
  destruct (fields_from_request req) as [f|reason|] eqn:Hf; [|done|by apply fields_from_request_no_panic in Hf].
  apply fields_from_request_Ok in Hf as (Hph & Hdh & t & Ht & Hreq). split.
  - destruct (seal _ f) as [p1 [sealed|e|]] eqn:Hs; cbn [fst snd]; intros p' resp [= _ Hr]; [|done..].
    subst resp. cbn [sr_sealed_bytes].
    destruct (sealed_event_verifies (sealer_at self p) p1 f sealed pk k keys policy) as [Hlen Hver];
      [done| |done..|].
    { split; [done|]. intros d Hd. split; [by apply Hdh|]. intros n Hn.
      apply (Httl (proto_of_decision d) n); [|done]. by rewrite Hreq; cbn; rewrite Hd. }
    split; [done|]. exists (verified_fields f), t. rewrite Hver, Hreq. cbn. unfold policy_decision.
    cbn [accepted_suites expected_authority_domain policy]. rewrite Hreq. cbn.
    rewrite !bool_decide_true by (done || left). done.
  - intros Hc. destruct (refuses_uncoupled (sealer_at self p) f Hc) as [field ->]. by exists field.
Qed.

(** ** The theorems at concrete inputs *)

Definition ref_request : SealRequest :=
  request_of ref_fields {| PolicyProto.seconds := 1767225600; PolicyProto.nanos := 5 |}.

Lemma ref_request_fields : fields_from_request ref_request = Ok ref_fields.
Proof.
  apply fields_from_request_Ok. split_and!; [done | by intros d [= <-] |].
  eexists. split; [|reflexivity]. vm_compute. reflexivity.
Qed.

Lemma fields_from_request_iff_witness :
  ∃ s n n', four_digit_years s ∧
    ref_request = request_of ref_fields {| PolicyProto.seconds := s; PolicyProto.nanos := n |} ∧
    ref_request = request_of ref_fields {| PolicyProto.seconds := s; PolicyProto.nanos := n' |}.
Proof.
  apply (fields_from_request_iff ref_request); apply ref_request_fields.
Defined.

Lemma seal_request_then_verify_witness :
  ∃ va, verify [ref_audit_key] (bytes_of ref_sealed_event) ref_audit_policy = Ok va ∧
    va_event_id va = sr_event_id ref_request ∧ va_prev_hash va = sr_prev_hash ref_request.
Proof.
  pose proof (seal_request_then_verify (new ref_audit_sealer) 0%nat ref_request
    (ref_public_key (key ref_audit_sealer)) ref_audit_key [ref_audit_key]) as Hthm.
  cbv zeta in Hthm. rewrite ref_request_fields in Hthm.
  destruct Hthm as [Hok _].
  - intros d n [= <-] [= <-]. by cbv.
  - apply ref_signs_for.
  - vm_compute. reflexivity.
  - apply (find_key_head ref_audit_key).
  - destruct (Hok 1%nat {| sr_sealed_bytes := bytes_of ref_sealed_event |}) as (_ & va & t & Hv & _ & He & _ & Hp & _).
    + rewrite seal_handler_eq, ref_request_fields. change (sealer_at _ _) with ref_audit_sealer.
      by rewrite ref_event_sealed.
    + exists va. split; [exact Hv|]. split; [exact He | exact Hp].
Defined.
