(* ===== verification/Pool.v ===== *)
(** * [crates/zs-hsm/src/pool.rs]: the pool of PKCS#11 sessions

    The pool implements the class [HsmSigner] of [Signer].  The token ([cryptoki]) is a
    parameter: the class [Token] answers every call as it likes, from the whole history of
    the calls made so far, which the pool's state records.  Time and the other threads are
    the [schedule]: what a thread that waits for a session finds at each wake-up.  The
    second part of the file gives the interleavings of several threads as a step
    relation. *)

From S2P Require Import Prelude.
From S2P Require Import Aws.
From S2P Require Import Signer.

(** ** The token *)

(** [cryptoki::error::Error]: the return values that [map_error] tells apart. *)
Inductive CkError :=
| SessionHandleInvalid
| SessionClosed
| UserNotLoggedIn
| PinIncorrect
| TokenNotPresent
| DeviceRemoved
| MechanismInvalid
| OtherCkError.

Inductive ObjectClass := PRIVATE_KEY | PUBLIC_KEY.
Inductive MechanismType := ECDSA | OtherMechanism (n : Z).
Inductive Limit := LimitMax (n : Z) | LimitUnavailable | LimitInfinite.
Inductive Attribute := EcPoint (bs : bytes) | OtherAttribute.

#[export] Instance mechanism_type_eq_dec : EqDecision MechanismType.
Proof. solve_decision. Defined.

(** A session, a slot and an object are handles. *)
Inductive call :=
| CGetSlots
| CGetTokenInfo (slot : Z)
| CGetMechanismList (slot : Z)
| COpenSession (slot : Z)
| CLogin (session : Z)
| CFindObjects (session : Z) (class : ObjectClass) (label : string)
| CSign (session : Z) (mechanism : MechanismType) (handle : Z) (digest : bytes)
| CGetAttributes (session : Z) (handle : Z)
| CCloseSession (session : Z).

Abbreviation history := (list call).

Definition Result (A E : Type) : Type := A + E.

(** Answers of the token; the history ends with the call that is answered. *)
Class Token := {
  tk_initialize : string → bool;
  tk_slots : history → Result (list Z) CkError;
  tk_max_session_count : history → Result Limit CkError;
  tk_mechanisms : history → Result (list MechanismType) CkError;
  tk_open_rw_session : history → Result Z CkError;
  tk_login : history → string → Result unit CkError;
  tk_find_objects : history → Result (list Z) CkError;
  tk_sign : history → Result bytes CkError;
  tk_get_attributes : history → Result (list Attribute) CkError;
}.

Definition map_error (err : CkError) : HsmError :=
  match err with
  | SessionHandleInvalid | SessionClosed => SessionLost
  | UserNotLoggedIn | PinIncorrect => NotLoggedIn
  | TokenNotPresent | DeviceRemoved => TokenAbsent
  | MechanismInvalid => MechanismUnsupported EcdsaP256Sha256
  | OtherCkError => DeviceError
  end.

Definition ck {A} (r : Result A CkError) : res A HsmError :=
  match r with inl a => Ok a | inr e => Err (map_error e) end.

Definition to_cryptoki_mechanism (mechanism : SigningMechanism) : MechanismType :=
  match mechanism with EcdsaP256Sha256 => ECDSA end.
Definition to_mechanism_type (mechanism : SigningMechanism) : MechanismType :=
  match mechanism with EcdsaP256Sha256 => ECDSA end.

(** ** [decode_ec_point] *)

Definition OCTET_STRING_TAG : Z := 4.

(** [der.get(i..j)] *)
Definition get_range {A} (l : list A) (i j : Z) : option (list A) :=
  if (i <=? j) && (j <=? len l) then Some (take (Z.to_nat (j - i)) (drop (Z.to_nat i) l)) else None.

Definition decode_ec_point (der : bytes) : res bytes HsmError :=
  if len der <? 2 then Err DeviceError else
  let! tag := index der 0 in
  if negb (u8_val tag =? OCTET_STRING_TAG) then Err DeviceError else
  let! b1 := index der 1 in
  let! r :=
    if Z.land (u8_val b1) 128 =? 0 then Ok (2, u8_val b1)
    else
      let length_bytes := Z.land (u8_val b1) 127 in
      guard! negb ((length_bytes =? 0) || (4 <? length_bytes) || (len der <? 2 + length_bytes))
        else DeviceError in
      let! bs := slice der 2 (2 + length_bytes) in
      Ok (2 + length_bytes, fold_left (λ acc b, Z.lor (Z.shiftl acc 8) (u8_val b)) bs 0) in
  let '(content_start, length) := r in
  ok_or (get_range der content_start (content_start + length)) DeviceError.

(** ** The pool *)

(** What a waiting thread finds when it wakes up: the free sessions, the time, and whether
    the wait ended by its timeout. *)
Record wakeup := { w_sessions : list Z; w_clock : Z; w_timed_out : bool }.

Record SessionPool := {
  slot : Z;
  pool_pin : string;
  sessions : list Z;
  log : history;
  clock : Z;
  schedule : list wakeup;
}.

Definition with_sessions (p : SessionPool) (l : list Z) : SessionPool := {|
  slot := slot p; pool_pin := pool_pin p; sessions := l; log := log p;
  clock := clock p; schedule := schedule p |}.
Definition record_call (p : SessionPool) (c : call) : SessionPool := {|
  slot := slot p; pool_pin := pool_pin p; sessions := sessions p; log := log p ++ [c];
  clock := clock p; schedule := schedule p |}.
Definition after_wait (p : SessionPool) (l : list Z) (t : Z) (s : list wakeup) : SessionPool := {|
  slot := slot p; pool_pin := pool_pin p; sessions := l; log := log p;
  clock := t; schedule := s |}.

Section pool.
Context `{Token}.

Definition resolve_slot (h : history) (requested : option Z) : history * res Z HsmError :=
  let h := h ++ [CGetSlots] in
  (h,
   let! slots := ck (tk_slots h) in
   match requested with
   | Some id => ok_or (if bool_decide (id ∈ slots) then Some id else None) TokenAbsent
   | None => ok_or (head slots) TokenAbsent
   end).

Definition ensure_mechanism_supported (h : history) (slot : Z) (mechanism : SigningMechanism) :
    history * res unit HsmError :=
  let h := h ++ [CGetMechanismList slot] in
  (h,
   let! offered := ck (tk_mechanisms h) in
   if bool_decide (to_mechanism_type mechanism ∈ offered) then Ok tt
   else Err (MechanismUnsupported mechanism)).

(** The loop of [open] over the sessions of the pool. *)
Fixpoint open_sessions (n : nat) (h : history) (slot : Z) (pin : string) (acc : list Z) :
    history * res (list Z) HsmError :=
  match n with
  | O => (h, Ok acc)
  | S n' =>
      let h := h ++ [COpenSession slot] in
      match ck (tk_open_rw_session h) with
      | Ok session =>
          let h := h ++ [CLogin session] in
          match ck (tk_login h pin) with
          | Ok _ => open_sessions n' h slot pin (acc ++ [session])
          | Err e => (h, Err e)
          | Panic => (h, Panic)
          end
      | Err e => (h, Err e)
      | Panic => (h, Panic)
      end
  end.

(** [SessionPool::open]; [now] and [sched] are the clock and the future of the new pool. *)
Definition open (now : Z) (sched : list wakeup) (config : HsmConfig) : res SessionPool HsmError :=
  guard! tk_initialize (module_path config) else NotInitialized in
  let '(h, r) := resolve_slot [] (slot_id config) in
  let! slot := r in
  let h := h ++ [CGetTokenInfo slot] in
  let! limit := ck (tk_max_session_count h) in
  if match limit with LimitMax max => max <? pool_size config | _ => false end
  then Err DeviceError else
  let '(h, r) := ensure_mechanism_supported h slot EcdsaP256Sha256 in
  let! _ := r in
  let '(h, r) := open_sessions (Z.to_nat (pool_size config)) h slot (pin config) [] in
  let! opened := r in
  Ok {| slot := slot; pool_pin := pin config; sessions := opened; log := h; clock := now; schedule := sched |}.

(** [Duration::from_secs(5)], in nanoseconds *)
Definition get_acquire_timeout (p : SessionPool) : Z := 5 * 10 ^ 9.

(** The loop of [acquire].  A wait with nothing left in the schedule ends by its timeout,
    with no free session. *)
Fixpoint acquire_loop (p : SessionPool) (deadline : Z) (sched : list wakeup) :
    SessionPool * res Z HsmError :=
  match sessions p with
  | session :: rest => (with_sessions p rest, Ok session)
  | [] =>
      let remaining := Z.max (deadline - clock p) 0 in
      if remaining =? 0 then (p, Err PoolExhausted)
      else
        match sched with
        | [] => (after_wait p [] deadline [], Err PoolExhausted)
        | w :: sched' =>
            let p := after_wait p (w_sessions w) (w_clock w) sched' in
            if w_timed_out w && bool_decide (sessions p = []) then (p, Err PoolExhausted)
            else acquire_loop p deadline sched'
        end
  end.

Definition acquire (p : SessionPool) (timeout : Z) : SessionPool * res Z HsmError :=
  acquire_loop p (clock p + timeout) (schedule p).

Definition release (p : SessionPool) (session : Z) : SessionPool :=
  with_sessions p (sessions p ++ [session]).

(** [drop(session)]: closes it. *)
Definition drop_session (p : SessionPool) (session : Z) : SessionPool :=
  record_call p (CCloseSession session).

Definition evict_and_replenish (p : SessionPool) : SessionPool :=
  let p := record_call p (COpenSession (slot p)) in
  match tk_open_rw_session (log p) with
  | inl session =>
      let p := record_call p (CLogin session) in
      match tk_login (log p) (pool_pin p) with
      | inl _ => release p session
      | inr _ => drop_session p session
      end
  | inr _ => p
  end.

Definition handle_operation_failure (p : SessionPool) (session : Z) (error : HsmError) : SessionPool :=
  match error with
  | SessionLost | NotLoggedIn | TokenAbsent => evict_and_replenish (drop_session p session)
  | _ => release p session
  end.

Definition find_key (p : SessionPool) (session : Z) (key : KeyRef) (class : ObjectClass) :
    SessionPool * res Z HsmError :=
  let p := record_call p (CFindObjects session class (label key)) in
  (p,
   let! handles := ck (tk_find_objects (log p)) in
   match handles with
   | [single] => Ok single
   | _ => Err (KeyNotFound (label key))
   end).

(** [SessionPool::sign_digest]: [find_key(..)?] returns with the session dropped. *)
Definition sign_digest (p : SessionPool) (key : KeyRef) (mechanism : SigningMechanism)
    (digest : bytes) : SessionPool * res Signature HsmError :=
  let '(p, r) := acquire p (get_acquire_timeout p) in
  match r with
  | Err e => (p, Err e)
  | Panic => (p, Panic)
  | Ok session =>
      let '(p, r) := find_key p session key PRIVATE_KEY in
      match r with
      | Err e => (drop_session p session, Err e)
      | Panic => (drop_session p session, Panic)
      | Ok handle =>
          let p := record_call p (CSign session (to_cryptoki_mechanism mechanism) handle digest) in
          match tk_sign (log p) with
          | inl raw => (release p session, Ok {| sig_bytes := raw |})
          | inr err =>
              let mapped := map_error err in
              (handle_operation_failure p session mapped, Err mapped)
          end
      end
  end.

(** [values.into_iter().find_map(..)] *)
Fixpoint find_ec_point (values : list Attribute) : option bytes :=
  match values with
  | [] => None
  | EcPoint bs :: _ => Some bs
  | OtherAttribute :: values' => find_ec_point values'
  end.

Definition public_key (p : SessionPool) (key : KeyRef) : SessionPool * res PublicKeyDer HsmError :=
  let '(p, r) := acquire p (get_acquire_timeout p) in
  match r with
  | Err e => (p, Err e)
  | Panic => (p, Panic)
  | Ok session =>
      let '(p, r) := find_key p session key PUBLIC_KEY in
      match r with
      | Err e => (release p session, Err e)
      | Panic => (release p session, Panic)
      | Ok handle =>
          let p := record_call p (CGetAttributes session handle) in
          match tk_get_attributes (log p) with
          | inl values =>
              (release p session,
               let! point := ok_or (find_ec_point values) (KeyNotFound (label key)) in
               map_ok (λ bs, {| pk_bytes := bs |}) (decode_ec_point point))
          | inr err =>
              let mapped := map_error err in
              (handle_operation_failure p session mapped, Err mapped)
          end
      end
  end.
End pool.

(** The pool is a signer, opened from a configuration: the suites of [zs-crypto] run on it. *)
#[export] Instance pool_signer `{Token} : HsmSigner SessionPool := {|
  Signer.sign_digest := sign_digest;
  Signer.public_key := public_key;
|}.
#[export] Instance pool_opener `{Token} : HsmOpen (Z * list wakeup) SessionPool := {|
  pool_open w config := open w.1 w.2 config;
|}.

(** ** Lemmas: [decode_ec_point] *)

Lemma lor_shift_byte acc b : 0 ≤ acc → Z.lor (Z.shiftl acc 8) (u8_val b) = acc * 256 + u8_val b.
Proof.
  intros Hacc. pose proof (u8_val_range b) as Hb. rewrite Z.shiftl_mul_pow2 by lia. change (2 ^ 8) with 256.
  symmetry. apply Z.add_nocarry_lor.
  apply Z.bits_inj'. intros n Hn. rewrite Z.land_spec, Z.bits_0.
  destruct (Z.ltb_spec n 8) as [Hlt|Hge].
  - change 256 with (2 ^ 8). by rewrite Z.mul_pow2_bits_low.
  - rewrite (Z.bits_above_log2 (u8_val b)), andb_false_r; [done|lia|].
    destruct (Z.eq_dec (u8_val b) 0) as [->|]; [simpl; lia|]. apply Z.log2_lt_pow2; [lia|].
    apply Z.lt_le_trans with (2 ^ 8); [lia|]. by apply Z.pow_le_mono_r.
Qed.

Lemma fold_lor_from_be bs : fold_left (λ acc b, Z.lor (Z.shiftl acc 8) (u8_val b)) bs 0 = from_be_bytes bs.
Proof.
  induction bs as [|b bs IH] using rev_ind; [done|].
  rewrite fold_left_app, from_be_bytes_snoc. cbn [fold_left]. rewrite IH.
  apply lor_shift_byte. apply from_be_bytes_bounds.
Qed.

(** The header of an octet string: the tag, then the length in the short or the long form. *)
Definition octet_header (hdr : bytes) (n : Z) : Prop :=
  (∃ b, hdr = [u8_of 4; b] ∧ u8_val b = n ∧ n < 128) ∨
  (∃ b bs, hdr = u8_of 4 :: b :: bs ∧ u8_val b = 128 + len bs ∧ 1 ≤ len bs ≤ 4 ∧ from_be_bytes bs = n).

Lemma get_range_Some {A} (l : list A) i n x :
  0 ≤ i → 0 ≤ n → get_range l i (i + n) = Some x ↔ ∃ a c, l = a ++ x ++ c ∧ len a = i ∧ len x = n.
Proof.
  intros Hi Hn. unfold get_range. rewrite (proj2 (Z.leb_le i (i + n))) by lia. cbn [andb].
  destruct (i + n <=? len l) eqn:Hl; bool_simp.
  - split.
    + intros [= <-]. exists (take (Z.to_nat i) l), (drop (Z.to_nat (i + n)) l).
      replace (Z.to_nat (i + n - i)) with (Z.to_nat n) by lia. split_and!.
      * rewrite <- (take_drop (Z.to_nat i) l) at 1. f_equal.
        rewrite <- (take_drop (Z.to_nat n) (drop _ l)) at 1. f_equal. rewrite drop_drop. f_equal. lia.
      * unfold len in *. rewrite length_take. lia.
      * unfold len in *. rewrite length_take, length_drop. lia.
    + intros (a & c & -> & <- & <-). f_equal. rewrite drop_app_length' by (unfold len; lia).
      apply take_app_length'. unfold len. lia.
  - split; [done|]. intros (a & c & -> & <- & <-). rewrite !len_app in Hl. pose proof (len_nonneg c). lia.
Qed.

Lemma land_127 b : Z.land (u8_val b) 127 = u8_val b mod 128.
Proof. change 127 with (Z.ones 7). by rewrite Z.land_ones. Qed.
Lemma land_128 b : (Z.land (u8_val b) 128 =? 0) = (u8_val b <? 128).
Proof. by destruct b as [[][][][][][][][]]. Qed.

(** What [decode_ec_point] does with an input. *)
Definition decode_spec (der : bytes) : Prop :=
  (∀ content, decode_ec_point der = Ok content ↔
     ∃ hdr rest, der = hdr ++ content ++ rest ∧ octet_header hdr (len content)) ∧
  (∀ e, decode_ec_point der = Err e → e = DeviceError) ∧ decode_ec_point der ≠ Panic.

(** After the tag and the first length byte. *)
Lemma decode_tagged b der :
  decode_ec_point (u8_of 4 :: b :: der) =
  let! r :=
    if u8_val b <? 128 then Ok (2, u8_val b)
    else
      let k := u8_val b - 128 in
      guard! negb ((k =? 0) || (4 <? k) || (len (u8_of 4 :: b :: der) <? 2 + k)) else DeviceError in
      let! bs := slice (u8_of 4 :: b :: der) 2 (2 + k) in
      Ok (2 + k, from_be_bytes bs) in
  let '(content_start, length) := r in
  ok_or (get_range (u8_of 4 :: b :: der) content_start (content_start + length)) DeviceError.
Proof.
  unfold decode_ec_point. rewrite (proj2 (Z.ltb_ge _ _)) by (rewrite !len_cons; pose proof (len_nonneg der); lia).
  change (index (E := HsmError) (u8_of 4 :: b :: der) 0) with (Ok (E := HsmError) (u8_of 4)). cbn [res_bind].
  change (negb (u8_val (u8_of 4) =? OCTET_STRING_TAG)) with false. cbn iota.
  change (index (E := HsmError) (u8_of 4 :: b :: der) 1) with (Ok (E := HsmError) b). cbn [res_bind].
  rewrite land_128, land_127. pose proof (u8_val_range b) as Hb.
  destruct (u8_val b <? 128) eqn:Hs; bool_simp; [done|].
  rewrite Z.mod_eq by lia. replace (u8_val b / 128) with 1 by (apply (Z.div_unique _ _ _ (u8_val b - 128)); lia).
  replace (u8_val b - 128 * 1) with (u8_val b - 128) by lia. cbv zeta.
  destruct (negb _); cbn [res_bind]; [|done].
  destruct (slice _ _ _) as [bs|e|]; cbn [res_bind]; [|done|done]. by rewrite fold_lor_from_be.
Qed.

Lemma decode_short b der : u8_val b < 128 → decode_spec (u8_of 4 :: b :: der).
Proof.
  intros Hs. unfold decode_spec. rewrite decode_tagged. pose proof (u8_val_range b) as Hb.
  rewrite (proj2 (Z.ltb_lt _ _)) by done. cbn [res_bind].
  split_and!; [|intros e; destruct (get_range _ _ _); by intros [= <-] || done | by destruct (get_range _ _ _)].
  intros c. transitivity (get_range (u8_of 4 :: b :: der) 2 (2 + u8_val b) = Some c).
  { destruct (get_range _ _ _); simpl; naive_solver. }
  rewrite get_range_Some by lia. split.
  + intros (a & r & Heq & Ha & Hc). destruct a as [|a1 [|a2 [|]]]; try by (unfold len in Ha; simpl in Ha; lia).
    injection Heq as <- <- ->. exists [u8_of 4; b], r. split; [done|]. left. exists b. split_and!; [done|done|lia].
  + intros (hdr & r & Heq & Hh). exists hdr, r. split; [done|].
    destruct Hh as [(b' & -> & Hn & Hlt)|(b' & bs & -> & Hn & Hlen & _)]; injection Heq as <- _; [done|lia].
Qed.

Lemma decode_long b der : 128 ≤ u8_val b → decode_spec (u8_of 4 :: b :: der).
Proof.
  intros Hs. unfold decode_spec. rewrite decode_tagged. pose proof (u8_val_range b) as Hb.
  rewrite (proj2 (Z.ltb_ge _ _)) by done. cbv zeta.
  set (k := u8_val b - 128) in *.
  destruct ((k =? 0) || (4 <? k) || (len (u8_of 4 :: b :: der) <? 2 + k)) eqn:Hg; cbn [negb res_bind].
  + split_and!; [|by intros ? [= <-]|done]. intros c. split; [done|].
    intros (hdr & r & Heq & Hh). exfalso. rewrite !orb_true_iff in Hg.
    destruct Hh as [(b' & -> & Hn & Hlt)|(b' & bs & -> & Hn & Hlen & _)]; injection Heq as <- Hd; [lia|].
    subst der. rewrite !len_cons, !len_app in Hg. pose proof (len_nonneg r). pose proof (len_nonneg c).
    destruct Hg as [[Hg|Hg]|Hg]; bool_simp; lia.
  + bool_simp. destruct (split_at der k) as (bs & d2 & -> & Hk).
    { rewrite !len_cons in *. lia. }
    rewrite (slice_app [u8_of 4; b] bs d2) by (done || rewrite Hk; lia). cbn [res_bind].
    pose proof (from_be_bytes_bounds bs) as [Hpos _].
    split_and!; [|intros e; destruct (get_range _ _ _); by intros [= <-] || done | by destruct (get_range _ _ _)].
    intros c. transitivity (get_range (u8_of 4 :: b :: bs ++ d2) (2 + k) (2 + k + from_be_bytes bs) = Some c).
    { destruct (get_range _ _ _); simpl; naive_solver. }
    rewrite get_range_Some by lia. split.
    * intros (a & r & Heq & Ha & Hc). exists (u8_of 4 :: b :: bs), r.
      assert (a = u8_of 4 :: b :: bs ∧ d2 = c ++ r) as [-> ->].
      { change (u8_of 4 :: b :: bs ++ d2) with ((u8_of 4 :: b :: bs) ++ d2) in Heq.
        apply app_inj_1 in Heq as [<- <-]; [done|]. apply Nat2Z.inj. fold (len a).
        change (Z.of_nat (length (u8_of 4 :: b :: bs))) with (len (u8_of 4 :: b :: bs)). rewrite !len_cons. lia. }
      split; [done|]. right. exists b, bs. split_and!; [done|lia..|done].
    * intros (hdr & r & Heq & Hh). exists hdr, r. split; [done|].
      destruct Hh as [(b' & -> & Hn & Hlt)|(b' & bs' & -> & Hn & Hlen & Hv)]; injection Heq as <- Heq; [lia|].
      apply app_inj_1 in Heq as [<- _]; [|unfold len in *; lia]. rewrite !len_cons. split; [lia|done].
Qed.

(** [decode_ec_point] returns the contents exactly when the bytes start with an octet
    string: the tag, a length in the short form or in a long form of one to four bytes, and
    that many bytes of contents.  What follows them is ignored and a long form may be longer
    than needed.  Everything else is [DeviceError]; no input is read out of bounds. *)
Theorem decode_ec_point_iff der :
  (∀ content, decode_ec_point der = Ok content ↔
     ∃ hdr rest, der = hdr ++ content ++ rest ∧ octet_header hdr (len content)) ∧
  (∀ e, decode_ec_point der = Err e → e = DeviceError) ∧ decode_ec_point der ≠ Panic.
Proof.
  destruct der as [|t [|b der]]; [split_and!; [|by intros ? [= <-]|done]..|].
  { intros c. split; [done|]. intros (hdr & rest & Heq & [(b & -> & _)|(b & bs & -> & _)]); discriminate. }
  { intros c. split; [done|]. intros (hdr & rest & Heq & [(b & -> & _)|(b & bs & -> & _)]); discriminate. }
  destruct (u8_val t =? OCTET_STRING_TAG) eqn:Ht.
  - assert (t = u8_of 4) as -> by (apply u8_val_inj; bool_simp; by rewrite Ht).
    destruct (Z.lt_ge_cases (u8_val b) 128); [by apply decode_short | by apply decode_long].
  - unfold decode_ec_point. rewrite (proj2 (Z.ltb_ge _ _)) by (rewrite !len_cons; pose proof (len_nonneg der); lia).
    change (index (E := HsmError) (t :: b :: der) 0) with (Ok (E := HsmError) t). cbn [res_bind].
    rewrite Ht. cbn [negb]. bool_simp. split_and!; [|by intros ? [= <-]|done]. intros c. split; [done|].
    intros (hdr & rest & Heq & [(b' & -> & _)|(b' & bs & -> & _)]); by injection Heq as -> _.
Qed.

(** ** Lemmas: what each operation does to the log and to the free sessions *)

Definition is_sign (c : call) : bool := match c with CSign _ _ _ _ => true | _ => false end.
(** The signatures asked of the token, in order. *)
Definition signs (h : history) : history := filter (λ c, is_sign c = true) h.

Lemma signs_app h1 h2 : signs (h1 ++ h2) = signs h1 ++ signs h2.
Proof. apply filter_app. Qed.

Definition session_error (e : HsmError) : bool :=
  match e with SessionLost | NotLoggedIn | TokenAbsent => true | _ => false end.

Section lemmas.
Context `{Token}.

Lemma acquire_loop_log p deadline sched p' r :
  acquire_loop p deadline sched = (p', r) →
  log p' = log p ∧ slot p' = slot p ∧ r ≠ Panic ∧ (∀ e, r = Err e → e = PoolExhausted).
Proof.
  revert p. induction sched as [|w sched IH]; intros p; simpl.
  - destruct (sessions p); [destruct (Z.max _ _ =? 0)|]; intros [= <- <-]; naive_solver.
  - destruct (sessions p) as [|s l]; [|intros [= <- <-]; naive_solver].
    destruct (Z.max _ _ =? 0); [intros [= <- <-]; naive_solver|].
    destruct (w_timed_out w && _); [intros [= <- <-]; naive_solver|]. intros Ha.
    by apply IH in Ha.
Qed.
Lemma acquire_log p timeout p' r :
  acquire p timeout = (p', r) →
  log p' = log p ∧ slot p' = slot p ∧ r ≠ Panic ∧ (∀ e, r = Err e → e = PoolExhausted).
Proof. apply acquire_loop_log. Qed.

(** A free session is taken at once, without waiting. *)
Lemma acquire_free p timeout s rest :
  sessions p = s :: rest → acquire p timeout = (with_sessions p rest, Ok s).
Proof.
  unfold acquire. intros Hs. by destruct (schedule p); simpl; rewrite Hs.
Qed.

Lemma evict_signs p : signs (log (evict_and_replenish p)) = signs (log p).
Proof.
  unfold evict_and_replenish. repeat case_match; simpl; rewrite ?signs_app, ?app_nil_r; done.
Qed.
Lemma handle_failure_signs p s e : signs (log (handle_operation_failure p s e)) = signs (log p).
Proof.
  unfold handle_operation_failure. destruct e; simpl; rewrite ?evict_signs; simpl; rewrite ?signs_app, ?app_nil_r; done.
Qed.

Lemma map_error_not_key_not_found e l : map_error e ≠ KeyNotFound l.
Proof. by destruct e. Qed.

(** The four outcomes of [sign_digest], once a session [s] is acquired from [p]. *)
Inductive sign_outcome (p : SessionPool) (s : Z) (key : KeyRef) (m : SigningMechanism) (d : bytes) :
    SessionPool → res Signature HsmError → Prop :=
| SignNoKey e p1 :
    find_key p s key PRIVATE_KEY = (p1, Err e) →
    sign_outcome p s key m d (drop_session p1 s) (Err e)
| SignDone p1 h raw :
    find_key p s key PRIVATE_KEY = (p1, Ok h) →
    let p2 := record_call p1 (CSign s (to_cryptoki_mechanism m) h d) in
    tk_sign (log p2) = inl raw →
    sign_outcome p s key m d (release p2 s) (Ok {| sig_bytes := raw |})
| SignFailed p1 h err :
    find_key p s key PRIVATE_KEY = (p1, Ok h) →
    let p2 := record_call p1 (CSign s (to_cryptoki_mechanism m) h d) in
    tk_sign (log p2) = inr err →
    sign_outcome p s key m d (handle_operation_failure p2 s (map_error err)) (Err (map_error err)).

Lemma find_key_log p s key c p1 r :
  find_key p s key c = (p1, r) →
  p1 = record_call p (CFindObjects s c (label key)) ∧ r ≠ Panic.
Proof.
  unfold find_key. intros [= <- <-]. split; [done|].
  destruct (tk_find_objects _) as [[|h [|]]|e]; done.
Qed.

Lemma sign_digest_outcome p key m d p' r :
  sign_digest p key m d = (p', r) →
  (r = Err PoolExhausted ∧ log p' = log p) ∨
  ∃ p0 s, acquire p (get_acquire_timeout p) = (p0, Ok s) ∧ log p0 = log p ∧ sign_outcome p0 s key m d p' r.
Proof.
  unfold sign_digest. destruct (acquire p _) as [p0 ra] eqn:Ha.
  destruct (acquire_log _ _ _ _ Ha) as (Hlog & _ & Hnp & He).
  destruct ra as [s|e|]; [|intros [= <- <-]; left; by rewrite (He e)|done].
  destruct (find_key p0 s key PRIVATE_KEY) as [p1 rf] eqn:Hf. intros Hs. right. exists p0, s.
  split; [done|]. split; [done|].
  destruct rf as [h|e|]; [|injection Hs as <- <-; by constructor | by apply find_key_log in Hf as [_ ?]].
  destruct (tk_sign _) as [raw|err] eqn:Hsign; injection Hs as <- <-.
  - by eapply (SignDone _ _ _ _ _ p1 h raw).
  - by eapply (SignFailed _ _ _ _ _ p1 h err).
Qed.
End lemmas.

(** ** Theorems: one operation *)

Section theorems.
Context `{Token}.

(** A signature is never retried: one call of [sign_digest] asks the token for at most one
    signature, over the digest it was given; when it returns a signature, it asked for exactly
    one and returns the token's answer to it; it never panics. *)
Theorem signs_at_most_once p key m d p' r (Hsign : sign_digest p key m d = (p', r)) :
  r ≠ Panic ∧
  (signs (log p') = signs (log p) ∨
   ∃ s h, signs (log p') = signs (log p) ++ [CSign s (to_cryptoki_mechanism m) h d]) ∧
  (∀ sig, r = Ok sig → ∃ s h before, log p' = before ++ [CSign s (to_cryptoki_mechanism m) h d] ∧
     signs before = signs (log p) ∧ tk_sign (log p') = inl (sig_bytes sig)).
Proof.
  destruct (sign_digest_outcome _ _ _ _ _ _ Hsign) as [[-> ->]|(p0 & s & _ & <- & Ho)];
    [split_and!; naive_solver|].
  assert (Hf : ∀ c, is_sign (CFindObjects s c (label key)) = false) by done.
  destruct Ho as [e p1 Hfind|p1 h raw Hfind p2 Hraw|p1 h err Hfind p2 Herr];
    apply find_key_log in Hfind as [-> _].
  - split_and!; [done| |done]. left. simpl. by rewrite !signs_app, !app_nil_r.
  - split_and!; [done| |].
    + right. exists s, h. simpl. by rewrite !signs_app, app_nil_r.
    + intros sig [= <-]. exists s, h, (log p0 ++ [CFindObjects s PRIVATE_KEY (label key)]).
      split_and!; [done| |done]. by rewrite signs_app, app_nil_r.
  - split_and!; [done| |done]. right. exists s, h. rewrite handle_failure_signs.
    simpl. by rewrite !signs_app, app_nil_r.
Qed.

(** Sessions that an operation leaves free: the others, its own unless it became uncertain,
    or one that the token opened in its place. *)
Definition opened_by (h : history) (x : Z) : Prop :=
  ∃ h1 h2, h = h1 ++ h2 ∧ tk_open_rw_session h1 = inl x.

Lemma evict_sessions p :
  sessions (evict_and_replenish p) = sessions p ∨
  ∃ x, sessions (evict_and_replenish p) = sessions p ++ [x] ∧
       opened_by (log (evict_and_replenish p)) x.
Proof.
  unfold evict_and_replenish.
  destruct (tk_open_rw_session _) as [x|e] eqn:Ho; [|by left].
  destruct (tk_login _ _) as [[]|e]; [|by left]. right. exists x. split; [done|].
  by exists (log (record_call p (COpenSession (slot p)))), [CLogin x].
Qed.

(** What happens to the session that a signature uses, when one is free.  On success
    and on an error of the operation it goes back to the end of the queue; after a lost
    session, a lost login or a removed token it is closed and at most one newly opened
    session takes its place.  When the key is not found it is closed and not replaced: the
    pool serves one session less.  The number of free sessions never grows. *)
Theorem session_accounting p s rest key m d p' r
    (Hfree : sessions p = s :: rest) (Hsign : sign_digest p key m d = (p', r)) :
  (∀ sig, r = Ok sig → sessions p' = rest ++ [s]) ∧
  (∀ l, r = Err (KeyNotFound l) → sessions p' = rest ∧ last (log p') = Some (CCloseSession s)) ∧
  (∀ e, r = Err e → signs (log p') ≠ signs (log p) →
     if session_error e
     then sessions p' = rest ∨ ∃ x, sessions p' = rest ++ [x] ∧ opened_by (log p') x
     else sessions p' = rest ++ [s]) ∧
  len (sessions p') ≤ len (sessions p).
Proof.
  assert (Hacq : acquire p (get_acquire_timeout p) = (with_sessions p rest, Ok s)) by (by apply acquire_free).
  destruct (sign_digest_outcome _ _ _ _ _ _ Hsign) as [[-> Hl]|(p0 & s' & Ha & _ & Ho)].
  { exfalso. unfold sign_digest in Hsign. rewrite Hacq in Hsign.
    destruct (find_key _ _ _ _) as [p1 [h|e|]] eqn:Hf; simplify_eq.
    - destruct (tk_sign _) as [|err]; simplify_eq. destruct err; done.
    - unfold find_key in Hf. destruct (tk_find_objects _) as [[|? [|]]|err]; simplify_eq. by destruct err. }
  rewrite Hacq in Ha. injection Ha as <- <-. rewrite Hfree, len_cons.
  destruct Ho as [e p1 Hfind|p1 h raw Hfind p2 Hraw|p1 h err Hfind p2 Herr];
    apply find_key_log in Hfind as [-> _]; cbn [sessions log with_sessions record_call drop_session release].
  - split_and!; [done | | | lia].
    + intros l _. split; [done|]. simpl. by rewrite last_snoc.
    + intros e' _ Hs. exfalso. apply Hs. simpl. by rewrite !signs_app, !app_nil_r.
  - split_and!; [done|done|done|]. rewrite len_app. unfold len at 2. simpl. lia.
  - assert (Hcase : if session_error (map_error err)
      then sessions (handle_operation_failure p2 s (map_error err)) = rest ∨
           ∃ x, sessions (handle_operation_failure p2 s (map_error err)) = rest ++ [x] ∧
                opened_by (log (handle_operation_failure p2 s (map_error err))) x
      else sessions (handle_operation_failure p2 s (map_error err)) = rest ++ [s]).
    { unfold handle_operation_failure. destruct err; simpl; try done; apply evict_sessions. }
    split_and!; [done | | by intros e' [= <-] _ |].
    + intros l [= Hl]. by apply map_error_not_key_not_found in Hl.
    + destruct (session_error (map_error err)); [destruct Hcase as [->|(x & -> & _)] | rewrite Hcase];
        rewrite ?len_app; unfold len; simpl; lia.
Qed.
End theorems.

(** ** Interleavings

    Several threads use the pool.  Its mutex makes each access to the queue one step; what a
    thread does with its session in between is not visible to the others. *)

Inductive tstate :=
| Idle
| Holding (s : Z)
| Replenishing.

Record system := { free : list Z; threads : list tstate }.

Definition holds (t : tstate) : option Z := match t with Holding s => Some s | _ => None end.
Definition held (l : list tstate) : list Z := omap holds l.
(** Sessions that are open: free, or held by a thread. *)
Definition live (x : system) : list Z := free x ++ held (threads x).
(** Threads that will bring a session back. *)
Definition owes (t : tstate) : nat := match t with Idle => 0 | _ => 1 end.
Definition owed (l : list tstate) : nat := foldr (λ t n, owes t + n)%nat 0%nat l.

(** A token that opens a session gives it a handle that no open session has. *)
Inductive step : system → system → Prop :=
| step_acquire x t s rest :
    free x = s :: rest → threads x !! t = Some Idle →
    step x {| free := rest; threads := <[t := Holding s]> (threads x) |}
| step_release x t s :
    threads x !! t = Some (Holding s) →
    step x {| free := free x ++ [s]; threads := <[t := Idle]> (threads x) |}
| step_lose x t s :
    threads x !! t = Some (Holding s) →
    step x {| free := free x; threads := <[t := Idle]> (threads x) |}
| step_evict x t s :
    threads x !! t = Some (Holding s) →
    step x {| free := free x; threads := <[t := Replenishing]> (threads x) |}
| step_replenish x t s :
    threads x !! t = Some Replenishing → s ∉ live x →
    step x {| free := free x ++ [s]; threads := <[t := Idle]> (threads x) |}
| step_give_up x t :
    threads x !! t = Some Replenishing →
    step x {| free := free x; threads := <[t := Idle]> (threads x) |}.

Definition capacity_ok (n : nat) (x : system) : Prop :=
  NoDup (live x) ∧ (length (free x) + owed (threads x) ≤ n)%nat.

Lemma held_insert l t a b :
  l !! t = Some a →
  from_option (λ s, [s]) [] (holds a) ++ held (<[t := b]> l) ≡ₚ
  from_option (λ s, [s]) [] (holds b) ++ held l.
Proof. apply omap_insert_perm. Qed.

Lemma owed_insert l t a b :
  l !! t = Some a → (owes a + owed (<[t := b]> l) = owes b + owed l)%nat.
Proof.
  revert t. induction l as [|x l IH]; intros [|t] Hl; simplify_eq/=; [lia|].
  specialize (IH _ Hl). lia.
Qed.

(** A thread that ends its use of a session leaves the others distinct. *)
Lemma drop_held f l t s b :
  l !! t = Some (Holding s) → holds b = None → NoDup (f ++ held l) → NoDup (f ++ held (<[t := b]> l)).
Proof.
  intros Hl Hb Hnd. pose proof (held_insert l t _ b Hl) as P. rewrite Hb in P. cbn in P.
  rewrite <- P, <- Permutation_middle in Hnd. by apply NoDup_cons in Hnd as [_ ?].
Qed.

Lemma step_capacity n x y : step x y → capacity_ok n x → capacity_ok n y.
Proof.
  intros Hs [Hnd Hlen]. unfold capacity_ok, live in *.
  destruct Hs as [x t s rest Hf Ht|x t s Ht|x t s Ht|x t s Ht|x t s Ht Hfresh|x t Ht]; cbn [free threads].
  - pose proof (held_insert _ _ _ (Holding s) Ht) as P. pose proof (owed_insert _ _ _ (Holding s) Ht) as O.
    cbn in P, O. rewrite Hf in *. split; [|simpl in *; lia]. by rewrite P, <- Permutation_middle.
  - pose proof (held_insert _ _ _ Idle Ht) as P. pose proof (owed_insert _ _ _ Idle Ht) as O.
    cbn in P, O. split; [|rewrite length_app; simpl; lia]. rewrite <- app_assoc. by rewrite P.
  - pose proof (owed_insert _ _ _ Idle Ht) as O. cbn in O. split; [by eapply drop_held | lia].
  - pose proof (owed_insert _ _ _ Replenishing Ht) as O. cbn in O. split; [by eapply drop_held | lia].
  - pose proof (held_insert _ _ _ Idle Ht) as P. pose proof (owed_insert _ _ _ Idle Ht) as O.
    cbn in P, O. split; [|rewrite length_app; simpl; lia].
    rewrite P, <- app_assoc. cbn [app]. rewrite <- Permutation_middle. by apply NoDup_cons.
  - pose proof (held_insert _ _ _ Idle Ht) as P. pose proof (owed_insert _ _ _ Idle Ht) as O.
    cbn in P, O. split; [by rewrite P | lia].
Qed.

Lemma steps_capacity n x y : rtc step x y → capacity_ok n x → capacity_ok n y.
Proof. induction 1 as [|x y z Hs _ IH]; [done|]. intros Hx. by eapply IH, step_capacity. Qed.

Lemma held_lookup l t s : l !! t = Some (Holding s) → s ∈ held l.
Proof. intros Hl. apply list_elem_of_omap. exists (Holding s). split; [by eapply list_elem_of_lookup_2 | done]. Qed.

(** Two threads with the same session, against distinctness. *)
Lemma held_distinct l t1 t2 s :
  NoDup (held l) → l !! t1 = Some (Holding s) → l !! t2 = Some (Holding s) → t1 = t2.
Proof.
  intros Hnd H1 H2. destruct (decide (t1 = t2)) as [|Hne]; [done|]. exfalso.
  pose proof (held_insert l t1 _ Idle H1) as P. cbn in P. rewrite <- P in Hnd.
  apply NoDup_cons in Hnd as [Hn _]. apply Hn. eapply (held_lookup _ t2). by rewrite list_lookup_insert_ne.
Qed.

Lemma held_idle k : held (replicate k Idle) = [].
Proof. induction k as [|k IH]; [done | exact IH]. Qed.
Lemma owed_idle k : owed (replicate k Idle) = 0%nat.
Proof. induction k as [|k IH]; [done | exact IH]. Qed.

(** Under every interleaving of the threads of a pool opened with distinct sessions, no
    two threads ever use the same session, no session is free while a thread uses it, and
    the free sessions, the sessions in use and the ones being replaced never exceed the
    size of the pool. *)
Theorem sessions_are_exclusive (initial : list Z) (k : nat) x
    (Hdistinct : NoDup initial)
    (Hreach : rtc step {| free := initial; threads := replicate k Idle |} x) :
  (∀ t1 t2 s, threads x !! t1 = Some (Holding s) → threads x !! t2 = Some (Holding s) → t1 = t2) ∧
  (∀ t s, threads x !! t = Some (Holding s) → s ∉ free x) ∧
  (length (free x) + owed (threads x) ≤ length initial)%nat.
Proof.
  apply (steps_capacity (length initial)) in Hreach as [Hnd Hlen].
  - unfold live in Hnd. apply NoDup_app in Hnd as (_ & Hdisj & Hheld). split_and!; [|..|done].
    + intros t1 t2 s. by apply held_distinct.
    + intros t s Ht Hin. eapply Hdisj; [exact Hin|]. by eapply held_lookup.
  - split; unfold live; cbn [free threads].
    + rewrite held_idle. by rewrite app_nil_r.
    + rewrite owed_idle. lia.
Qed.

(** *** The operations are runs of these steps *)

Section runs.
Context `{Token}.

Lemma insert_back (l : list tstate) t a b : l !! t = Some a → <[t := a]> (<[t := b]> l) = l.
Proof. intros Hl. rewrite list_insert_insert_eq. by apply list_insert_id. Qed.

(** What the token promises of the handles it opens, while [x] is the rest of the system. *)
Definition opens_fresh (others : list Z) : Prop :=
  ∀ h s, tk_open_rw_session h = inl s → s ∉ others.

Lemma release_run f l t s b :
  l !! t = Some Idle → b = Holding s →
  step {| free := f; threads := <[t := b]> l |} {| free := f ++ [s]; threads := l |}.
Proof.
  intros Hl ->. pose proof (lookup_lt_Some _ _ _ Hl) as Hlt.
  pose proof (step_release {| free := f; threads := <[t := Holding s]> l |} t s) as Hs. cbn [free threads] in Hs.
  rewrite (insert_back l t Idle) in Hs by done. apply Hs. by apply list_lookup_insert_eq.
Qed.

Lemma lose_run f l t s :
  l !! t = Some Idle →
  step {| free := f; threads := <[t := Holding s]> l |} {| free := f; threads := l |}.
Proof.
  intros Hl. pose proof (lookup_lt_Some _ _ _ Hl) as Hlt.
  pose proof (step_lose {| free := f; threads := <[t := Holding s]> l |} t s) as Hs. cbn [free threads] in Hs.
  rewrite (insert_back l t Idle) in Hs by done. apply Hs. by apply list_lookup_insert_eq.
Qed.

Lemma evict_run p l t s :
  l !! t = Some Idle → opens_fresh (sessions p ++ held l) →
  rtc step {| free := sessions p; threads := <[t := Holding s]> l |}
           {| free := sessions (evict_and_replenish p); threads := l |}.
Proof.
  intros Hl Hfresh. pose proof (lookup_lt_Some _ _ _ Hl) as Hlt.
  pose proof (step_evict {| free := sessions p; threads := <[t := Holding s]> l |} t s) as He.
  cbn [free threads] in He. rewrite list_insert_insert_eq in He.
  eapply rtc_l; [apply He; by apply list_lookup_insert_eq|]. apply rtc_once.
  assert (Hat : <[t := Replenishing]> l !! t = Some Replenishing) by (by apply list_lookup_insert_eq).
  destruct (evict_sessions p) as [->|(x & -> & h1 & h2 & _ & Ho)].
  - pose proof (step_give_up {| free := sessions p; threads := <[t := Replenishing]> l |} t Hat) as Hs.
    cbn [free threads] in Hs. by rewrite (insert_back l t Idle) in Hs.
  - pose proof (step_replenish {| free := sessions p; threads := <[t := Replenishing]> l |} t x Hat) as Hs.
    cbn [free threads] in Hs. rewrite (insert_back l t Idle) in Hs by done. apply Hs.
    unfold live. cbn [free threads]. pose proof (held_insert l t _ Replenishing Hl) as P. cbn in P.
    rewrite P. by eapply Hfresh.
Qed.

Lemma failure_run p l t s e :
  l !! t = Some Idle → opens_fresh (sessions p ++ held l) →
  rtc step {| free := sessions p; threads := <[t := Holding s]> l |}
           {| free := sessions (handle_operation_failure p s e); threads := l |}.
Proof.
  intros Hl Hf. unfold handle_operation_failure.
  destruct e; try (apply rtc_once; by apply release_run); by apply (evict_run (drop_session p s)).
Qed.

(** The operations of the pool are runs of the step relation: a thread that finds a free
    session and runs [sign_digest] or [public_key] to its end takes steps of the relation
    from its first to its last queue, whatever the token answers; so the invariant of all
    interleavings holds of the code's own operations. *)
Theorem operations_are_steps p s rest l t key m d p1 r1 p2 r2
    (Hfree : sessions p = s :: rest) (Hidle : l !! t = Some Idle)
    (Hfresh : opens_fresh (rest ++ held l))
    (Hsign : sign_digest p key m d = (p1, r1)) (Hpub : public_key p key = (p2, r2)) :
  rtc step {| free := sessions p; threads := l |} {| free := sessions p1; threads := l |} ∧
  rtc step {| free := sessions p; threads := l |} {| free := sessions p2; threads := l |}.
Proof.
  assert (Hacq : acquire p (get_acquire_timeout p) = (with_sessions p rest, Ok s)) by (by apply acquire_free).
  assert (Htake : step {| free := sessions p; threads := l |} {| free := rest; threads := <[t := Holding s]> l |})
    by (by apply (step_acquire {| free := sessions p; threads := l |} t s rest)).
  split; eapply rtc_l; try exact Htake.
  - unfold sign_digest in Hsign. rewrite Hacq in Hsign.
    destruct (find_key _ _ _ _) as [p0 [h|e|]] eqn:Hf; apply find_key_log in Hf as [-> Hnp]; [|simplify_eq|done].
    + destruct (tk_sign _) as [raw|err]; simplify_eq; [apply rtc_once; by apply release_run|].
      by apply (failure_run (record_call (record_call (with_sessions p rest) _) _) l t s (map_error err)).
    + apply rtc_once. by apply lose_run.
  - unfold public_key in Hpub. rewrite Hacq in Hpub.
    destruct (find_key _ _ _ _) as [p0 [h|e|]] eqn:Hf; apply find_key_log in Hf as [-> Hnp]; [|simplify_eq|done].
    + destruct (tk_get_attributes _) as [values|err]; simplify_eq; [apply rtc_once; by apply release_run|].
      by apply (failure_run (record_call (record_call (with_sessions p rest) _) _) l t s (map_error err)).
    + apply rtc_once. by apply release_run.
Qed.
End runs.

(** ** The theorems at concrete inputs *)

(** A token that knows one key; the handle of a new session is the number of calls made. *)
#[export] Instance ref_token : Token := {|
  tk_initialize _ := true;
  tk_slots _ := inl [1];
  tk_max_session_count _ := inl (LimitMax 8);
  tk_mechanisms _ := inl [ECDSA];
  tk_open_rw_session h := inl (100 + len h);
  tk_login _ _ := inl tt;
  tk_find_objects h := match last h with
    | Some (CFindObjects _ _ "zs-audit-seal-v1") => inl [7]
    | _ => inl [] end;
  tk_sign h := match last h with Some (CSign _ _ _ d) => inl d | _ => inr OtherCkError end;
  tk_get_attributes _ := inl [OtherAttribute; EcPoint [u8_of 4; u8_of 1; u8_of 9]];
|}.

Definition ref_config : HsmConfig := {|
  module_path := "softhsm"; slot_id := None; pin := "1234"; pool_size := 2; acquire_timeout := 0 |}.
Definition ref_pool : SessionPool := {|
  slot := 1; pool_pin := "1234"; sessions := [104; 106];
  log := [CGetSlots; CGetTokenInfo 1; CGetMechanismList 1; COpenSession 1; CLogin 104; COpenSession 1; CLogin 106];
  clock := 0; schedule := [] |}.
Example ref_pool_opened : open 0 [] ref_config = Ok ref_pool.
Proof. vm_compute. reflexivity. Qed.

Definition known : KeyRef := {| label := "zs-audit-seal-v1" |}.
Definition unknown : KeyRef := {| label := "other" |}.

Lemma signs_at_most_once_witness :
  let '(p', r) := sign_digest ref_pool known EcdsaP256Sha256 [u8_of 9] in
  r = Ok {| sig_bytes := [u8_of 9] |} ∧ r ≠ Panic ∧ sessions p' = [106; 104].
Proof.
  split; [reflexivity|]. split; [|reflexivity].
  exact (proj1 (signs_at_most_once ref_pool known EcdsaP256Sha256 [u8_of 9] _ _ eq_refl)).
Defined.

(** A key that is not found costs the pool a session. *)
Lemma session_accounting_witness :
  let '(p', r) := sign_digest ref_pool unknown EcdsaP256Sha256 [u8_of 9] in
  r = Err (KeyNotFound "other") ∧ sessions ref_pool = [104; 106] ∧ sessions p' = [106].
Proof.
  split; [reflexivity|]. split; [reflexivity|].
  exact (proj1 (proj1 (proj2 (session_accounting ref_pool 104 [106] unknown EcdsaP256Sha256 [u8_of 9] _ _
    eq_refl eq_refl)) _ eq_refl)).
Defined.

(** Two threads on two sessions. *)
Definition ref_busy : system := {| free := []; threads := [Holding 104; Holding 106] |}.

Lemma ref_busy_reachable : rtc step {| free := [104; 106]; threads := replicate 2 Idle |} ref_busy.
Proof.
  eapply rtc_l; [by apply (step_acquire _ 0%nat 104 [106])|].
  apply rtc_once. by apply (step_acquire {| free := [106]; threads := [Holding 104; Idle] |} 1%nat 106 []).
Qed.

Lemma sessions_are_exclusive_witness :
  (length (free ref_busy) + owed (threads ref_busy) ≤ 2)%nat ∧ (104 ∉ free ref_busy).
Proof.
  destruct (sessions_are_exclusive [104; 106] 2 ref_busy) as (_ & Hfree & Hlen);
    [by apply (bool_decide_unpack _) | exact ref_busy_reachable |].
  split; [exact Hlen | exact (Hfree 0%nat 104 eq_refl)].
Defined.

Definition ref_small_pool : SessionPool := with_sessions ref_pool [3; 5].

Lemma operations_are_steps_witness :
  let p' := (sign_digest ref_small_pool unknown EcdsaP256Sha256 [u8_of 9]).1 in
  sessions p' = [5] ∧
  rtc step {| free := [3; 5]; threads := [Idle] |} {| free := sessions p'; threads := [Idle] |}.
Proof.
  split; [reflexivity|].
  refine (proj1 (operations_are_steps ref_small_pool 3 [5] [Idle] 0%nat unknown EcdsaP256Sha256 [u8_of 9]
    _ _ _ _ eq_refl eq_refl _ eq_refl eq_refl)).
  intros h s [= <-] Hin. apply list_elem_of_singleton in Hin. pose proof (len_nonneg h). lia.
Defined.
