(* ===== verification/PoolSync.v ===== *)
(** * [crates/zs-hsm/src/pool.rs]: the mutex and the condition variable of the pool

    [Pool] gives the interleavings of the pool's operations with one step for each access
    to the queue.  Here [acquire] and [release] are taken apart: locking the mutex, the top
    of the loop, the wait with its timeout and its spurious wake-ups, the notification that
    follows the unlock.  The steps refine those of [Pool] ([threads_refine]); no
    notification is lost ([no_session_is_forgotten]); and no thread waits past its
    deadline ([late_acquire_leaves]).  The condition variable is that of the standard
    library: [wait_timeout] unlocks and sleeps in one step, wakes up by a notification, by
    its timeout or for no reason, and locks again; [notify_one] wakes up one sleeper, any
    of them, if there is one. *)

From S2P Require Import Prelude.
From S2P Require Import Signer.
From S2P Require Import Pool.

(** ** The critical sections of [acquire] *)

(** The top of the loop: a session, a refusal, or a wait. *)
Inductive turn := Got (s : Z) (rest : list Z) | Exhausted | Wait.

Definition top_of_loop (queue : list Z) (now deadline : Z) : turn :=
  match queue with
  | session :: rest => Got session rest
  | [] => if Z.max (deadline - now) 0 =? 0 then Exhausted else Wait
  end.

(** [timeout_result.timed_out() && guard.is_empty()] *)
Definition gives_up (timed_out : bool) (queue : list Z) : bool :=
  timed_out && bool_decide (queue = []).

(** The loop of [Pool] is made of these. *)
Lemma acquire_loop_turns p deadline sched :
  acquire_loop p deadline sched =
  match top_of_loop (sessions p) (clock p) deadline with
  | Got session rest => (with_sessions p rest, Ok session)
  | Exhausted => (p, Err PoolExhausted)
  | Wait =>
      match sched with
      | [] => (after_wait p [] deadline [], Err PoolExhausted)
      | w :: sched' =>
          let p := after_wait p (w_sessions w) (w_clock w) sched' in
          if gives_up (w_timed_out w) (sessions p) then (p, Err PoolExhausted)
          else acquire_loop p deadline sched'
      end
  end.
Proof.
  unfold top_of_loop. destruct sched; cbn [acquire_loop]; destruct (sessions p); try done;
    by destruct (Z.max (deadline - clock p) 0 =? 0).
Qed.

(** ** Threads *)

(** Where a thread is.  [Looping], [Woken] hold the mutex. *)
Inductive phase :=
| Outside
(** [acquire]: before [lock()] *)
| Locking
(** at the top of the loop *)
| Looping (deadline : Z)
(** in [wait_timeout] *)
| Sleeping (deadline : Z)
(** awake, before the mutex is locked again *)
| Waking (deadline : Z) (timed_out : bool)
(** after [wait_timeout] *)
| Woken (deadline : Z) (timed_out : bool)
(** out of [acquire], with a session *)
| Using (s : Z)
(** [evict_and_replenish], before [open_rw_session] and [login] *)
| Renewing
(** [release], before [lock()]: of a session in use, or of one that was just opened *)
| Releasing (s : Z)
| Returning (s : Z)
(** before [notify_one()] *)
| Notifying.

Record sync := { queue : list Z; now : Z; crew : list phase }.

Definition in_section (p : phase) : bool :=
  match p with Looping _ | Woken _ _ => true | _ => false end.
Definition unlocked (x : sync) : Prop := forallb (λ p, negb (in_section p)) (crew x) = true.

Definition go (x : sync) (q : list Z) (t : nat) (p : phase) : sync :=
  {| queue := q; now := now x; crew := <[t := p]> (crew x) |}.

(** The handles of the open sessions. *)
Definition hand (p : phase) : option Z :=
  match p with Using s | Releasing s | Returning s => Some s | _ => None end.
Definition open_handles (x : sync) : list Z := queue x ++ omap hand (crew x).

(** ** Steps

    A step is made by a thread, or by time. *)

Inductive step : option nat → sync → sync → Prop :=
| tick x n : now x ≤ n → step None x {| queue := queue x; now := n; crew := crew x |}
(** [acquire] *)
| s_acquire x t : crew x !! t = Some Outside → step (Some t) x (go x (queue x) t Locking)
| s_lock x t :
    crew x !! t = Some Locking → unlocked x →
    step (Some t) x (go x (queue x) t (Looping (now x + 5 * 10 ^ 9)))
| s_got x t d s rest :
    crew x !! t = Some (Looping d) → top_of_loop (queue x) (now x) d = Got s rest →
    step (Some t) x (go x rest t (Using s))
| s_exhausted x t d :
    crew x !! t = Some (Looping d) → top_of_loop (queue x) (now x) d = Exhausted →
    step (Some t) x (go x (queue x) t Outside)
| s_wait x t d :
    crew x !! t = Some (Looping d) → top_of_loop (queue x) (now x) d = Wait →
    step (Some t) x (go x (queue x) t (Sleeping d))
| s_timeout x t d :
    crew x !! t = Some (Sleeping d) → d ≤ now x →
    step (Some t) x (go x (queue x) t (Waking d true))
| s_spurious x t d :
    crew x !! t = Some (Sleeping d) →
    step (Some t) x (go x (queue x) t (Waking d false))
| s_relock x t d b :
    crew x !! t = Some (Waking d b) → unlocked x →
    step (Some t) x (go x (queue x) t (Woken d b))
| s_give_up x t d b :
    crew x !! t = Some (Woken d b) → gives_up b (queue x) = true →
    step (Some t) x (go x (queue x) t Outside)
| s_again x t d b :
    crew x !! t = Some (Woken d b) → gives_up b (queue x) = false →
    step (Some t) x (go x (queue x) t (Looping d))
(** The use of a session: it ends healthy, closed, or closed and replaced. *)
| s_used x t s : crew x !! t = Some (Using s) → step (Some t) x (go x (queue x) t (Releasing s))
| s_lost x t s : crew x !! t = Some (Using s) → step (Some t) x (go x (queue x) t Outside)
| s_evict x t s : crew x !! t = Some (Using s) → step (Some t) x (go x (queue x) t Renewing)
| s_renewed x t s :
    crew x !! t = Some Renewing → s ∉ open_handles x →
    step (Some t) x (go x (queue x) t (Returning s))
| s_not_renewed x t : crew x !! t = Some Renewing → step (Some t) x (go x (queue x) t Outside)
(** [release]: lock, [push_back], [drop(guard)]; then [notify_one] *)
| s_push x t p s :
    crew x !! t = Some p → p = Releasing s ∨ p = Returning s → unlocked x →
    step (Some t) x (go x (queue x ++ [s]) t Notifying)
| s_notify x t u d :
    crew x !! t = Some Notifying → crew x !! u = Some (Sleeping d) →
    step (Some t) x (go (go x (queue x) t Outside) (queue x) u (Waking d false))
| s_notify_nobody x t :
    crew x !! t = Some Notifying → (∀ u d, crew x !! u ≠ Some (Sleeping d)) →
    step (Some t) x (go x (queue x) t Outside).

(** An execution, with the thread of each step. *)
Inductive execution : sync → list (option nat) → sync → Prop :=
| e_nil x : execution x [] x
| e_cons x l y ls z : step l x y → execution y ls z → execution x (l :: ls) z.

Definition opened (initial : list Z) (start : Z) (k : nat) : sync :=
  {| queue := initial; now := start; crew := replicate k Outside |}.
Definition reachable (initial : list Z) (start : Z) (k : nat) (x : sync) : Prop :=
  ∃ ls, execution (opened initial start k) ls x.

Lemma execution_app x ls y l z : execution x ls y → step l y z → execution x (ls ++ [l]) z.
Proof. induction 1; intros; simpl; econstructor; eauto. constructor. Qed.

(** Invariants, by induction on the steps. *)
Lemma execution_invariant (I : sync → Prop) x ls y :
  (∀ l a b, step l a b → I a → I b) → execution x ls y → I x → I y.
Proof. intros HI. induction 1; eauto. Qed.

(** ** Counting threads *)

Definition tally (f : phase → nat) (l : list phase) : nat := foldr (λ p n, f p + n)%nat 0%nat l.

Lemma tally_insert f l t a b :
  l !! t = Some a → (f a + tally f (<[t := b]> l) = f b + tally f l)%nat.
Proof.
  revert t. induction l as [|x l IH]; intros [|t] Hl; simplify_eq/=; [lia|].
  specialize (IH _ Hl). lia.
Qed.

Lemma tally_pos f l : (0 < tally f l)%nat → ∃ t p, l !! t = Some p ∧ (0 < f p)%nat.
Proof.
  induction l as [|x l IH]; simpl; [lia|]. intros Hp. destruct (f x) eqn:Hx.
  - destruct IH as (t & p & Ht & Hf); [lia|]. by exists (S t), p.
  - exists 0%nat, x. split; [done|]. lia.
Qed.

Lemma tally_le f l t p : l !! t = Some p → (f p ≤ tally f l)%nat.
Proof.
  revert t. induction l as [|x l IH]; intros [|t] Hl; simplify_eq/=; [lia|].
  specialize (IH _ Hl). lia.
Qed.

Lemma tally_none f k p : f p = 0%nat → tally f (replicate k p) = 0%nat.
Proof. intros Hp. induction k; simpl; lia. Qed.

Definition asleep (p : phase) : nat := match p with Sleeping _ => 1 | _ => 0 end.
(** Threads that will look at the queue, or wake up one that will. *)
Definition astir (p : phase) : nat :=
  match p with Looping _ | Waking _ _ | Woken _ _ | Notifying => 1 | _ => 0 end.
Definition sections (p : phase) : nat := if in_section p then 1 else 0.

(** One thread moves: the tally before and after. *)
Lemma tally_go f x q t a b :
  crew x !! t = Some a → (f a + tally f (crew (go x q t b)) = f b + tally f (crew x))%nat.
Proof. apply tally_insert. Qed.

(** What the move of the goal does to a tally. *)
Ltac count_move f :=
  match goal with
  | H : crew ?x !! ?t = Some ?a |- context [go ?x ?q ?t ?b] => pose proof (tally_go f x q t a b H)
  end.

(** ** No notification is lost *)

(** While a thread sleeps, every free session has a thread that is about to look at the
    queue, or to wake one up. *)
Definition awaited (x : sync) : Prop :=
  (0 < tally asleep (crew x) → length (queue x) ≤ tally astir (crew x))%nat.

Lemma top_got q n d s rest : top_of_loop q n d = Got s rest ↔ q = s :: rest.
Proof.
  unfold top_of_loop. destruct q; [|naive_solver]. split; [|done]. by destruct (_ =? 0).
Qed.
Lemma top_exhausted q n d : top_of_loop q n d = Exhausted ↔ q = [] ∧ d ≤ n.
Proof.
  unfold top_of_loop. destruct q; [|naive_solver].
  destruct (Z.eqb_spec (Z.max (d - n) 0) 0); split; try done; [intros _; split; [done|lia]|lia].
Qed.
Lemma top_wait q n d : top_of_loop q n d = Wait ↔ q = [] ∧ n < d.
Proof.
  unfold top_of_loop. destruct q; [|naive_solver].
  destruct (Z.eqb_spec (Z.max (d - n) 0) 0); split; try done; [lia|intros _; split; [done|lia]].
Qed.
Lemma gives_up_true b q : gives_up b q = true ↔ b = true ∧ q = [].
Proof. unfold gives_up. rewrite andb_true_iff, bool_decide_eq_true. done. Qed.

Lemma notified_tally f x t u d a :
  crew x !! t = Some Notifying → crew x !! u = Some (Sleeping d) →
  (f Notifying + f (Sleeping d) + tally f (crew (go (go x (queue x) t Outside) (queue x) u a)) =
   f Outside + f a + tally f (crew x))%nat.
Proof.
  intros Ht Hu. assert (crew (go x (queue x) t Outside) !! u = Some (Sleeping d)) as Hu'.
  { simpl. rewrite list_lookup_insert_ne; [done|]. intros ->. congruence. }
  pose proof (tally_go f _ (queue x) u _ a Hu'). pose proof (tally_go f x (queue x) t _ Outside Ht). lia.
Qed.

Lemma step_awaited l x y : step l x y → awaited x → awaited y.
Proof.
  unfold awaited. intros Hs IH. destruct Hs; try exact IH;
    try (count_move asleep; count_move astir; cbn [asleep astir queue go] in *).
  all: try match goal with
  | H : _ = Got _ _ |- _ => apply top_got in H; rewrite H in IH; simpl in IH
  | H : _ = Exhausted |- _ => apply top_exhausted in H as [H _]; rewrite H in *; simpl
  | H : _ = Wait |- _ => apply top_wait in H as [H _]; rewrite H in *; simpl
  | H : gives_up _ _ = true |- _ => apply gives_up_true in H as [_ H]; rewrite H in *; simpl
  | H : _ = Releasing _ ∨ _ |- _ => destruct H as [-> | ->]; rewrite length_app; simpl in *
  end; try lia.
  - match goal with Ht : _ !! t = Some _, Hu : _ !! u = Some _ |- _ =>
      pose proof (notified_tally asleep x t u d (Waking d false) Ht Hu);
      pose proof (notified_tally astir x t u d (Waking d false) Ht Hu) end.
    cbn [asleep astir] in *. lia.
  - intros (u & p & Hu & Hp)%tally_pos. destruct p; try (simpl in Hp; lia). exfalso.
    match goal with Hn : ∀ u d, _ |- _ => apply (Hn u deadline) end.
    simpl in Hu. destruct (base.decide (u = t)) as [->|Hne]; [|by rewrite list_lookup_insert_ne in Hu].
    rewrite list_lookup_insert_eq in Hu; [done|]. by eapply lookup_lt_Some.
Qed.

(** ** The mutex *)

Definition exclusive (x : sync) : Prop := (tally sections (crew x) ≤ 1)%nat.

Lemma unlocked_tally x : unlocked x ↔ tally sections (crew x) = 0%nat.
Proof.
  unfold unlocked. induction (crew x) as [|p l IH]; [done|]. simpl. unfold sections at 1.
  destruct (in_section p); simpl; [|exact IH]. split; [done|lia].
Qed.

Lemma step_exclusive l x y : step l x y → exclusive x → exclusive y.
Proof.
  unfold exclusive. intros Hs IH. destruct Hs; try exact IH; try count_move sections;
    repeat match goal with H : unlocked _ |- _ => apply unlocked_tally in H end;
    try match goal with H : _ = Releasing _ ∨ _ |- _ => destruct H as [-> | ->] end;
    cbn [sections in_section] in *; try lia.
  match goal with Ht : _ !! t = Some _, Hu : _ !! u = Some _ |- _ =>
    pose proof (notified_tally sections x t u d (Waking d false) Ht Hu) end.
  cbn [sections in_section] in *. lia.
Qed.

(** A thread that holds the mutex can go on. *)
Lemma in_section_steps x t p :
  crew x !! t = Some p → in_section p = true → ∃ y, step (Some t) x y.
Proof.
  intros Ht Hp. destruct p as [| |d| | |d b| | | | |]; try done.
  - destruct (top_of_loop (queue x) (now x) d) eqn:Htop; eexists; [by eapply s_got|by eapply s_exhausted|by eapply s_wait].
  - destruct (gives_up b (queue x)) eqn:Hg; eexists; [by eapply s_give_up|by eapply s_again].
Qed.

Lemma sleeper_dec (l : list phase) :
  (∃ u d, l !! u = Some (Sleeping d)) ∨ (∀ u d, l !! u ≠ Some (Sleeping d)).
Proof.
  destruct (tally asleep l) eqn:Hl.
  - right. intros u d Hu. apply (tally_le asleep) in Hu. simpl in Hu. lia.
  - left. destruct (tally_pos asleep l) as (u & p & Hu & Hp); [lia|].
    destruct p; simpl in Hp; try lia. by eexists _, _.
Qed.

(** When some thread is astir, one of them can make a step now. *)
Lemma astir_steps x :
  (0 < tally astir (crew x))%nat →
  ∃ u p y, crew x !! u = Some p ∧ astir p = 1%nat ∧ step (Some u) x y.
Proof.
  intros (u & p & Hu & Hp)%tally_pos.
  destruct (tally sections (crew x)) eqn:Hsec.
  - assert (unlocked x) as Hun by (by apply unlocked_tally).
    destruct p as [| |d| |d b|d b| | | | |]; simpl in Hp; try lia.
    + apply (tally_le sections) in Hu. simpl in Hu. unfold sections in Hu at 1. simpl in Hu. lia.
    + eexists u, _, _. split_and!; [done|done|by eapply s_relock].
    + apply (tally_le sections) in Hu. unfold sections in Hu at 1. simpl in Hu. lia.
    + destruct (sleeper_dec (crew x)) as [(v & d & Hv)|Hnone]; eexists u, _, _; split_and!; try done;
        [by eapply s_notify|by eapply s_notify_nobody].
  - destruct (tally_pos sections (crew x)) as (v & p' & Hv & Hp'); [lia|].
    unfold sections in Hp'. destruct (in_section p') eqn:Hin; [|lia].
    destruct (in_section_steps x v p' Hv Hin) as [y Hy]. exists v, p', y. split_and!; [done| |done].
    by destruct p'.
Qed.

Lemma reachable_invariants initial start k x :
  reachable initial start k x → awaited x ∧ exclusive x.
Proof.
  intros [ls Hls]. split.
  - eapply (execution_invariant awaited); [apply step_awaited|exact Hls|].
    intros Hp. simpl in Hp. rewrite tally_none in Hp by done. lia.
  - eapply (execution_invariant exclusive); [apply step_exclusive|exact Hls|].
    unfold exclusive. simpl. rewrite tally_none by done. lia.
Qed.

(** C16. The condition variable loses no notification, whatever the interleaving, the order in
    which sleepers are woken up and the spurious wake-ups: at most one thread holds the
    mutex; while a thread waits in [acquire], there are at least as many threads about to
    look at the queue, or to notify one that waits, as free sessions; and when a session is
    free, one of those threads can make its next step at once.  So a free session never
    stays in the queue because everyone sleeps. *)
Theorem no_session_is_forgotten (initial : list Z) (start : Z) (k : nat) x t d
    (Hreach : reachable initial start k x) (Hwaits : crew x !! t = Some (Sleeping d)) :
  (tally sections (crew x) ≤ 1)%nat ∧
  (length (queue x) ≤ tally astir (crew x))%nat ∧
  (queue x ≠ [] →
   ∃ u p y, u ≠ t ∧ crew x !! u = Some p ∧ astir p = 1%nat ∧ step (Some u) x y).
Proof.
  apply reachable_invariants in Hreach as [Ha He]. split; [exact He|].
  assert (length (queue x) ≤ tally astir (crew x))%nat as Hle.
  { apply Ha. apply (tally_le asleep) in Hwaits. simpl in Hwaits. lia. }
  split; [done|]. intros Hq. destruct (astir_steps x) as (u & p & y & Hu & Hp & Hy).
  { destruct (queue x); [done|]. simpl in Hle. lia. }
  exists u, p, y. split_and!; try done. intros ->. rewrite Hwaits in Hu. by injection Hu as <-.
Qed.

(** ** Waiting is bounded *)

(** The deadline of a thread in the loop of [acquire], and how many steps of its own it is
    from leaving once the deadline has passed. *)
Definition deadline_of (p : phase) : option Z :=
  match p with Looping d | Sleeping d | Waking d _ | Woken d _ => Some d | _ => None end.
Definition own_steps (p : phase) : nat :=
  match p with Sleeping _ => 4 | Waking _ _ => 3 | Woken _ _ => 2 | Looping _ => 1 | _ => 0 end.
Definition left_acquire (p : phase) : Prop := p = Outside ∨ ∃ s, p = Using s.

(** A deadline is at most five seconds ahead; a wait that timed out ended after it. *)
Definition timely (x : sync) : Prop :=
  ∀ t p d, crew x !! t = Some p → deadline_of p = Some d →
    d ≤ now x + 5 * 10 ^ 9 ∧ (p = Waking d true ∨ p = Woken d true → d ≤ now x).

Lemma lookup_go x q t p u a :
  crew (go x q t p) !! u = Some a → (u = t ∧ a = p) ∨ (u ≠ t ∧ crew x !! u = Some a).
Proof. simpl. intros [(-> & <- & _)|[? ?]]%list_lookup_insert_Some; naive_solver. Qed.

Lemma step_timely l x y : step l x y → timely x → timely y.
Proof.
  intros Hs IH. destruct Hs; intros v p' d' Hv Hd.
  1: { destruct (IH _ _ _ Hv Hd) as [? Hw]. cbn [now] in *. split; [lia|]. intros Hp. specialize (Hw Hp). lia. }
  all: repeat match goal with
    | Hv : crew (go _ _ _ _) !! _ = Some _ |- _ => apply lookup_go in Hv as [[-> ->]|[? Hv]]
    end; cbn [now go] in *; try (by apply (IH v p' d')); simpl in Hd; simplify_eq.
  all: try (match goal with H : crew ?x !! _ = Some ?p, IH : timely ?x |- _ =>
    destruct (IH _ _ _ H eq_refl) as [Hsoon Hpast] end).
  all: split; [lia|]; intros [?|?]; simplify_eq; try done; apply Hpast; by left.
Qed.

(** A thread after the move of [t0]: moved, or where it was. *)
Lemma go_cases (Q : phase → Prop) x q t0 b t p :
  crew x !! t = Some p → (t0 ≠ t → Q p) → (t0 = t → Q b) →
  ∃ p', crew (go x q t0 b) !! t = Some p' ∧ Q p'.
Proof.
  intros Ht Hother Hself. destruct (base.decide (t0 = t)) as [->|Hne]; simpl.
  - exists b. split; [|by apply Hself]. apply list_lookup_insert_eq. by eapply lookup_lt_Some.
  - exists p. split; [by rewrite list_lookup_insert_ne | by apply Hother].
Qed.

(** What a step does to a thread whose deadline has passed: it leaves [acquire], or its own
    steps bring it nearer. *)
Definition own (l : option nat) (t : nat) : nat := if bool_decide (l = Some t) then 1 else 0.
Definition late_after (l : option nat) (t : nat) (d : Z) (p p' : phase) : Prop :=
  left_acquire p' ∨ (deadline_of p' = Some d ∧ (own_steps p' + own l t ≤ own_steps p)%nat).

Lemma late_step l x y t p d :
  step l x y → crew x !! t = Some p → deadline_of p = Some d → d ≤ now x →
  d ≤ now y ∧ ∃ p', crew y !! t = Some p' ∧ late_after l t d p p'.
Proof.
  intros Hs Ht Hd Hlate. unfold late_after, own.
  assert (Hstays : ∀ u, u ≠ t →
    (own_steps p + (if bool_decide (Some u = Some t) then 1 else 0) ≤ own_steps p)%nat).
  { intros u Hu. rewrite bool_decide_false by congruence. lia. }
  destruct Hs; (split; [simpl; lia|]).
  1: { exists p. split; [done|]. right. simpl. split; [done|lia]. }
  all: try (apply (go_cases _ _ _ _ _ t p Ht); [intros Hne; right; split; [done|by apply Hstays]|];
    intros ->; simplify_eq; try done; rewrite bool_decide_true by done; unfold left_acquire; simpl; try naive_solver).
  - exfalso. injection Hd as ->. by match goal with H : _ = Wait |- _ => apply top_wait in H as [_ ?]; lia end.
  - match goal with H : crew x !! t0 = Some Notifying |- _ => rename H into Hn end.
    assert (t0 ≠ t) as Hne by (intros ->; simplify_eq).
    assert (crew (go x (queue x) t0 Outside) !! t = Some p) as Ht' by (simpl; by rewrite list_lookup_insert_ne).
    apply (go_cases _ _ _ _ _ t p Ht'); [intros _; right; split; [done|by apply Hstays]|].
    intros ->. simplify_eq. right. split; [done|]. rewrite bool_decide_false by congruence. simpl. lia.
Qed.

(** The own steps of a thread in an execution. *)
Definition own_in (ls : list (option nat)) (t : nat) : nat := foldr (λ l n, own l t + n)%nat 0%nat ls.

Lemma late_execution x ls y t p d :
  execution x ls y → crew x !! t = Some p → deadline_of p = Some d → d ≤ now x →
  (own_steps p ≤ own_in ls t)%nat →
  ∃ ls1 ls2 z p', ls = ls1 ++ ls2 ∧ execution x ls1 z ∧ execution z ls2 y ∧
    crew z !! t = Some p' ∧ left_acquire p'.
Proof.
  intros Hex. revert p. induction Hex as [x|x l y ls z Hs Hex IH]; intros p Ht Hd Hlate Hown.
  - destruct p; simplify_eq; simpl in Hown; lia.
  - destruct (late_step _ _ _ _ _ _ Hs Ht Hd Hlate) as (Hlate' & p' & Ht' & [Hleft|[Hd' Hrank]]).
    + exists [l], ls, y, p'. split_and!; try done. econstructor; [exact Hs|constructor].
    + destruct (IH p' Ht' Hd' Hlate') as (ls1 & ls2 & w & q & -> & H1 & H2 & H3 & H4).
      { simpl in Hown. lia. }
      exists (l :: ls1), ls2, w, q. split_and!; try done. econstructor; eauto.
Qed.

Lemma reachable_timely initial start k x : reachable initial start k x → timely x.
Proof.
  intros [ls Hls]. eapply (execution_invariant timely); [apply step_timely|exact Hls|].
  intros t p d Ht. simpl in Ht. apply lookup_replicate in Ht as [-> _]. done.
Qed.

(** C17. No wait without a bound: a thread in the loop of [acquire] has a deadline at most five
    seconds ahead; once the clock has passed it, four steps of its own take it out of
    [acquire], whatever the other threads do meanwhile and however often it is woken up;
    and it leaves without a session only when no session is free and its deadline has
    passed. *)
Theorem acquire_is_bounded (initial : list Z) (start : Z) (k : nat) x t p d
    (Hreach : reachable initial start k x)
    (Hin : crew x !! t = Some p) (Hd : deadline_of p = Some d) :
  d ≤ now x + 5 * 10 ^ 9 ∧
  (d ≤ now x → ∀ ls y, execution x ls y → (4 ≤ own_in ls t)%nat →
     ∃ ls1 ls2 z p', ls = ls1 ++ ls2 ∧ execution x ls1 z ∧ execution z ls2 y ∧
       crew z !! t = Some p' ∧ left_acquire p') ∧
  (∀ y, step (Some t) x y → crew y !! t = Some Outside → queue x = [] ∧ d ≤ now x).
Proof.
  pose proof (reachable_timely _ _ _ _ Hreach) as Htime. destruct (Htime t p d Hin Hd) as [Hsoon Hpast].
  split_and!; [done| |].
  - intros Hlate ls y Hex Hown. eapply late_execution; eauto. destruct p; simpl in *; lia.
  - intros y Hs Hout. inversion Hs; subst; simplify_eq;
      apply lookup_go in Hout as [[_ ?]|[? Hout]]; simplify_eq/=.
    + match goal with H : _ = Exhausted |- _ => by apply top_exhausted in H end.
    + match goal with H : gives_up _ _ = true |- _ => apply gives_up_true in H as [-> ->] end. auto.
Qed.

(** ** The steps refine those of [Pool] *)

Definition project (p : phase) : tstate :=
  match p with
  | Using s | Releasing s => Holding s
  | Renewing | Returning _ => Replenishing
  | _ => Idle
  end.
Definition abstract (x : sync) : system := {| free := queue x; threads := project <$> crew x |}.

Definition handles (p : phase) : list Z := from_option (λ s, [s]) [] (hand p).

Lemma go_handles x q t a b :
  crew x !! t = Some a →
  handles a ++ open_handles (go x q t b) ≡ₚ handles b ++ q ++ omap hand (crew x).
Proof.
  intros Ht. pose proof (omap_insert_perm hand _ t a b Ht) as P. unfold open_handles, handles.
  cbn [queue crew go]. rewrite !app_assoc, !(Permutation_app_comm _ q), <- !app_assoc. by rewrite P.
Qed.

Lemma step_distinct l x y : step l x y → NoDup (open_handles x) → NoDup (open_handles y).
Proof.
  intros Hs Hnd. destruct Hs; try exact Hnd;
    try (match goal with H : crew ?x !! ?t = Some ?a |- NoDup (open_handles (go ?x ?q ?t ?b)) =>
      pose proof (go_handles x q t a b H) as P; cbn [handles hand from_option app] in P end; first [by rewrite P | idtac]).
  - match goal with H : _ = Got _ _ |- _ => apply top_got in H end.
    rewrite P. unfold open_handles in Hnd. by match goal with H : queue x = _ |- _ => rewrite H in Hnd end.
  - apply (Permutation_cons_inv (a := s)) in P. by rewrite P.
  - unfold open_handles in Hnd. rewrite <- P in Hnd. by apply NoDup_cons in Hnd as [_ ?].
  - unfold open_handles in Hnd. rewrite <- P in Hnd. by apply NoDup_cons in Hnd as [_ ?].
  - rewrite P. by apply NoDup_cons.
  - assert (s :: open_handles (go x (queue x ++ [s]) t Notifying) ≡ₚ s :: open_handles x) as P2.
    { match goal with H : _ = Releasing _ ∨ _ |- _ => destruct H as [-> | ->] end;
        cbn [handles hand from_option app] in P; rewrite P; unfold open_handles; solve_Permutation. }
    apply Permutation_cons_inv in P2. by rewrite P2.
  - match goal with Ht : _ !! t = Some _, Hu : _ !! u = Some _ |- _ =>
      pose proof (go_handles x (queue x) t _ Outside Ht) as P;
      assert (crew (go x (queue x) t Outside) !! u = Some (Sleeping d)) as Hu'
        by (simpl; rewrite list_lookup_insert_ne; [done|intros ->; congruence]) end.
    pose proof (go_handles _ (queue x) u _ (Waking d false) Hu') as P'.
    cbn [handles hand from_option app] in P, P'.
    rewrite P'. change (NoDup (open_handles (go x (queue x) t Outside))). by rewrite P.
Qed.

Lemma abstract_go x q t b :
  abstract (go x q t b) = {| free := q; threads := <[t := project b]> (threads (abstract x)) |}.
Proof. unfold abstract. simpl. by rewrite list_fmap_insert. Qed.

Lemma abstract_lookup x t p : crew x !! t = Some p → threads (abstract x) !! t = Some (project p).
Proof. intros Ht. simpl. by rewrite list_lookup_fmap, Ht. Qed.

(** A move that the steps of [Pool] do not see. *)
Lemma abstract_same x t a b :
  crew x !! t = Some a → project b = project a → abstract (go x (queue x) t b) = abstract x.
Proof.
  intros Ht Hp. rewrite abstract_go, Hp, list_insert_id by (by apply abstract_lookup). done.
Qed.

(** A handle that is about to be returned is new to [Pool]. *)
Lemma returning_fresh x t s :
  crew x !! t = Some (Returning s) → NoDup (open_handles x) → s ∉ live (abstract x).
Proof.
  intros Ht Hnd Hin. pose proof (go_handles x (queue x) t _ Outside Ht) as P.
  cbn [handles hand from_option app] in P. unfold open_handles in Hnd at 1.
  rewrite <- P in Hnd. apply NoDup_cons in Hnd as [Hs _]. apply Hs. unfold open_handles. cbn [queue go].
  unfold live in Hin. apply elem_of_app in Hin as [Hq|Hh]; [by apply elem_of_app; left|].
  apply elem_of_app. right. unfold held in Hh. apply list_elem_of_omap in Hh as (a & Ha & Hs').
  simpl in Ha. apply list_elem_of_fmap in Ha as (p & -> & Hp).
  apply list_elem_of_lookup in Hp as [u Hu]. apply list_elem_of_omap. exists p.
  assert (u ≠ t) as Hne by (intros ->; simplify_eq). split.
  - apply list_elem_of_lookup. exists u. simpl. by rewrite list_lookup_insert_ne.
  - by destruct p; simplify_eq/=.
Qed.

Lemma step_refines l x y :
  step l x y → NoDup (open_handles x) → rtc Pool.step (abstract x) (abstract y).
Proof.
  intros Hs Hnd. destruct Hs; try done;
    try (erewrite abstract_same by (done || reflexivity); done).
  6: { assert (crew (go x (queue x) t Outside) !! u = Some (Sleeping d)) as Hu
         by (simpl; rewrite list_lookup_insert_ne; [done|intros ->; congruence]).
       erewrite (abstract_same (go x (queue x) t Outside)) by (exact Hu || reflexivity).
       by erewrite abstract_same by (done || reflexivity). }
  all: rewrite abstract_go; apply rtc_once;
    match goal with H : crew _ !! _ = Some _ |- _ =>
      rename H into Ht; pose proof (abstract_lookup _ _ _ Ht) as Ha end.
  - apply top_got in H0. by apply (step_acquire (abstract x)).
  - by apply (step_lose (abstract x) t s).
  - by apply (step_evict (abstract x) t s).
  - by apply (step_give_up (abstract x)).
  - destruct H0 as [-> | ->].
    + by apply (step_release (abstract x)).
    + apply (step_replenish (abstract x)); [done|]. by eapply returning_fresh.
Qed.

Lemma hand_outside k : omap hand (replicate k Outside) = [].
Proof. induction k as [|k IH]; [done | exact IH]. Qed.

Lemma reachable_distinct initial start k x :
  NoDup initial → reachable initial start k x → NoDup (open_handles x).
Proof.
  intros Hnd [ls Hls]. eapply (execution_invariant (λ x, NoDup (open_handles x))); [apply step_distinct|exact Hls|].
  unfold open_handles. simpl. by rewrite hand_outside, app_nil_r.
Qed.

Lemma execution_refines x ls y :
  execution x ls y → NoDup (open_handles x) → rtc Pool.step (abstract x) (abstract y).
Proof.
  induction 1 as [x|x l y ls z Hs Hex IH]; intros Hnd; [done|].
  etrans; [by eapply step_refines|]. by eapply IH, step_distinct.
Qed.

(** C15. The code refines the steps of [Pool]: with the mutex, the condition variable, the
    timeouts and the two halves of a release made visible, every reachable state projects to
    one that [Pool.step] reaches from the same pool; the sessions in the queue, in use or
    on their way back are all different; and so no two threads have the same one. *)
Theorem threads_refine (initial : list Z) (start : Z) (k : nat) x
    (Hdistinct : NoDup initial) (Hreach : reachable initial start k x) :
  rtc Pool.step {| free := initial; threads := replicate k Idle |} (abstract x) ∧
  NoDup (open_handles x) ∧
  ∀ t u p q s, crew x !! t = Some p → crew x !! u = Some q → hand p = Some s → hand q = Some s → t = u.
Proof.
  pose proof (reachable_distinct _ _ _ _ Hdistinct Hreach) as Hnd. split_and!; [|done|].
  - destruct Hreach as [ls Hls]. apply execution_refines in Hls.
    + assert (abstract (opened initial start k) = {| free := initial; threads := replicate k Idle |}) as <-; [|done].
      unfold abstract. simpl. by rewrite fmap_replicate.
    + by eapply (reachable_distinct initial start k); [|exists []; constructor].
  - intros t u p q s Ht Hu Hp Hq. destruct (base.decide (t = u)) as [|Hne]; [done|]. exfalso.
    pose proof (go_handles x (queue x) t _ Outside Ht) as P. unfold handles in P. rewrite Hp in P.
    cbn [hand from_option app] in P. unfold open_handles in Hnd. rewrite <- P in Hnd.
    apply NoDup_cons in Hnd as [Hs _]. apply Hs, elem_of_app. right. apply list_elem_of_omap.
    exists q. split; [|done]. apply list_elem_of_lookup. exists u. simpl. by rewrite list_lookup_insert_ne.
Qed.

(** ** The theorems at concrete inputs *)

(** Two threads and one session: thread 1 takes it while thread 0 goes to sleep. *)
Definition ref_waiting : sync :=
  {| queue := []; now := 0; crew := [Sleeping 5000000000; Using 7] |}.

Lemma ref_waiting_reachable : reachable [7] 0 2 ref_waiting.
Proof.
  exists [Some 1%nat; Some 1%nat; Some 1%nat; Some 0%nat; Some 0%nat; Some 0%nat].
  unfold opened, ref_waiting.
  eapply e_cons; [by eapply (s_acquire _ 1)|]. eapply e_cons; [by eapply (s_lock _ 1)|].
  eapply e_cons; [by eapply (s_got _ 1)|]. eapply e_cons; [by eapply (s_acquire _ 0)|].
  eapply e_cons; [by eapply (s_lock _ 0)|]. eapply e_cons; [by eapply (s_wait _ 0)|]. constructor.
Qed.

(** ... and puts it back, without having notified yet. *)
Definition ref_returned : sync :=
  {| queue := [7]; now := 0; crew := [Sleeping 5000000000; Notifying] |}.

Lemma ref_returned_reachable : reachable [7] 0 2 ref_returned.
Proof.
  destruct ref_waiting_reachable as [ls Hls]. eexists. eapply execution_app; [eapply execution_app; [exact Hls|]|].
  - by eapply (s_used _ 1).
  - by apply (s_push (go ref_waiting [] 1 (Releasing 7)) 1 (Releasing 7) 7); [|left|].
Qed.

Lemma no_session_is_forgotten_witness :
  queue ref_returned ≠ [] ∧
  ∃ u p y, u ≠ 0%nat ∧ crew ref_returned !! u = Some p ∧ astir p = 1%nat ∧ step (Some u) ref_returned y.
Proof.
  split; [discriminate|].
  destruct (no_session_is_forgotten [7] 0 2 ref_returned 0 5000000000 ref_returned_reachable eq_refl)
    as (_ & _ & H). apply H. discriminate.
Defined.

Lemma acquire_is_bounded_witness :
  5000000000 ≤ now ref_waiting + 5 * 10 ^ 9 ∧
  ∀ y, step (Some 0%nat) ref_waiting y → crew y !! 0%nat = Some Outside → queue ref_waiting = [] ∧ 5000000000 ≤ now ref_waiting.
Proof.
  destruct (acquire_is_bounded [7] 0 2 ref_waiting 0 (Sleeping 5000000000) 5000000000
    ref_waiting_reachable eq_refl eq_refl) as (H & _ & H'). exact (conj H H').
Defined.

Lemma threads_refine_witness :
  rtc Pool.step {| free := [7]; threads := replicate 2 Idle |} {| free := []; threads := [Idle; Holding 7] |}.
Proof.
  assert (NoDup [7]) as Hnd by (repeat constructor; apply not_elem_of_nil).
  destruct (threads_refine [7] 0 2 ref_waiting Hnd ref_waiting_reachable) as [H _]. exact H.
Defined.

(** The queue is not fair: a thread that arrives takes the session that was given back, while
    the thread that was notified for it has not locked the mutex yet, and sleeps again. *)
Example a_waiter_can_be_overtaken :
  execution ref_returned [Some 1%nat; Some 1%nat; Some 1%nat; Some 1%nat; Some 0%nat; Some 0%nat; Some 0%nat] ref_waiting.
Proof.
  unfold ref_returned, ref_waiting.
  eapply e_cons; [by eapply (s_notify _ 1 0)|]. eapply e_cons; [by eapply (s_acquire _ 1)|].
  eapply e_cons; [by eapply (s_lock _ 1)|]. eapply e_cons; [by eapply (s_got _ 1)|].
  eapply e_cons; [by eapply (s_relock _ 0)|]. eapply e_cons; [by eapply (s_again _ 0)|].
  eapply e_cons; [by eapply (s_wait _ 0)|]. constructor.
Qed.
