(* ===== verification/IdpStore.v ===== *)
(** * [apps/identity-provider/src/store.rs]: the SQL statements and their tables

    The tables are those of [deploy/migrations] (002 to 005) with their keys, unique indexes
    and checks; a statement of [store.rs] is a function of the tables and of the server's
    [now()], in microseconds since 1970.  Each statement commits alone: an [UPDATE] tests
    its [WHERE] and writes in one step, as PostgreSQL re-evaluates the condition on a row
    it had to wait for.  A statement that breaks a constraint, or is given a text with a
    zero byte, is an error and changes nothing.  Lost connections are added by the file
    [IdpSystem]. *)

From S2P Require Import Prelude.
From S2P Require Import Json.
From S2P Require Import Aws.
From S2P Require Import Common.
From S2P Require Import Chain.
From S2P Require Import AuthProof.

(** [sqlx::Error]: refused by the database, or no answer from it.  No caller looks inside. *)
Inductive SqlxError := Refused | Disconnected.

(** ** Tables *)

Record challenge_row := {
  cr_subject_id : string;
  cr_ceremony_kind : string;
  cr_created_at : Z;
  cr_expires_at : Z;
  cr_used_at : option Z;
}.

Record authenticator_row := {
  ar_subject_id : string;
  ar_suite : string;
  ar_algorithm : string;
  ar_public_key : bytes;
  ar_sign_count : Z;
  ar_aaguid : bytes;
  ar_attestation_format : string;
  ar_created_at : Z;
  ar_revoked_at : option Z;
  ar_counter_supported : bool;
}.

(** The columns that [append] writes; the others keep their default. *)
Record event_row := {
  er_event_id : string;
  er_sequence : Z;
  er_occurred_at : string;
  er_authority_domain : string;
  er_event_type : string;
  er_actor : value;
  er_outcome : string;
  er_prev_hash : string;
  er_signature : value;
  er_sealed_bytes : bytes;
}.

(** Primary keys are the keys of the maps; the journal is kept in the order of its inserts. *)
Record Db := {
  challenges : gmap bytes challenge_row;
  authenticators : gmap bytes authenticator_row;
  events : list event_row;
}.

Definition empty_db : Db := {| challenges := ∅; authenticators := ∅; events := [] |}.

Definition with_challenges (db : Db) m : Db :=
  {| challenges := m; authenticators := authenticators db; events := events db |}.
Definition with_authenticators (db : Db) m : Db :=
  {| challenges := challenges db; authenticators := m; events := events db |}.
Definition with_events (db : Db) l : Db :=
  {| challenges := challenges db; authenticators := authenticators db; events := l |}.

(** A [text] value holds no zero byte. *)
Definition pg_text (s : string) : bool := forallb (λ b, negb (u8_val b =? 0)) (as_bytes s).

(** The range of [timestamptz]: 4713 BC to 294276 AD, in microseconds since 1970. *)
Definition pg_timestamp (t : Z) : bool := between (-210866803200000000) t 9224318015999999999.

(** [now() + make_interval(secs => $4)] with [ttl_seconds as f64]: exact up to 2^53 seconds,
    and beyond the range of the type above them. *)
Definition pg_after (now ttl_seconds : Z) : option Z :=
  if between (- 2 ^ 53) ttl_seconds (2 ^ 53) && pg_timestamp (now + ttl_seconds * 1000000)
  then Some (now + ttl_seconds * 1000000) else None.

(** ** [IdentityStore] *)

Record ConsumedChallenge := { cc_subject_id : string; cc_ceremony_kind : string }.

Record AuthenticatorRow := {
  row_subject_id : string;
  row_credential_id : bytes;
  row_algorithm : Algorithm;
  row_public_key : bytes;
  row_counter_supported : bool;
  row_sign_count : Z;
  row_revoked : bool;
}.

Definition algorithm_to_column (a : Algorithm) : string :=
  match a with Es256 => "es256" | EdDsa => "eddsa" end.

Definition algorithm_from_column (value : string) : option Algorithm :=
  if bool_decide (value = "es256") then Some Es256
  else if bool_decide (value = "eddsa") then Some EdDsa
  else None.

(** A refused statement changes nothing. *)
Definition commit {A} (db : Db) (r : option (Db * A)) : Db * res A SqlxError :=
  match r with Some (db', a) => (db', Ok a) | None => (db, Err Refused) end.

Definition issue_challenge (now : Z) (db : Db) (challenge : bytes) (subject_id ceremony_kind : string)
    (ttl_seconds : Z) : Db * res unit SqlxError :=
  commit db (
    expires ← pg_after now ttl_seconds;
    if pg_text subject_id && pg_text ceremony_kind &&
       bool_decide (ceremony_kind ∈ ["registration"; "authentication"]) &&
       bool_decide (challenges db !! challenge = None)
    then Some (with_challenges db (<[challenge := {|
           cr_subject_id := subject_id; cr_ceremony_kind := ceremony_kind; cr_created_at := now;
           cr_expires_at := expires; cr_used_at := None |}]> (challenges db)), tt)
    else None).

(** The [WHERE] of [consume_challenge], and its [SET]. *)
Definition consumable (now : Z) (kind : string) (r : challenge_row) : bool :=
  bool_decide (cr_ceremony_kind r = kind) && bool_decide (cr_used_at r = None) &&
  (now <? cr_expires_at r).
Definition mark_used (now : Z) (r : challenge_row) : challenge_row := {|
  cr_subject_id := cr_subject_id r; cr_ceremony_kind := cr_ceremony_kind r;
  cr_created_at := cr_created_at r; cr_expires_at := cr_expires_at r; cr_used_at := Some now |}.

Definition consume_challenge (now : Z) (db : Db) (challenge : bytes) (expected_ceremony_kind : string) :
    Db * res (option ConsumedChallenge) SqlxError :=
  match challenges db !! challenge with
  | Some r =>
      if consumable now expected_ceremony_kind r
      then (with_challenges db (<[challenge := mark_used now r]> (challenges db)),
            Ok (Some {| cc_subject_id := cr_subject_id r;
                        cc_ceremony_kind := expected_ceremony_kind |}))
      else (db, Ok None)
  | None => (db, Ok None)
  end.

Definition insert_authenticator (now : Z) (db : Db) (subject_id : string) (credential_id : bytes)
    (algorithm : Algorithm) (public_key : bytes) (sign_count : Z) (aaguid : bytes)
    (attestation_format : string) (counter_supported : bool) : Db * res unit SqlxError :=
  commit db (
    if pg_text subject_id && pg_text attestation_format &&
       bool_decide (algorithm_to_column algorithm ∈ ["es256"; "eddsa"]) &&
       bool_decide (attestation_format ∈ ["none"; "packed"]) &&
       bool_decide (authenticators db !! credential_id = None)
    then Some (with_authenticators db (<[credential_id := {|
           ar_subject_id := subject_id; ar_suite := AuthProof.SUITE_V1;
           ar_algorithm := algorithm_to_column algorithm; ar_public_key := public_key;
           ar_sign_count := sign_count; ar_aaguid := aaguid;
           ar_attestation_format := attestation_format; ar_created_at := now;
           ar_revoked_at := None; ar_counter_supported := counter_supported |}]>
           (authenticators db)), tt)
    else None).

Definition find_authenticator (db : Db) (credential_id : bytes) :
    res (option AuthenticatorRow) SqlxError :=
  match authenticators db !! credential_id with
  | None => Ok None
  | Some row =>
      match algorithm_from_column (ar_algorithm row) with
      | None => Ok None
      | Some algorithm =>
          Ok (Some {| row_subject_id := ar_subject_id row; row_credential_id := credential_id;
                      row_algorithm := algorithm; row_public_key := ar_public_key row;
                      row_counter_supported := ar_counter_supported row;
                      row_sign_count := wrap_u32 (Z.max (ar_sign_count row) 0);
                      row_revoked := bool_decide (is_Some (ar_revoked_at row)) |})
      end
  end.

(** [SELECT] without [ORDER BY]: the order of the answer is the server's. *)
Class ScanOrder := {
  scan : gmap bytes authenticator_row → list (bytes * authenticator_row);
  scan_rows m : scan m ≡ₚ map_to_list m;
}.

Definition credential_ids_for_subject `{ScanOrder} (db : Db) (subject_id : string) :
    res (list bytes) SqlxError :=
  guard! pg_text subject_id else Refused in
  Ok (fst <$> filter (λ kv, ar_subject_id kv.2 = subject_id ∧ ar_revoked_at kv.2 = None)
       (scan (authenticators db))).

Definition set_sign_count (n : Z) (r : authenticator_row) : authenticator_row := {|
  ar_subject_id := ar_subject_id r; ar_suite := ar_suite r; ar_algorithm := ar_algorithm r;
  ar_public_key := ar_public_key r; ar_sign_count := n; ar_aaguid := ar_aaguid r;
  ar_attestation_format := ar_attestation_format r; ar_created_at := ar_created_at r;
  ar_revoked_at := ar_revoked_at r; ar_counter_supported := ar_counter_supported r |}.

(** [rows_affected() == 1]: the key is unique, so at most one row is updated. *)
Definition advance_sign_count (db : Db) (credential_id : bytes) (received : Z) :
    Db * res bool SqlxError :=
  match authenticators db !! credential_id with
  | Some r =>
      if ar_sign_count r <? received
      then (with_authenticators db (<[credential_id := set_sign_count received r]> (authenticators db)),
            Ok true)
      else (db, Ok false)
  | None => (db, Ok false)
  end.

(** ** [AuditStore] *)

Record ChainHead := { next_sequence : Z; prev_hash : bytes }.

(** [ORDER BY sequence DESC LIMIT 1] *)
Fixpoint highest (l : list event_row) : option event_row :=
  match l with
  | [] => None
  | e :: l' =>
      match highest l' with
      | Some e' => if er_sequence e <? er_sequence e' then Some e' else Some e
      | None => Some e
      end
  end.

Definition chain_head `{AwsLc} (db : Db) (authority_domain : string) : res ChainHead SqlxError :=
  guard! pg_text authority_domain else Refused in
  match highest (filter (λ e, er_authority_domain e = authority_domain) (events db)) with
  | None => Ok {| next_sequence := 0; prev_hash := Chain.CHAIN_ROOT |}
  | Some row =>
      let! next := Chain.next_u64 (wrap_u64 (er_sequence row)) in
      Ok {| next_sequence := next; prev_hash := Chain.hash_sealed_event (er_sealed_bytes row) |}
  end.

(** [prev_hash ~ '^[0-9a-f]{64}$'] *)
Definition prev_hash_format (s : string) : bool :=
  (str_len s =? 64) &&
  forallb (λ b, is_ascii_digit b || between 97 (u8_val b) 102) (as_bytes s).

(** [append] binds texts for the columns [event_id] ([uuid]) and [occurred_at] ([timestamptz]):
    whether the server takes them is its own affair.  PostgreSQL documents that it does not:
    a parameter of type [text] has no assignment cast to either type, both functions are
    constantly false and every [append] is refused; a server, or a driver, that sends the
    parameters untyped reads them as the types do.  The theorems hold of both, and
    [IdpLogin.login_outcome] says what a login does with either. *)
Class PgConversions := {
  text_to_uuid : string → bool;
  text_to_timestamptz : string → bool;
}.

(** A [uuid] is its 128 bits: texts of the same form that differ by the case of their
    digits are the same key. *)
Definition ascii_lower (b : u8) : u8 := if between 65 (u8_val b) 90 then u8_of (u8_val b + 32) else b.
Definition uuid_key (s : string) : bytes := map ascii_lower (as_bytes s).
Definition event_key (e : event_row) : bytes := uuid_key (er_event_id e).

(** The types of the columns, the primary key, the unique index on domain and sequence, and
    the checks. *)
Definition insertable `{PgConversions} (db : Db) (e : event_row) : bool :=
  text_to_uuid (er_event_id e) && text_to_timestamptz (er_occurred_at e) &&
  forallb pg_text [er_occurred_at e; er_authority_domain e; er_event_type e] &&
  bool_decide (er_outcome e ∈ ["success"; "denied"; "error"]) &&
  prev_hash_format (er_prev_hash e) &&
  bool_decide (event_key e ∉ map event_key (events db)) &&
  bool_decide ((er_authority_domain e, er_sequence e) ∉
               map (λ x, (er_authority_domain x, er_sequence x)) (events db)).

Definition append `{PgConversions} (db : Db) (event_id : string) (sequence : Z)
    (occurred_at authority_domain event_type : string) (actor : value)
    (outcome prev_hash_hex : string) (signature : value) (sealed_bytes : bytes) :
    Db * res unit SqlxError :=
  let e := {| er_event_id := event_id; er_sequence := wrap_i64 sequence;
              er_occurred_at := occurred_at; er_authority_domain := authority_domain;
              er_event_type := event_type; er_actor := actor; er_outcome := outcome;
              er_prev_hash := prev_hash_hex; er_signature := signature;
              er_sealed_bytes := sealed_bytes |} in
  commit db (if insertable db e then Some (with_events db (events db ++ [e]), tt) else None).
