(* ===== verification/DbRoles.v ===== *)
(** * [deploy/migrations]: the roles of the database and what they may do

    The privileges that the five migrations leave, by running their statements in order, as
    PostgreSQL does for the one role that applies them ([tools/migrate.sh]): [GRANT] and
    [REVOKE] on tables, on all the tables of a schema, and the default privileges that a new
    table receives.  The statements of [store.rs] are within them ([statements_permitted]);
    no application role writes in two schemas ([one_schema_per_role]); and whatever
    statements the application roles run, not only those of the code, the journal only grows
    ([journal_only_grows]). *)

From S2P Require Import Prelude.
From S2P Require Import IdpStore.

(** ** Statements of the migrations *)

Inductive schema := identity | authz | issuance | audit.
Inductive role := identity_app | authz_app | issuance_app | audit_writer | audit_reader.
Inductive privilege := SELECT | INSERT | UPDATE | DELETE | TRUNCATE.

Definition table : Type := schema * string.

#[export] Instance schema_eq_dec : EqDecision schema.
Proof. solve_decision. Defined.
#[export] Instance role_eq_dec : EqDecision role.
Proof. solve_decision. Defined.
#[export] Instance privilege_eq_dec : EqDecision privilege.
Proof. solve_decision. Defined.

Inductive ddl :=
| CreateTable (t : table)
| Grant (ps : list privilege) (t : table) (r : role)
| Revoke (ps : list privilege) (t : table) (r : role)
| GrantAllTables (ps : list privilege) (s : schema) (r : role)
| RevokeAllTables (ps : list privilege) (s : schema) (r : role)
| DefaultGrant (ps : list privilege) (s : schema) (r : role)
| DefaultRevoke (ps : list privilege) (s : schema) (r : role).

(** The privileges of the server: those on tables, and the defaults of a schema. *)
Definition entry : Type := role * table * privilege.
Definition default_entry : Type := role * schema * privilege.
Record acl := { tables : list table; granted : list entry; defaults : list default_entry }.

Definition on_table (ps : list privilege) (t : table) (r : role) : list entry :=
  map (λ p, (r, t, p)) ps.
Definition tables_of (a : acl) (s : schema) : list table := filter (λ t, t.1 = s) (tables a).

Definition with_granted (a : acl) (g : list entry) : acl :=
  {| tables := tables a; granted := g; defaults := defaults a |}.
Definition with_defaults (a : acl) (d : list default_entry) : acl :=
  {| tables := tables a; granted := granted a; defaults := d |}.
(** [REVOKE] takes away what was granted; it is no refusal of what comes later. *)
Definition without {A} `{EqDecision A} (l out : list A) : list A := filter (λ x, x ∉ out) l.

Definition run_ddl (a : acl) (c : ddl) : acl :=
  match c with
  | CreateTable t =>
      let received := filter (λ d, d.1.2 = t.1) (defaults a) in
      {| tables := tables a ++ [t];
         granted := granted a ++ map (λ d, (d.1.1, t, d.2)) received;
         defaults := defaults a |}
  | Grant ps t r => with_granted a (granted a ++ on_table ps t r)
  | Revoke ps t r => with_granted a (without (granted a) (on_table ps t r))
  | GrantAllTables ps s r =>
      with_granted a (granted a ++ concat (map (λ t, on_table ps t r) (tables_of a s)))
  | RevokeAllTables ps s r =>
      with_granted a (without (granted a) (concat (map (λ t, on_table ps t r) (tables_of a s))))
  | DefaultGrant ps s r => with_defaults a (defaults a ++ map (λ p, (r, s, p)) ps)
  | DefaultRevoke ps s r => with_defaults a (without (defaults a) (map (λ p, (r, s, p)) ps))
  end.

Definition run_migrations (l : list ddl) : acl :=
  fold_left run_ddl l {| tables := []; granted := []; defaults := [] |}.

(** ** The migrations *)

(** [001_schemas_et_roles.sql] *)
Definition schemas_et_roles : list ddl := [
  GrantAllTables [SELECT; INSERT; UPDATE] identity identity_app;
  DefaultGrant [SELECT; INSERT; UPDATE] identity identity_app;
  RevokeAllTables [DELETE] identity identity_app;
  GrantAllTables [SELECT; INSERT; UPDATE; DELETE] authz authz_app;
  DefaultGrant [SELECT; INSERT; UPDATE; DELETE] authz authz_app;
  GrantAllTables [SELECT; INSERT; UPDATE; DELETE] issuance issuance_app;
  DefaultGrant [SELECT; INSERT; UPDATE; DELETE] issuance issuance_app;
  GrantAllTables [SELECT; INSERT] audit audit_writer;
  DefaultGrant [SELECT; INSERT] audit audit_writer;
  RevokeAllTables [UPDATE; DELETE; TRUNCATE] audit audit_writer;
  DefaultRevoke [UPDATE; DELETE; TRUNCATE] audit audit_writer;
  GrantAllTables [SELECT] audit audit_reader;
  DefaultGrant [SELECT] audit audit_reader].

Definition audit_events_table : table := (audit, "events").
Definition challenges_table : table := (identity, "challenges").
Definition authenticators_table : table := (identity, "authenticators").

(** [002_audit_events.sql] *)
Definition audit_events : list ddl := [
  CreateTable audit_events_table;
  Grant [SELECT; INSERT] audit_events_table audit_writer;
  Revoke [UPDATE; DELETE; TRUNCATE] audit_events_table audit_writer;
  Grant [SELECT] audit_events_table audit_reader].

(** [003_identity_challenges_et_authenticators.sql] *)
Definition identity_challenges_et_authenticators : list ddl := [
  CreateTable challenges_table;
  CreateTable authenticators_table;
  Grant [SELECT; INSERT; UPDATE] challenges_table identity_app;
  Grant [SELECT; INSERT; UPDATE] authenticators_table identity_app;
  Revoke [DELETE] challenges_table identity_app;
  Revoke [DELETE] authenticators_table identity_app].

(** [004] and [005] add columns. *)
Definition migrations : list ddl :=
  schemas_et_roles ++ audit_events ++ identity_challenges_et_authenticators.

Definition may_after (l : list ddl) (r : role) (t : table) (p : privilege) : bool :=
  bool_decide ((r, t, p) ∈ granted (run_migrations l)).
Definition may : role → table → privilege → bool := may_after migrations.

(** ** The statements of [store.rs] *)

Inductive statement :=
| SIssueChallenge | SConsumeChallenge | SInsertAuthenticator | SFindAuthenticator
| SCredentialIdsForSubject | SAdvanceSignCount | SChainHead | SAppend.

(** [IdentityStore] connects as [identity_app], [AuditStore] as [audit_writer]. *)
Definition role_of (s : statement) : role :=
  match s with SChainHead | SAppend => audit_writer | _ => identity_app end.

Definition table_of (s : statement) : table :=
  match s with
  | SIssueChallenge | SConsumeChallenge => challenges_table
  | SInsertAuthenticator | SFindAuthenticator | SCredentialIdsForSubject | SAdvanceSignCount =>
      authenticators_table
  | SChainHead | SAppend => audit_events_table
  end.

(** An [INSERT] without [RETURNING] writes only; an [UPDATE] reads the columns of its [WHERE]
    and of its [RETURNING]. *)
Definition needs (s : statement) : list privilege :=
  match s with
  | SIssueChallenge | SInsertAuthenticator | SAppend => [INSERT]
  | SConsumeChallenge | SAdvanceSignCount => [UPDATE; SELECT]
  | SFindAuthenticator | SCredentialIdsForSubject | SChainHead => [SELECT]
  end.

Theorem statements_permitted s : forallb (may (role_of s) (table_of s)) (needs s) = true.
Proof. destruct s; vm_compute; reflexivity. Qed.

(** ** Any statement of an application role *)

Definition writes : list privilege := [INSERT; UPDATE; DELETE; TRUNCATE].

(** The rule of [docs/architecture.md]: no application role writes in more than one schema.
    Of the tables that the migrations create: *)
Theorem one_schema_per_role r t1 t2 p1 p2 :
  p1 ∈ writes → p2 ∈ writes → may r t1 p1 = true → may r t2 p2 = true → t1.1 = t2.1.
Proof.
  unfold may, may_after. rewrite !bool_decide_eq_true.
  assert (Forall (λ e : entry, e.2 = SELECT ∨ e.1.2.1 = match e.1.1 with
    | identity_app => identity | authz_app => authz | issuance_app => issuance | _ => audit end)
    (granted (run_migrations migrations))) as Hall.
  { vm_compute. repeat (apply Forall_cons; split; [auto|]). apply Forall_nil. done. }
  rewrite Forall_forall in Hall. intros Hp1 Hp2 [Hs|H1]%Hall [Hs'|H2]%Hall; simpl in *; subst;
    try (exfalso; unfold writes in *; set_solver). congruence.
Qed.

(** What a statement of role [r] may do to the tables.  A row that is inserted comes after
    the others and has a key of its own; a role that may update, delete or truncate a table
    may leave anything in it. *)
Definition alters (r : role) (t : table) : Prop :=
  may r t UPDATE = true ∨ may r t DELETE = true ∨ may r t TRUNCATE = true.

Inductive runs (r : role) : Db → Db → Prop :=
| runs_read d : runs r d d
| runs_insert_event d l :
    may r audit_events_table INSERT = true → runs r d (with_events d (events d ++ l))
| runs_insert_challenge d k v :
    may r challenges_table INSERT = true → challenges d !! k = None →
    runs r d (with_challenges d (<[k := v]> (challenges d)))
| runs_insert_authenticator d k v :
    may r authenticators_table INSERT = true → authenticators d !! k = None →
    runs r d (with_authenticators d (<[k := v]> (authenticators d)))
| runs_alter_events d l : alters r audit_events_table → runs r d (with_events d l)
| runs_alter_challenges d m : alters r challenges_table → runs r d (with_challenges d m)
| runs_alter_authenticators d m : alters r authenticators_table → runs r d (with_authenticators d m).

Definition anyone (d d' : Db) : Prop := ∃ r, runs r d d'.

Lemma nobody_alters_the_journal r : ¬ alters r audit_events_table.
Proof. intros [?|[?|?]]; destruct r; done. Qed.

(** The journal is append-only for every application role: after any statements of any of
    them, in any order, the rows that were there are there, unchanged and in their order. *)
Theorem journal_only_grows d d' : rtc anyone d d' → ∃ l, events d' = events d ++ l.
Proof.
  induction 1 as [d|d d1 d2 [r Hr] _ [l Hl]]; [exists []; by rewrite app_nil_r|].
  assert (∃ l1, events d1 = events d ++ l1) as [l1 Hl1].
  { destruct Hr; simpl; eauto using app_nil_r; try (exists []; by rewrite app_nil_r).
    exfalso. by eapply nobody_alters_the_journal. }
  exists (l1 ++ l). by rewrite Hl, Hl1, app_assoc.
Qed.

(** A [REVOKE] does not outlive a later [GRANT]: a migration that granted everything on the
    journal by mistake would be obeyed, the revocations of migrations 001 and 002 or not. *)
Example a_later_grant_prevails :
  may_after (migrations ++ [Grant [SELECT; INSERT; UPDATE; DELETE; TRUNCATE] audit_events_table audit_writer])
    audit_writer audit_events_table DELETE = true.
Proof. vm_compute. reflexivity. Qed.
