(* ===== verification/IdpGrpc.v ===== *)
(** * [apps/identity-provider/src/lib.rs]: the assertion verification service and the clock

    [verify_assertion], the gRPC handler that other components call to have an assertion
    verified, and the timestamps that both entries of the provider use.  The transport is
    not in the repository: the handler is a function of the accepted key, of the clock
    ([SystemTime::now()], in whole seconds since 1970, negative before) and of the message. *)

From S2P Require Import Prelude.
From S2P Require Import Json.
From S2P Require Import JsonCodec.
From S2P Require Import Aws.
From S2P Require Import Signer.
From S2P Require Import Common.
From S2P Require Import Calendar.
From S2P Require Import Suite.
From S2P Require Import IdentityAssertion.

(** ** The clock *)

(** A clock set before 1970 is an [expect] panic. *)
Definition unix_now_seconds {E} (clock : Z) : res Z E :=
  if clock <? 0 then Panic else Ok (wrap_i64 clock).

Definition civil_from_days (z : Z) : Z * Z * Z :=
  let z := z + 719468 in
  let era := z / 146097 in
  let doe := z mod 146097 in
  let yoe := (doe - doe / 1460 + doe / 36524 - doe / 146096) / 365 in
  let y := yoe + era * 400 in
  let doy := doe - (365 * yoe + yoe / 4 - yoe / 100) in
  let mp := (5 * doy + 2) / 153 in
  let d := doy - (153 * mp + 2) / 5 + 1 in
  let m := if mp <? 10 then mp + 3 else mp - 9 in
  let y := if m <=? 2 then y + 1 else y in
  (y, wrap_u32 m, wrap_u32 d).

Definition format_rfc3339 (total_seconds : Z) : string :=
  let days := total_seconds / 86400 in
  let seconds_of_day := total_seconds mod 86400 in
  let '(year, month, day) := civil_from_days days in
  let hour := seconds_of_day / 3600 in
  let minute := (seconds_of_day mod 3600) / 60 in
  let second := seconds_of_day mod 60 in
  from_utf8_bytes (Calendar.format_rfc3339 year month day hour minute second).

Definition rfc3339_now {E} (clock : Z) : res string E :=
  let! now := unix_now_seconds clock in Ok (format_rfc3339 now).

(** [i64] addition: an overflow is a panic where overflow checks are on (a build without
    them would wrap). *)
Definition add_i64 {E} (a b : Z) : res Z E :=
  if between i64_min (a + b) i64_max then Ok (a + b) else Panic.

Definition rfc3339_now_and_after {E} (clock ttl_seconds : Z) : res (string * string) E :=
  let! now := unix_now_seconds clock in
  let! after := add_i64 now ttl_seconds in
  Ok (format_rfc3339 now, format_rfc3339 after).

(** ** The service *)

(** [contracts/proto/identity/v1/assertion_verification.proto] *)
Record VerifyAssertionRequest := { rq_assertion : bytes; rq_expected_authority_domain : string }.
Record VerifyAssertionResponse := {
  valid : bool;
  reason : string;
  rs_subject_id : string;
  rs_aal : string;
  rs_auth_method : string;
  rs_audit_event_id : string;
}.

Definition ACCEPTED_SUITES : list string := [SUITE_V1].

Record AssertionVerifier := { verifier_key : AcceptedVerifyingKey }.

Definition verify_error_reason (e : VerifyError) : string :=
  match e with
  | UnknownSuite => "suite_inconnue"
  | MalformedKey => "cle_malformee"
  | TooLarge => "taille_excessive"
  | MalformedDocument => "document_malforme"
  | NonCanonical => "non_canonique"
  | InvalidSignatureArity => "arite_signature_incorrecte"
  | UnknownKeyId => "identifiant_de_cle_inconnu"
  | InvalidSignature => "signature_invalide"
  | UnexpectedAuthorityDomain => "domaine_dautorite_inattendu"
  | NotYetValidOrExpired => "expiree_ou_pas_encore_valide"
  end.

(** No [Status]: a refusal is an answer. *)
Inductive Status :=.

Definition verify_assertion `{SerdeJson, AwsLc} (self : AssertionVerifier) (clock : Z)
    (req : VerifyAssertionRequest) : res VerifyAssertionResponse Status :=
  let! now := rfc3339_now clock in
  let! now := expect (Timestamp_new now) in
  let policy := {| accepted_suites := ACCEPTED_SUITES; now := now;
                   expected_authority_domain := rq_expected_authority_domain req |} in
  match verify [verifier_key self] (rq_assertion req) policy with
  | Ok verified =>
      Ok {| valid := true; reason := ""; rs_subject_id := va_subject_id verified;
            rs_aal := va_aal verified; rs_auth_method := va_auth_method verified;
            rs_audit_event_id := va_audit_event_id verified |}
  | Err e =>
      Ok {| valid := false; reason := verify_error_reason e; rs_subject_id := ""; rs_aal := "";
            rs_auth_method := ""; rs_audit_event_id := "" |}
  | Panic => Panic
  end.

(** ** Lemmas *)

Lemma format_rfc3339_same s : format_rfc3339 s = Calendar.rfc3339_from_seconds s.
Proof. reflexivity. Qed.

Lemma wrap_i64_id z : in_i64 z → wrap_i64 z = z.
Proof.
  unfold in_i64, i64_min, i64_max, wrap_i64. intros Hz. rewrite Z.mod_small by lia. lia.
Qed.

Lemma four_digit_in_i64 s : Calendar.four_digit_years s → in_i64 s.
Proof. unfold Calendar.four_digit_years, in_i64, i64_min, i64_max. lia. Qed.

Lemma format_rfc3339_timestamp s :
  Calendar.four_digit_years s → ∃ t, Timestamp_new (format_rfc3339 s) = Ok t ∧ ts_str t = format_rfc3339 s.
Proof.
  intros Hs. apply Timestamp_new_accepts. rewrite format_rfc3339_same. by apply Calendar.rfc3339_timestamp_iff.
Qed.

Lemma unix_now_in_range {E} s :
  0 ≤ s ≤ i64_max → unix_now_seconds (E := E) s = Ok s.
Proof.
  intros Hs. unfold unix_now_seconds. rewrite (proj2 (Z.ltb_ge _ _)), wrap_i64_id by
    (unfold in_i64, i64_min in *; lia). done.
Qed.

Lemma rfc3339_now_in_range {E} s :
  0 ≤ s ≤ i64_max → rfc3339_now (E := E) s = Ok (format_rfc3339 s).
Proof. intros Hs. unfold rfc3339_now. by rewrite unix_now_in_range. Qed.

(** The order of texts is the order of times. *)
Lemma format_rfc3339_leb s t :
  Calendar.four_digit_years s → Calendar.four_digit_years t →
  String.leb (format_rfc3339 s) (format_rfc3339 t) = (s <=? t).
Proof.
  intros Hs Ht. unfold String.leb. rewrite !format_rfc3339_same, Calendar.rfc3339_order by done.
  unfold Z.leb. by destruct (s ?= t).
Qed.
Lemma format_rfc3339_ltb s t :
  Calendar.four_digit_years s → Calendar.four_digit_years t →
  String.ltb (format_rfc3339 s) (format_rfc3339 t) = (s <? t).
Proof.
  intros Hs Ht. unfold String.ltb. rewrite !format_rfc3339_same, Calendar.rfc3339_order by done.
  unfold Z.ltb. by destruct (s ?= t).
Qed.

Lemma verify_error_reason_nonempty e : verify_error_reason e ≠ "".
Proof. by destruct e. Qed.

(** The policy that the handler verifies under at a given second. *)
Definition policy_at (t : Timestamp) (domain : string) : AcceptancePolicy :=
  {| accepted_suites := ACCEPTED_SUITES; now := t; expected_authority_domain := domain |}.

(** ** Theorems *)

(** Until the year 9999 the service answers every message, whatever its bytes: the answer
    is valid exactly when some document satisfies the specification [accepted] of the
    suite for the service's key, the requested domain and the second of the clock, and
    then repeats that document's identity; otherwise it gives a reason and no identity.
    A clock outside these years (or before 1970) is a panic of the handler, never an
    answer. *)
Theorem verify_assertion_iff `{SerdeJsonLaws, AwsLc} self clock req (Hclock : clock ≤ i64_max) :
  if between 0 clock 253402300799
  then ∃ t resp, ts_str t = format_rfc3339 clock ∧ verify_assertion self clock req = Ok resp ∧
    (valid resp = true ↔ ∃ doc, accepted [verifier_key self] (rq_assertion req)
                           (policy_at t (rq_expected_authority_domain req)) doc) ∧
    (valid resp = true ↔ reason resp = "") ∧
    (∀ doc, accepted [verifier_key self] (rq_assertion req)
              (policy_at t (rq_expected_authority_domain req)) doc →
       resp = {| valid := true; reason := ""; rs_subject_id := w_subject_id doc;
                 rs_aal := w_aal doc; rs_auth_method := w_auth_method doc;
                 rs_audit_event_id := w_audit_event_id doc |}) ∧
    (valid resp = false → rs_subject_id resp = "" ∧ rs_aal resp = "" ∧
       rs_auth_method resp = "" ∧ rs_audit_event_id resp = "")
  else verify_assertion self clock req = Panic.
Proof.
  destruct (between 0 clock 253402300799) eqn:Hb; unfold between in Hb.
  - bool_simp. destruct (format_rfc3339_timestamp clock) as (t & Ht & Hts);
      [unfold Calendar.four_digit_years; lia|].
    unfold verify_assertion. rewrite rfc3339_now_in_range by (unfold i64_max; lia). cbn [res_bind].
    rewrite Ht. cbn [expect res_bind]. fold (policy_at t (rq_expected_authority_domain req)).
    exists t. destruct (verify _ _ _) as [va|e|] eqn:Hv.
    + apply verify_sound in Hv as (doc & Hacc & ->). eexists. split_and!; [done|done|..]; simpl; try done.
      * split; [by exists doc | done].
      * intros doc' Hacc'. destruct Hacc as [_ Hp _ _ _ _ _ _], Hacc' as [_ Hp' _ _ _ _ _ _].
        rewrite Hp in Hp'. by simplify_eq.
    + eexists. split_and!; [done|done|..]; simpl; try done.
      * split; [done|]. intros (doc & Hacc). apply verify_complete in Hacc. congruence.
      * split; [done|]. intros He. by apply verify_error_reason_nonempty in He.
      * intros doc Hacc. apply verify_complete in Hacc. congruence.
    + by apply verify_never_panics in Hv.
  - unfold verify_assertion, rfc3339_now, unix_now_seconds.
    destruct (clock <? 0) eqn:Hneg; [done|]. bool_simp. cbn [res_bind].
    rewrite wrap_i64_id by (unfold in_i64, i64_min; lia).
    rewrite Timestamp_new_rejects; [done|]. rewrite format_rfc3339_same.
    apply not_true_is_false. rewrite Calendar.rfc3339_timestamp_iff.
    unfold Calendar.four_digit_years. intros Hy. apply andb_false_iff in Hb as [Hb|Hb]; bool_simp; lia.
Qed.

Lemma verify_assertion_iff_witness :
  ∃ resp, verify_assertion {| verifier_key := ref_verifying_key |} 1784021400
    {| rq_assertion := as_bytes "{}"; rq_expected_authority_domain := "prod" |} = Ok resp ∧
    (valid resp = true ↔ reason resp = "").
Proof.
  pose proof (verify_assertion_iff {| verifier_key := ref_verifying_key |} 1784021400
    {| rq_assertion := as_bytes "{}"; rq_expected_authority_domain := "prod" |}) as Hthm.
  change (between 0 1784021400 253402300799) with true in Hthm. cbv iota in Hthm.
  destruct Hthm as (t & resp & _ & Hr & _ & Hv & _); [by cbv|].
  exists resp. split; [exact Hr | exact Hv].
Defined.
