(* ===== verification/IdpHttp.v ===== *)
(** * [apps/identity-provider/src/httpapi.rs]: the WebAuthn ceremony endpoints

    The four handlers and [seal_and_append_audit_event], as programs (file [Effects]) over
    the calls they await: the generator, the clock, the statements of [store.rs] (file
    [IdpStore]), the two sealers behind the HSM.  A handler is entered with the request
    that [axum] has decoded from the JSON body; the order of calls, of constructors and of
    early returns is that of the source.  Base64 is the parameter [Base64], the
    decoders of the attestation object are [Ciborium] and [Coset]. *)

From S2P Require Import Prelude.
From S2P Require Import Effects.
From S2P Require Import Json.
From S2P Require Import Serde.
From S2P Require Import JsonCodec.
From S2P Require Import Aws.
From S2P Require Import Common.
From S2P Require Import Chain.
From S2P Require Import IdentityAssertion.
From S2P Require Import AuditSeal.
From S2P Require Import AuthProof.
From S2P Require Import ClientData.
From S2P Require Import Cose.
From S2P Require Import Registration.
From S2P Require Import Authentication.
From S2P Require Import IdpStore.
From S2P Require Import IdpGrpc.

(** ** Calls *)

Inductive idp_call :=
(** [authenticator_proof::new_challenge()]; no random bytes is a panic *)
| NewChallenge
(** [SystemTime::now()] in whole seconds since 1970 *)
| Clock
(** [Uuid::now_v7().to_string()] *)
| NowV7
| IssueChallenge (challenge : bytes) (subject_id ceremony_kind : string) (ttl_seconds : Z)
| ConsumeChallenge (challenge : bytes) (expected_ceremony_kind : string)
| InsertAuthenticator (subject_id : string) (credential_id : bytes) (algorithm : Algorithm)
    (public_key : bytes) (sign_count : Z) (aaguid : bytes) (attestation_format : string)
    (counter_supported : bool)
| FindAuthenticator (credential_id : bytes)
| CredentialIdsForSubject (subject_id : string)
| AdvanceSignCount (credential_id : bytes) (received : Z)
| GetChainHead (authority_domain : string)
| Append (event_id : string) (sequence : Z) (occurred_at authority_domain event_type : string)
    (actor : value) (outcome prev_hash_hex : string) (signature : value) (sealed_bytes : bytes)
(** [spawn_blocking(|| sealer.seal(..))]; [Panic] is the panic of the blocking task *)
| SealAssertion (claims : AssertionClaims)
| SealEvent (fields : AuditEventFields).

Definition idp_answer (c : idp_call) : Type :=
  match c with
  | NewChallenge => res Challenge AuthProof.Error
  | Clock => Z
  | NowV7 => string
  | IssueChallenge _ _ _ _ => res unit SqlxError
  | ConsumeChallenge _ _ => res (option ConsumedChallenge) SqlxError
  | InsertAuthenticator _ _ _ _ _ _ _ _ => res unit SqlxError
  | FindAuthenticator _ => res (option AuthenticatorRow) SqlxError
  | CredentialIdsForSubject _ => res (list bytes) SqlxError
  | AdvanceSignCount _ _ => res bool SqlxError
  | GetChainHead _ => res ChainHead SqlxError
  | Append _ _ _ _ _ _ _ _ _ _ => res unit SqlxError
  | SealAssertion _ => res SealedAssertion IdentityAssertion.SealError
  | SealEvent _ => res SealedAuditEvent AuditSeal.SealError
  end.

#[export] Instance idp_signature : Signature := {| call := idp_call; answer := idp_answer |}.

(** ** Errors *)

Record ApiError := { status : Z; api_reason : string }.

Definition bad_request (reason : string) : ApiError := {| status := 400; api_reason := reason |}.
Definition unauthorized (reason : string) : ApiError := {| status := 401; api_reason := reason |}.
Definition internal : ApiError := {| status := 500; api_reason := "erreur_interne" |}.
Definition store_unavailable (e : SqlxError) : ApiError :=
  {| status := 503; api_reason := "base_de_donnees_indisponible" |}.
Definition sealing_unavailable {E} (e : E) : ApiError :=
  {| status := 503; api_reason := "scellement_indisponible" |}.

(** [IntoResponse for ApiError]: the status and the JSON body. *)
Definition into_response (e : ApiError) : Z * value :=
  (status e, Object [("reason", VString (api_reason e))]).

(** [to_string()] of the ceremony errors *)
Definition client_data_error_text (e : ClientData.Error) : string :=
  match e with
  | InvalidJson => "clientDataJSON n'est pas un JSON valide"
  | UnexpectedType found => "type de cérémonie inattendu : " +:+ found
  | UnexpectedOrigin found => "origine inattendue : " +:+ found
  | ChallengeMismatch => "challenge non concordant — rejoué ou falsifié"
  | InvalidChallengeEncoding => "challenge encodé en base64url invalide"
  end.
Definition cose_error_text (e : Cose.Error) : string :=
  match e with
  | Cose.InvalidCbor => "clé COSE malformée (CBOR invalide)"
  | UnsupportedKeyType => "type de clé COSE non supporté par authenticator-proof/v1"
  | MissingOrInvalidParameter => "paramètre de clé COSE manquant ou de longueur incorrecte"
  end.
Definition registration_error_text (e : RegistrationError) : string :=
  match e with
  | Registration.ClientDataError e => "clientDataJSON invalide : " +:+ client_data_error_text e
  | AttestationObjectTooLarge => "attestationObject dépasse la taille maximale acceptée"
  | Registration.InvalidCbor => "attestationObject n'est pas un CBOR valide"
  | MalformedAttestationObject =>
      "attestationObject : champ obligatoire manquant ou de type incorrect"
  | Registration.MalformedAuthenticatorData => "authenticatorData tronqué ou incohérent"
  | Registration.RpIdMismatch => "rpIdHash ne correspond pas au rpId attendu"
  | MissingAttestedCredentialData => "le drapeau attestedCredentialData n'est pas positionné"
  | Registration.UserNotPresent => "le drapeau user present (UP) n'est pas positionné"
  | CoseError e => "clé publique COSE invalide : " +:+ cose_error_text e
  | UnsupportedAttestationFormat fmt =>
      "format d'attestation '" +:+ fmt +:+ "' non supporté (seuls 'none' et 'packed' le sont)"
  | AttestationRequiredButAbsent =>
      "attestation exigée par la politique, mais absente (fmt: none)"
  | AttestationCertificateChainUnsupported =>
      "attestation 'packed' avec chaîne de certificats (x5c) non supportée"
  | MalformedAttestationStatement => "statement d'attestation 'packed' malformé"
  | InvalidAttestationSignature => "signature d'attestation invalide"
  end.

(** ** The state of the service *)

(** The stores and the two sealers are behind the calls. *)
Record AppState := {
  rp_id : string;
  st_origin : string;
  st_authority_domain : string;
  st_audience : string;
  challenge_ttl_seconds : Z;
  assertion_ttl_seconds : Z;
}.

(** ** Requests and responses *)

Record RegistrationChallengeRequest := { rcr_subject_id : string }.
Record ChallengeResponse := { cres_challenge : string; cres_rp_id : string; cres_expires_at : string }.
Record RegistrationVerifyRequest := { rv_client_data_json : string; rv_attestation_object : string }.
Record RegistrationVerifyResponse := { rvr_credential_id : string }.
Record AuthenticationChallengeRequest := { acr_subject_id : string }.
Record AuthenticationChallengeResponse := {
  ares_challenge : string;
  ares_rp_id : string;
  ares_expires_at : string;
  ares_allow_credentials : list string;
}.
Record AuthenticationVerifyRequest := {
  av_credential_id : string;
  av_client_data_json : string;
  av_authenticator_data : string;
  av_signature : string;
}.
Record AuthenticationVerifyResponse := { avr_assertion : string }.

(** ** Helpers *)

(** A statement of a store, its error mapped; a sealing task, its error and its panic mapped. *)
Definition stored {A} (r : res A SqlxError) : res A ApiError := map_err store_unavailable r.
Definition joined {A E} (r : res A E) : res A ApiError :=
  match r with
  | Ok a => Ok a
  | Err e => Err (sealing_unavailable e)
  | Panic => Err internal
  end.
Definition or_internal {A E} (r : res A E) : res A ApiError := map_err (λ _, internal) r.

(** A call whose answer is mapped by [f]. *)
Definition ask {A} (c : idp_call) (f : idp_answer c → res A ApiError) : prog (res A ApiError) :=
  prog_bind (trigger (c : call)) (λ x, Ret (f x)).

Definition b64_decode `{Base64} (field value : string) : res bytes ApiError :=
  ok_or (url_safe_decode value) (bad_request (field +:+ "_encodage_invalide")).

Definition b64_encode `{Base64} (bs : bytes) : string := url_safe_encode bs.

(** [struct Partial { challenge }], unknown members ignored. *)
Definition de_Partial (v : value) : option string :=
  fields ← struct_fields ["challenge"] false v;
  match fields with
  | [f1] => required de_string f1
  | _ => None
  end.

Definition presented_challenge_bytes `{SerdeJson, Base64} (client_data_json : bytes) :
    res bytes ApiError :=
  let! challenge := ok_or (from_slice client_data_json ≫= de_Partial)
                      (bad_request "client_data_json_invalide") in
  ok_or (url_safe_decode challenge) (bad_request "challenge_encodage_invalide").

Definition now_rfc3339 : prog (res string ApiError) := ask Clock rfc3339_now.

(** [for b in bytes { s.push_str(&format!("{b:02x}")) }] *)
Definition format_02x (b : u8) : list ascii := [digit (u8_val b / 16); digit (u8_val b mod 16)].
Definition hex_encode (bs : bytes) : string :=
  fold_left (λ s b, s +:+ from_utf8_bytes (format_02x b)) bs EmptyString.

Definition identity_assertion_challenge (bs : bytes) : res Challenge ApiError :=
  map_err (λ _, bad_request "challenge_invalide") (accept_challenge AuthProof.SUITE_V1 bs).

Definition event_type_str (t : EventType) : string :=
  match t with
  | AuthenticatorRegistered => "authenticator.registered"
  | AuditSeal.AuthenticatorRevoked => "authenticator.revoked"
  | AuthenticationAttempted => "authentication.attempted"
  | AuthenticationSucceeded => "authentication.succeeded"
  | AuthenticationFailed => "authentication.failed"
  | RecoveryInitiated => "recovery.initiated"
  | QuorumOperation => "quorum.operation"
  | AuditChainVerified => "audit.chain_verified"
  | PolicyDecided => "policy.decided"
  | CredentialIssued => "credential.issued"
  end.

Definition outcome_str (o : Outcome) : string :=
  match o with Success => "success" | Denied => "denied" | OError => "error" end.

Definition actor_json (subject_id : string) : value :=
  Object [("subject_id", VString subject_id); ("kind", VString "human")].

Definition signature_json (sealed : SealedAuditEvent) : value :=
  Object [("suite", VString (event_suite sealed))].

(** ** Audit events *)

(** The fields of an event from the head of the chain, the two texts drawn at run time and
    the arguments; every refused text is an internal error. *)
Definition event_fields (state : AppState) (head : ChainHead) (event_id_string now : string)
    (event_type : EventType) (subject_id : string) (target : option Target)
    (justification : option string) (outcome : Outcome) : res AuditEventFields ApiError :=
  let! event_id := or_internal (EventId_new event_id_string) in
  let! sequence := or_internal (Sequence_new (next_sequence head)) in
  let! occurred_at := or_internal (Timestamp_new now) in
  let! authority_domain := or_internal (AuthorityDomain_new (st_authority_domain state)) in
  let! subject := or_internal (SubjectId_new subject_id) in
  Ok {| AuditSeal.event_id := event_id; AuditSeal.sequence := sequence;
        AuditSeal.prev_hash := IdpStore.prev_hash head; AuditSeal.occurred_at := occurred_at;
        AuditSeal.authority_domain := authority_domain; AuditSeal.event_type := event_type;
        AuditSeal.actor := {| actor_subject_id := subject; actor_kind := Human;
                              actor_aal := None; actor_auth_method := None |};
        AuditSeal.target := target; AuditSeal.outcome := outcome;
        AuditSeal.context := (λ j, {| source_network := None; ticket_ref := None;
           justification := match Justification_new j with Ok t => Some t | _ => None end |})
           <$> justification;
        AuditSeal.decision := None |}.

(** [explicit_event_id_and_target.map(..)] with its two [expect]s *)
Definition explicit_target (o : option (string * string * string)) : res (option Target) ApiError :=
  try_opt (λ '(_, ty, id),
    let! target_type := expect (ShortText_new ty) in
    let! target_id := expect (ShortText_new id) in
    Ok {| target_type := target_type; target_id := target_id |}) o.

(** The body once the event's identifier is known. *)
Definition seal_and_append (state : AppState) (event_type : EventType) (subject_id : string)
    (explicit_event_id_and_target : option (string * string * string))
    (justification : option string) (outcome : Outcome) (head : ChainHead)
    (event_id_string : string) : prog (res unit ApiError) :=
  do! target := Ret (explicit_target explicit_event_id_and_target) in
  (* [EventId::new] and [Sequence::new] come before the clock is read *)
  do! _ := Ret (or_internal (EventId_new event_id_string)) in
  do! _ := Ret (or_internal (Sequence_new (next_sequence head))) in
  do! now := now_rfc3339 in
  do! fields := Ret (event_fields state head event_id_string now event_type subject_id target
                       justification outcome) in
  do! sealed := ask (SealEvent fields) joined in
  do! inserted_now := now_rfc3339 in
  ask (Append event_id_string (next_sequence head) inserted_now (st_authority_domain state)
         (event_type_str event_type) (actor_json subject_id) (outcome_str outcome)
         (hex_encode (IdpStore.prev_hash head)) (signature_json sealed) (event_as_bytes sealed))
    stored.

Definition seal_and_append_audit_event (state : AppState) (event_type : EventType)
    (subject_id : string) (explicit_event_id_and_target : option (string * string * string))
    (justification : option string) (outcome : Outcome) : prog (res unit ApiError) :=
  do! head := ask (GetChainHead (st_authority_domain state)) stored in
  do! event_id_string :=
    match explicit_event_id_and_target with
    | Some (id, _, _) => Ret (Ok id)
    | None => ask NowV7 Ok
    end in
  seal_and_append state event_type subject_id explicit_event_id_and_target justification outcome
    head event_id_string.

(** ** The handlers *)

Section handlers.
Context `{SerdeJson, Base64, AwsLc, Ciborium, Coset}.

Definition registration_challenge (state : AppState) (req : RegistrationChallengeRequest) :
    prog (res ChallengeResponse ApiError) :=
  do! challenge := ask NewChallenge expect in
  do! _ := ask (IssueChallenge (challenge_as_bytes challenge) (rcr_subject_id req) "registration"
                  (challenge_ttl_seconds state)) stored in
  do! (_, expires_at) := ask Clock (λ t, rfc3339_now_and_after t (challenge_ttl_seconds state)) in
  Ret (Ok {| cres_challenge := b64_encode (challenge_as_bytes challenge);
             cres_rp_id := rp_id state; cres_expires_at := expires_at |}).

Definition registration_verify (state : AppState) (req : RegistrationVerifyRequest) :
    prog (res RegistrationVerifyResponse ApiError) :=
  do! client_data_json := Ret (b64_decode "client_data_json" (rv_client_data_json req)) in
  do! attestation_object := Ret (b64_decode "attestation_object" (rv_attestation_object req)) in
  do! presented := Ret (presented_challenge_bytes client_data_json) in
  do! consumed := ask (ConsumeChallenge presented "registration") stored in
  do! consumed := Ret (ok_or consumed (bad_request "challenge_invalide")) in
  do! challenge := Ret (identity_assertion_challenge presented) in
  do! outcome := Ret (map_err
    (λ e, unauthorized ("cérémonie_invalide : " +:+ registration_error_text e))
    (verify_registration_ceremony {|
       Registration.client_data_json := client_data_json;
       Registration.attestation_object := attestation_object;
       Registration.expected_origin := st_origin state;
       Registration.expected_rp_id := rp_id state;
       Registration.expected_challenge := challenge;
       Registration.policy := Any |})) in
  let counter_supported := negb (Registration.sign_count outcome =? 0) in
  do! _ := ask (InsertAuthenticator (cc_subject_id consumed) (Registration.credential_id outcome)
                  (public_key_algorithm outcome) (public_key_raw outcome)
                  (Registration.sign_count outcome) (aaguid outcome) (attestation_format outcome)
                  counter_supported) stored in
  do! _ := seal_and_append_audit_event state AuthenticatorRegistered (cc_subject_id consumed)
             None None Success in
  Ret (Ok {| rvr_credential_id := b64_encode (Registration.credential_id outcome) |}).

Definition authentication_challenge (state : AppState) (req : AuthenticationChallengeRequest) :
    prog (res AuthenticationChallengeResponse ApiError) :=
  do! challenge := ask NewChallenge expect in
  do! _ := ask (IssueChallenge (challenge_as_bytes challenge) (acr_subject_id req) "authentication"
                  (challenge_ttl_seconds state)) stored in
  do! (_, expires_at) := ask Clock (λ t, rfc3339_now_and_after t (challenge_ttl_seconds state)) in
  do! credential_ids := ask (CredentialIdsForSubject (acr_subject_id req)) stored in
  Ret (Ok {| ares_challenge := b64_encode (challenge_as_bytes challenge); ares_rp_id := rp_id state;
             ares_expires_at := expires_at;
             ares_allow_credentials := b64_encode <$> credential_ids |}).

Definition credential_of_row (row : AuthenticatorRow) : RegisteredCredential := {|
  rc_subject_id := row_subject_id row; rc_credential_id := row_credential_id row;
  rc_public_key_algorithm := row_algorithm row; rc_public_key_raw := row_public_key row;
  counter_supported := row_counter_supported row; stored_sign_count := row_sign_count row;
  revoked := row_revoked row |}.

Definition assertion_claims (state : AppState) (claims : AuthenticationClaims)
    (event_id now expires_at : string) : res AssertionClaims ApiError :=
  let aal := match cl_aal claims with
             | Authentication.Aal1 => IdentityAssertion.Aal1
             | Authentication.Aal2 => IdentityAssertion.Aal2
             end in
  let! subject_id := or_internal (SubjectId_new (cl_subject_id claims)) in
  let! auth_method := or_internal (AuthMethod_new (cl_method claims)) in
  let! audience := or_internal (Audience_new (st_audience state)) in
  let! issued_at := or_internal (Timestamp_new now) in
  let! expires_at := or_internal (Timestamp_new expires_at) in
  let! audit_event_id := or_internal (EventId_new event_id) in
  Ok {| IdentityAssertion.authority_domain := st_authority_domain state;
        IdentityAssertion.subject_id := subject_id; IdentityAssertion.aal := aal;
        IdentityAssertion.auth_method := auth_method; IdentityAssertion.audience := audience;
        IdentityAssertion.issued_at := issued_at; IdentityAssertion.expires_at := expires_at;
        IdentityAssertion.audit_event_id := audit_event_id |}.

Definition authentication_verify (state : AppState) (req : AuthenticationVerifyRequest) :
    prog (res AuthenticationVerifyResponse ApiError) :=
  do! credential_id := Ret (b64_decode "credential_id" (av_credential_id req)) in
  do! client_data_json := Ret (b64_decode "client_data_json" (av_client_data_json req)) in
  do! authenticator_data := Ret (b64_decode "authenticator_data" (av_authenticator_data req)) in
  do! signature := Ret (b64_decode "signature" (av_signature req)) in
  do! presented := Ret (presented_challenge_bytes client_data_json) in
  do! consumed := ask (ConsumeChallenge presented "authentication") stored in
  do! _ := Ret (ok_or consumed (unauthorized "challenge_invalide")) in
  do! row := ask (FindAuthenticator credential_id) stored in
  do! row := Ret (ok_or row (unauthorized "authentification_refusee")) in
  do! challenge := Ret (identity_assertion_challenge presented) in
  let credential := credential_of_row row in
  do! claims := Ret (map_err (λ _, unauthorized "authentification_refusee")
    (verify_authentication_ceremony {|
       Authentication.client_data_json := client_data_json;
       Authentication.authenticator_data := authenticator_data;
       Authentication.signature := signature;
       Authentication.expected_origin := st_origin state;
       Authentication.expected_rp_id := rp_id state;
       Authentication.expected_challenge := challenge;
       Authentication.credential := credential |})) in
  do! advanced := ask (AdvanceSignCount (rc_credential_id credential) (cl_new_sign_count claims))
                    stored in
  if negb advanced
  then
    do! _ := seal_and_append_audit_event state AuthenticationFailed (cl_subject_id claims) None
               (Some "clonage_suspecte_compteur_concurrent") Denied in
    Ret (Err (unauthorized "authentification_refusee"))
  else
    do! event_id := ask NowV7 Ok in
    do! (now, expires_at) := ask Clock (λ t, rfc3339_now_and_after t (assertion_ttl_seconds state)) in
    do! assertion_claims := Ret (assertion_claims state claims event_id now expires_at) in
    do! sealed_assertion := ask (SealAssertion assertion_claims) joined in
    let digest_hex := hex_encode (IdentityAssertion.digest sealed_assertion) in
    do! _ := seal_and_append_audit_event state AuthenticationSucceeded (cl_subject_id claims)
               (Some (event_id, "identity_assertion", digest_hex)) None Success in
    Ret (Ok {| avr_assertion := b64_encode (sealed_as_bytes sealed_assertion) |}).

(** ** The router *)

Inductive ApiRequest :=
| RegistrationChallenge (req : RegistrationChallengeRequest)
| RegistrationVerify (req : RegistrationVerifyRequest)
| AuthenticationChallenge (req : AuthenticationChallengeRequest)
| AuthenticationVerify (req : AuthenticationVerifyRequest).

Inductive ApiResponse :=
| RegistrationChallenged (r : ChallengeResponse)
| RegistrationVerified (r : RegistrationVerifyResponse)
| AuthenticationChallenged (r : AuthenticationChallengeResponse)
| AuthenticationVerified (r : AuthenticationVerifyResponse).

(** The route of each request, all of them [POST]. *)
Definition route (r : ApiRequest) : string :=
  match r with
  | RegistrationChallenge _ => "/v1/webauthn/registration/challenge"
  | RegistrationVerify _ => "/v1/webauthn/registration/verify"
  | AuthenticationChallenge _ => "/v1/webauthn/authentication/challenge"
  | AuthenticationVerify _ => "/v1/webauthn/authentication/verify"
  end.

Definition reply {A} (f : A → ApiResponse) (p : prog (res A ApiError)) : prog (res ApiResponse ApiError) :=
  do! a := p in Ret (Ok (f a)).

Definition router (state : AppState) (r : ApiRequest) : prog (res ApiResponse ApiError) :=
  match r with
  | RegistrationChallenge req => reply RegistrationChallenged (registration_challenge state req)
  | RegistrationVerify req => reply RegistrationVerified (registration_verify state req)
  | AuthenticationChallenge req => reply AuthenticationChallenged (authentication_challenge state req)
  | AuthenticationVerify req => reply AuthenticationVerified (authentication_verify state req)
  end.
End handlers.
