(* ===== verification/IdpSpec.v ===== *)
(** * What the handlers of the identity provider do, one request at a time

    Specifications of the programs of [IdpHttp]: the exact trace of a request that succeeds
    ([audit_ok], [login_ok], [enrol_ok]), the discipline every request keeps on its calls
    ([allowed]), that each handler ends within a fixed number of calls, panics only after an
    answer that is not healthy and stops at the first call that fails, and that the texts
    the provider duplicates agree with their originals. *)

From S2P Require Import Prelude.
From S2P Require Import Effects.
From S2P Require Import Json.
From S2P Require Import Serde.
From S2P Require Import JsonCodec.
From S2P Require Import Aws.
From S2P Require Import Common.
From S2P Require Import Chain.
From S2P Require Import IdentityAssertion.
From S2P Require Import AuditSeal.
From S2P Require Import AuthProof.
From S2P Require Import ClientData.
From S2P Require Import Cose.
From S2P Require Import Registration.
From S2P Require Import Authentication.
From S2P Require Import Calendar.
From S2P Require Import AuditSealerApp.
From S2P Require Import IdpStore.
From S2P Require Import IdpGrpc.
From S2P Require Import IdpHttp.

(** Events of the provider. *)
Abbreviation idp_trace := (list (event (Σ := idp_signature))).
Definition saw (c : idp_call) (x : idp_answer c) : event (Σ := idp_signature) :=
  Ev (Σ := idp_signature) c x.

(** ** Duplicated texts *)

Lemma fold_app_string (f : u8 → string) bs s :
  fold_left (λ s b, s +:+ f b) bs s = s +:+ fold_left (λ s b, s +:+ f b) bs EmptyString.
Proof.
  revert s. induction bs as [|b bs IH]; intros s; simpl.
  - apply as_bytes_inj. by rewrite as_bytes_app, app_nil_r.
  - rewrite IH, (IH (EmptyString +:+ f b)). apply as_bytes_inj.
    by rewrite !as_bytes_app, app_assoc.
Qed.

Lemma hex_encode_same bs : IdpHttp.hex_encode bs = Common.hex_encode bs.
Proof.
  induction bs as [|b bs IH]; [done|]. unfold IdpHttp.hex_encode in *. cbn [fold_left].
  rewrite fold_app_string, IH. apply as_bytes_inj. unfold Common.hex_encode.
  rewrite !as_bytes_app, !as_bytes_of. done.
Qed.

Lemma event_type_str_same t : IdpHttp.event_type_str t = AuditSeal.event_type_str t.
Proof. by destruct t. Qed.
Lemma outcome_str_same o : IdpHttp.outcome_str o = AuditSeal.outcome_str o.
Proof. by destruct o. Qed.

(** ** Executions of a composed handler *)

Lemma run_ask {A} (c : idp_call) (f : idp_answer c → res A ApiError) tr r :
  run (ask c f) tr (Ret r) ↔ ∃ x, tr = [saw c x] ∧ f x = r.
Proof.
  unfold ask. rewrite run_prog_bind. split.
  - intros (x & tr1 & tr2 & -> & H1 & H2). apply run_trigger in H1 as ->.
    apply run_Ret in H2 as [-> <-]. by exists x.
  - intros (x & -> & <-). exists x, [saw c x], []. split_and!; [done | by apply run_trigger |].
    by apply run_Ret.
Qed.

Lemma run_ask_then {A B} (c : idp_call) (f : idp_answer c → res A ApiError)
    (k : A → prog (res B ApiError)) tr b :
  run (do! a := ask c f in k a) tr (Ret (Ok b)) ↔
  ∃ x a tr', tr = saw c x :: tr' ∧ f x = Ok a ∧ run (k a) tr' (Ret (Ok b)).
Proof.
  rewrite run_and_then_Ok. split.
  - intros (a & tr1 & tr2 & -> & H1 & H2). apply run_ask in H1 as (x & -> & Hx). by exists x, a, tr2.
  - intros (x & a & tr' & -> & Hx & H2). exists a, [saw c x], tr'. split_and!; [done | | done].
    apply run_ask. by exists x.
Qed.

Lemma run_ret_then {A B} (r : res A ApiError) (k : A → prog (res B ApiError)) tr b :
  run (do! a := Ret r in k a) tr (Ret (Ok b)) ↔ ∃ a, r = Ok a ∧ run (k a) tr (Ret (Ok b)).
Proof.
  rewrite run_and_then_Ok. split.
  - intros (a & tr1 & tr2 & -> & H1 & H2). apply run_Ret in H1 as [-> ->]. by exists a.
  - intros (a & -> & H2). exists a, [], tr. split_and!; [done | by apply run_Ret | done].
Qed.

Lemma stored_Ok {A} (r : res A SqlxError) a : stored r = Ok a ↔ r = Ok a.
Proof. apply map_err_Ok. Qed.
Lemma joined_Ok {A E} (r : res A E) a : joined r = Ok a ↔ r = Ok a.
Proof. destruct r; simpl; naive_solver. Qed.
Lemma expect_Ok {A E F} (r : res A E) a : expect (F := F) r = Ok a ↔ r = Ok a.
Proof. destruct r; simpl; naive_solver. Qed.

(** Take a successful execution apart, call by call. *)
Ltac run_step H :=
  lazymatch type of H with
  | run (and_then (ask _ _) _) _ _ =>
      let x := fresh "x" in let a := fresh "a" in let tr := fresh "tr" in let Hx := fresh "Hx" in
      apply run_ask_then in H as (x & a & tr & -> & Hx & H)
  | run (and_then (Ret _) _) _ _ =>
      let a := fresh "a" in let Ha := fresh "Ha" in apply run_ret_then in H as (a & Ha & H)
  | run (ask _ _) _ _ =>
      let x := fresh "x" in let Hx := fresh "Hx" in apply run_ask in H as (x & -> & Hx)
  | run (Ret _) _ _ => let Hr := fresh "Hr" in apply run_Ret in H as [-> Hr]
  end.

(** And put one together. *)
Ltac run_make :=
  lazymatch goal with
  | |- run (and_then (ask _ _) _) _ _ => apply run_ask_then; do 3 eexists; split_and!; [reflexivity|..]
  | |- run (and_then (Ret _) _) _ _ => apply run_ret_then; eexists; split
  | |- run (ask _ _) _ _ => apply run_ask; eexists; split; [reflexivity|]
  | |- run (Ret _) _ _ => apply run_Ret; split
  end.

(** ** Audit events *)

(** The trace of an audit event that was sealed and appended: head read, identifier drawn if
    none was given, clock read, event sealed, clock read again, row inserted. *)
Record audit_data := {
  ad_head : ChainHead;
  ad_event_id : string;
  ad_clock : Z;
  ad_fields : AuditEventFields;
  ad_sealed : SealedAuditEvent;
  ad_insert_clock : Z;
}.

Section audit.
Variables (state : AppState) (event_type : EventType) (subject_id : string)
  (explicit : option (string * string * string)) (justification : option string) (outcome : Outcome).

Definition append_call (d : audit_data) : idp_call :=
  Append (ad_event_id d) (next_sequence (ad_head d)) (format_rfc3339 (wrap_i64 (ad_insert_clock d)))
    (st_authority_domain state) (IdpHttp.event_type_str event_type) (actor_json subject_id)
    (IdpHttp.outcome_str outcome) (IdpHttp.hex_encode (IdpStore.prev_hash (ad_head d)))
    (signature_json (ad_sealed d)) (bytes_of (ad_sealed d)).

Definition audit_trace (d : audit_data) : idp_trace :=
  saw (GetChainHead (st_authority_domain state)) (Ok (ad_head d)) ::
  (match explicit with Some _ => [] | None => [saw NowV7 (ad_event_id d)] end) ++
  [saw Clock (ad_clock d); saw (SealEvent (ad_fields d)) (Ok (ad_sealed d));
   saw Clock (ad_insert_clock d); saw (append_call d) (Ok tt)].

Record audit_ok (d : audit_data) : Prop := {
  ok_event_id : ∀ id ty t, explicit = Some (id, ty, t) → ad_event_id d = id;
  ok_clocks : 0 ≤ ad_clock d ∧ 0 ≤ ad_insert_clock d;
  ok_fields : ∃ target, explicit_target explicit = Ok target ∧
    event_fields state (ad_head d) (ad_event_id d) (format_rfc3339 (wrap_i64 (ad_clock d)))
      event_type subject_id target justification outcome = Ok (ad_fields d);
}.

Lemma rfc3339_now_Ok {E} t s :
  rfc3339_now (E := E) t = Ok s ↔ 0 ≤ t ∧ s = format_rfc3339 (wrap_i64 t).
Proof.
  unfold rfc3339_now, unix_now_seconds. destruct (t <? 0) eqn:Ht; bool_simp; simpl.
  - split; [done | lia].
  - naive_solver.
Qed.

Lemma event_fields_parts head id now ty subj target just out f :
  event_fields state head id now ty subj target just out = Ok f →
  is_ok (or_internal (EventId_new id)) = true ∧
  is_ok (or_internal (Sequence_new (next_sequence head))) = true.
Proof.
  unfold event_fields. destruct (or_internal (EventId_new id)); simpl; [|done|done].
  destruct (or_internal (Sequence_new _)); simpl; done.
Qed.

Lemma is_ok_true {A E} (r : res A E) : is_ok r = true → ∃ a, r = Ok a.
Proof. destruct r; simpl; [eauto|done|done]. Qed.

(** The calls once the identifier is known. *)
Definition append_trace (d : audit_data) : idp_trace :=
  [saw Clock (ad_clock d); saw (SealEvent (ad_fields d)) (Ok (ad_sealed d));
   saw Clock (ad_insert_clock d); saw (append_call d) (Ok tt)].

Lemma append_run head id tr :
  run (seal_and_append state event_type subject_id explicit justification outcome head id) tr
    (Ret (Ok tt)) ↔
  ∃ d, tr = append_trace d ∧ ad_head d = head ∧ ad_event_id d = id ∧
    (0 ≤ ad_clock d ∧ 0 ≤ ad_insert_clock d) ∧
    ∃ target, explicit_target explicit = Ok target ∧
      event_fields state head id (format_rfc3339 (wrap_i64 (ad_clock d))) event_type subject_id
        target justification outcome = Ok (ad_fields d).
Proof.
  unfold seal_and_append, now_rfc3339. split.
  - intros H. do 4 run_step H. apply rfc3339_now_Ok in Hx as [Hc ->].
    do 4 run_step H. apply joined_Ok in Hx as ->. apply rfc3339_now_Ok in Hx0 as [Hc' ->].
    apply stored_Ok in Hx1 as ->.
    exists {| ad_head := head; ad_event_id := id; ad_clock := x; ad_fields := a2; ad_sealed := a3;
              ad_insert_clock := x1 |}. split; [done|]. simpl. eauto 10.
  - intros (d & -> & <- & <- & [Hc Hc'] & target & Ht & Hf). unfold append_trace.
    destruct (event_fields_parts _ _ _ _ _ _ _ _ _ Hf) as [(? & He)%is_ok_true (? & Hs)%is_ok_true].
    do 3 (run_make; [eassumption|]). run_make; [by apply rfc3339_now_Ok|].
    run_make; [eassumption|]. run_make; [by apply joined_Ok|].
    run_make; [by apply rfc3339_now_Ok|]. by run_make.
Qed.

Lemma audit_run tr :
  run (seal_and_append_audit_event state event_type subject_id explicit justification outcome) tr
    (Ret (Ok tt)) ↔ ∃ d, tr = audit_trace d ∧ audit_ok d.
Proof.
  unfold seal_and_append_audit_event. split.
  - intros H. run_step H. apply stored_Ok in Hx as ->. unfold audit_trace.
    destruct explicit as [[[i ty] t]|] eqn:Hex; run_step H; simplify_eq; rewrite <- Hex in H;
      apply append_run in H as (d & -> & <- & He & Hc & Ht); exists d; rewrite ?He.
    + split; [done|]. constructor; [|done|by rewrite He]. by rewrite Hex; intros ??? [= -> _ _].
    + split; [done|]. constructor; [|done|by rewrite He]. by rewrite Hex.
  - intros (d & -> & [Hid Hc Ht]). unfold audit_trace.
    run_make; [by apply stored_Ok|].
    assert (run (seal_and_append state event_type subject_id explicit justification outcome
      (ad_head d) (ad_event_id d)) (append_trace d) (Ret (Ok tt))) as Hrest
      by (apply append_run; by exists d).
    destruct explicit as [[[i ty] t]|] eqn:Hex.
    + rewrite <- (Hid i ty t eq_refl). run_make; [done|]. done.
    + run_make; [done|]. done.
Qed.
End audit.

(** ** Registration and login *)

Section ceremonies.
Context `{SerdeJson, Base64, AwsLc, Ciborium, Coset}.
Variable state : AppState.

(** A login that succeeds: what was decoded, read, drawn, sealed. *)
Record login_data := {
  ld_credential_id : bytes;
  ld_client_data : bytes;
  ld_auth_data : bytes;
  ld_signature : bytes;
  ld_presented : bytes;
  ld_consumed : ConsumedChallenge;
  ld_row : AuthenticatorRow;
  ld_claims : AuthenticationClaims;
  ld_event_id : string;
  ld_clock : Z;
  ld_assertion : AssertionClaims;
  ld_sealed : SealedAssertion;
  ld_audit : audit_data;
}.

(** The identifier, type and hash that tie the event to the assertion. *)
Definition login_target (d : login_data) : option (string * string * string) :=
  Some (ld_event_id d, "identity_assertion", IdpHttp.hex_encode (IdentityAssertion.digest (ld_sealed d))).

Definition login_trace (d : login_data) : idp_trace :=
  saw (ConsumeChallenge (ld_presented d) "authentication") (Ok (Some (ld_consumed d))) ::
  saw (FindAuthenticator (ld_credential_id d)) (Ok (Some (ld_row d))) ::
  saw (AdvanceSignCount (row_credential_id (ld_row d)) (cl_new_sign_count (ld_claims d))) (Ok true) ::
  saw NowV7 (ld_event_id d) ::
  saw Clock (ld_clock d) ::
  saw (SealAssertion (ld_assertion d)) (Ok (ld_sealed d)) ::
  audit_trace state AuthenticationSucceeded (cl_subject_id (ld_claims d)) (login_target d) Success
    (ld_audit d).

Definition ceremony_input (d : login_data) (c : Challenge) : AuthenticationCeremonyInput := {|
  Authentication.client_data_json := ld_client_data d;
  Authentication.authenticator_data := ld_auth_data d;
  Authentication.signature := ld_signature d;
  Authentication.expected_origin := st_origin state;
  Authentication.expected_rp_id := rp_id state;
  Authentication.expected_challenge := c;
  Authentication.credential := credential_of_row (ld_row d) |}.

Record login_ok (req : AuthenticationVerifyRequest) (d : login_data) : Prop := {
  lk_decoded : url_safe_decode (av_credential_id req) = Some (ld_credential_id d) ∧
    url_safe_decode (av_client_data_json req) = Some (ld_client_data d) ∧
    url_safe_decode (av_authenticator_data req) = Some (ld_auth_data d) ∧
    url_safe_decode (av_signature req) = Some (ld_signature d);
  lk_presented : presented_challenge_bytes (ld_client_data d) = Ok (ld_presented d);
  lk_ceremony : len (ld_presented d) = 32 ∧
    verify_authentication_ceremony (ceremony_input d {| ch_bytes := ld_presented d |}) =
      Ok (ld_claims d);
  lk_assertion : ∃ now after,
    rfc3339_now_and_after (E := ApiError) (ld_clock d) (assertion_ttl_seconds state) = Ok (now, after) ∧
    assertion_claims state (ld_claims d) (ld_event_id d) now after = Ok (ld_assertion d);
  lk_audit : audit_ok state AuthenticationSucceeded (cl_subject_id (ld_claims d)) (login_target d)
    None Success (ld_audit d);
}.

Lemma b64_decode_Ok field s bs : b64_decode field s = Ok bs ↔ url_safe_decode s = Some bs.
Proof. apply ok_or_Ok. Qed.

Lemma identity_challenge_Ok bs c :
  identity_assertion_challenge bs = Ok c ↔ len bs = 32 ∧ c = {| ch_bytes := bs |}.
Proof.
  unfold identity_assertion_challenge. rewrite map_err_Ok, accept_challenge_Ok. naive_solver.
Qed.

Lemma run_then_Err {A B} (p : prog (res A ApiError)) (e : ApiError) tr (b : B) :
  ¬ run (do! _ := p in Ret (Err e)) tr (Ret (Ok b)).
Proof. rewrite run_and_then_Ok. intros (a & tr1 & tr2 & _ & _ & H'). by apply run_Ret in H' as [_ ?]. Qed.

(** [authentication_verify] answers with an assertion exactly after this trace. *)
Lemma login_run req resp tr :
  run (authentication_verify state req) tr (Ret (Ok resp)) ↔
  ∃ d, tr = login_trace d ∧ login_ok req d ∧
    resp = {| avr_assertion := b64_encode (IdentityAssertion.bytes_of (ld_sealed d)) |}.
Proof.
  unfold authentication_verify. split.
  - intros Hr. do 10 run_step Hr. cbv zeta in Hr. do 2 run_step Hr.
    repeat match goal with
    | Hd : b64_decode _ _ = Ok _ |- _ => apply b64_decode_Ok in Hd
    | Hd : stored _ = Ok _ |- _ => apply stored_Ok in Hd as ->
    | Hd : ok_or _ _ = Ok _ |- _ => apply ok_or_Ok in Hd as ->
    | Hd : identity_assertion_challenge _ = Ok _ |- _ => apply identity_challenge_Ok in Hd as [Hlen ->]
    | Hd : map_err _ (verify_authentication_ceremony _) = Ok _ |- _ => apply map_err_Ok in Hd
    end.
    destruct a10; cbn [negb] in Hr; [|by apply run_then_Err in Hr].
    run_step Hr. injection Hx as ->. run_step Hr. destruct a6 as [now after]. do 2 run_step Hr.
    apply joined_Ok in Hx0 as ->. apply run_and_then_Ok in Hr as ([] & tr3 & tr4 & -> & Haud & Hr).
    apply audit_run in Haud as (ad & -> & Had). run_step Hr. simplify_eq.
    eexists {| ld_credential_id := a; ld_client_data := a0; ld_auth_data := a1; ld_signature := a2;
      ld_presented := a3; ld_consumed := a5; ld_row := _; ld_claims := a9; ld_event_id := _;
      ld_clock := _; ld_assertion := _; ld_sealed := _; ld_audit := ad |}.
    split; [unfold login_trace; by rewrite app_nil_r|]. split; [|done].
    constructor; simpl; eauto.
  - intros (d & -> & [(H1' & H2' & H3' & H4') Hp [Hlen Hcer] (now & after & Hn & Ha) Had] & ->).
    do 4 (run_make; [by apply b64_decode_Ok|]). run_make; [done|].
    run_make; [by apply stored_Ok|]. run_make; [done|]. run_make; [by apply stored_Ok|].
    run_make; [done|]. run_make; [by apply identity_challenge_Ok|]. cbv zeta.
    run_make; [by apply map_err_Ok, Hcer|]. run_make; [by apply stored_Ok|]. cbn [negb].
    run_make; [done|]. run_make; [exact Hn|]. cbv beta iota. run_make; [exact Ha|]. run_make; [by apply joined_Ok|].
    apply run_and_then_Ok. exists tt, (audit_trace state AuthenticationSucceeded
      (cl_subject_id (ld_claims d)) (login_target d) Success (ld_audit d)), [].
    split; [by rewrite app_nil_r|]. split; [apply audit_run; by exists (ld_audit d)|]. by run_make.
Qed.

(** A registration that succeeds. *)
Record enrol_data := {
  ed_client_data : bytes;
  ed_attestation : bytes;
  ed_presented : bytes;
  ed_consumed : ConsumedChallenge;
  ed_outcome : RegistrationOutcome;
  ed_audit : audit_data;
}.

Definition enrol_trace (d : enrol_data) : idp_trace :=
  let o := ed_outcome d in
  saw (ConsumeChallenge (ed_presented d) "registration") (Ok (Some (ed_consumed d))) ::
  saw (InsertAuthenticator (cc_subject_id (ed_consumed d)) (Registration.credential_id o)
         (public_key_algorithm o) (public_key_raw o) (Registration.sign_count o) (aaguid o)
         (attestation_format o) (negb (Registration.sign_count o =? 0))) (Ok tt) ::
  audit_trace state AuthenticatorRegistered (cc_subject_id (ed_consumed d)) None Success (ed_audit d).

Definition registration_input (client_data attestation : bytes) (c : Challenge) :
    RegistrationCeremonyInput := {|
  Registration.client_data_json := client_data;
  Registration.attestation_object := attestation;
  Registration.expected_origin := st_origin state;
  Registration.expected_rp_id := rp_id state;
  Registration.expected_challenge := c;
  Registration.policy := Any |}.

Record enrol_ok (req : RegistrationVerifyRequest) (d : enrol_data) : Prop := {
  ek_decoded : url_safe_decode (rv_client_data_json req) = Some (ed_client_data d) ∧
    url_safe_decode (rv_attestation_object req) = Some (ed_attestation d);
  ek_presented : presented_challenge_bytes (ed_client_data d) = Ok (ed_presented d);
  ek_ceremony : len (ed_presented d) = 32 ∧
    verify_registration_ceremony (registration_input (ed_client_data d) (ed_attestation d)
      {| ch_bytes := ed_presented d |}) = Ok (ed_outcome d);
  ek_audit : audit_ok state AuthenticatorRegistered (cc_subject_id (ed_consumed d)) None None Success
    (ed_audit d);
}.

(** [registration_verify] answers with a credential exactly after this trace. *)
Lemma enrol_run req resp tr :
  run (registration_verify state req) tr (Ret (Ok resp)) ↔
  ∃ d, tr = enrol_trace d ∧ enrol_ok req d ∧
    resp = {| rvr_credential_id := b64_encode (Registration.credential_id (ed_outcome d)) |}.
Proof.
  unfold registration_verify. split.
  - intros Hr. do 7 run_step Hr. cbv zeta in Hr. run_step Hr.
    repeat match goal with
    | Hd : b64_decode _ _ = Ok _ |- _ => apply b64_decode_Ok in Hd
    | Hd : stored _ = Ok _ |- _ => apply stored_Ok in Hd as ->
    | Hd : ok_or _ _ = Ok _ |- _ => apply ok_or_Ok in Hd as ->
    | Hd : identity_assertion_challenge _ = Ok _ |- _ => apply identity_challenge_Ok in Hd as [Hlen ->]
    | Hd : map_err _ (verify_registration_ceremony _) = Ok _ |- _ => apply map_err_Ok in Hd
    | u : unit |- _ => destruct u
    end.
    apply run_and_then_Ok in Hr as ([] & tr3 & tr4 & -> & Haud & Hr).
    apply audit_run in Haud as (ad & -> & Had). run_step Hr. simplify_eq.
    eexists {| ed_client_data := _; ed_attestation := _; ed_presented := _; ed_consumed := _;
      ed_outcome := _; ed_audit := ad |}.
    split; [unfold enrol_trace; by rewrite app_nil_r|]. split; [|done].
    constructor; simpl; eauto.
  - intros (d & -> & [[H1' H2'] Hp [Hlen Hcer] Had] & ->).
    do 2 (run_make; [by apply b64_decode_Ok|]). run_make; [done|].
    run_make; [by apply stored_Ok|]. run_make; [done|].
    run_make; [by apply identity_challenge_Ok|]. run_make; [by apply map_err_Ok, Hcer|]. cbv zeta.
    run_make; [by apply stored_Ok|].
    apply run_and_then_Ok. exists tt, (audit_trace state AuthenticatorRegistered
      (cc_subject_id (ed_consumed d)) None Success (ed_audit d)), [].
    split; [by rewrite app_nil_r|]. split; [apply audit_run; by exists (ed_audit d)|]. by run_make.
Qed.

(** ** The discipline of the calls *)

(** A row is appended only for an event that this request had sealed, at the head that it
    had read, with columns that repeat what is sealed; the journal is read for the
    provider's own domain; an authenticator is registered for the subject of a consumed
    challenge, a counter is advanced after a consumed challenge for an authenticator that
    was found, and an assertion is sealed only after its counter was advanced. *)
Definition matches_row (f : AuditEventFields) (ev : SealedAuditEvent) (head : ChainHead) (c : idp_call) : Prop :=
  match c with
  | Append id seq at_ dom ty actor out ph sig bs =>
      uuid_str (AuditSeal.event_id f) = id ∧ seq_value (AuditSeal.sequence f) = seq ∧
      next_sequence head = seq ∧ AuditSeal.prev_hash f = IdpStore.prev_hash head ∧
      as_str (AuditSeal.authority_domain f) = dom ∧ dom = st_authority_domain state ∧
      AuditSeal.event_type_str (AuditSeal.event_type f) = ty ∧
      actor = actor_json (as_str (actor_subject_id (AuditSeal.actor f))) ∧
      AuditSeal.outcome_str (AuditSeal.outcome f) = out ∧
      ph = Common.hex_encode (IdpStore.prev_hash head) ∧ bs = bytes_of ev ∧ AuditSeal.decision f = None
  | _ => False
  end.

(** The columns of a registration: a key of the suite, an identifier whose length is a
    [u16], an AAGUID, and the flag that freezes whether the counter means something. *)
Definition storable (id : bytes) (alg : Algorithm) (pk : bytes) (n : Z) (ag : bytes) (sup : bool) : Prop :=
  accept_key AuthProof.SUITE_V1 {| pkm_algorithm := alg; pkm_raw := pk |} =
    Ok {| ak_algorithm := alg; ak_raw := pk |} ∧
  len id < 2 ^ 16 ∧ len ag = 16 ∧ sup = negb (n =? 0).

Definition allowed (past : idp_trace) (c : idp_call) : Prop :=
  match c with
  | Append _ _ _ _ _ _ _ _ _ _ => ∃ head f ev,
      saw (GetChainHead (st_authority_domain state)) (Ok head) ∈ past ∧
      saw (SealEvent f) (Ok ev) ∈ past ∧ matches_row f ev head c
  | GetChainHead dom => dom = st_authority_domain state
  | SealEvent f => ∃ head, saw (GetChainHead (st_authority_domain state)) (Ok head) ∈ past ∧
      AuditSeal.prev_hash f = IdpStore.prev_hash head ∧ AuditSeal.decision f = None
  | IssueChallenge ch _ _ ttl => ttl = challenge_ttl_seconds state ∧ ∃ c,
      saw NewChallenge (Ok c) ∈ past ∧ ch = challenge_as_bytes c
  | InsertAuthenticator subj id alg pk n ag _ sup =>
      in_u32 n ∧ storable id alg pk n ag sup ∧ ∃ ch cc,
      saw (ConsumeChallenge ch "registration") (Ok (Some cc)) ∈ past ∧ subj = cc_subject_id cc
  | AdvanceSignCount id n => in_u32 n ∧ ∃ ch cc cid row,
      saw (ConsumeChallenge ch "authentication") (Ok (Some cc)) ∈ past ∧
      saw (FindAuthenticator cid) (Ok (Some row)) ∈ past ∧ id = row_credential_id row
  | SealAssertion claims => ∃ cid row n,
      saw (FindAuthenticator cid) (Ok (Some row)) ∈ past ∧
      saw (AdvanceSignCount (row_credential_id row) n) (Ok true) ∈ past ∧
      row_revoked row = false ∧ as_str (IdentityAssertion.subject_id claims) = row_subject_id row
  | _ => True
  end.

(** What the fields of an event are made of. *)
Lemma event_fields_Ok head id now ty subj target just out f :
  event_fields state head id now ty subj target just out = Ok f →
  uuid_str (AuditSeal.event_id f) = id ∧ seq_value (AuditSeal.sequence f) = next_sequence head ∧
  AuditSeal.prev_hash f = IdpStore.prev_hash head ∧ ts_str (AuditSeal.occurred_at f) = now ∧
  as_str (AuditSeal.authority_domain f) = st_authority_domain state ∧
  AuditSeal.event_type f = ty ∧ as_str (actor_subject_id (AuditSeal.actor f)) = subj ∧
  AuditSeal.target f = target ∧ AuditSeal.outcome f = out ∧ AuditSeal.decision f = None.
Proof.
  unfold event_fields, or_internal. intros Hf. ok_inv.
  repeat match goal with
  | H : EventId_new _ = Ok _ |- _ => apply uuid_new_iff in H
  | H : Timestamp_new _ = Ok _ |- _ => apply Timestamp_new_iff in H
  | H : Sequence_new ?n = Ok ?s |- _ => apply (inverts_Sequence n s) in H
  | H : AuthorityDomain_new _ = Ok _ |- _ => apply ascii_text_new_iff in H
  | H : SubjectId_new _ = Ok _ |- _ => apply ascii_text_new_iff in H
  end. simplify_eq. done.
Qed.

(** ** Walking a handler with the program logic *)

(** Answers of a healthy environment: random bytes, a clock that is neither before 1970 nor
    beyond the texts of timestamps, database errors as errors.  Everything else may fail. *)
Definition healthy (e : event (Σ := idp_signature)) : Prop :=
  match e with
  | existT c x =>
      (match c return idp_answer c → Prop with
       | NewChallenge => λ r, is_ok r = true
       | Clock => λ t, 0 ≤ t ≤ i64_max ∧ in_i64 (t + challenge_ttl_seconds state) ∧
                       in_i64 (t + assertion_ttl_seconds state)
       | NowV7 => λ _, True
       | IssueChallenge _ _ _ _ => λ r, r ≠ Panic
       | ConsumeChallenge _ _ => λ r, r ≠ Panic
       | InsertAuthenticator _ _ _ _ _ _ _ _ => λ r, r ≠ Panic
       | FindAuthenticator _ => λ r, r ≠ Panic
       | CredentialIdsForSubject _ => λ r, r ≠ Panic
       | AdvanceSignCount _ _ => λ r, r ≠ Panic
       | GetChainHead _ => λ r, r ≠ Panic
       | Append _ _ _ _ _ _ _ _ _ _ => λ r, r ≠ Panic
       | SealAssertion _ => λ _, True
       | SealEvent _ => λ _, True
       end) x
  end.

(** The statuses of the errors of the service; a panic comes right after an answer that is
    not healthy. *)
Definition api_statuses : list Z := [400; 401; 500; 503].
Definition settled {A} (r : res A ApiError) : Prop :=
  match r with Ok _ => True | Err e => status e ∈ api_statuses | Panic => False end.
Definition tame {A} (c : idp_call) (f : idp_answer c → res A ApiError) : Prop :=
  ∀ x, match f x with
       | Ok _ => True
       | Err e => status e ∈ api_statuses
       | Panic => ¬ healthy (saw c x)
       end.
Definition well_answered {A} (tr : idp_trace) (r : res A ApiError) : Prop :=
  match r with
  | Ok _ => True
  | Err e => status e ∈ api_statuses
  | Panic => ∃ tr' e, tr = tr' ++ [e] ∧ ¬ healthy e
  end.

(** Whatever the answers, the calls are allowed and the result is one of the service's. *)
Abbreviation kept p past :=
  (wp (Σ := idp_signature) allowed (λ _ _, True) p past well_answered).

Lemma kept_ask {A} (c : idp_call) (f : idp_answer c → res A ApiError) past :
  tame c f → allowed past c → kept (ask c f) past.
Proof.
  intros Hf Hc. split; [done|]. intros x _. specialize (Hf x). simpl. unfold well_answered.
  destruct (f x); [done|done|]. by eexists _, _.
Qed.

Lemma kept_then {A B} (p : prog (res A ApiError)) (k : A → prog (res B ApiError)) past :
  kept p past → (∀ tr a, kept (k a) tr) → kept (and_then p k) past.
Proof.
  intros Hp Hk. apply wp_and_then. eapply wp_mono; [|exact Hp]. intros tr [a|e|]; [by auto|done..].
Qed.

Lemma kept_ask_then {A B} (c : idp_call) (f : idp_answer c → res A ApiError)
    (k : A → prog (res B ApiError)) past :
  tame c f → allowed past c → (∀ x a, f x = Ok a → kept (k a) (past ++ [saw c x])) →
  kept (and_then (ask c f) k) past.
Proof.
  intros Hf Hc Hk. split; [done|]. intros x _. specialize (Hf x). specialize (Hk x). simpl.
  destruct (f x); [by apply Hk|done|]. by eexists _, _.
Qed.

Lemma kept_ret_then {A B} (r : res A ApiError) (k : A → prog (res B ApiError)) past :
  settled r → (∀ a, r = Ok a → kept (k a) past) → kept (and_then (Ret r) k) past.
Proof. destruct r; simpl; [intros _ Hk; by apply Hk|done|done]. Qed.

(** Every answer a handler maps is settled, or tame. *)
Lemma settled_map_err {A E} (f : E → ApiError) (r : res A E) :
  r ≠ Panic → (∀ e, status (f e) ∈ api_statuses) → settled (map_err f r).
Proof. destruct r; simpl; auto. Qed.
Lemma settled_ok_or {A} (o : option A) e : status e ∈ api_statuses → settled (ok_or o e).
Proof. destruct o; simpl; auto. Qed.
Lemma settled_or_internal {A E} (r : res A E) : r ≠ Panic → settled (or_internal r).
Proof. intros Hr. apply settled_map_err; [done|]. intros _. set_solver. Qed.
Lemma settled_bind {A B} (r : res A ApiError) (f : A → res B ApiError) :
  settled r → (∀ a, r = Ok a → settled (f a)) → settled (res_bind r f).
Proof. destruct r; simpl; auto. Qed.

Lemma tame_settled {A} (c : idp_call) (f : idp_answer c → res A ApiError) :
  (∀ x, healthy (saw c x) → settled (f x)) → (∀ x e, f x = Err e → status e ∈ api_statuses) → tame c f.
Proof.
  intros Hs He x. specialize (Hs x). specialize (He x). destruct (f x); [done|by apply He|]. done.
Qed.
Lemma tame_joined {A E} (c : idp_call) (f : idp_answer c → res A E) : tame c (λ x, joined (f x)).
Proof. intros x. destruct (f x); simpl; set_solver. Qed.
Lemma tame_Ok {A} (c : idp_call) (f : idp_answer c → A) : tame c (λ x, Ok (f x)).
Proof. done. Qed.

Lemma tame_stored {A} (c : idp_call) (f : idp_answer c → res A SqlxError) :
  (∀ x, healthy (saw c x) → f x ≠ Panic) → tame c (λ x, stored (f x)).
Proof.
  intros Hf. apply tame_settled.
  - intros x Hx. apply settled_map_err; [by apply Hf|]. intros e. simpl. set_solver.
  - intros x e. unfold stored. destruct (f x); simpl; [done| |done]. intros [= <-]. set_solver.
Qed.

Lemma rfc3339_now_healthy x : healthy (saw Clock x) → rfc3339_now (E := ApiError) x = Ok (format_rfc3339 x).
Proof. intros [Hx _]. by apply rfc3339_now_in_range. Qed.

Lemma tame_now : tame Clock rfc3339_now.
Proof.
  apply tame_settled; [intros x Hx; by rewrite rfc3339_now_healthy|].
  intros x e. unfold rfc3339_now, unix_now_seconds. by destruct (_ <? 0).
Qed.

Lemma tame_now_and_after ttl :
  ttl = challenge_ttl_seconds state ∨ ttl = assertion_ttl_seconds state →
  tame Clock (λ x, rfc3339_now_and_after x ttl).
Proof.
  intros Httl. apply tame_settled.
  - intros x [Hx [Hc Ha]]. unfold rfc3339_now_and_after, add_i64. rewrite unix_now_in_range by done.
    cbn [res_bind]. assert (between i64_min (x + ttl) i64_max = true) as ->; [|done].
    unfold between, in_i64 in *. apply andb_true_iff. rewrite !Z.leb_le. destruct Httl as [-> | ->]; lia.
  - intros x e. unfold rfc3339_now_and_after, unix_now_seconds, add_i64.
    destruct (_ <? 0); [done|]. cbn [res_bind]. by destruct (between _ _ _).
Qed.

Lemma tame_new_challenge : tame NewChallenge expect.
Proof. intros [c|e|]; simpl; [done|by intros [=]|by intros [=]]. Qed.

(** The steps of a handler, by the form of its next step; the side conditions are closed by
    the lemmas on answers or left. *)
Ltac tame_tac :=
  first
  [ assumption | exact I | apply tame_Ok | lazymatch goal with |- tame ?c _ => exact (tame_joined c (λ x : idp_answer c, x)) end | apply tame_now
  | apply tame_new_challenge
  | lazymatch goal with |- tame ?c _ => exact (tame_stored c (λ x : idp_answer c, x) (λ x Hx, Hx)) end
  | apply tame_now_and_after; first [by left | by right]
  | apply settled_ok_or; set_solver | apply settled_or_internal; no_panic_step
  | apply settled_map_err; [|intros ?; simpl; set_solver] | idtac ].
Ltac kept_step :=
  lazymatch goal with
  | |- wp _ _ (and_then (ask ?c ?f) _) _ _ =>
      let x := fresh "x" in let a := fresh "a" in let Hx := fresh "Hx" in
      apply kept_ask_then; [tame_tac|try exact I|intros x a Hx]
  | |- wp _ _ (and_then (Ret ?r) _) _ _ =>
      let a := fresh "a" in let Hr := fresh "Hr" in
      apply kept_ret_then; [tame_tac|intros a Hr]
  | |- wp _ _ (ask ?c ?f) _ _ => apply kept_ask; [tame_tac|try exact I]
  | |- wp _ _ (Ret (Ok _)) _ _ => exact I
  end.

Lemma event_fields_settled head id now ty subj target just out :
  settled (event_fields state head id now ty subj target just out).
Proof.
  unfold event_fields.
  repeat (apply settled_bind; [apply settled_or_internal; no_panic_step|intros ? _]). exact I.
Qed.

Lemma kept_append head id ty subj explicit just out past :
  settled (explicit_target explicit) →
  saw (GetChainHead (st_authority_domain state)) (Ok head) ∈ past →
  kept (seal_and_append state ty subj explicit just out head id) past.
Proof.
  intros Hex Hhead. unfold seal_and_append, now_rfc3339. do 4 kept_step.
  apply kept_ret_then; [apply event_fields_settled|]. intros f Hf.
  apply event_fields_Ok in Hf as (E1 & E2 & E3 & E4 & E5 & E6 & E7 & E8 & E9 & E10).
  kept_step; [exists head; split_and!; [set_solver|done..]|]. do 2 kept_step.
  apply joined_Ok in Hx0 as ->. exists head, f, a3.
  split; [set_solver|]. split; [set_solver|]. simpl. rewrite <- !E7, E5, E6, E9. by rewrite hex_encode_same.
Qed.

Lemma kept_audit ty subj explicit just out past :
  settled (explicit_target explicit) →
  kept (seal_and_append_audit_event state ty subj explicit just out) past.
Proof.
  intros Hex. unfold seal_and_append_audit_event. kept_step; [done|]. apply stored_Ok in Hx as ->.
  destruct explicit as [[[i t] h]|]; kept_step; apply kept_append; set_solver.
Qed.

(** The type and the digest of an assertion are short enough: the two [expect]s hold. *)
Lemma login_target_Ok id (sealed : SealedAssertion) :
  ∃ t, explicit_target (Some (id, "identity_assertion",
    IdpHttp.hex_encode (IdentityAssertion.digest sealed))) = Ok t.
Proof.
  unfold explicit_target, ShortText_new, try_opt.
  edestruct (ascii_text_new_accepts 256 "text" "identity_assertion") as (ty & -> & _); [done|].
  edestruct (ascii_text_new_accepts 256 "text" (IdpHttp.hex_encode (IdentityAssertion.digest sealed)))
    as (h & -> & _); [|by eexists].
  rewrite hex_encode_same. apply bounded_ascii_hex; unfold IdentityAssertion.digest; rewrite len_sha256; lia.
Qed.

Lemma presented_settled bs : settled (presented_challenge_bytes bs).
Proof.
  unfold presented_challenge_bytes. apply settled_bind; [|intros ? _]; apply settled_ok_or; set_solver.
Qed.
Lemma accept_challenge_no_panic suite bs : accept_challenge suite bs ≠ Panic.
Proof. unfold accept_challenge. by repeat case_match. Qed.
Lemma assertion_claims_settled claims id now after :
  settled (assertion_claims state claims id now after).
Proof.
  unfold assertion_claims.
  repeat (apply settled_bind; [apply settled_or_internal; no_panic_step|intros ? _]). exact I.
Qed.

(** The counters that the ceremonies return are those of 32-bit fields. *)
Lemma count_in_u32 c0 c1 c2 c3 : in_u32 (from_be_bytes [c0; c1; c2; c3]).
Proof.
  pose proof (from_be_bytes_bounds [c0; c1; c2; c3]) as Hb. change (256 ^ len [c0; c1; c2; c3]) with (2 ^ 32) in Hb.
  unfold in_u32, u32_max. lia.
Qed.
Lemma registered_count_in_u32 input out :
  verify_registration_ceremony input = Ok out → in_u32 (Registration.sign_count out).
Proof.
  intros (map & fmt & ad & p & cred & m & Hreg)%verify_registration_sound.
  rewrite (reg_out _ _ _ _ _ _ _ _ Hreg). simpl.
  destruct (reg_layout _ _ _ _ _ _ _ _ Hreg) as (f & c0 & c1 & c2 & c3 & rest & _ & _ & _ & -> & _).
  apply count_in_u32.
Qed.
Lemma registered_storable input out :
  verify_registration_ceremony input = Ok out →
  storable (Registration.credential_id out) (public_key_algorithm out) (public_key_raw out)
    (Registration.sign_count out) (aaguid out) (negb (Registration.sign_count out =? 0)).
Proof.
  intros (map & fmt & ad & p & cred & m & Hreg)%verify_registration_sound.
  rewrite (reg_out _ _ _ _ _ _ _ _ Hreg). simpl.
  destruct (reg_key _ _ _ _ _ _ _ _ Hreg) as (key & Hkey & Hm).
  destruct (reg_layout _ _ _ _ _ _ _ _ Hreg) as (f & c0 & c1 & c2 & c3 & rest & _ & _ & _ & _ & Ha).
  rewrite (reg_cred _ _ _ _ _ _ _ _ Hreg) in Ha.
  destruct Ha as (_ & l0 & l1 & kb & v & k & _ & Hag & Hid & _).
  unfold storable. pose proof (u16_bound l0 l1). split_and!; [|lia|done..].
  destruct m. eapply (extract_accepted (acd_public_key_cbor cred)), extract_Ok. eauto.
Qed.
Lemma authenticated_claims input claims :
  verify_authentication_ceremony input = Ok claims →
  in_u32 (cl_new_sign_count claims) ∧ revoked (Authentication.credential input) = false ∧
  cl_subject_id claims = rc_subject_id (Authentication.credential input).
Proof.
  intros (p & Hauth)%verify_authentication_sound.
  rewrite (aut_claims _ _ _ Hauth). simpl. split_and!; [|apply (aut_not_revoked _ _ _ Hauth)|done].
  destruct (aut_layout _ _ _ Hauth) as (f & c0 & c1 & c2 & c3 & rest & _ & _ & _ & ->).
  apply count_in_u32.
Qed.

Lemma assertion_claims_subject claims id now after a :
  assertion_claims state claims id now after = Ok a →
  as_str (IdentityAssertion.subject_id a) = cl_subject_id claims.
Proof.
  unfold assertion_claims, or_internal. intros Ha. ok_inv.
  repeat match goal with
  | H : SubjectId_new _ = Ok _ |- _ => apply ascii_text_new_iff in H
  end. simplify_eq. done.
Qed.

(** An event of the past, found from the last one on. *)
Ltac in_past :=
  apply elem_of_app;
  first [right; apply list_elem_of_singleton; reflexivity | left; in_past].

Lemma kept_registration_challenge req : kept (registration_challenge state req) [].
Proof.
  unfold registration_challenge. kept_step. apply expect_Ok in Hx as ->.
  kept_step; [by split; [|eexists; split; [in_past|]]|]. kept_step. destruct a1. kept_step.
Qed.

Lemma kept_authentication_challenge req : kept (authentication_challenge state req) [].
Proof.
  unfold authentication_challenge. kept_step. apply expect_Ok in Hx as ->.
  kept_step; [by split; [|eexists; split; [in_past|]]|]. kept_step. destruct a1. do 2 kept_step.
Qed.

Lemma kept_registration_verify req : kept (registration_verify state req) [].
Proof.
  unfold registration_verify. do 2 kept_step. kept_step; [apply presented_settled|]. do 2 kept_step.
  kept_step; [apply accept_challenge_no_panic|]. kept_step; [apply verify_registration_no_panic|].
  apply map_err_Ok in Hr4. apply stored_Ok in Hx as ->. apply ok_or_Ok in Hr2 as ->.
  kept_step.
  { split; [by eapply registered_count_in_u32|]. split; [by eapply registered_storable|].
    eexists _, _. split; [in_past|done]. }
  apply kept_then; [by apply kept_audit|]. intros tr a'. kept_step.
Qed.

Lemma kept_authentication_verify req : kept (authentication_verify state req) [].
Proof.
  unfold authentication_verify. do 4 kept_step. kept_step; [apply presented_settled|]. do 4 kept_step.
  apply stored_Ok in Hx as ->. apply ok_or_Ok in Hr4 as ->.
  apply stored_Ok in Hx0 as ->. apply ok_or_Ok in Hr5 as ->.
  kept_step; [apply accept_challenge_no_panic|]. kept_step; [apply verify_authentication_no_panic|].
  apply map_err_Ok, authenticated_claims in Hr5 as (Hn & Hrev & Hsubj).
  kept_step.
  { split; [done|]. eexists _, _, _, _. split_and!; [in_past|in_past|done]. }
  apply stored_Ok in Hx as ->. lazymatch goal with b : bool |- _ => destruct b end; cbn [negb].
  - do 2 kept_step. lazymatch goal with p : _ * _ |- _ => destruct p end. kept_step; [apply assertion_claims_settled|].
    kept_step.
    { eexists _, _, _. split_and!; [in_past|in_past|exact Hrev|].
      by match goal with Ha : assertion_claims _ _ _ _ _ = Ok _ |- _ =>
        rewrite (assertion_claims_subject _ _ _ _ _ Ha) end. }
    apply kept_then; [apply kept_audit; edestruct login_target_Ok as [t ->]; exact I|]. intros tr a'. kept_step.
  - apply kept_then; [by apply kept_audit|]. intros tr a'. simpl. set_solver.
Qed.

(** Every request keeps the discipline and is answered. *)
Lemma kept_router r : kept (router state r) [].
Proof.
  destruct r; unfold router, reply; (apply kept_then; [|by intros]).
  - apply kept_registration_challenge.
  - apply kept_registration_verify.
  - apply kept_authentication_challenge.
  - apply kept_authentication_verify.
Qed.

(** ** Answers that end a request *)

Definition store_failure {A} (r : res A SqlxError) : option ApiError :=
  match r with Err e => Some (store_unavailable e) | _ => None end.
Definition seal_failure {A E} (r : res A E) : option ApiError :=
  match r with Err e => Some (sealing_unavailable e) | Panic => Some internal | Ok _ => None end.

(** A refused statement, a refused seal, a sealing task that panicked. *)
Definition failure (c : idp_call) : idp_answer c → option ApiError :=
  match c return idp_answer c → option ApiError with
  | NewChallenge | Clock | NowV7 => λ _, None
  | IssueChallenge _ _ _ _ => store_failure
  | ConsumeChallenge _ _ => store_failure
  | InsertAuthenticator _ _ _ _ _ _ _ _ => store_failure
  | FindAuthenticator _ => store_failure
  | CredentialIdsForSubject _ => store_failure
  | AdvanceSignCount _ _ => store_failure
  | GetChainHead _ => store_failure
  | Append _ _ _ _ _ _ _ _ _ _ => store_failure
  | SealAssertion _ => seal_failure
  | SealEvent _ => seal_failure
  end.

(** Whichever call fails, the program answers its error without another call. *)
Fixpoint fails_fast {A} (p : prog (res A ApiError)) : Prop :=
  match p with
  | Ret _ => True
  | Call c k => ∀ x, match failure c x with
                     | Some err => k x = Ret (Err err)
                     | None => fails_fast (k x)
                     end
  end.

(** ** The number of calls of a request *)

Definition calls_bound (r : ApiRequest) : nat :=
  match r with
  | RegistrationChallenge _ => 3
  | RegistrationVerify _ => 8
  | AuthenticationChallenge _ => 4
  | AuthenticationVerify _ => 11
  end.

Lemma within_ask_then {A B} n (c : idp_call) (f : idp_answer c → res A ApiError)
    (k : A → prog (res B ApiError)) :
  (∀ a, calls_within n (k a)) → calls_within (S n) (and_then (ask c f) k).
Proof. intros Hk x. simpl. destruct (f x); [apply Hk|done..]. Qed.
Lemma within_ret_then {A B} n (r : res A ApiError) (k : A → prog (res B ApiError)) :
  (∀ a, calls_within n (k a)) → calls_within n (and_then (Ret r) k).
Proof. intros Hk. destruct r; [apply Hk|done..]. Qed.
Lemma within_ask {A} n (c : idp_call) (f : idp_answer c → res A ApiError) :
  calls_within (S n) (ask c f).
Proof. done. Qed.

Ltac within_tac :=
  repeat first
  [ exact I | apply within_ask_then; intros ? | apply within_ret_then; intros ? | apply within_ask ].

Lemma within_audit ty subj explicit just out :
  calls_within (match explicit with Some _ => 5 | None => 6 end)
    (seal_and_append_audit_event state ty subj explicit just out).
Proof.
  unfold seal_and_append_audit_event, seal_and_append, now_rfc3339.
  destruct explicit as [[[id t] h]|]; within_tac.
Qed.

Lemma within_router r : calls_within (calls_bound r) (router state r).
Proof.
  destruct r; unfold router, reply;
    rewrite <- (Nat.add_0_r (calls_bound _)); (apply calls_within_and_then; [|intros; exact I]); simpl calls_bound.
  - unfold registration_challenge. within_tac. destruct a1; exact I.
  - unfold registration_verify. within_tac.
    apply (calls_within_and_then _ _ 6 0); [apply (within_audit _ _ None)|intros; exact I].
  - unfold authentication_challenge. within_tac. destruct a1. within_tac.
  - unfold authentication_verify. within_tac.
    lazymatch goal with |- context [negb ?b] => destruct b end; cbn [negb].
    + within_tac. lazymatch goal with p : _ * _ |- _ => destruct p end. within_tac.
      apply (calls_within_and_then _ _ 5 0); [apply (within_audit _ _ (Some _))|intros; exact I].
    + eapply calls_within_mono; [|apply (calls_within_and_then _ _ 6 0);
        [apply (within_audit _ _ None)|intros; exact I]]. lia.
Qed.

(** ** Failures end a request at once *)

Lemma fails_fast_and_then {A B} (p : prog (res A ApiError)) (k : A → prog (res B ApiError)) :
  fails_fast p → (∀ a, fails_fast (k a)) → fails_fast (and_then p k).
Proof.
  intros Hp Hk. induction p as [[a|e|]|c q IH]; [apply Hk|done|done|]. intros x. specialize (Hp x).
  simpl. destruct (failure c x) as [err|]; [by rewrite Hp|by apply IH].
Qed.
Lemma fails_fast_ask_then {A B} (c : idp_call) (f : idp_answer c → res A ApiError)
    (k : A → prog (res B ApiError)) :
  (∀ x err, failure c x = Some err → f x = Err err) → (∀ a, fails_fast (k a)) →
  fails_fast (and_then (ask c f) k).
Proof.
  intros Hf Hk x. specialize (Hf x). simpl. destruct (failure c x) as [err|].
  - by rewrite (Hf err eq_refl).
  - destruct (f x); [apply Hk|done..].
Qed.
Lemma fails_fast_ret_then {A B} (r : res A ApiError) (k : A → prog (res B ApiError)) :
  (∀ a, fails_fast (k a)) → fails_fast (and_then (Ret r) k).
Proof. intros Hk. destruct r; [apply Hk|done..]. Qed.
Lemma fails_fast_ask {A} (c : idp_call) (f : idp_answer c → res A ApiError) :
  (∀ x err, failure c x = Some err → f x = Err err) → fails_fast (ask c f).
Proof. intros Hf x. specialize (Hf x). simpl. destruct (failure c x) as [err|]; [by rewrite (Hf err eq_refl)|done]. Qed.

(** How the handlers map their answers. *)
Lemma stored_failure {A} (r : res A SqlxError) err : store_failure r = Some err → stored r = Err err.
Proof. destruct r; simpl; congruence. Qed.
Lemma joined_failure {A E} (r : res A E) err : seal_failure r = Some err → joined r = Err err.
Proof. destruct r; simpl; congruence. Qed.

Ltac fast_tac :=
  repeat first
  [ exact I | apply fails_fast_ask_then; [intros ? ?; first [apply stored_failure|apply joined_failure|done]|intros ?]
  | apply fails_fast_ret_then; intros ?
  | apply fails_fast_ask; intros ? ?; first [apply stored_failure|apply joined_failure|done] ].

Lemma audit_fails_fast ty subj explicit just out :
  fails_fast (seal_and_append_audit_event state ty subj explicit just out).
Proof.
  unfold seal_and_append_audit_event, seal_and_append, now_rfc3339.
  destruct explicit as [[[id t] h]|]; fast_tac.
Qed.

Lemma router_fails_fast r : fails_fast (router state r).
Proof.
  destruct r; unfold router, reply; (apply fails_fast_and_then; [|intros; exact I]).
  - unfold registration_challenge. fast_tac. destruct a1; exact I.
  - unfold registration_verify. fast_tac. apply fails_fast_and_then; [apply audit_fails_fast|intros; exact I].
  - unfold authentication_challenge. fast_tac. destruct a1. fast_tac.
  - unfold authentication_verify. fast_tac.
    lazymatch goal with |- context [negb ?b] => destruct b end; cbn [negb].
    + fast_tac. lazymatch goal with p : _ * _ |- _ => destruct p end. fast_tac.
      apply fails_fast_and_then; [apply audit_fails_fast|intros; exact I].
    + apply fails_fast_and_then; [apply audit_fails_fast|intros; exact I].
Qed.

Lemma fails_fast_run {A} (p : prog (res A ApiError)) tr c k x err :
  fails_fast p → run p tr (Call c k) → failure c x = Some err → k x = Ret (Err err).
Proof.
  intros Hp Hrun Hx. remember (Call c k) as q eqn:Hq.
  induction Hrun as [p|c' k' x' tr q Hrun IH]; subst.
  - specialize (Hp x). by rewrite Hx in Hp.
  - apply IH; [|done]. specialize (Hp x'). destruct (failure c' x') as [err'|]; [|done].
    rewrite Hp in Hrun. by apply run_inv in Hrun as [_ ?].
Qed.
End ceremonies.

(** A table of texts read back. *)
Lemma event_type_of_iff s t : event_type_of_str s = Some t ↔ s = AuditSeal.event_type_str t.
Proof.
  split; [|by intros ->; apply event_type_of_to]. unfold event_type_of_str. simpl.
  repeat case_bool_decide; try done; by intros [= <-].
Qed.
Lemma outcome_of_iff s t : outcome_of_str s = Some t ↔ s = AuditSeal.outcome_str t.
Proof.
  split; [|by intros ->; apply outcome_of_to]. unfold outcome_of_str. simpl.
  repeat case_bool_decide; try done; by intros [= <-].
Qed.

(** ** Theorems *)

(** C25. Every request ends: it makes at most eleven calls to the database, the sealers, the
    generator and the clock (three and four for the challenges, eight for a registration),
    whatever each of them answers; alone in any environment it runs to its end.  The end is
    an answer, or one of the statuses 400, 401, 500 and 503 with a JSON reason, or a panic of
    the handler.  It panics only right after an answer that is not healthy: no random bytes,
    a clock before 1970 or so late that a lifetime cannot be added to it, a panic of the
    store; so it never panics when all its answers are healthy.  A statement that the
    database refuses and a seal that fails end the request there, with status 503 and
    without another call; a sealing task that panicked ends it with status 500. *)
Theorem handlers_answer `{SerdeJson, Base64, AwsLc, Ciborium, Coset} state r :
  calls_within (calls_bound r) (router state r) ∧ (calls_bound r ≤ 11)%nat ∧
  (∀ W (handle : ∀ c : idp_call, W → W * idp_answer c) w,
     ∃ tr, run (router state r) tr (Ret (run_alone handle (router state r) w).2)) ∧
  (∀ tr out, run (router state r) tr (Ret out) →
     (length tr ≤ calls_bound r)%nat ∧
     match out with
     | Ok _ => True
     | Err e => status e ∈ [400; 401; 500; 503] ∧
                into_response e = (status e, Object [("reason", VString (api_reason e))])
     | Panic => ∃ tr' e, tr = tr' ++ [e] ∧ ¬ healthy state e
     end ∧
     (Forall (healthy state) tr → out ≠ Panic)) ∧
  (∀ tr c k x, run (router state r) tr (Call c k) →
     match failure c x with Some err => k x = Ret (Err err) | None => True end).
Proof.
  split; [apply within_router|]. split; [destruct r; simpl; lia|].
  split; [intros W handle w; apply (run_alone_run (Σ := idp_signature))|]. split.
  - intros tr out Hrun. split.
    { pose proof (within_router state r) as Hw. eapply calls_within_run in Hw as [Hl _]; [exact Hl|exact Hrun]. }
    pose proof (kept_router state r) as Hk. eapply wp_run in Hk; [|exact Hrun|done].
    simpl in Hk. destruct out; [done..|]. split; [done|].
    destruct Hk as (tr' & e & -> & He). rewrite Forall_app, Forall_singleton. tauto.
  - intros tr c k x Hrun. destruct (failure c x) as [err|] eqn:Hx; [|done].
    by eapply fails_fast_run; [apply router_fails_fast|exact Hrun|].
Qed.

(** C40. What the services repeat from one another agrees on every input: hexadecimal texts
    (the provider's loop of [format!] and the table of [zs-crypto]), dates (three
    copies of the calendar), the names of event types, outcomes and actor kinds (the
    provider prints what the sealing service and the verifier read back, and nothing else
    reads so), and the hash of the relying party. *)
Theorem duplicates_agree `{AwsLc} :
  (∀ bs, IdpHttp.hex_encode bs = Common.hex_encode bs) ∧
  (∀ s, IdpGrpc.format_rfc3339 s = Calendar.rfc3339_from_seconds s ∧
        AuditSealerApp.rfc3339_from_seconds s = Calendar.rfc3339_from_seconds s) ∧
  (∀ s t, event_type_from_str s = Some t ↔ s = IdpHttp.event_type_str t) ∧
  (∀ s t, event_type_of_str s = Some t ↔ s = IdpHttp.event_type_str t) ∧
  (∀ s o, outcome_from_str s = Some o ↔ s = IdpHttp.outcome_str o) ∧
  (∀ s o, outcome_of_str s = Some o ↔ s = IdpHttp.outcome_str o) ∧
  (∀ s, actor_kind_from_str s = actor_kind_of_str s) ∧
  (∀ id, Registration.rp_id_hash id = Authentication.rp_id_hash id).
Proof.
  split; [exact hex_encode_same|]. split; [done|].
  split; [intros s t; rewrite event_type_str_same; exact (event_type_of_iff s t)|].
  split; [intros s t; rewrite event_type_str_same; exact (event_type_of_iff s t)|].
  split; [intros s o; rewrite outcome_str_same; exact (outcome_of_iff s o)|].
  split; [intros s o; rewrite outcome_str_same; exact (outcome_of_iff s o)|]. done.
Qed.
