(* ===== verification/IdpSystem.v ===== *)
(** * The identity provider as a system: concurrent requests over one database

    Requests arrive at any time; each is a thread, the program of its handler, and a step
    lets one thread make one call.  [answers] says what each call may be answered and
    what it does to the tables: a statement takes effect and answers, or the connection is
    lost before or after its effect; the database's clock, the host's clock, the sealers
    and the generator are any.  A client that gives up is a thread that makes no
    more steps.  The system starts on any database, as a service that is restarted. *)

From S2P Require Import Prelude.
From S2P Require Import Effects.
From S2P Require Import Json.
From S2P Require Import Serde.
From S2P Require Import JsonCodec.
From S2P Require Import Aws.
From S2P Require Import Common.
From S2P Require Import Signer.
From S2P Require Import IdentityAssertion.
From S2P Require Import AuditSeal.
From S2P Require Import AuthProof.
From S2P Require Import ClientData.
From S2P Require Import Cose.
From S2P Require Import Registration.
From S2P Require Import IdpStore.
From S2P Require Import IdpHttp.
From S2P Require Import IdpSpec.

Section system.
Context `{SerdeJson, Base64, AwsLc, Ciborium, Coset, ScanOrder, PgConversions}.
Context {P R : Type} `{HsmSigner P, Csprng R}.
Variable state : AppState.
Variables (assertion_sealer : AssertionSealer P) (audit_sealer : AuditSealer P).

(** ** Answers *)

(** The sealers of the service, whatever the state of their session pools. *)
Definition assertion_sealer_at (p : P) : AssertionSealer P := {|
  IdentityAssertion.pool := p; IdentityAssertion.key := IdentityAssertion.key assertion_sealer;
  IdentityAssertion.key_id := IdentityAssertion.key_id assertion_sealer |}.
Definition audit_sealer_at (p : P) : AuditSealer P := {|
  AuditSeal.pool := p; AuditSeal.key := AuditSeal.key audit_sealer;
  AuditSeal.key_id := AuditSeal.key_id audit_sealer |}.

(** A statement, its tables and its answer; the answer may be lost, before or after the
    effect, and the server may refuse the statement for reasons of its own. *)
Definition lossy {A} (d : Db) (done : Db * res A SqlxError) (x : res A SqlxError) (d' : Db) : Prop :=
  (d', x) = done ∨ (∃ e, x = Err e ∧ (d' = d ∨ d' = done.1)).

Definition answers (d : Db) (c : idp_call) (x : idp_answer c) (d' : Db) : Prop :=
  (match c return idp_answer c → Prop with
   | NewChallenge => λ x, d' = d ∧ ∃ rng : R, x = (new_challenge rng).2
   | Clock => λ _, d' = d
   | NowV7 => λ x, d' = d ∧ uuid_ok true x = true
   | IssueChallenge ch s k ttl => λ x, ∃ now, lossy d (issue_challenge now d ch s k ttl) x d'
   | ConsumeChallenge ch k => λ x, ∃ now, lossy d (consume_challenge now d ch k) x d'
   | InsertAuthenticator s id a pk n g fmt sup => λ x,
       ∃ now, lossy d (insert_authenticator now d s id a pk n g fmt sup) x d'
   | FindAuthenticator id => λ x, lossy d (d, find_authenticator d id) x d'
   | CredentialIdsForSubject s => λ x, lossy d (d, credential_ids_for_subject d s) x d'
   | AdvanceSignCount id n => λ x, lossy d (advance_sign_count d id n) x d'
   | GetChainHead dom => λ x, lossy d (d, chain_head d dom) x d'
   | Append id n at_ dom ty actor out ph sig bs => λ x,
       lossy d (append d id n at_ dom ty actor out ph sig bs) x d'
   | SealAssertion claims => λ x,
       d' = d ∧ (x = Panic ∨ ∃ p, x = (IdentityAssertion.seal (assertion_sealer_at p) claims).2)
   | SealEvent fields => λ x,
       d' = d ∧ (x = Panic ∨ ∃ p, x = (AuditSeal.seal (audit_sealer_at p) fields).2)
   end) x.

(** Answers one after the other, with nothing in between. *)
Fixpoint answered (d : Db) (tr : idp_trace) (d' : Db) : Prop :=
  match tr with
  | [] => d' = d
  | e :: tr' => ∃ d1, answers d (projT1 e) (projT2 e) d1 ∧ answered d1 tr' d'
  end.

(** ** Steps *)

Record system := {
  db : Db;
  requests : list ApiRequest;
  threads : list (prog (res ApiResponse ApiError));
  (** the calls answered so far, oldest first, with the thread of each *)
  history : list (nat * event (Σ := idp_signature));
}.

Definition initial (d : Db) : system :=
  {| db := d; requests := []; threads := []; history := [] |}.

Inductive step : system → system → Prop :=
| arrive s r :
    step s {| db := db s; requests := requests s ++ [r]; threads := threads s ++ [router state r];
              history := history s |}
| progress s i c k x d' :
    threads s !! i = Some (Call c k) → answers (db s) c x d' →
    step s {| db := d'; requests := requests s; threads := <[i := k x]> (threads s);
              history := history s ++ [(i, saw c x)] |}.

Definition reachable (d0 : Db) (s : system) : Prop := rtc step (initial d0) s.

(** The calls of one thread. *)
Definition own (i : nat) (h : list (nat * event (Σ := idp_signature))) : idp_trace :=
  map snd (filter (λ e, e.1 = i) h).

(** ** Threads and their histories *)

Lemma own_app i h1 h2 : own i (h1 ++ h2) = own i h1 ++ own i h2.
Proof. unfold own. by rewrite filter_app, map_app. Qed.
Lemma own_snoc_same i h e : own i (h ++ [(i, e)]) = own i h ++ [e].
Proof. rewrite own_app. unfold own at 2. rewrite filter_cons_True by done. done. Qed.
Lemma own_snoc_other i j h e : i ≠ j → own i (h ++ [(j, e)]) = own i h.
Proof. intros Hij. rewrite own_app. unfold own at 2. rewrite filter_cons_False by done. by rewrite app_nil_r. Qed.
Lemma elem_of_own i h e : e ∈ own i h → (i, e) ∈ h.
Proof.
  unfold own. intros ([j e'] & -> & Hin)%list_elem_of_fmap.
  apply list_elem_of_filter in Hin as [Hj Hin]. simpl in Hj. by subst.
Qed.

Lemma run_own d0 s :
  reachable d0 s →
  length (threads s) = length (requests s) ∧
  (∀ e, e ∈ history s → (e.1 < length (requests s))%nat) ∧
  ∀ i r p, requests s !! i = Some r → threads s !! i = Some p →
    run (router state r) (own i (history s)) p.
Proof.
  revert s. refine (rtc_ind_r _ _ _ _); [|intros s s' Hs Hstep (IHl & IHh & IHr)].
  { split_and!; [done | by intros e ?%elem_of_nil | done]. }
  destruct Hstep as [s r|s i c k x d' Hi Hans]; simpl.
  - split; [rewrite !length_app, IHl; done|].
    split; [intros e He; apply IHh in He; rewrite length_app; simpl; lia|].
    intros j r' p [Hj|[Hge Hj]]%lookup_app_Some Hp.
    + apply (IHr j r' p Hj). rewrite lookup_app_l in Hp; [done|].
      apply lookup_lt_Some in Hj. lia.
    + rewrite lookup_app_r, IHl in Hp by lia.
      destruct (j - length (requests s))%nat eqn:Hz; [|done]. simpl in *. simplify_eq.
      assert (own j (history s) = []) as ->; [|constructor].
      destruct (own j (history s)) as [|e l] eqn:He; [done|].
      assert ((j, e) ∈ history s) as Hin%IHh by (apply elem_of_own; rewrite He; set_solver).
      simpl in Hin. lia.
  - pose proof (lookup_lt_Some _ _ _ Hi) as Hlt.
    split; [by rewrite length_insert|].
    split; [intros e [He| ->%list_elem_of_singleton]%elem_of_app; [by apply IHh|simpl; lia]|].
    intros j r p Hr Hp. destruct (decide (j = i)) as [->|Hne].
    + rewrite list_lookup_insert_eq in Hp by done. simplify_eq. rewrite own_snoc_same.
      apply run_snoc. by apply IHr.
    + rewrite list_lookup_insert_ne in Hp by done. rewrite own_snoc_other by done. by apply IHr.
Qed.

(** Every call of every thread is one the discipline allows. *)
Lemma waiting_allowed d0 s i c k :
  reachable d0 s → threads s !! i = Some (Call c k) → allowed state (own i (history s)) c.
Proof.
  intros Hs Hi. apply run_own in Hs as (Hl & _ & Hr).
  destruct (lookup_lt_is_Some_2 (requests s) i) as [r Hri].
  { rewrite <- Hl. by eapply lookup_lt_Some. }
  specialize (Hr i r _ Hri Hi). pose proof (kept_router state r) as Hk.
  eapply wp_waiting in Hk; [|exact Hr|done]. done.
Qed.

(** Invariants of the tables and the history: it is enough to consider allowed calls. *)
Lemma reachable_ind (I : Db → list (nat * event (Σ := idp_signature)) → Prop) d0 :
  I d0 [] →
  (∀ s i c x d', reachable d0 s → allowed state (own i (history s)) c → answers (db s) c x d' →
     I (db s) (history s) → I d' (history s ++ [(i, saw c x)])) →
  ∀ s, reachable d0 s → I (db s) (history s).
Proof.
  intros Hnil Hcall. refine (rtc_ind_r _ _ _ _); [done|]. intros s s' Hs Hstep IH.
  destruct Hstep as [s r|s i c k x d' Hi Hans]; [done|]. simpl.
  apply (Hcall s i c x d' Hs); [by eapply waiting_allowed|done|done].
Qed.

Lemma history_answers d0 s :
  reachable d0 s → ∀ e, e ∈ history s → ∃ d d', answers d (projT1 e.2) (projT2 e.2) d'.
Proof.
  revert s. refine (reachable_ind (λ _ h, ∀ e, e ∈ h → ∃ d d', answers d (projT1 e.2) (projT2 e.2) d') d0 _ _).
  - by intros e ?%elem_of_nil.
  - intros s i c x d' _ _ Hans IH e [Hin|Hin]%elem_of_app; [by eapply IH|].
    apply list_elem_of_singleton in Hin as ->. by exists (db s), d'.
Qed.

(** A thread that runs alone makes all its steps. *)
Lemma run_steps s i p tr q d' :
  threads s !! i = Some p → run p tr q → answered (db s) tr d' →
  rtc step s {| db := d'; requests := requests s; threads := <[i := q]> (threads s);
                history := history s ++ map (pair i) tr |}.
Proof.
  intros Hi Hrun. revert s d' Hi. induction Hrun as [p|c k x tr q Hrun IH]; intros s d' Hi Hans.
  - simpl in Hans. subst. rewrite list_insert_id by done. rewrite app_nil_r. by destruct s.
  - destruct Hans as (d1 & Hans & Hrest). simpl in Hans. eapply rtc_l; [by apply progress|].
    assert (<[i := k x]> (threads s) !! i = Some (k x)) as Hi'.
    { apply list_lookup_insert_eq. by eapply lookup_lt_Some. }
    specialize (IH {| db := d1; requests := requests s; threads := <[i := k x]> (threads s);
                      history := history s ++ [(i, saw c x)] |} d' Hi' Hrest).
    simpl in IH. rewrite list_insert_insert_eq, <- app_assoc in IH. exact IH.
Qed.
End system.
