(* ===== verification/IdpReplay.v ===== *)
(** * Challenges and counters of the identity provider under every interleaving

    A challenge that was consumed stays consumed and a stored counter only grows, whatever
    the threads do and whatever answers are lost; so two requests that succeed never
    presented the same challenge, nor the same counter of the same authenticator. *)

From S2P Require Import Prelude.
From S2P Require Import Effects.
From S2P Require Import Json.
From S2P Require Import Serde.
From S2P Require Import JsonCodec.
From S2P Require Import Aws.
From S2P Require Import Common.
From S2P Require Import Signer.
From S2P Require Import IdentityAssertion.
From S2P Require Import AuditSeal.
From S2P Require Import AuthProof.
From S2P Require Import ClientData.
From S2P Require Import Cose.
From S2P Require Import Registration.
From S2P Require Import Authentication.
From S2P Require Import Recovery.
From S2P Require Import IdpStore.
From S2P Require Import IdpHttp.
From S2P Require Import IdpSpec.
From S2P Require Import IdpSystem.

(** ** What a call does to the tables *)

Section effects.
Context `{PgConversions}.

(** The tables after the statement of a call took effect at a time of the server. *)
Definition effect (c : idp_call) (now : Z) (d : Db) : Db :=
  match c with
  | IssueChallenge ch s k ttl => (issue_challenge now d ch s k ttl).1
  | ConsumeChallenge ch k => (consume_challenge now d ch k).1
  | InsertAuthenticator s id a pk n g fmt sup => (insert_authenticator now d s id a pk n g fmt sup).1
  | AdvanceSignCount id n => (advance_sign_count d id n).1
  | Append id n at_ dom ty actor out ph sig bs => (append d id n at_ dom ty actor out ph sig bs).1
  | _ => d
  end.

Definition used (d : Db) (ch : bytes) : Prop :=
  ∃ row, challenges d !! ch = Some row ∧ is_Some (cr_used_at row).
Definition counter_of (d : Db) (id : bytes) : option Z := ar_sign_count <$> authenticators d !! id.

Lemma commit_fst {A} d (r : option (Db * A)) :
  (commit d r).1 = match r with Some (d', _) => d' | None => d end.
Proof. by destruct r as [[]|]. Qed.

Lemma effect_used c now d ch : used d ch → used (effect c now d) ch.
Proof.
  intros (row & Hrow & Hused). destruct c; simpl; try (by exists row).
  - unfold issue_challenge. rewrite commit_fst. destruct (pg_after _ _); simpl; [|by exists row].
    destruct (_ && _) eqn:Hb; [|by exists row]. bool_simp.
    exists row. split; [|done]. simpl. rewrite lookup_insert_ne; [done|]. congruence.
  - unfold consume_challenge. destruct (challenges d !! challenge) as [r|] eqn:Hr; [|by exists row].
    destruct (consumable _ _ _) eqn:Hc; [|by exists row]. simpl.
    destruct (decide (challenge = ch)) as [->|Hne].
    + exists (mark_used now r). simpl. rewrite lookup_insert_eq. by split.
    + exists row. simpl. by rewrite lookup_insert_ne.
  - unfold insert_authenticator. rewrite commit_fst. destruct (_ && _); by exists row.
  - unfold advance_sign_count. destruct (authenticators d !! _); [|by exists row].
    destruct (_ <? _); by exists row.
  - unfold append. rewrite commit_fst. destruct (insertable _ _); by exists row.
Qed.

Lemma effect_counter c now d id n :
  counter_of d id = Some n → ∃ n', counter_of (effect c now d) id = Some n' ∧ n ≤ n'.
Proof.
  unfold counter_of. intros Hn. assert (∃ n', ar_sign_count <$> authenticators d !! id = Some n' ∧ n ≤ n')
    as Hsame by (by exists n). destruct c; simpl; try done.
  - unfold issue_challenge. rewrite commit_fst. destruct (pg_after _ _); simpl; [|done]. by destruct (_ && _).
  - unfold consume_challenge. destruct (challenges d !! _); [|done]. by destruct (consumable _ _ _).
  - unfold insert_authenticator. rewrite commit_fst. destruct (_ && _) eqn:Hb; [|done]. bool_simp. simpl.
    rewrite lookup_insert_ne; [done|]. intros ->.
    match goal with Hx : authenticators d !! id = None |- _ => by rewrite Hx in Hn end.
  - unfold advance_sign_count. destruct (authenticators d !! credential_id) as [r|] eqn:Hr; [|done].
    destruct (_ <? _) eqn:Hlt; [|done]. bool_simp. simpl.
    destruct (decide (credential_id = id)) as [->|Hne].
    + rewrite lookup_insert_eq. simpl. rewrite Hr in Hn. simplify_eq/=. exists received. split; [done|lia].
    + by rewrite lookup_insert_ne.
  - unfold append. rewrite commit_fst. by destruct (insertable _ _).
Qed.

(** A counter that appears is the one that was given. *)
Lemma effect_new_counter c now d id n :
  counter_of (effect c now d) id = Some n →
  counter_of d id = Some n ∨ (∃ s a pk g fmt sup, c = InsertAuthenticator s id a pk n g fmt sup) ∨
  c = AdvanceSignCount id n.
Proof.
  unfold counter_of. destruct c; simpl; auto.
  - unfold issue_challenge. rewrite commit_fst. destruct (pg_after _ _); simpl; [|auto].
    destruct (_ && _); auto.
  - unfold consume_challenge. destruct (challenges d !! _); [|auto]. destruct (consumable _ _ _); auto.
  - unfold insert_authenticator. rewrite commit_fst. destruct (_ && _); [|auto]. simpl.
    destruct (decide (credential_id = id)) as [->|Hne].
    + rewrite lookup_insert_eq. intros [= <-]. right. left. by do 6 eexists.
    + rewrite lookup_insert_ne by done. auto.
  - unfold advance_sign_count. destruct (authenticators d !! credential_id) as [r|] eqn:Hr; [|auto].
    destruct (_ <? _); [|auto]. simpl. destruct (decide (credential_id = id)) as [->|Hne].
    + rewrite lookup_insert_eq. intros [= <-]. auto.
    + rewrite lookup_insert_ne by done. auto.
  - unfold append. rewrite commit_fst. destruct (insertable _ _); auto.
Qed.

End effects.

(** ** The history of challenges and counters *)

Definition consumed_by (e : nat * event (Σ := idp_signature)) : option bytes :=
  match e.2 with
  | existT c x =>
      (match c return idp_answer c → option bytes with
       | ConsumeChallenge ch _ => λ x, match x with Ok (Some _) => Some ch | _ => None end
       | _ => λ _, None
       end) x
  end.

Definition advanced_by (e : nat * event (Σ := idp_signature)) : option (bytes * Z) :=
  match e.2 with
  | existT c x =>
      (match c return idp_answer c → option (bytes * Z) with
       | AdvanceSignCount id n => λ x, match x with Ok true => Some (id, n) | _ => None end
       | _ => λ _, None
       end) x
  end.

Section replay.
Context `{SerdeJson, Base64, AwsLc, Ciborium, Coset, ScanOrder, PgConversions}.
Context {P R : Type} `{HsmSigner P, Csprng R}.
Variable state : AppState.
Variables (asealer : AssertionSealer P) (esealer : AuditSealer P).
Abbreviation answers := (IdpSystem.answers (P := P) (R := R) asealer esealer).
Abbreviation reachable := (IdpSystem.reachable (P := P) (R := R) state asealer esealer).

Lemma answers_effect d c x d' : answers d c x d' → ∃ now, d' = d ∨ d' = effect c now d.
Proof.
  assert (∀ A (done : Db * res A SqlxError) (x : res A SqlxError), lossy d done x d' →
    d' = d ∨ d' = done.1) as Hl.
  { intros A [d1 r] y [[= -> ->]|(_ & _ & [->| ->])]; auto. }
  destruct c; simpl; intros Ha;
    lazymatch type of Ha with
    | ∃ _, lossy _ _ _ _ => destruct Ha as [now Ha]; exists now; by eapply Hl in Ha
    | lossy _ _ _ _ => exists 0; by eapply Hl in Ha
    | _ ∧ _ => destruct Ha as [-> _]; exists 0; by left
    | _ => exists 0; by left
    end.
Qed.

Lemma answers_consumed d c x d' ch i :
  answers d c x d' → consumed_by (i, saw c x) = Some ch → ¬ used d ch ∧ used d' ch.
Proof.
  destruct c; try done. simpl. intros [now [Hdone|(? & -> & _)]]; [|done].
  unfold consume_challenge in Hdone. destruct (challenges d !! challenge) as [row|] eqn:Hr; [|by simplify_eq].
  destruct (consumable _ _ _) eqn:Hc; [|by simplify_eq]. simplify_eq. unfold consumed_by. simpl. intros [= <-].
  unfold consumable in Hc. bool_simp. split.
  - intros (row' & Hr' & Hs). rewrite Hr in Hr'. simplify_eq.
    match goal with Hu : cr_used_at _ = None |- _ => rewrite Hu in Hs end. by destruct Hs.
  - exists (mark_used now row). simpl. rewrite lookup_insert_eq. by split.
Qed.

Lemma answers_advanced d c x d' id n i :
  answers d c x d' → advanced_by (i, saw c x) = Some (id, n) →
  c = AdvanceSignCount id n ∧ (∃ old, counter_of d id = Some old ∧ old < n) ∧ counter_of d' id = Some n.
Proof.
  destruct c; try done. simpl. intros [Hdone|(? & -> & _)]; [|done].
  unfold advance_sign_count in Hdone.
  destruct (authenticators d !! credential_id) as [row|] eqn:Hr; [|by simplify_eq].
  destruct (_ <? _) eqn:Hlt; [|by simplify_eq]. simplify_eq. unfold advanced_by. simpl. intros [= <- <-].
  bool_simp. unfold counter_of. simpl. rewrite Hr, lookup_insert_eq. simpl. eauto.
Qed.

(** Challenges are consumed once, and stay consumed. *)
Lemma consumed_once d0 s :
  reachable d0 s →
  NoDup (omap consumed_by (history s)) ∧
  ∀ ch, ch ∈ omap consumed_by (history s) → used (db s) ch.
Proof.
  revert s. refine (reachable_ind _ _ _ (λ d h, NoDup (omap consumed_by h) ∧
    ∀ ch, ch ∈ omap consumed_by h → used d ch) d0 _ _).
  { split; [constructor | by intros ch ?%elem_of_nil]. }
  intros s i c x d' _ _ Hans [Hnd Hused].
  assert (∀ ch, used (db s) ch → used d' ch) as Hmono.
  { intros ch Hu. destruct (answers_effect _ _ _ _ Hans) as [now [->| ->]]; [done|]. by apply effect_used. }
  rewrite omap_app. simpl. destruct (consumed_by (i, saw c x)) as [ch|] eqn:Hc.
  - destruct (answers_consumed _ _ _ _ _ _ Hans Hc) as [Hfresh Hnow]. split.
    + apply NoDup_app. split; [done|]. split; [|apply NoDup_singleton].
      intros ch' Hin ->%list_elem_of_singleton. by apply Hfresh, Hused.
    + intros ch' [Hin| ->%list_elem_of_singleton]%elem_of_app; auto.
  - rewrite app_nil_r. auto.
Qed.

(** The counters granted to an authenticator strictly increase, and are above zero when no
    stored counter is negative. *)
Definition later (a b : bytes * Z) : Prop := a.1 = b.1 → a.2 < b.2.

Lemma advanced_sorted d0 s :
  reachable d0 s →
  StronglySorted later (omap advanced_by (history s)) ∧
  (∀ id n, (id, n) ∈ omap advanced_by (history s) → ∃ m, counter_of (db s) id = Some m ∧ n ≤ m).
Proof.
  revert s. refine (reachable_ind _ _ _ (λ d h, StronglySorted later (omap advanced_by h) ∧
    ∀ id n, (id, n) ∈ omap advanced_by h → ∃ m, counter_of d id = Some m ∧ n ≤ m) d0 _ _).
  { split; [constructor | by intros id n ?%elem_of_nil]. }
  intros s i c x d' _ _ Hans [Hss Hle].
  assert (∀ id n, counter_of (db s) id = Some n → ∃ m, counter_of d' id = Some m ∧ n ≤ m) as Hmono.
  { intros id n Hn. destruct (answers_effect _ _ _ _ Hans) as [now [->| ->]]; [by exists n|].
    by apply effect_counter. }
  rewrite omap_app. simpl. destruct (advanced_by (i, saw c x)) as [[id n]|] eqn:Hc; [|rewrite app_nil_r].
  - destruct (answers_advanced _ _ _ _ _ _ _ Hans Hc) as (_ & (old & Hold & Hlt) & Hnow). split.
    + apply StronglySorted_app_2; [|done|by repeat constructor].
      intros [id' n'] b Hin ->%list_elem_of_singleton. intros Hid. simpl in Hid. subst. simpl.
      destruct (Hle _ _ Hin) as (m & Hm & ?). rewrite Hold in Hm. simplify_eq. lia.
    + intros id' n' [Hin|[= -> ->]%list_elem_of_singleton]%elem_of_app; [|by exists n].
      destruct (Hle _ _ Hin) as (m & Hm & ?). destruct (Hmono _ _ Hm) as (m' & ? & ?). exists m'. split; [done|lia].
  - split; [done|]. intros id n Hin. destruct (Hle _ _ Hin) as (m & Hm & ?).
    destruct (Hmono _ _ Hm) as (m' & ? & ?). exists m'. split; [done|lia].
Qed.

Lemma counters_nonneg d0 s :
  (∀ id n, counter_of d0 id = Some n → 0 ≤ n) →
  reachable d0 s →
  (∀ id n, counter_of (db s) id = Some n → 0 ≤ n) ∧
  (∀ id n, (id, n) ∈ omap advanced_by (history s) → 0 < n).
Proof.
  intros Hd0. revert s. refine (reachable_ind _ _ _ (λ d h,
    (∀ id n, counter_of d id = Some n → 0 ≤ n) ∧ ∀ id n, (id, n) ∈ omap advanced_by h → 0 < n) d0 _ _).
  { split; [done | by intros id n ?%elem_of_nil]. }
  intros s i c x d' _ Hall Hans [Hpos Hadv]. split.
  - intros id n Hn. destruct (answers_effect _ _ _ _ Hans) as [now [->| ->]]; [by eapply Hpos|].
    apply effect_new_counter in Hn as [Hn|[(s' & a & pk & g & fmt & sup & ->)| ->]]; [by eapply Hpos| |].
    + destruct Hall as [[? _] _]. done.
    + destruct Hall as [[? _] _]. done.
  - intros id n. rewrite omap_app. intros [Hin|Hin]%elem_of_app; [by eapply Hadv|].
    simpl in Hin. destruct (advanced_by (i, saw c x)) as [[id' n']|] eqn:Hc; [|by apply elem_of_nil in Hin].
    apply list_elem_of_singleton in Hin as [= -> ->].
    destruct (answers_advanced _ _ _ _ _ _ _ Hans Hc) as (_ & (old & Hold & ?) & _).
    apply Hpos in Hold. lia.
Qed.

(** ** Requests that succeeded *)

(** The challenge in a base64 text of client data. *)
Definition presented (client_data_json : string) : option bytes :=
  bs ← url_safe_decode client_data_json;
  match presented_challenge_bytes bs with Ok ch => Some ch | _ => None end.

(** The challenge of a request that succeeded. *)
Definition spent (rt : ApiRequest * prog (res ApiResponse ApiError)) : option bytes :=
  match rt with
  | (RegistrationVerify req, Ret (Ok _)) => presented (rv_client_data_json req)
  | (AuthenticationVerify req, Ret (Ok _)) => presented (av_client_data_json req)
  | _ => None
  end.

(** The authenticator and the counter of a login that succeeded. *)
Definition login_counter (rt : ApiRequest * prog (res ApiResponse ApiError)) : option (bytes * Z) :=
  match rt with
  | (AuthenticationVerify req, Ret (Ok _)) =>
      id ← url_safe_decode (av_credential_id req);
      data ← url_safe_decode (av_authenticator_data req);
      match Authentication.parse_authenticator_data data with
      | Ok p => Some (id, paa_sign_count p)
      | _ => None
      end
  | _ => None
  end.

Lemma reply_run {A} (f : A → ApiResponse) (p : prog (res A ApiError)) tr out :
  run (reply f p) tr (Ret (Ok out)) ↔ ∃ a, run p tr (Ret (Ok a)) ∧ out = f a.
Proof.
  unfold reply. rewrite run_and_then_Ok. split.
  - intros (a & tr1 & tr2 & -> & H1' & H2'). apply run_Ret in H2' as [-> [= <-]].
    rewrite app_nil_r. by exists a.
  - intros (a & Hr & ->). exists a, tr, []. rewrite app_nil_r. split_and!; [done|done|]. by apply run_Ret.
Qed.

Lemma login_finished d0 s i req out :
  reachable d0 s → requests s !! i = Some (AuthenticationVerify req) →
  threads s !! i = Some (Ret (Ok out)) →
  ∃ d, own i (history s) = login_trace state d ∧ login_ok state req d ∧
    out = AuthenticationVerified {| avr_assertion := b64_encode (IdentityAssertion.bytes_of (ld_sealed d)) |}.
Proof.
  intros Hs Hr Ht. apply run_own in Hs as (_ & _ & Hrun). specialize (Hrun i _ _ Hr Ht).
  apply reply_run in Hrun as (a & Hrun & ->). apply login_run in Hrun as (d & Htr & Hok & ->). by exists d.
Qed.

Lemma enrol_finished d0 s i req out :
  reachable d0 s → requests s !! i = Some (RegistrationVerify req) →
  threads s !! i = Some (Ret (Ok out)) →
  ∃ d, own i (history s) = enrol_trace state d ∧ enrol_ok state req d ∧
    out = RegistrationVerified {| rvr_credential_id := b64_encode (Registration.credential_id (ed_outcome d)) |}.
Proof.
  intros Hs Hr Ht. apply run_own in Hs as (_ & _ & Hrun). specialize (Hrun i _ _ Hr Ht).
  apply reply_run in Hrun as (a & Hrun & ->). apply enrol_run in Hrun as (d & Htr & Hok & ->). by exists d.
Qed.

Lemma spent_consumed d0 s i r p ch :
  reachable d0 s → requests s !! i = Some r → threads s !! i = Some p → spent (r, p) = Some ch →
  ∃ e, (i, e) ∈ history s ∧ consumed_by (i, e) = Some ch.
Proof.
  intros Hs Hr Hp Hsp. destruct r; try done; destruct p as [[out|e|]|]; try done; simpl in Hsp.
  - destruct (enrol_finished _ _ _ _ _ Hs Hr Hp) as (d & Htr & [[Hc _] Hpr _ _] & _).
    unfold presented in Hsp. rewrite Hc in Hsp. simpl in Hsp. rewrite Hpr in Hsp. simplify_eq.
    eexists. split; [apply elem_of_own; rewrite Htr; left|]. done.
  - destruct (login_finished _ _ _ _ _ Hs Hr Hp) as (d & Htr & [(_ & Hc & _) Hpr _ _ _] & _).
    unfold presented in Hsp. rewrite Hc in Hsp. simpl in Hsp. rewrite Hpr in Hsp. simplify_eq.
    eexists. split; [apply elem_of_own; rewrite Htr; left|]. done.
Qed.

(** A row is found under the identifier that was asked for. *)
Lemma found_id d id row : find_authenticator d id = Ok (Some row) → row_credential_id row = id.
Proof.
  unfold find_authenticator. destruct (authenticators d !! id) as [r|]; [|done].
  destruct (algorithm_from_column _); [|done]. by intros [= <-].
Qed.

Lemma counter_advanced d0 s i r p id n :
  reachable d0 s → requests s !! i = Some r → threads s !! i = Some p →
  login_counter (r, p) = Some (id, n) →
  ∃ e, (i, e) ∈ history s ∧ advanced_by (i, e) = Some (id, n).
Proof.
  intros Hs Hr Hp Hlc. destruct r; try done; destruct p as [[out|e|]|]; try done. simpl in Hlc.
  destruct (login_finished _ _ _ _ _ Hs Hr Hp) as (d & Htr & [(Hid & _ & Hd & _) _ [_ Hcer] _ _] & _).
  rewrite Hid, Hd in Hlc. simpl in Hlc.
  apply verify_authentication_sound in Hcer as (pa & Hauth).
  pose proof (aut_layout _ _ _ Hauth) as Hlay. apply assertion_parse_Ok in Hlay. simpl in Hlay.
  rewrite Hlay in Hlc. simplify_eq.
  assert ((i, saw (FindAuthenticator (ld_credential_id d)) (Ok (Some (ld_row d)))) ∈ history s) as Hf.
  { apply elem_of_own. rewrite Htr. unfold login_trace. set_solver. }
  destruct (history_answers _ _ _ _ _ Hs _ Hf) as (d1 & d2 & Hans). simpl in Hans.
  destruct Hans as [[= _ Hfound]|(? & ? & _)]; [|done]. symmetry in Hfound. apply found_id in Hfound.
  exists (saw (AdvanceSignCount (row_credential_id (ld_row d)) (cl_new_sign_count (ld_claims d))) (Ok true)).
  split; [apply elem_of_own; rewrite Htr; unfold login_trace; set_solver|].
  unfold advanced_by. simpl. rewrite Hfound, (aut_claims _ _ _ Hauth). done.
Qed.

Lemma finished_once {A} d0 s (f : ApiRequest * prog (res ApiResponse ApiError) → option A)
    (g : nat * event (Σ := idp_signature) → option A) :
  reachable d0 s → NoDup (omap g (history s)) →
  (∀ i r p x, requests s !! i = Some r → threads s !! i = Some p → f (r, p) = Some x →
     ∃ e, (i, e) ∈ history s ∧ g (i, e) = Some x) →
  NoDup (omap f (zip (requests s) (threads s))).
Proof.
  intros Hs Hnd Hfg. apply NoDup_omap_lookup. intros i j [r1 p1] [r2 p2] x Hi Hj Hx1 Hx2.
  apply lookup_zip_Some in Hi as [Hri Hpi], Hj as [Hrj Hpj].
  destruct (Hfg i r1 p1 x Hri Hpi Hx1) as (e1 & He1 & Hg1).
  destruct (Hfg j r2 p2 x Hrj Hpj Hx2) as (e2 & He2 & Hg2).
  by assert ((i, e1) = (j, e2)) as [= -> _] by (by eapply NoDup_omap_inj).
Qed.

Lemma later_NoDup l : StronglySorted later l → NoDup l.
Proof.
  induction 1 as [|a l Hl IH Ha]; constructor; [|done]. intros Hin.
  rewrite Forall_forall in Ha. specialize (Ha a Hin eq_refl). lia.
Qed.

Lemma in_zip_omap {A B C} (f : A * B → option C) l k x :
  x ∈ omap f (zip l k) → ∃ i a b, l !! i = Some a ∧ k !! i = Some b ∧ f (a, b) = Some x.
Proof.
  intros ([a b] & Hin & Hf)%list_elem_of_omap. apply list_elem_of_lookup_1 in Hin as [i Hi].
  apply lookup_zip_Some in Hi as [? ?]. by exists i, a, b.
Qed.

(** C18. No replay, under every interleaving of any number of requests and any loss of
    answers: among the registrations and the logins that succeeded no two presented the same
    challenge, and no two logins came with the same counter of the same authenticator; the
    challenges of both are marked as used.  In particular no request succeeds twice. *)
Theorem no_replay d0 s (Hs : reachable d0 s) :
  NoDup (omap spent (zip (requests s) (threads s))) ∧
  NoDup (omap login_counter (zip (requests s) (threads s))) ∧
  ∀ ch, ch ∈ omap spent (zip (requests s) (threads s)) → used (db s) ch.
Proof.
  destruct (consumed_once _ _ Hs) as [Hc Hused]. destruct (advanced_sorted _ _ Hs) as [Ha _].
  split; [|split].
  - apply (finished_once d0 s _ consumed_by Hs Hc). intros. by eapply spent_consumed.
  - apply (finished_once d0 s _ advanced_by Hs); [by apply later_NoDup|].
    intros i r p [id n] Hr Hp Hl. by eapply counter_advanced.
  - intros ch (i & r & p & Hr & Hp & Hf)%in_zip_omap. apply Hused, list_elem_of_omap.
    destruct (spent_consumed _ _ _ _ _ _ Hs Hr Hp Hf) as (e & He & Hg). by exists (i, e).
Qed.

(** A counter of zero never logs in.  Among the logins that succeeded, from tables without
    negative counters, every counter is above zero: [advance_sign_count] grants nothing
    to a counter of zero, even for an authenticator that was registered as not
    supporting counters, whose ceremony [verify_authentication_ceremony] accepts without
    looking at the counter.  Authenticators that always send zero can register and are
    then refused for ever, as suspected clones. *)
Theorem zero_counter_never_logs_in d0 s
    (Hpos : ∀ id n, counter_of d0 id = Some n → 0 ≤ n) (Hs : reachable d0 s) :
  (∀ id n, (id, n) ∈ omap login_counter (zip (requests s) (threads s)) → 0 < n) ∧
  (∀ id, is_Some (counter_of (db s) id) → advance_sign_count (db s) id 0 = (db s, Ok false)).
Proof.
  destruct (counters_nonneg _ _ Hpos Hs) as [Hdb Hadv]. split.
  - intros id n (i & r & p & Hr & Hp & Hf)%in_zip_omap.
    destruct (counter_advanced _ _ _ _ _ _ _ Hs Hr Hp Hf) as (e & He & Hg).
    apply (Hadv id n), list_elem_of_omap. by exists (i, e).
  - intros id [n Hn]. pose proof (Hdb id n Hn) as Hge. unfold counter_of in Hn. unfold advance_sign_count.
    destruct (authenticators (db s) !! id) as [row|]; [|done]. injection Hn as ->.
    by rewrite (proj2 (Z.ltb_ge _ _)).
Qed.
End replay.

(** ** The statements keep the contracts of [zs-webauthn] *)

(** Live challenges at the server's time: unused, unexpired, of the ceremony. *)
Definition live_challenges (kind : string) (now : Z) (d : Db) : gset bytes :=
  dom (filter (λ kv, consumable now kind kv.2 = true) (challenges d)).

#[export] Instance sql_challenges (kind : string) : ChallengeStore (Z * Db) SqlxError := {|
  consume s c :=
    let '(d', r) := consume_challenge s.1 s.2 (ch_bytes c) kind in
    ((s.1, d'), map_ok (λ o, (λ _, tt) <$> o) r) |}.
#[export] Instance sql_counters : SignCounterStore Db SqlxError := {| advance := advance_sign_count |}.

Lemma elem_of_live kind now d ch :
  ch ∈ live_challenges kind now d ↔
  ∃ row, challenges d !! ch = Some row ∧ consumable now kind row = true.
Proof.
  unfold live_challenges. rewrite elem_of_dom. split.
  - intros [row Hrow]. apply map_lookup_filter_Some in Hrow as [? ?]. by exists row.
  - intros (row & Hrow & Hc). exists row. by apply map_lookup_filter_Some.
Qed.

Lemma consume_live kind now d ch :
  match (consume_challenge now d ch kind).2 with
  | Ok (Some _) => ch ∈ live_challenges kind now d ∧
      live_challenges kind now (consume_challenge now d ch kind).1 =
      live_challenges kind now d ∖ {[ ch ]}
  | Ok None => (consume_challenge now d ch kind).1 = d ∧ ch ∉ live_challenges kind now d
  | _ => False
  end.
Proof.
  unfold consume_challenge. destruct (challenges d !! ch) as [row|] eqn:Hrow.
  - destruct (consumable now kind row) eqn:Hc; simpl.
    + split; [apply elem_of_live; by exists row|]. apply set_eq. intros x.
      rewrite elem_of_difference, elem_of_singleton, !elem_of_live. simpl. split.
      * intros (r & Hr & Hcr). destruct (decide (x = ch)) as [->|Hne].
        -- rewrite lookup_insert_eq in Hr. simplify_eq. unfold consumable, mark_used in Hcr. simpl in Hcr.
           bool_simp. done.
        -- rewrite lookup_insert_ne in Hr by done. split; [by exists r|done].
      * intros [(r & Hr & Hcr) Hne]. exists r. split; [|done]. by rewrite lookup_insert_ne.
    + split; [done|]. rewrite elem_of_live. intros (r & Hr & Hcr). congruence.
  - simpl. split; [done|]. rewrite elem_of_live. intros (r & Hr & _). congruence.
Qed.

#[export] Program Instance sql_challenges_laws kind :
  @ChallengeStoreLaws (Z * Db) SqlxError (sql_challenges kind) :=
  {| live s := live_challenges kind s.1 s.2 |}.
Next Obligation.
  intros kind [now d] c s' r. simpl. pose proof (consume_live kind now d (ch_bytes c)) as Hl.
  destruct (consume_challenge _ _ _ _) as [d' [[o|]|e|]]; simpl in *; intros [= <- <-]; simpl; [|set_solver|done|done].
  destruct Hl as [Hin ->]. split; [done|set_solver].
Qed.

#[export] Program Instance sql_counters_laws : SignCounterStoreLaws Db SqlxError :=
  {| counter := counter_of |}.
Next Obligation.
  intros d id n d' r. simpl. unfold advance_sign_count, counter_of.
  destruct (authenticators d !! id) as [row|] eqn:Hrow; [|by intros [= <- <-]].
  destruct (_ <? n) eqn:Hlt; intros [= <- <-]; [|done]. bool_simp. simpl. rewrite lookup_insert_eq.
  split; [by exists (ar_sign_count row)|]. split; [done|]. intros other Hne.
  by rewrite lookup_insert_ne.
Qed.

(** C39. The statements of the provider's store keep the contracts that [zs-webauthn] states for
    its [ChallengeStore] and [SignCounterStore]: at a given time of the server,
    [consume_challenge] answers a row exactly for a live challenge of the ceremony and
    removes that challenge and nothing else from the live ones; and what the contracts
    promise follows for any sequence of calls: a challenge is granted once, and the
    counters granted to an authenticator increase. *)
Theorem statements_keep_contracts kind now d :
  (∀ ch, match (consume_challenge now d ch kind).2 with
         | Ok (Some _) => ch ∈ live_challenges kind now d ∧
             live_challenges kind now (consume_challenge now d ch kind).1 =
             live_challenges kind now d ∖ {[ ch ]}
         | Ok None => (consume_challenge now d ch kind).1 = d ∧ ch ∉ live_challenges kind now d
         | _ => False
         end) ∧
  (∀ calls c, (consumed c (@run_consumes (Z * Db) SqlxError (sql_challenges kind) (now, d) calls) ≤ 1)%nat) ∧
  (∀ calls id, StronglySorted Z.lt (advanced id (run_advances d calls))).
Proof.
  split; [intros ch; apply consume_live|].
  split; [intros calls c; apply run_consumes_once | intros calls id; apply run_advances_sorted].
Qed.
