(* ===== verification/IdpJournal.v ===== *)
(** * The audit journal of the identity provider under every interleaving

    Two requests may read the same head of the chain and seal two events for the same
    place; the unique index refuses the second row.  The journal therefore stays a chain
    that [verify_chain] accepts; each of its rows holds the bytes of a sealed event and
    repeats its fields, and every assertion that left the service has its row. *)

From S2P Require Import Prelude.
From S2P Require Import Effects.
From S2P Require Import Json.
From S2P Require Import Serde.
From S2P Require Import JsonCodec.
From S2P Require Import Aws.
From S2P Require Import Common.
From S2P Require Import Signer.
From S2P Require Import Chain.
From S2P Require Import Suite.
From S2P Require Import IdentityAssertion.
From S2P Require Import AuditSeal.
From S2P Require Import AuthProof.
From S2P Require Import ClientData.
From S2P Require Import Cose.
From S2P Require Import Registration.
From S2P Require Import IdpStore.
From S2P Require Import IdpGrpc.
From S2P Require Import IdpHttp.
From S2P Require Import IdpSpec.
From S2P Require Import IdpSystem.
From S2P Require Import IdpReplay.

Section journal.
Context `{SerdeJson, Base64, AwsLc, Ciborium, Coset, ScanOrder, PgConversions}.

(** ** Journals of one domain, numbered from zero *)

(** The head after the rows [l]. *)
Definition head_at (l : list event_row) : ChainHead := {|
  next_sequence := len l;
  IdpStore.prev_hash :=
    match last l with
    | Some e => Chain.hash_sealed_event (er_sealed_bytes e)
    | None => Chain.CHAIN_ROOT
    end |}.

(** Row [i] has sequence [i] and the hash of the row before. *)
Definition numbered (domain : string) (l : list event_row) : Prop :=
  ∀ i e, l !! i = Some e →
    er_authority_domain e = domain ∧ er_sequence e = Z.of_nat i ∧
    er_sequence e ≤ AuditSeal.MAX_SAFE_INTEGER ∧
    er_prev_hash e = Common.hex_encode (IdpStore.prev_hash (head_at (take i l))).

Lemma numbered_prefix D l1 l2 : numbered D (l1 ++ l2) → numbered D l1.
Proof.
  intros Hl i e He. pose proof (lookup_lt_Some _ _ _ He).
  specialize (Hl i e). rewrite lookup_app_l, take_app_le in Hl by lia. by apply Hl.
Qed.

Lemma numbered_snoc D l e :
  numbered D l → er_authority_domain e = D → er_sequence e = len l →
  er_sequence e ≤ AuditSeal.MAX_SAFE_INTEGER →
  er_prev_hash e = Common.hex_encode (IdpStore.prev_hash (head_at l)) → numbered D (l ++ [e]).
Proof.
  intros Hl Hd Hs Hm Hp i x [Hi|[Hi Hx]]%lookup_app_Some.
  - pose proof (lookup_lt_Some _ _ _ Hi). rewrite take_app_le by lia. by apply Hl.
  - apply list_lookup_singleton_Some in Hx as [Hz <-].
    assert (i = length l) as -> by lia. rewrite take_app_length. by split_and!.
Qed.

Lemma highest_snoc l e :
  (∀ x, x ∈ l → er_sequence x < er_sequence e) → highest (l ++ [e]) = Some e.
Proof.
  induction l as [|y l IH]; intros Hl; [done|]. simpl. rewrite IH by set_solver.
  rewrite (proj2 (Z.ltb_lt _ _)) by (apply Hl; left). done.
Qed.

Lemma numbered_domain D l : numbered D l → filter (λ e, er_authority_domain e = D) l = l.
Proof.
  intros Hl. apply list_filter_all. apply Forall_forall. intros e [i Hi]%list_elem_of_lookup_1.
  by apply (Hl i e Hi).
Qed.

(** What [chain_head] answers on a numbered journal. *)
Lemma chain_head_numbered d D :
  numbered D (events d) → pg_text D = true → chain_head d D = Ok (head_at (events d)).
Proof.
  intros Hl Hd. unfold chain_head. rewrite Hd, numbered_domain by done. simpl.
  destruct (events d) as [|e l _] eqn:Hev using rev_ind; [done|].
  destruct (Hl (length l) e) as (_ & Hs & Hm & _); [by rewrite list_lookup_middle|].
  rewrite highest_snoc.
  2: { intros x [i Hi]%list_elem_of_lookup_1. pose proof (lookup_lt_Some _ _ _ Hi).
       destruct (Hl i x) as (_ & -> & _); [by apply lookup_app_l_Some|]. lia. }
  unfold Chain.next_u64, AuditSeal.MAX_SAFE_INTEGER in *. change (Z.shiftl 1 53) with (2 ^ 53) in *.
  unfold wrap_u64. rewrite Z.mod_small, (proj2 (Z.ltb_lt _ _)) by (unfold u64_max; lia). simpl.
  unfold head_at. rewrite last_snoc, len_app. change (len [e]) with 1. rewrite Hs. done.
Qed.

Lemma len_head_at l : len (IdpStore.prev_hash (head_at l)) = 32.
Proof. unfold head_at, Chain.hash_sealed_event. simpl. destruct (last l); [apply len_sha256|done]. Qed.

Lemma chain_head_hash d D h : chain_head d D = Ok h → len (IdpStore.prev_hash h) = 32.
Proof.
  unfold chain_head. destruct (pg_text D); [|done]. simpl. destruct (highest _) as [e|]; [|by intros [= <-]].
  destruct (Chain.next_u64 _); simpl; [|done|done]. intros [= <-]. apply len_sha256.
Qed.

(** ** As the entries that [verify_chain] reads *)

Definition journal_entry (e : event_row) : ChainEntry := {|
  Chain.authority_domain := er_authority_domain e; Chain.sequence := er_sequence e;
  Chain.prev_hash := default [] (hex_decode (er_prev_hash e));
  Chain.sealed_bytes := er_sealed_bytes e |}.

Lemma numbered_linked D l : numbered D l → linked (map journal_entry l).
Proof.
  intros Hl i x Hx. apply list_lookup_fmap_Some in Hx as (e & -> & He).
  destruct (Hl i e He) as (_ & Hs & _ & Hp). split; [done|]. simpl. rewrite Hp, hex_decode_encode. simpl.
  destruct i as [|j]; [done|]. pose proof (lookup_lt_Some _ _ _ He).
  destruct (lookup_lt_is_Some_2 l j) as [y Hy]; [lia|].
  rewrite (take_S_r _ _ y) by done. unfold head_at. simpl. rewrite last_snoc.
  assert (map journal_entry l !! j = Some (journal_entry y)) as -> by (rewrite list_lookup_fmap, Hy; done).
  done.
Qed.

Lemma numbered_verifies D l :
  numbered D l → l ≠ [] → len l ≤ u64_max → verify_chain (map journal_entry l) = Ok tt.
Proof.
  intros Hl Hne Hlen. apply verify_chain_linked; [by unfold len; rewrite length_map|].
  split; [by destruct l|]. intros D'. destruct (decide (D' = D)) as [->|Hd].
  - unfold domain_entries. rewrite list_filter_all; [by eapply numbered_linked|].
    apply Forall_forall. intros x (e & -> & [i He]%list_elem_of_lookup_1)%list_elem_of_fmap.
    by apply (Hl i e He).
  - assert (domain_entries D' (map journal_entry l) = []) as ->; [|intros i e Hi; done].
    unfold domain_entries. apply list_filter_none. apply Forall_forall.
    intros x (e & -> & [i He]%list_elem_of_lookup_1)%list_elem_of_fmap. simpl.
    destruct (Hl i e He) as [-> _]. done.
Qed.
End journal.

(** ** Rows and the events they hold *)

(** The head that a call read. *)
Definition head_read (e : event (Σ := idp_signature)) : option ChainHead :=
  match e with
  | existT c x =>
      (match c return idp_answer c → option ChainHead with
       | GetChainHead _ => λ x, match x with Ok h => Some h | _ => None end
       | _ => λ _, None
       end) x
  end.

Section rows.
Context `{SerdeJson, Base64, AwsLc, Ciborium, Coset, ScanOrder, PgConversions}.
Context {P R : Type} `{HsmSigner P, Csprng R}.
Variable state : AppState.
Variables (asealer : AssertionSealer P) (esealer : AuditSealer P).
Abbreviation D := (st_authority_domain state).
Abbreviation answers := (IdpSystem.answers (P := P) (R := R) asealer esealer).
Abbreviation reachable := (IdpSystem.reachable (P := P) (R := R) state asealer esealer).

(** A row holds the sealed bytes of an event, and its columns are the fields of it. *)
Record sealed_row (e : event_row) (f : AuditEventFields) : Prop := {
  sr_sealed : ∃ p p', AuditSeal.seal (audit_sealer_at esealer p) f =
    (p', Ok {| AuditSeal.bytes_of := er_sealed_bytes e |});
  sr_event_id : er_event_id e = uuid_str (AuditSeal.event_id f);
  sr_sequence : er_sequence e = seq_value (AuditSeal.sequence f);
  sr_prev_hash : er_prev_hash e = Common.hex_encode (AuditSeal.prev_hash f);
  sr_prev_hash_len : len (AuditSeal.prev_hash f) = 32;
  sr_domain : er_authority_domain e = as_str (AuditSeal.authority_domain f);
  sr_event_type : er_event_type e = AuditSeal.event_type_str (AuditSeal.event_type f);
  sr_actor : er_actor e = actor_json (as_str (actor_subject_id (AuditSeal.actor f)));
  sr_outcome : er_outcome e = AuditSeal.outcome_str (AuditSeal.outcome f);
  sr_decision : AuditSeal.decision f = None;
}.

(** The journal of the domain of the service. *)
Definition good_journal (l : list event_row) : Prop :=
  numbered D l ∧ ∀ e, e ∈ l → ∃ f, sealed_row e f.

Lemma seal_event_answer (i : nat) (f : AuditEventFields) ev (h : list (nat * event (Σ := idp_signature))) :
  (∀ e, e ∈ h → ∃ d d', answers d (projT1 e.2) (projT2 e.2) d') →
  (i, saw (SealEvent f) (Ok ev)) ∈ h →
  ∃ p p', AuditSeal.seal (audit_sealer_at esealer p) f = (p', Ok ev).
Proof.
  intros Hall Hin. destruct (Hall _ Hin) as (d & d' & _ & [?|[p Hp]]); [done|].
  simpl in Hp. exists p. destruct (AuditSeal.seal _ f) as [p' r]. exists p'. simpl in Hp. by subst.
Qed.

Lemma head_answer (i : nat) head (h : list (nat * event (Σ := idp_signature))) :
  (∀ e, e ∈ h → ∃ d d', answers d (projT1 e.2) (projT2 e.2) d') →
  (i, saw (GetChainHead D) (Ok head)) ∈ h → len (IdpStore.prev_hash head) = 32.
Proof.
  intros Hall Hin. destruct (Hall _ Hin) as (d & d' & [Hdone|(? & ? & _)]); [|done].
  simpl in Hdone. simplify_eq. by eapply chain_head_hash.
Qed.

(** The row that an allowed [append] would insert. *)
Lemma appended_row s d0 i id n at_ dom ty actor out ph sig bs :
  reachable d0 s → allowed state (own i (history s)) (Append id n at_ dom ty actor out ph sig bs) →
  ∃ head f, (i, saw (GetChainHead D) (Ok head)) ∈ history s ∧ next_sequence head = n ∧ dom = D ∧
    0 ≤ n ≤ AuditSeal.MAX_SAFE_INTEGER ∧ ph = Common.hex_encode (IdpStore.prev_hash head) ∧
    sealed_row {| er_event_id := id; er_sequence := n; er_occurred_at := at_;
      er_authority_domain := dom; er_event_type := ty; er_actor := actor; er_outcome := out;
      er_prev_hash := ph; er_signature := sig; er_sealed_bytes := bs |} f.
Proof.
  intros Hs (head & f & ev & Hh & Hev & E1 & E2 & E3 & E4 & E5 & E6 & E7 & E8 & E9 & E10 & E11 & E12).
  apply elem_of_own in Hh. apply elem_of_own in Hev. pose proof (history_answers _ _ _ _ _ Hs) as Hall.
  pose proof (seal_event_answer _ _ _ _ Hall Hev) as Hseal.
  pose proof (head_answer _ _ _ Hall Hh) as Hlen.
  exists head, f. pose proof (seq_ok (AuditSeal.sequence f)) as Hseq. rewrite E2 in Hseq.
  unfold between in Hseq. bool_simp. split_and!; try done; try lia.
  destruct ev as [bs']. simpl in E11. subst bs'. constructor; simpl; first [done | congruence].
Qed.

Lemma wrap_safe n : 0 ≤ n ≤ AuditSeal.MAX_SAFE_INTEGER → wrap_i64 n = n.
Proof.
  unfold AuditSeal.MAX_SAFE_INTEGER. change (Z.shiftl 1 53) with (2 ^ 53). intros Hn.
  apply wrap_i64_id. unfold in_i64, i64_min, i64_max. lia.
Qed.

(** Only [append] writes the journal, at its end. *)
Lemma events_step d c x d' :
  answers d c x d' →
  events d' = events d ∨
  ∃ id n at_ dom ty actor out ph sig bs,
    c = Append id n at_ dom ty actor out ph sig bs ∧
    let e := {| er_event_id := id; er_sequence := wrap_i64 n; er_occurred_at := at_;
      er_authority_domain := dom; er_event_type := ty; er_actor := actor; er_outcome := out;
      er_prev_hash := ph; er_signature := sig; er_sealed_bytes := bs |} in
    insertable d e = true ∧ events d' = events d ++ [e].
Proof.
  intros Hans. destruct (answers_effect _ _ _ _ _ _ Hans) as [now [->| ->]]; [by left|].
  destruct c; simpl; auto.
  - left. unfold issue_challenge. rewrite commit_fst. destruct (pg_after _ _); simpl; [|done]. by destruct (_ && _).
  - left. unfold consume_challenge. destruct (challenges d !! _); [|done]. by destruct (consumable _ _ _).
  - left. unfold insert_authenticator. rewrite commit_fst. by destruct (_ && _).
  - left. unfold advance_sign_count. destruct (authenticators d !! _); [|done]. by destruct (_ <? _).
  - unfold append. rewrite commit_fst. destruct (insertable _ _) eqn:Hi; [|by left]. right.
    by do 10 eexists.
Qed.

(** A place of the journal is given once: a row that is accepted comes right after the
    head that its request had read. *)
Lemma head_is_last d l1 l2 e :
  numbered D (events d) → events d = l1 ++ l2 → er_authority_domain e = D → er_sequence e = len l1 →
  insertable d e = true → l2 = [].
Proof.
  intros Hnum Heq Hd Hs Hins. destruct l2 as [|y l2]; [done|]. exfalso.
  assert (events d !! length l1 = Some y) as Hy by (rewrite Heq; by apply list_lookup_middle).
  destruct (Hnum _ _ Hy) as (Hyd & Hys & _). unfold insertable in Hins. bool_simp.
  match goal with Hk : (_, er_sequence e) ∉ _ |- _ => apply Hk end.
  apply list_elem_of_fmap. exists y. split; [|by eapply list_elem_of_lookup_2]. rewrite Hd, Hyd, Hs, Hys. done.
Qed.

(** The journal stays good, and every head that was read is that of a prefix of it. *)
Lemma journal_inv d0 s :
  pg_text D = true → good_journal (events d0) → reachable d0 s →
  good_journal (events (db s)) ∧
  ∀ e h, e ∈ history s → head_read e.2 = Some h →
    ∃ l1 l2, events (db s) = l1 ++ l2 ∧ h = head_at l1.
Proof.
  intros HD Hd0. revert s. refine (reachable_ind _ _ _ (λ d h0, good_journal (events d) ∧
    ∀ e h, e ∈ h0 → head_read e.2 = Some h → ∃ l1 l2, events d = l1 ++ l2 ∧ h = head_at l1) d0 _ _).
  { split; [done | by intros e h ?%elem_of_nil]. }
  intros s i c x d' Hs Hall Hans [[Hnum Hrows] Hheads].
  destruct (events_step _ _ _ _ Hans) as [Hsame|(id & n & at_ & dom & ty & actor & out & ph & sig & bs & -> & Hins & Hev)].
  - rewrite Hsame. split; [done|]. intros e h [He|He]%elem_of_app Hr; [by eapply Hheads|].
    apply list_elem_of_singleton in He as ->. destruct c; try done. simpl in Hans, Hr.
    destruct Hall. destruct Hans as [Hdone|(? & -> & _)]; [|done].
    rewrite chain_head_numbered in Hdone by done. simplify_eq. exists (events (db s)), [].
    by rewrite app_nil_r.
  - destruct (appended_row _ _ _ _ _ _ _ _ _ _ _ _ _ Hs Hall) as (head & f & Hh & Hn & -> & Hb & -> & Hrow).
    rewrite wrap_safe in Hins, Hev by done.
    destruct (Hheads _ head Hh eq_refl) as (l1 & l2 & Heq & ->). simpl in Hn. subst n.
    assert (l2 = []) as -> by (eapply head_is_last; [exact Hnum|exact Heq| | |exact Hins]; done). rewrite app_nil_r in Heq. subst l1.
    rewrite Hev. split; [split|].
    + apply numbered_snoc; [done|done|done|apply Hb|done].
    + intros e [He| ->%list_elem_of_singleton]%elem_of_app; [by apply Hrows|by exists f].
    + intros e h [He|He]%elem_of_app Hr.
      * destruct (Hheads e h He Hr) as (l1 & l2 & -> & ->). eexists l1, (l2 ++ _). by rewrite app_assoc.
      * apply list_elem_of_singleton in He as ->. done.
Qed.

(** ** Assertions and their events *)

(** A row that was answered as inserted is in the journal from then on. *)
Lemma events_kept d0 s e :
  reachable d0 s → e ∈ events d0 → e ∈ events (db s).
Proof.
  intros Hs He. revert s Hs. refine (reachable_ind _ _ _ (λ d _, e ∈ events d) d0 He _).
  intros s i c x d' _ _ Hans IH.
  destruct (events_step _ _ _ _ Hans) as [->|(? & ? & ? & ? & ? & ? & ? & ? & ? & ? & -> & _ & ->)]; set_solver.
Qed.

(** The row of an append that was answered. *)
Definition appended (e : event (Σ := idp_signature)) : option event_row :=
  match e with
  | existT c x =>
      (match c return idp_answer c → option event_row with
       | Append id n at_ dom ty actor out ph sig bs => λ x,
           match x with
           | Ok _ => Some {| er_event_id := id; er_sequence := wrap_i64 n; er_occurred_at := at_;
               er_authority_domain := dom; er_event_type := ty; er_actor := actor; er_outcome := out;
               er_prev_hash := ph; er_signature := sig; er_sealed_bytes := bs |}
           | _ => None
           end
       | _ => λ _, None
       end) x
  end.

Lemma appended_kept d0 s e row :
  reachable d0 s → e ∈ history s → appended e.2 = Some row → row ∈ events (db s).
Proof.
  intros Hs. revert s Hs e. refine (reachable_ind _ _ _ (λ d h, ∀ e, e ∈ h →
    appended e.2 = Some row → row ∈ events d) d0 _ _); [by intros e ?%elem_of_nil|].
  intros s i c x d' _ _ Hans IH e [He|He]%elem_of_app Hid.
  - specialize (IH e He Hid).
    destruct (events_step _ _ _ _ Hans) as [->|(? & ? & ? & ? & ? & ? & ? & ? & ? & ? & -> & _ & ->)]; set_solver.
  - apply list_elem_of_singleton in He as ->. destruct c; try done. simpl in Hans, Hid.
    destruct Hans as [Hdone|(? & -> & _)]; [|done]. unfold append in Hdone.
    destruct (insertable _ _); simpl in Hdone; simplify_eq/=. apply elem_of_app. right. by left.
Qed.

(** What an audit event that was appended left in the journal. *)
Lemma audited_row d0 s i ty subj explicit just out (ad : audit_data) tr :
  reachable d0 s → audit_ok state ty subj explicit just out ad →
  own i (history s) = tr ++ audit_trace state ty subj explicit out ad →
  ∃ row, row ∈ events (db s) ∧ sealed_row row (ad_fields ad) ∧
    er_event_id row = ad_event_id ad ∧ AuditSeal.event_type (ad_fields ad) = ty ∧
    er_actor row = actor_json subj ∧ explicit_target explicit = Ok (AuditSeal.target (ad_fields ad)) ∧
    AuditSeal.outcome (ad_fields ad) = out.
Proof.
  intros Hs [_ _ (target & Htarget & Hf)] Hown. pose proof (history_answers _ _ _ _ _ Hs) as Hall.
  pose proof Hf as (E1 & E2 & E3 & E4 & E5 & E6 & E7 & E8 & E9 & E10)%event_fields_Ok.
  assert (∀ e, e ∈ audit_trace state ty subj explicit out ad → (i, e) ∈ history s) as Hin.
  { intros e He. apply elem_of_own. rewrite Hown. set_solver. }
  pose proof (head_answer i (ad_head ad) _ Hall (Hin _ ltac:(left))) as Hlen.
  assert ((i, saw (SealEvent (ad_fields ad)) (Ok (ad_sealed ad))) ∈ history s) as Hsealed
    by (apply Hin; unfold audit_trace; set_solver).
  apply (seal_event_answer i _ _ _ Hall) in Hsealed.
  assert ((i, saw (append_call state ty subj out ad) (Ok tt)) ∈ history s) as Happ
    by (apply Hin; unfold audit_trace; set_solver).
  pose proof (seq_ok (AuditSeal.sequence (ad_fields ad))) as Hseq. unfold between in Hseq. bool_simp.
  eexists. split; [by eapply (appended_kept d0 s _ _ Hs Happ)|]. simpl.
  rewrite wrap_safe by (rewrite <- E2; done). rewrite E8 in *.
  split_and!; [|done..]. constructor; simpl; rewrite ?E1, ?E2, ?E3, ?E5, ?E6, ?E7, ?E9;
    auto using hex_encode_same, event_type_str_same, outcome_str_same.
  by destruct (ad_sealed ad).
Qed.

(** The parts of an assertion and of its event that are tied together. *)
Lemma assertion_claims_event claims id now after a :
  assertion_claims state claims id now after = Ok a →
  uuid_str (IdentityAssertion.audit_event_id a) = id.
Proof.
  unfold assertion_claims, or_internal. intros Ha. ok_inv.
  repeat match goal with
  | Hu : EventId_new _ = Ok _ |- _ => apply uuid_new_iff in Hu
  end. simplify_eq. done.
Qed.

Lemma explicit_target_Ok (id ty t : string) o :
  explicit_target (Some (id, ty, t)) = Ok o →
  ∃ x, o = Some x ∧ as_str (target_type x) = ty ∧ as_str (target_id x) = t.
Proof.
  unfold explicit_target, try_opt. rewrite map_ok_Ok. intros (x & Hx & <-).
  apply bind_Ok in Hx as (ty' & Hty & Hx). apply bind_Ok in Hx as (t' & Ht & [= <-]).
  apply expect_Ok, ascii_text_new_iff in Hty. apply expect_Ok, ascii_text_new_iff in Ht. eauto.
Qed.

(** ** Theorems *)

(** The journal only grows. *)
Lemma journal_grows d0 s : reachable d0 s → ∃ l, events (db s) = events d0 ++ l.
Proof.
  revert s. refine (reachable_ind _ _ _ (λ d _, ∃ l, events d = events d0 ++ l) d0 _ _).
  { exists []. by rewrite app_nil_r. }
  intros s i c x d' _ _ Hans [l IH].
  destruct (events_step _ _ _ _ Hans) as [->|(? & ? & ? & ? & ? & ? & ? & ? & ? & ? & -> & _ & ->)]; [by exists l|].
  rewrite IH, <- app_assoc. eauto.
Qed.

Lemma numbered_short l : numbered D l → len l ≤ u64_max.
Proof.
  intros Hl. destruct l as [|e l _] using rev_ind; [done|].
  destruct (Hl (length l) e) as (_ & Hs & Hm & _); [by rewrite list_lookup_middle|].
  unfold AuditSeal.MAX_SAFE_INTEGER in Hm. change (Z.shiftl 1 53) with (2 ^ 53) in Hm.
  rewrite len_app. change (len [e]) with 1. unfold len, u64_max. lia.
Qed.

(** C21. The journal stays a chain under every interleaving of any number of requests, with
    connections lost before or after an insert: starting from a good journal, rows are
    only added, each is numbered by its place and carries the hash of the bytes before it
    ([verify_chain] accepts the whole), and holds the sealed bytes of an event whose
    identifier, sequence, previous hash, domain, type, actor and outcome its columns
    repeat.  Two requests that read the same head cannot both append. *)
Theorem journal_stays_linked d0 s
    (HD : pg_text D = true) (Hd0 : good_journal (events d0)) (Hs : reachable d0 s) :
  good_journal (events (db s)) ∧
  (events (db s) ≠ [] → verify_chain (map journal_entry (events (db s))) = Ok tt) ∧
  (∃ l, events (db s) = events d0 ++ l).
Proof.
  destruct (journal_inv d0 s HD Hd0 Hs) as [[Hnum Hrows] _].
  split; [done|]. split; [|by apply journal_grows].
  intros Hne. eapply numbered_verifies; [done..|]. by apply numbered_short.
Qed.

(** C38. Every row of the journal can be verified: under the accepted key of the sealer,
    [verify] accepts the sealed bytes of every row, whatever happened before, and returns
    the identifier, sequence, previous hash, domain and type that the columns show.  (The
    date is not among them: the column is filled from a second reading of the clock.) *)
Theorem journal_rows_verify `{!SerdeJsonLaws} d0 s pk k keys policy e
    (HD : pg_text D = true) (Hd0 : good_journal (events d0)) (Hs : reachable d0 s)
    (Hkey : signs_for (AuditSeal.key esealer) pk)
    (Hacc : AuditSeal.accept_verifying_key AuditSeal.SUITE_V1 (AuditSeal.key_id esealer) pk = Ok k)
    (Hfind : find_key keys (AuditSeal.key_id esealer) = Some k)
    (Hsuite : AuditSeal.SUITE_V1 ∈ AuditSeal.accepted_suites policy)
    (Hdomain : AuditSeal.expected_authority_domain policy = D)
    (He : e ∈ events (db s)) :
  ∃ va, AuditSeal.verify keys (er_sealed_bytes e) policy = Ok va ∧
    va_event_id va = er_event_id e ∧ va_sequence va = er_sequence e ∧
    Common.hex_encode (va_prev_hash va) = er_prev_hash e ∧
    AuditSeal.va_authority_domain va = er_authority_domain e ∧
    AuditSeal.event_type_str (va_event_type va) = er_event_type e.
Proof.
  destruct (journal_inv d0 s HD Hd0 Hs) as [[Hnum Hrows] _].
  destruct (Hrows e He) as (f & [(p & p' & Hseal) E1 E2 E3 E4 E5 E6 _ _ E7]).
  pose proof (sealed_event_verifies (audit_sealer_at esealer p) p' f _ pk k keys policy Hseal) as [_ Hv].
  - split; [done|]. intros dec Hdec. congruence.
  - done.
  - done.
  - done.
  - simpl in Hv. rewrite Hv. unfold AuditSeal.policy_decision. rewrite bool_decide_true by done.
    assert (as_str (AuditSeal.authority_domain f) = D) as Hfd.
    { rewrite <- E5. apply list_elem_of_lookup_1 in He as [i Hi]. by apply (Hnum i e Hi). }
    rewrite Hdomain, bool_decide_true by done. simpl. eexists. split; [done|]. simpl.
    by rewrite E1, E2, E3, E5, E6.
Qed.

(** C23. No assertion without its event: whenever a login has succeeded, the answer is the
    base64 text of an assertion that the sealer signed, and the journal holds a row whose
    identifier is the [audit_event_id] of the assertion, of type
    [authentication.succeeded] by the subject of the assertion, sealed over the SHA-256 of
    the assertion's bytes as its target; the subject is that of the authenticator that was
    found, not revoked when it was read. *)
Theorem assertion_has_event d0 s i req resp
    (Hs : reachable d0 s) (Hreq : requests s !! i = Some (AuthenticationVerify req))
    (Hdone : threads s !! i = Some (Ret (Ok (AuthenticationVerified resp)))) :
  ∃ claims sealed row f p p',
    avr_assertion resp = url_safe_encode (IdentityAssertion.bytes_of sealed) ∧
    IdentityAssertion.seal (assertion_sealer_at asealer p) claims = (p', Ok sealed) ∧
    row ∈ events (db s) ∧ sealed_row row f ∧
    er_event_id row = uuid_str (IdentityAssertion.audit_event_id claims) ∧
    er_event_type row = "authentication.succeeded" ∧ er_outcome row = "success" ∧
    er_actor row = actor_json (as_str (IdentityAssertion.subject_id claims)) ∧
    (∃ t, AuditSeal.target f = Some t ∧ as_str (target_type t) = "identity_assertion" ∧
       as_str (target_id t) = Common.hex_encode (Aws.sha256 (IdentityAssertion.bytes_of sealed))) ∧
    ∃ r, (i, saw (FindAuthenticator (row_credential_id r)) (Ok (Some r))) ∈ history s ∧
      row_revoked r = false ∧ row_subject_id r = as_str (IdentityAssertion.subject_id claims).
Proof.
  destruct (login_finished _ _ _ _ _ _ _ _ Hs Hreq Hdone) as (d & Hown & [_ _ [_ Hcer] (now & after & _ & Hclaims) Haud] & [= ->]).
  pose proof (history_answers _ _ _ _ _ Hs) as Hall.
  assert (∀ e, e ∈ login_trace state d → (i, e) ∈ history s) as Hin
    by (intros e He; apply elem_of_own; by rewrite Hown).
  assert ((i, saw (SealAssertion (ld_assertion d)) (Ok (ld_sealed d))) ∈ history s) as Hsa
    by (apply Hin; unfold login_trace; set_solver).
  destruct (Hall _ Hsa) as (d1 & d2 & _ & [?|[p Hp]]); [done|]. simpl in Hp.
  assert ((i, saw (FindAuthenticator (ld_credential_id d)) (Ok (Some (ld_row d)))) ∈ history s) as Hf
    by (apply Hin; unfold login_trace; set_solver).
  destruct (Hall _ Hf) as (d3 & d4 & [[= _ Hrow]|(? & ? & _)]); [|done]. symmetry in Hrow. apply found_id in Hrow.
  pose proof (authenticated_claims _ _ Hcer) as (_ & Hrev & Hsubj). simpl in Hrev, Hsubj.
  pose proof (assertion_claims_subject _ _ _ _ _ _ Hclaims) as Hcs.
  destruct (audited_row d0 s i _ _ _ _ _ _ (take 6 (login_trace state d)) Hs Haud Hown)
    as (row & Hrin & Hsr & Hid & Hty & Hact & Htar & Hout).
  exists (ld_assertion d), (ld_sealed d), row, (ad_fields (ld_audit d)), p,
    (IdentityAssertion.seal (assertion_sealer_at asealer p) (ld_assertion d)).1.
  split; [done|]. split; [rewrite Hp; by destruct (IdentityAssertion.seal _ _)|]. split; [done|]. split; [done|].
  split; [rewrite Hid; rewrite (assertion_claims_event _ _ _ _ _ Hclaims); by eapply (ok_event_id _ _ _ _ _ _ _ Haud)|].
  split; [by rewrite (sr_event_type _ _ Hsr), Hty|]. split; [by rewrite (sr_outcome _ _ Hsr), Hout|].
  split; [by rewrite Hact, Hcs|]. split; [by apply explicit_target_Ok in Htar as (t & Ht & Htt & Hti); exists t; rewrite Hti, hex_encode_same|].
  exists (ld_row d). rewrite Hrow. split; [done|]. split; [done|]. by rewrite Hcs, Hsubj.
Qed.
End rows.
