(* ===== verification/IdpLogin.v ===== *)
(** * A login that nothing disturbs, and its assertion

    [login_outcome]: the conditions under which the request of a login runs to its end
    ([login_ready], with a token that signs), what that end is over a database that reads the
    texts of [append] ([server_converts]) and over one that refuses them, and what
    [verify_assertion] then says of the assertion at every second.  The second half of the file is a login at concrete inputs,
    the state it leads to, and the theorems of [IdpReplay] and [IdpJournal] in that state. *)

From S2P Require Import Prelude.
From S2P Require Import Effects.
From S2P Require Import Json.
From S2P Require Import Serde.
From S2P Require Import JsonCodec.
From S2P Require Import Aws.
From S2P Require Import Common.
From S2P Require Import Signer.
From S2P Require Import Chain.
From S2P Require Import Calendar.
From S2P Require Import Suite.
From S2P Require Import IdentityAssertion.
From S2P Require Import AuditSeal.
From S2P Require Import AuthProof.
From S2P Require Import ClientData.
From S2P Require Import Cose.
From S2P Require Import Registration.
From S2P Require Import Authentication.
From S2P Require Import IdpStore.
From S2P Require Import IdpGrpc.
From S2P Require Import IdpHttp.
From S2P Require Import IdpSpec.
From S2P Require Import IdpSystem.
From S2P Require Import IdpReplay.
From S2P Require Import IdpJournal.

(** ** The events of the provider fit *)

Lemma len_dec_digits f n : len (dec_digits f n) ≤ Z.of_nat f.
Proof.
  revert n. induction f as [|f IH]; intros n; [done|]. cbn [dec_digits]. rewrite len_app.
  change (len [digit (n mod 10)]) with 1. destruct (n <? 10); [change (len []) with 0; lia|].
  specialize (IH (n / 10)). lia.
Qed.

Section fits.
Context `{SerdeJsonLaws, AwsLc}.

(** The fields that the provider fills. *)
Definition plain_event (f : AuditEventFields) : Prop :=
  AuditSeal.decision f = None ∧ AuditSeal.context f = None ∧
  actor_aal (AuditSeal.actor f) = None ∧ actor_auth_method (AuditSeal.actor f) = None.

Definition plain_members (f : AuditEventFields) (kid sig : string) : list (string * value) :=
  [("schema_version", jint 1); ("event_id", VString (uuid_str (AuditSeal.event_id f)));
   ("sequence", jint (seq_value (AuditSeal.sequence f)));
   ("prev_hash", VString (Common.hex_encode (AuditSeal.prev_hash f)));
   ("occurred_at", VString (ts_str (AuditSeal.occurred_at f)));
   ("authority_domain", VString (as_str (AuditSeal.authority_domain f)));
   ("event_type", VString (AuditSeal.event_type_str (AuditSeal.event_type f)));
   ("actor", Object [("subject_id", VString (as_str (actor_subject_id (AuditSeal.actor f))));
                     ("kind", VString (actor_kind_str (actor_kind (AuditSeal.actor f))))])] ++
  match AuditSeal.target f with
  | Some t => [("target", Object [("type", VString (as_str (target_type t)));
                                  ("id", VString (as_str (target_id t)))])]
  | None => []
  end ++
  [("outcome", VString (AuditSeal.outcome_str (AuditSeal.outcome f)));
   ("signature", signature_value AuditSeal.SUITE_V1
      [{| component := "ecdsa-p256"; comp_key_id := kid; comp_value := sig |}])].

Lemma plain_members_eq f kid sig :
  plain_event f → AuditSeal.full_document (AuditSeal.wire_of f kid sig) = plain_members f kid sig.
Proof.
  intros (Hd & Hc & Ha & Hm).
  destruct f as [id seq ph at_ dom ty [subj kind aal meth] tgt out ctx dec]. simpl in *. subst.
  by destruct tgt as [[tt ti]|].
Qed.

Lemma len_text k s : plain_string k = true → plain_string s = true →
  len (member_bytes (k, canon (VString s))) = str_len k + str_len s + 5.
Proof. intros Hk Hs. rewrite len_member_plain by done. simpl canon. rewrite len_to_vec_plain by done. lia. Qed.

Lemma len_pair k k1 s1 k2 s2 :
  forallb plain_string [k; k1; k2; s1; s2] = true →
  len (member_bytes (k, canon (Object [(k1, VString s1); (k2, VString s2)]))) =
  str_len k + str_len k1 + str_len s1 + str_len k2 + str_len s2 + 16.
Proof.
  simpl forallb. intros Hp. bool_simp. rewrite len_member_plain, len_to_vec_canon by done.
  cbn [map sum_len fst snd]. rewrite !len_text by done. change (len [(k1, VString s1); (k2, VString s2)]) with 2. lia.
Qed.

Lemma len_signature kid sig :
  plain_string kid = true → plain_string sig = true →
  len (member_bytes ("signature", canon (signature_value AuditSeal.SUITE_V1
    [{| component := "ecdsa-p256"; comp_key_id := kid; comp_value := sig |}]))) =
  102 + str_len kid + str_len sig.
Proof.
  intros Hk Hs. rewrite len_member_plain by done. unfold signature_value. rewrite len_to_vec_canon by done.
  cbn [map sum_len fst snd]. rewrite !len_text, len_member_plain by done.
  change (canon (Array [component_json ?c])) with (canon (Array (map component_json [c]))).
  rewrite canon_components, len_component_json by done.
  cbn [component comp_key_id comp_value]. change (len [_; _]) with 2.
  change (str_len "signature") with 9. change (str_len "suite") with 5. change (str_len "components") with 10.
  change (str_len AuditSeal.SUITE_V1) with 13. change (str_len "ecdsa-p256") with 10. lia.
Qed.

Lemma len_number k n :
  plain_string k = true → 0 ≤ n ≤ u64_max → len (member_bytes (k, canon (jint n))) ≤ str_len k + 23.
Proof.
  intros Hk Hn. rewrite len_member_plain, canon_jint by done. unfold jint.
  rewrite (proj2 (Z.ltb_ge n 0)) by lia. rewrite to_vec_posint.
  - pose proof (len_dec_digits 20 n). unfold fmt_nat. lia.
  - unfold between. apply andb_true_iff. rewrite !Z.leb_le. lia.
Qed.

(** Lengths of literals. *)
Ltac literal_lengths :=
  repeat match goal with
  | |- context [str_len ?s] =>
      let v := eval vm_compute in (str_len s) in
      lazymatch v with Zpos _ => change (str_len s) with v end
  end.

Lemma plain_event_fits f kid sig :
  plain_event f → len (AuditSeal.prev_hash f) = 32 → plain_string kid = true → str_len kid ≤ 16 →
  len sig = 64 →
  len (to_vec (canon (Object (AuditSeal.full_document (AuditSeal.wire_of f kid (Common.hex_encode sig))))))
    ≤ AuditSeal.MAX_BYTES.
Proof.
  intros Hf Hp Hk Hkl Hs. rewrite plain_members_eq by done. rewrite len_to_vec_canon by done.
  unfold plain_members, AuditSeal.MAX_BYTES.
  assert (0 ≤ seq_value (AuditSeal.sequence f) ≤ u64_max) as Hseq.
  { destruct (AuditSeal.sequence f) as [n Hn]. simpl. unfold between, AuditSeal.MAX_SAFE_INTEGER in Hn.
    change (Z.shiftl 1 53) with (2 ^ 53) in Hn. bool_simp. unfold u64_max. lia. }
  assert (len (member_bytes ("schema_version", canon (jint 1))) ≤ 37) as Hn1
    by (etrans; [by apply len_number|]; literal_lengths; lia).
  assert (len (member_bytes ("sequence", canon (jint (seq_value (AuditSeal.sequence f))))) ≤ 31) as Hn2
    by (etrans; [by apply len_number|]; literal_lengths; lia).
  pose proof (ascii_text_len _ (AuditSeal.authority_domain f)).
  pose proof (ascii_text_len _ (actor_subject_id (AuditSeal.actor f))).
  assert (plain_string (AuditSeal.event_type_str (AuditSeal.event_type f)) = true ∧
    str_len (AuditSeal.event_type_str (AuditSeal.event_type f)) ≤ 30) as [Ht1 Ht2] by (by destruct (AuditSeal.event_type f)).
  assert (plain_string (AuditSeal.outcome_str (AuditSeal.outcome f)) = true ∧
    str_len (AuditSeal.outcome_str (AuditSeal.outcome f)) ≤ 10) as [Ho1 Ho2] by (by destruct (AuditSeal.outcome f)).
  assert (plain_string (actor_kind_str (actor_kind (AuditSeal.actor f))) = true ∧
    str_len (actor_kind_str (actor_kind (AuditSeal.actor f))) ≤ 10) as [Ha1 Ha2] by (by destruct (actor_kind _)).
  destruct (AuditSeal.target f) as [t|]; cbn [app map sum_len fst snd].
  - pose proof (ascii_text_len _ (target_type t)). pose proof (ascii_text_len _ (target_id t)).
    rewrite !len_text, !len_pair, len_signature by (cbn [forallb]; rewrite ?ascii_text_plain, ?Ha1; auto with zs).
    rewrite !str_len_hex_encode, uuid_len, timestamp_len, Hp, Hs.
    literal_lengths. rewrite !len_cons. change (len []) with 0. lia.
  - rewrite !len_text, len_pair, len_signature by (cbn [forallb]; rewrite ?ascii_text_plain, ?Ha1; auto with zs).
    rewrite !str_len_hex_encode, uuid_len, timestamp_len, Hp, Hs.
    literal_lengths. rewrite !len_cons. change (len []) with 0. lia.
Qed.
End fits.

(** ** A login that meets no failure *)

Section login.
Context `{SerdeJson, !SerdeJsonLaws, Base64, AwsLc, Ciborium, Coset, ScanOrder, PgConversions}.
Context {P R : Type} `{HsmSigner P, Csprng R}.
Variable state : AppState.
Variables (asealer : AssertionSealer P) (esealer : AuditSealer P).
Abbreviation D := (st_authority_domain state).
Abbreviation answers := (IdpSystem.answers (P := P) (R := R) asealer esealer).
Abbreviation answered := (IdpSystem.answered (P := P) (R := R) asealer esealer).
Abbreviation step := (IdpSystem.step (P := P) (R := R) state asealer esealer).

(** The token answers every signing call, with signatures of the public key [pk]. *)
Definition signs_as (key : KeyRef) (kid : string) (pk : bytes) : Prop :=
  signs_for key pk ∧ kid = key_id_from_public_key pk ∧
  ∀ p digest, ∃ p' sig, sign_digest p key EcdsaP256Sha256 digest = (p', Ok sig).

Lemma event_fields_plain head id now ty subj target out f :
  event_fields state head id now ty subj target None out = Ok f → plain_event f.
Proof. unfold event_fields, or_internal. intros Hf. ok_inv. by simplify_eq. Qed.

Lemma Sequence_new_accepts n :
  between 0 n AuditSeal.MAX_SAFE_INTEGER = true → ∃ s, Sequence_new n = Ok s.
Proof. intros Hn. unfold Sequence_new. destruct Sumbool.sumbool_of_bool; [eauto|congruence]. Qed.

Lemma event_fields_accepts head id now ty subj target out :
  uuid_ok true id = true → between 0 (next_sequence head) AuditSeal.MAX_SAFE_INTEGER = true →
  timestamp_ok now = true → bounded_ascii 128 D = true → bounded_ascii 256 subj = true →
  ∃ f, event_fields state head id now ty subj target None out = Ok f.
Proof.
  intros Hid Hseq Hnow Hd Hs. unfold event_fields.
  destruct (uuid_new_accepts true "event_id" id Hid) as (u & Hu & _).
  destruct (Timestamp_new_accepts now Hnow) as (t & Ht & _).
  destruct (ascii_text_new_accepts 128 "authority_domain" D Hd) as (d & Hdd & _).
  destruct (ascii_text_new_accepts 256 "subject_id" subj Hs) as (sj & Hsj & _).
  unfold EventId_new, AuthorityDomain_new, SubjectId_new, or_internal. rewrite Hu. cbn [map_err res_bind].
  destruct (Sequence_new_accepts (next_sequence head) Hseq) as (sq & ->). cbn [map_err res_bind].
  rewrite Ht. cbn [map_err res_bind]. rewrite Hdd. cbn [map_err res_bind]. rewrite Hsj. cbn [map_err res_bind].
  by eexists.
Qed.

(** The provider's events are sealed by a healthy token. *)
Lemma plain_event_sealed f pk :
  signs_as (AuditSeal.key esealer) (AuditSeal.key_id esealer) pk → plain_event f →
  requires_decision (AuditSeal.event_type f) = false → len (AuditSeal.prev_hash f) = 32 →
  ∃ p ev, Ok ev = (AuditSeal.seal (audit_sealer_at esealer p) f).2.
Proof.
  intros (Hkey & Hkid & Hsign) Hf Hreq Hlen. exists (AuditSeal.pool esealer).
  rewrite event_seal_eq, prepare_eq, validate_decision_coupling_ok. simpl AuditSeal.key_id. simpl AuditSeal.key.
  assert (coupling_ok f = true) as ->.
  { destruct Hf as (Hd & _). unfold coupling_ok. rewrite Hd, Hreq. done. }
  cbn [res_bind]. destruct (Hsign (AuditSeal.pool esealer) (Aws.sha256 (fields_message f))) as (p' & sig & Hs).
  pose proof (Hkey _ _ _ _ Hs) as [Hl _]. rewrite (validate_size_ok f _ (sig_bytes sig) Hl).
  rewrite (proj2 (Z.leb_le _ _)).
  2: { apply plain_event_fits; [done|done| | |done]; rewrite Hkid;
       [apply hex_encode_plain | rewrite len_key_id; lia]. }
  cbn [res_bind]. change (AuditSeal.pool (audit_sealer_at esealer _)) with (AuditSeal.pool esealer).
  rewrite Hs. by eexists.
Qed.

Lemma assertion_sealed claims pk :
  signs_as (IdentityAssertion.key asealer) (IdentityAssertion.key_id asealer) pk →
  ∃ p ev, Ok ev = (IdentityAssertion.seal (assertion_sealer_at asealer p) claims).2.
Proof.
  intros (_ & _ & Hsign). exists (IdentityAssertion.pool asealer). rewrite seal_eq.
  change (IdentityAssertion.pool (assertion_sealer_at asealer _)) with (IdentityAssertion.pool asealer).
  change (IdentityAssertion.key (assertion_sealer_at asealer _)) with (IdentityAssertion.key asealer).
  destruct (Hsign (IdentityAssertion.pool asealer) (Aws.sha256 (claims_message claims))) as (p' & sig & ->).
  by eexists.
Qed.

(** The method of a ceremony is a text that the suite accepts. *)
Lemma method_accepted input claims :
  verify_authentication_ceremony input = Ok claims → bounded_ascii 64 (cl_method claims) = true.
Proof.
  intros (p & Hauth)%verify_authentication_sound. rewrite (aut_claims _ _ _ Hauth). simpl.
  by destruct (counter_supported _).
Qed.

Lemma assertion_claims_accepts claims id now after :
  uuid_ok true id = true → timestamp_ok now = true → timestamp_ok after = true →
  bounded_ascii 256 (st_audience state) = true → bounded_ascii 256 (cl_subject_id claims) = true →
  bounded_ascii 64 (cl_method claims) = true →
  ∃ a, assertion_claims state claims id now after = Ok a ∧
    IdentityAssertion.authority_domain a = D ∧
    as_str (IdentityAssertion.subject_id a) = cl_subject_id claims ∧
    as_str (auth_method a) = cl_method claims ∧ ts_str (issued_at a) = now ∧
    ts_str (expires_at a) = after ∧ uuid_str (IdentityAssertion.audit_event_id a) = id ∧
    aal a = match cl_aal claims with
            | Authentication.Aal1 => IdentityAssertion.Aal1
            | Authentication.Aal2 => IdentityAssertion.Aal2
            end.
Proof.
  intros Hid Hnow Hafter Haud Hs Hm. unfold assertion_claims.
  destruct (uuid_new_accepts true "event_id" id Hid) as (u & Hu & ?).
  destruct (Timestamp_new_accepts now Hnow) as (t & Ht & ?).
  destruct (Timestamp_new_accepts after Hafter) as (t' & Ht' & ?).
  destruct (ascii_text_new_accepts 256 "audience" (st_audience state) Haud) as (au & Hau & _).
  destruct (ascii_text_new_accepts 256 "subject_id" (cl_subject_id claims) Hs) as (sj & Hsj & ?).
  destruct (ascii_text_new_accepts 64 "auth_method" (cl_method claims) Hm) as (me & Hme & ?).
  unfold EventId_new, SubjectId_new, AuthMethod_new, Audience_new, or_internal.
  rewrite Hsj. cbn [map_err res_bind]. rewrite Hme. cbn [map_err res_bind]. rewrite Hau. cbn [map_err res_bind].
  rewrite Ht. cbn [map_err res_bind]. rewrite Ht'. cbn [map_err res_bind]. rewrite Hu. cbn [map_err res_bind].
  eexists. by split_and!.
Qed.

(** ** Rows that the table accepts *)

Lemma pg_text_plain s : plain_string s = true → pg_text s = true.
Proof.
  unfold plain_string, pg_text. rewrite !forallb_forall. intros Hs b Hb. specialize (Hs b Hb).
  clear - Hs. by destruct b as [[][][][][][][][]].
Qed.

Lemma bounded_plain max s : bounded_ascii max s = true → plain_string s = true.
Proof.
  intros Hs. destruct (ascii_text_new_accepts max "" s Hs) as (a & _ & <-). apply ascii_text_plain.
Qed.

Lemma prev_hash_format_hex bs : len bs = 32 → prev_hash_format (Common.hex_encode bs) = true.
Proof.
  intros Hl. unfold prev_hash_format. rewrite str_len_hex_encode, Hl. simpl.
  unfold Common.hex_encode. rewrite as_bytes_of. clear Hl. induction bs as [|b bs IH]; [done|]. simpl.
  rewrite IH. clear. by destruct b as [[][][][][][][][]].
Qed.

(** The next place of a good journal is free. *)
Lemma next_insertable d e :
  numbered D (events d) → er_authority_domain e = D → er_sequence e = len (events d) →
  event_key e ∉ map event_key (events d) → er_outcome e = "success" →
  pg_text (er_occurred_at e) = true → pg_text D = true → pg_text (er_event_type e) = true →
  prev_hash_format (er_prev_hash e) = true →
  insertable d e = text_to_uuid (er_event_id e) && text_to_timestamptz (er_occurred_at e).
Proof.
  intros Hnum Hd Hs Hid Ho H1' H2' H3' Hp. unfold insertable. cbn [forallb].
  rewrite Hd, H1', H2', H3', Ho, Hp. rewrite !(bool_decide_true (_ ∉ _)).
  - by destruct (text_to_uuid _), (text_to_timestamptz _).
  - intros (x & [= _ Hx] & Hin)%list_elem_of_fmap. apply list_elem_of_lookup_1 in Hin as [i Hi].
    pose proof (lookup_lt_Some _ _ _ Hi). destruct (Hnum i x Hi) as (_ & Hxs & _).
    rewrite Hs, Hxs in Hx. unfold len in Hx. lia.
  - done.
Qed.

(** ** The conditions of a login *)

Record login_case := {
  lc_challenge : bytes;
  lc_issued : challenge_row;
  lc_credential_id : bytes;
  lc_client_data : bytes;
  lc_auth_data : bytes;
  lc_signature : bytes;
  lc_row : AuthenticatorRow;
  lc_claims : AuthenticationClaims;
  (** the clocks of the database and of the service *)
  lc_pg_now : Z;
  lc_clock : Z;
  lc_event_id : string;
}.

Definition last_second : Z := 253402300799.

Record login_ready (d : Db) (req : AuthenticationVerifyRequest) (c : login_case) : Prop := {
  rd_decoded : url_safe_decode (av_credential_id req) = Some (lc_credential_id c) ∧
    url_safe_decode (av_client_data_json req) = Some (lc_client_data c) ∧
    url_safe_decode (av_authenticator_data req) = Some (lc_auth_data c) ∧
    url_safe_decode (av_signature req) = Some (lc_signature c);
  rd_presented : presented_challenge_bytes (lc_client_data c) = Ok (lc_challenge c);
  (** a live challenge of an authentication *)
  rd_challenge : len (lc_challenge c) = 32 ∧ challenges d !! lc_challenge c = Some (lc_issued c) ∧
    consumable (lc_pg_now c) "authentication" (lc_issued c) = true;
  (** an authenticator whose stored counter is below the one it sends *)
  rd_authenticator : find_authenticator d (lc_credential_id c) = Ok (Some (lc_row c)) ∧
    ∃ n, counter_of d (lc_credential_id c) = Some n ∧ n < cl_new_sign_count (lc_claims c);
  rd_ceremony : verify_authentication_ceremony {|
      Authentication.client_data_json := lc_client_data c;
      Authentication.authenticator_data := lc_auth_data c;
      Authentication.signature := lc_signature c;
      Authentication.expected_origin := st_origin state;
      Authentication.expected_rp_id := rp_id state;
      Authentication.expected_challenge := {| ch_bytes := lc_challenge c |};
      Authentication.credential := credential_of_row (lc_row c) |} = Ok (lc_claims c);
  (** texts and dates that the suites accept *)
  rd_texts : bounded_ascii 128 D = true ∧ bounded_ascii 256 (st_audience state) = true ∧
    bounded_ascii 256 (row_subject_id (lc_row c)) = true;
  rd_clock : 0 ≤ lc_clock c ∧ 0 ≤ lc_clock c + assertion_ttl_seconds state ∧
    lc_clock c ≤ last_second ∧ lc_clock c + assertion_ttl_seconds state ≤ last_second;
  (** a journal with room, and a new identifier *)
  rd_journal : numbered D (events d) ∧ len (events d) ≤ AuditSeal.MAX_SAFE_INTEGER;
  rd_event_id : uuid_ok true (lc_event_id c) = true ∧ uuid_key (lc_event_id c) ∉ map event_key (events d);
}.

(** Whether the server reads the two texts of the event as the types of their columns. *)
Definition server_converts (c : login_case) : bool :=
  text_to_uuid (lc_event_id c) && text_to_timestamptz (IdpGrpc.format_rfc3339 (lc_clock c)).

(** What the service answers about the assertion of this login at second [t]. *)
Definition login_verdict (c : login_case) (t : Z) : VerifyAssertionResponse :=
  if (lc_clock c <=? t) && (t <? lc_clock c + assertion_ttl_seconds state)
  then {| valid := true; reason := ""; rs_subject_id := row_subject_id (lc_row c);
          rs_aal := aal_as_str (match cl_aal (lc_claims c) with
                                | Authentication.Aal1 => IdentityAssertion.Aal1
                                | Authentication.Aal2 => IdentityAssertion.Aal2
                                end);
          rs_auth_method := cl_method (lc_claims c); rs_audit_event_id := lc_event_id c |}
  else {| valid := false; reason := "expiree_ou_pas_encore_valide"; rs_subject_id := "";
          rs_aal := ""; rs_auth_method := ""; rs_audit_event_id := "" |}.

(** The assertion at the service that verifies it. *)
Lemma assertion_verdict c claims sealed p pk k t :
  signs_as (IdentityAssertion.key asealer) (IdentityAssertion.key_id asealer) pk →
  IdentityAssertion.accept_verifying_key IdentityAssertion.SUITE_V1
    (IdentityAssertion.key_id asealer) pk = Ok k →
  Ok sealed = (IdentityAssertion.seal (assertion_sealer_at asealer p) claims).2 →
  bounded_ascii 128 D = true → 0 ≤ lc_clock c ≤ last_second →
  0 ≤ lc_clock c + assertion_ttl_seconds state ≤ last_second → 0 ≤ t ≤ last_second →
  IdentityAssertion.authority_domain claims = D →
  as_str (IdentityAssertion.subject_id claims) = row_subject_id (lc_row c) →
  as_str (auth_method claims) = cl_method (lc_claims c) →
  ts_str (issued_at claims) = IdpGrpc.format_rfc3339 (lc_clock c) →
  ts_str (expires_at claims) = IdpGrpc.format_rfc3339 (lc_clock c + assertion_ttl_seconds state) →
  uuid_str (IdentityAssertion.audit_event_id claims) = lc_event_id c →
  aal claims = match cl_aal (lc_claims c) with
               | Authentication.Aal1 => IdentityAssertion.Aal1
               | Authentication.Aal2 => IdentityAssertion.Aal2
               end →
  verify_assertion {| verifier_key := k |} t
    {| rq_assertion := IdentityAssertion.bytes_of sealed; rq_expected_authority_domain := D |} =
  Ok (login_verdict c t).
Proof.
  intros (Hkey & Hkid & _) Hacc Hseal HD Hc He Ht Hdom Hs Hm Hi Hx Hu Ha. unfold last_second in *.
  destruct (format_rfc3339_timestamp t) as (ts & Hts & Htt); [unfold Calendar.four_digit_years; lia|].
  unfold verify_assertion. rewrite rfc3339_now_in_range by (unfold i64_max; lia). cbn [res_bind].
  rewrite Hts. cbn [expect res_bind].
  change (IdentityAssertion.verify _ _ _) with
    (IdentityAssertion.verify [k] (IdentityAssertion.bytes_of sealed) (policy_at ts D)).
  destruct (IdentityAssertion.seal (assertion_sealer_at asealer p) claims) as [p' r] eqn:Hr. simpl in Hseal. subst r.
  pose proof (bounded_plain _ _ HD) as Hpl. unfold bounded_ascii in HD. bool_simp.
  assert (find_key [k] (IdentityAssertion.key_id asealer) = Some k) as Hfind.
  { revert Hacc. unfold IdentityAssertion.accept_verifying_key, accept_verifying_key_for.
    destruct (bool_decide _); [|done]. destruct (negb _); [|done]. intros [= <-]. simpl.
    by rewrite bool_decide_true. }
  rewrite (sealed_assertion_verifies (assertion_sealer_at asealer p) p' claims sealed pk k [k] (policy_at ts D) Hr);
    [|done|done|done|done|by rewrite Hdom|rewrite Hdom; lia].
  unfold IdentityAssertion.policy_decision. rewrite bool_decide_true by (by left). rewrite bool_decide_true by done.
  simpl negb. cbv iota. change (IdentityAssertion.now (policy_at ts D)) with ts.
  rewrite Hi, Hx, Htt, format_rfc3339_leb, format_rfc3339_ltb by (unfold Calendar.four_digit_years; lia).
  unfold login_verdict. destruct ((_ <=? t) && _); [|done]. simpl. rewrite Hs, Hm, Hu, Ha. done.
Qed.

(** The tables after the statements of a login. *)
Definition after_consume (d : Db) (c : login_case) : Db :=
  with_challenges d (<[lc_challenge c := mark_used (lc_pg_now c) (lc_issued c)]> (challenges d)).
Definition after_advance (d : Db) (c : login_case) (a : authenticator_row) : Db :=
  with_authenticators (after_consume d c)
    (<[lc_credential_id c := set_sign_count (cl_new_sign_count (lc_claims c)) a]> (authenticators d)).

Lemma rfc3339_ok t : 0 ≤ t ≤ last_second → timestamp_ok (IdpGrpc.format_rfc3339 t) = true.
Proof.
  intros Ht. rewrite format_rfc3339_same. apply Calendar.rfc3339_timestamp_iff.
  unfold Calendar.four_digit_years, last_second in *. lia.
Qed.

(** What is sealed and signed along the way. *)
Lemma login_parts d req c apk epk :
  login_ready d req c →
  signs_as (IdentityAssertion.key asealer) (IdentityAssertion.key_id asealer) apk →
  signs_as (AuditSeal.key esealer) (AuditSeal.key_id esealer) epk →
  ∃ ld : login_data, login_ok state req ld ∧ ld_presented ld = lc_challenge c ∧
    ld_credential_id ld = lc_credential_id c ∧ ld_row ld = lc_row c ∧ ld_claims ld = lc_claims c ∧
    ld_event_id ld = lc_event_id c ∧ ld_clock ld = lc_clock c ∧
    cc_ceremony_kind (ld_consumed ld) = "authentication" ∧
    cc_subject_id (ld_consumed ld) = cr_subject_id (lc_issued c) ∧
    (∃ p, Ok (ld_sealed ld) = (IdentityAssertion.seal (assertion_sealer_at asealer p) (ld_assertion ld)).2) ∧
    (∃ p, Ok (ad_sealed (ld_audit ld)) = (AuditSeal.seal (audit_sealer_at esealer p) (ad_fields (ld_audit ld))).2) ∧
    ad_head (ld_audit ld) = head_at (events d) ∧ ad_event_id (ld_audit ld) = lc_event_id c ∧
    ad_insert_clock (ld_audit ld) = lc_clock c ∧
    assertion_claims state (lc_claims c) (lc_event_id c) (IdpGrpc.format_rfc3339 (lc_clock c))
      (IdpGrpc.format_rfc3339 (lc_clock c + assertion_ttl_seconds state)) = Ok (ld_assertion ld).
Proof.
  intros [Hdec Hpres (Hlen & _ & _) _ Hcer (HD & Haud & Hsub) (Hc0 & Hx0 & Hc1 & Hx1) (Hnum & Hmax) (Hid & _)] Has Hes.
  pose proof (authenticated_claims _ _ Hcer) as (_ & _ & Hsubj). simpl in Hsubj.
  pose proof (method_accepted _ _ Hcer) as Hmeth. pose proof (rfc3339_ok (lc_clock c) ltac:(lia)) as Hnow.
  pose proof (rfc3339_ok (lc_clock c + assertion_ttl_seconds state) ltac:(lia)) as Hafter.
  rewrite <- Hsubj in Hsub.
  destruct (assertion_claims_accepts (lc_claims c) (lc_event_id c) _ _ Hid Hnow Hafter Haud Hsub Hmeth)
    as (a & Ha & _).
  destruct (assertion_sealed a apk Has) as (p & sealed & Hsealed).
  destruct (login_target_Ok (lc_event_id c) sealed) as (target & Htarget).
  assert (between 0 (next_sequence (head_at (events d))) AuditSeal.MAX_SAFE_INTEGER = true) as Hseq.
  { unfold head_at, between. simpl. pose proof (len_nonneg (events d)). apply andb_true_iff. rewrite !Z.leb_le. lia. }
  destruct (event_fields_accepts (head_at (events d)) (lc_event_id c) _ AuthenticationSucceeded
    (cl_subject_id (lc_claims c)) target Success Hid Hseq Hnow HD Hsub) as (f & Hf).
  pose proof (event_fields_plain _ _ _ _ _ _ _ _ Hf) as Hplain.
  pose proof Hf as (_ & _ & Hph & _ & _ & Hty & _)%event_fields_Ok.
  destruct (plain_event_sealed f epk Hes Hplain) as (p2 & ev & Hev); [by rewrite Hty|rewrite Hph; apply len_head_at|].
  assert (wrap_i64 (lc_clock c) = lc_clock c) as Hwrap.
  { apply wrap_i64_id. unfold in_i64, i64_min, i64_max, last_second in *. lia. }
  eexists {| ld_credential_id := lc_credential_id c; ld_client_data := lc_client_data c;
    ld_auth_data := lc_auth_data c; ld_signature := lc_signature c; ld_presented := lc_challenge c;
    ld_consumed := {| cc_subject_id := cr_subject_id (lc_issued c); cc_ceremony_kind := "authentication" |};
    ld_row := lc_row c; ld_claims := lc_claims c; ld_event_id := lc_event_id c; ld_clock := lc_clock c;
    ld_assertion := a; ld_sealed := sealed;
    ld_audit := {| ad_head := head_at (events d); ad_event_id := lc_event_id c; ad_clock := lc_clock c;
      ad_fields := f; ad_sealed := ev; ad_insert_clock := lc_clock c |} |}.
  split_and!; try done; [|by exists p|by exists p2].
  constructor; simpl; [done|done|done| |].
  - eexists _, _. split; [|exact Ha]. unfold rfc3339_now_and_after, add_i64.
    rewrite unix_now_in_range by (unfold i64_max, last_second in *; lia). cbn [res_bind].
    assert (between i64_min (lc_clock c + assertion_ttl_seconds state) i64_max = true) as ->; [|done].
    unfold between, i64_min, i64_max, last_second in *. apply andb_true_iff. rewrite !Z.leb_le. lia.
  - constructor; simpl; [by intros ??? [= <- _ _]|done|]. exists target. by rewrite Hwrap.
Qed.

(** The calls of a login before its event is appended, and the last one. *)
Definition login_prefix (ld : login_data) : idp_trace :=
  [saw (ConsumeChallenge (ld_presented ld) "authentication") (Ok (Some (ld_consumed ld)));
   saw (FindAuthenticator (ld_credential_id ld)) (Ok (Some (ld_row ld)));
   saw (AdvanceSignCount (row_credential_id (ld_row ld)) (cl_new_sign_count (ld_claims ld))) (Ok true);
   saw NowV7 (ld_event_id ld); saw Clock (ld_clock ld);
   saw (SealAssertion (ld_assertion ld)) (Ok (ld_sealed ld));
   saw (GetChainHead D) (Ok (ad_head (ld_audit ld))); saw Clock (ad_clock (ld_audit ld));
   saw (SealEvent (ad_fields (ld_audit ld))) (Ok (ad_sealed (ld_audit ld)));
   saw Clock (ad_insert_clock (ld_audit ld))].
Definition login_append (ld : login_data) : idp_call :=
  append_call state AuthenticationSucceeded (cl_subject_id (ld_claims ld)) Success (ld_audit ld).
Lemma login_trace_parts ld : login_trace state ld = login_prefix ld ++ [saw (login_append ld) (Ok tt)].
Proof. done. Qed.

(** The database answers each of these calls, in turn; the last one depends on the server. *)
Lemma login_answered d req c ld a n :
  login_ready d req c → login_ok state req ld →
  authenticators d !! lc_credential_id c = Some a → ar_sign_count a = n → n < cl_new_sign_count (lc_claims c) →
  ld_presented ld = lc_challenge c → ld_credential_id ld = lc_credential_id c → ld_row ld = lc_row c →
  ld_claims ld = lc_claims c → ld_event_id ld = lc_event_id c → ld_clock ld = lc_clock c →
  cc_ceremony_kind (ld_consumed ld) = "authentication" →
  cc_subject_id (ld_consumed ld) = cr_subject_id (lc_issued c) →
  (∃ p, Ok (ld_sealed ld) = (IdentityAssertion.seal (assertion_sealer_at asealer p) (ld_assertion ld)).2) →
  (∃ p, Ok (ad_sealed (ld_audit ld)) = (AuditSeal.seal (audit_sealer_at esealer p) (ad_fields (ld_audit ld))).2) →
  ad_head (ld_audit ld) = head_at (events d) → ad_event_id (ld_audit ld) = lc_event_id c →
  ad_insert_clock (ld_audit ld) = lc_clock c →
  answered d (login_prefix ld) (after_advance d c a) ∧
  if server_converts c
  then ∃ d', answers (after_advance d c a) (login_append ld) (Ok tt) d'
  else answers (after_advance d c a) (login_append ld) (Err Refused) (after_advance d c a).
Proof.
  intros [_ _ (_ & Hch & Hcons) [Hfind _] _ (HD & _) (Hc0 & _ & Hc1 & _) (Hnum & Hmax) (Hid & Hnew)] _ Ha Hn Hlt
    E1 E2 E3 E4 E5 E6 E7 E8 Hsa Hse E9 E10 E11.
  pose proof (found_id _ _ _ Hfind) as Hrid. pose proof (bounded_plain _ _ HD) as Hpl.
  pose proof (len_nonneg (events d)) as Hpos.
  unfold login_prefix, login_append, append_call.
  rewrite E1, E2, E3, E4, E5, E6, E9, E10, E11, Hrid.
  set (d1 := after_consume d c). set (d2 := after_advance d c a).
  assert (chain_head d2 D = Ok (head_at (events d2))) as Hhead
    by (apply chain_head_numbered; [done|by apply pg_text_plain]).
  split.
  { exists d1. split.
  { exists (lc_pg_now c). left. unfold consume_challenge. rewrite Hch, Hcons.
    destruct (ld_consumed ld) as [subj kind]. simpl in *. by subst. }
  exists d1. split; [by left; rewrite <- Hfind|].
  exists d2. split.
  { left. unfold advance_sign_count. change (authenticators d1) with (authenticators d).
    rewrite Ha, (proj2 (Z.ltb_lt _ _)) by lia. done. }
  exists d2. split; [done|]. exists d2. split; [done|]. exists d2. split; [by split; [done|right]|].
  exists d2. split; [left; by rewrite Hhead|]. exists d2. split; [done|].
  exists d2. split; [by split; [done|right]|]. by exists d2. }
  assert (wrap_i64 (lc_clock c) = lc_clock c) as Hclock
    by (apply wrap_i64_id; unfold in_i64, i64_min, i64_max, last_second in *; lia).
  simpl answers. unfold append. rewrite next_insertable;
    [|done|done| |done|done| |by apply pg_text_plain|done|].
  - cbn [er_event_id er_occurred_at]. rewrite Hclock. fold (server_converts c).
    destruct (server_converts c); [eexists|]; by left.
  - simpl. unfold wrap_i64. rewrite Z.mod_small; [lia|].
    unfold AuditSeal.MAX_SAFE_INTEGER in Hmax. change (Z.shiftl 1 53) with (2 ^ 53) in Hmax. lia.
  - simpl. rewrite Hclock.
    destruct (Timestamp_new_accepts _ (rfc3339_ok (lc_clock c) ltac:(lia))) as (t & _ & <-).
    apply pg_text_plain, timestamp_plain.
  - simpl. rewrite hex_encode_same. apply prev_hash_format_hex, len_head_at.
Qed.

(** The two ends of such a login. *)
Lemma answered_app d t1 d1 c x d2 :
  answered d t1 d1 → answers d1 c x d2 → answered d (t1 ++ [saw c x]) d2.
Proof.
  revert d. induction t1 as [|e t1 IH]; intros d Ht Hc; simpl in *.
  - subst. by exists d2.
  - destruct Ht as (d' & He & Ht). exists d'. split; [done|]. by apply IH.
Qed.

Lemma login_calls s req c apk epk :
  login_ready (db s) req c →
  signs_as (IdentityAssertion.key asealer) (IdentityAssertion.key_id asealer) apk →
  signs_as (AuditSeal.key esealer) (AuditSeal.key_id esealer) epk →
  ∃ ld a, login_ok state req ld ∧
    (∃ p, Ok (ld_sealed ld) = (IdentityAssertion.seal (assertion_sealer_at asealer p) (ld_assertion ld)).2) ∧
    assertion_claims state (lc_claims c) (lc_event_id c) (IdpGrpc.format_rfc3339 (lc_clock c))
      (IdpGrpc.format_rfc3339 (lc_clock c + assertion_ttl_seconds state)) = Ok (ld_assertion ld) ∧
    answered (db s) (login_prefix ld) (after_advance (db s) c a) ∧
    if server_converts c
    then ∃ d', answers (after_advance (db s) c a) (login_append ld) (Ok tt) d'
    else answers (after_advance (db s) c a) (login_append ld) (Err Refused) (after_advance (db s) c a).
Proof.
  intros Hready Has Hes.
  destruct (login_parts _ _ _ _ _ Hready Has Hes) as (ld & Hok & E1 & E2 & E3 & E4 & E5 & E6 & E7 & E8 &
    Hsealed & Hse & E9 & E10 & E11 & Hclaims).
  pose proof Hready as [_ _ _ [_ (n & Hn & Hlt)] _ _ _ _ _].
  unfold counter_of in Hn. destruct (authenticators (db s) !! lc_credential_id c) as [a|] eqn:Ha; [|done].
  injection Hn as Hn. exists ld, a.
  destruct (login_answered (db s) req c ld a n Hready Hok) as [Hpre Hlast]; done.
Qed.

Lemma login_goes_through s i req c apk epk k
    (Hi : threads s !! i = Some (router state (AuthenticationVerify req)))
    (Hready : login_ready (db s) req c)
    (Has : signs_as (IdentityAssertion.key asealer) (IdentityAssertion.key_id asealer) apk)
    (Hes : signs_as (AuditSeal.key esealer) (AuditSeal.key_id esealer) epk)
    (Hacc : IdentityAssertion.accept_verifying_key IdentityAssertion.SUITE_V1
              (IdentityAssertion.key_id asealer) apk = Ok k)
    (Hconv : server_converts c = true) :
  ∃ s' resp bs,
    rtc step s s' ∧ requests s' = requests s ∧
    threads s' = <[i := Ret (Ok (AuthenticationVerified resp))]> (threads s) ∧
    url_safe_decode (avr_assertion resp) = Some bs ∧
    ∀ t, 0 ≤ t ≤ last_second →
      verify_assertion {| verifier_key := k |} t
        {| rq_assertion := bs; rq_expected_authority_domain := D |} = Ok (login_verdict c t).
Proof.
  destruct (login_calls s req c apk epk Hready Has Hes) as (ld & a & Hok & (p & Hsealed) & Hclaims & Hpre & Hlast).
  rewrite Hconv in Hlast. destruct Hlast as [d' Hlast].
  pose proof Hready as [_ _ _ _ Hcer (HD & Haud & Hsub) (Hc0 & Hx0 & Hc1 & Hx1) _ (Hid & _)].
  set (resp := {| avr_assertion := b64_encode (IdentityAssertion.bytes_of (ld_sealed ld)) |}).
  assert (run (router state (AuthenticationVerify req)) (login_trace state ld)
    (Ret (Ok (AuthenticationVerified resp)))) as Hrun.
  { apply reply_run. exists resp. split; [|done]. apply login_run. by exists ld. }
  rewrite login_trace_parts in Hrun.
  eexists _, resp, (IdentityAssertion.bytes_of (ld_sealed ld)).
  split; [exact (run_steps _ _ _ s i _ _ _ _ Hi Hrun (answered_app _ _ _ _ _ _ Hpre Hlast))|].
  split; [done|]. split; [done|].
  split; [apply url_safe_decode_encode|]. intros t Ht.
  pose proof (authenticated_claims _ _ Hcer) as (_ & _ & Hsubj). simpl in Hsubj.
  rewrite <- Hsubj in Hsub.
  destruct (assertion_claims_accepts (lc_claims c) (lc_event_id c) _ _ Hid
    (rfc3339_ok (lc_clock c) ltac:(lia)) (rfc3339_ok (lc_clock c + assertion_ttl_seconds state) ltac:(lia))
    Haud Hsub (method_accepted _ _ Hcer)) as (a' & Ha' & F1 & F2 & F3 & F4 & F5 & F6 & F7).
  rewrite Hclaims in Ha'. injection Ha' as <-.
  eapply (assertion_verdict c (ld_assertion ld)); try done; by rewrite ?F2.
Qed.

(** The same calls, but the event is refused. *)
Lemma login_is_refused s i req c apk epk
    (Hi : threads s !! i = Some (router state (AuthenticationVerify req)))
    (Hready : login_ready (db s) req c)
    (Has : signs_as (IdentityAssertion.key asealer) (IdentityAssertion.key_id asealer) apk)
    (Hes : signs_as (AuditSeal.key esealer) (AuditSeal.key_id esealer) epk)
    (Hconv : server_converts c = false) :
  ∃ s', rtc step s s' ∧ requests s' = requests s ∧
    threads s' = <[i := Ret (Err (store_unavailable Refused))]> (threads s) ∧
    events (db s') = events (db s) ∧
    challenges (db s') !! lc_challenge c = Some (mark_used (lc_pg_now c) (lc_issued c)) ∧
    counter_of (db s') (lc_credential_id c) = Some (cl_new_sign_count (lc_claims c)).
Proof.
  destruct (login_calls s req c apk epk Hready Has Hes) as (ld & a & Hok & _ & _ & Hpre & Hlast).
  rewrite Hconv in Hlast.
  assert (run (router state (AuthenticationVerify req)) (login_trace state ld) (Ret (Ok (AuthenticationVerified
    {| avr_assertion := b64_encode (IdentityAssertion.bytes_of (ld_sealed ld)) |})))) as Hrun.
  { apply reply_run. eexists. split; [|done]. apply login_run. by exists ld. }
  rewrite login_trace_parts in Hrun. apply run_last in Hrun as (q & Hrun & _).
  change (projT1 _) with (login_append ld) in Hrun.
  pose proof (fails_fast_run _ _ (login_append ld) q (Err Refused) _ (router_fails_fast state _) Hrun eq_refl) as Hend.
  apply (run_snoc (Σ := idp_signature) _ (login_append ld) q (Err Refused : idp_answer (login_append ld))) in Hrun. rewrite Hend in Hrun.
  eexists. split; [exact (run_steps _ _ _ s i _ _ _ _ Hi Hrun (answered_app _ _ _ _ _ _ Hpre Hlast))|].
  do 3 (split; [done|]). simpl. split; [apply lookup_insert_eq|].
  unfold counter_of. simpl. by rewrite lookup_insert_eq.
Qed.

(** No event is appended by a server that does not read texts as [uuid]. *)
Lemma nothing_answered_without_conversion d0 s i r resp :
  (∀ id, text_to_uuid id = false) → IdpSystem.reachable (P := P) (R := R) state asealer esealer d0 s →
  requests s !! i = Some r → threads s !! i = Some (Ret (Ok resp)) →
  match r with RegistrationVerify _ | AuthenticationVerify _ => False | _ => True end.
Proof.
  intros Hno Hs Hr Ht.
  assert (∀ id n at_ dom ty actor out ph sig bs,
    saw (Append id n at_ dom ty actor out ph sig bs) (Ok tt) ∉ own i (history s)) as Hnone.
  { intros id n at_ dom ty actor out ph sig bs Hin%elem_of_own.
    apply (history_answers _ _ _ _ _ Hs) in Hin as (d & d' & [Hdone|(? & ? & _)]); [|done].
    revert Hdone. simpl. unfold append, insertable. simpl. by rewrite Hno. }
  apply run_own in Hs as (_ & _ & Hrun). specialize (Hrun i r _ Hr Ht).
  destruct r; try done; apply reply_run in Hrun as (? & Hrun & _).
  - apply enrol_run in Hrun as (d & Htr & _). eapply Hnone. rewrite Htr. unfold enrol_trace, audit_trace. cbn [app]. do 7 right. by left.
  - apply login_run in Hrun as (d & Htr & _). eapply Hnone. rewrite Htr, login_trace_parts.
    apply elem_of_app. right. by left.
Qed.

(** ** Theorem *)

(** C24. What becomes of a login that nothing disturbs: its challenge is live, its
    authenticator is registered with a lower counter, the ceremony verifies, the suites take
    the texts and dates, the journal has room and the token signs.  From any state in which
    the request waits, the thread can run to its end, alone; the end depends on how the
    database takes the texts that [append] binds to a [uuid] and a [timestamptz].
    If it converts them, the answer is an assertion, and [verify_assertion], asked at any
    second of the years 1970 to 9999, declares it valid for the registered subject exactly
    from the second it was issued until its lifetime has passed, and expired otherwise.
    If it refuses them, as PostgreSQL documents, the answer is the status 503: the challenge
    is spent and the counter has advanced, nothing was added to the journal.  Then no
    execution ends otherwise: in no state that a service over such a database reaches has
    a registration or a login been answered with a success. *)
Theorem login_outcome s i req c apk epk k
    (Hi : threads s !! i = Some (router state (AuthenticationVerify req)))
    (Hready : login_ready (db s) req c)
    (Has : signs_as (IdentityAssertion.key asealer) (IdentityAssertion.key_id asealer) apk)
    (Hes : signs_as (AuditSeal.key esealer) (AuditSeal.key_id esealer) epk)
    (Hacc : IdentityAssertion.accept_verifying_key IdentityAssertion.SUITE_V1
              (IdentityAssertion.key_id asealer) apk = Ok k) :
  (if server_converts c
   then ∃ s' resp bs,
     rtc step s s' ∧ requests s' = requests s ∧
     threads s' = <[i := Ret (Ok (AuthenticationVerified resp))]> (threads s) ∧
     url_safe_decode (avr_assertion resp) = Some bs ∧
     ∀ t, 0 ≤ t ≤ last_second →
       verify_assertion {| verifier_key := k |} t
         {| rq_assertion := bs; rq_expected_authority_domain := D |} = Ok (login_verdict c t)
   else ∃ s',
     rtc step s s' ∧ requests s' = requests s ∧
     threads s' = <[i := Ret (Err {| status := 503; api_reason := "base_de_donnees_indisponible" |})]> (threads s) ∧
     events (db s') = events (db s) ∧
     challenges (db s') !! lc_challenge c = Some (mark_used (lc_pg_now c) (lc_issued c)) ∧
     counter_of (db s') (lc_credential_id c) = Some (cl_new_sign_count (lc_claims c))) ∧
  ((∀ id, text_to_uuid id = false) →
   ∀ d0 s' j r resp, IdpSystem.reachable (P := P) (R := R) state asealer esealer d0 s' →
     requests s' !! j = Some r → threads s' !! j = Some (Ret (Ok resp)) →
     match r with RegistrationVerify _ | AuthenticationVerify _ => False | _ => True end).
Proof.
  split.
  - destruct (server_converts c) eqn:Hconv; [by eapply login_goes_through|by eapply login_is_refused].
  - intros Hno d0 s' j r resp Hs. by apply (nothing_answered_without_conversion d0).
Qed.
End login.

(** ** A login at concrete inputs *)

#[local] Instance ref_idp_coset : Coset := {| cose_from_slice _ := None |}.
#[local] Program Instance ref_csprng : Csprng unit := {|
  fill _ n := (tt, if 0 <=? n then Some (replicate (Z.to_nat n) (u8_of 1)) else None) |}.
Next Obligation.
  intros r n r' bs. simpl. destruct (0 <=? n) eqn:Hn; [|done]. intros [= <- <-]. bool_simp.
  unfold len. rewrite length_replicate. lia.
Qed.
#[local] Program Instance ref_scan : ScanOrder := {| scan := map_to_list |}.
Next Obligation. done. Qed.

(** A server that reads texts as the columns need them, and the one that PostgreSQL
    documents: no text is taken for a [uuid] or a [timestamptz]. *)
#[local] Instance ref_conversions : PgConversions := {|
  text_to_uuid := uuid_ok true; text_to_timestamptz := timestamp_ok |}.
Definition documented_conversions : PgConversions := {|
  text_to_uuid _ := false; text_to_timestamptz _ := false |}.

Definition ref_state : AppState := {|
  rp_id := "idp.example"; st_origin := "https://idp.example"; st_authority_domain := "prod";
  st_audience := "policy-engine"; challenge_ttl_seconds := 120; assertion_ttl_seconds := 300 |}.

Definition ref_issued : challenge_row := {|
  cr_subject_id := "alice"; cr_ceremony_kind := "authentication";
  cr_created_at := 1784021390000000; cr_expires_at := 1784021510000000; cr_used_at := None |}.
Definition ref_authenticator : authenticator_row := {|
  ar_subject_id := "alice"; ar_suite := AuthProof.SUITE_V1; ar_algorithm := "eddsa";
  ar_public_key := replicate 32 (u8_of 7); ar_sign_count := 7; ar_aaguid := replicate 16 (u8_of 0);
  ar_attestation_format := "none"; ar_created_at := 1784000000000000; ar_revoked_at := None;
  ar_counter_supported := true |}.
Definition ref_db : Db := {|
  challenges := {[ replicate 32 (u8_of 1) := ref_issued ]};
  authenticators := {[ replicate 16 (u8_of 3) := ref_authenticator ]};
  events := [] |}.

Definition ref_login : AuthenticationVerifyRequest := {|
  av_credential_id := url_safe_encode (replicate 16 (u8_of 3));
  av_client_data_json := url_safe_encode ref_client_data;
  av_authenticator_data := url_safe_encode ref_auth_data;
  av_signature := url_safe_encode (Authentication.signature ref_auth_input) |}.

Definition ref_case : login_case := {|
  lc_challenge := replicate 32 (u8_of 1); lc_issued := ref_issued;
  lc_credential_id := replicate 16 (u8_of 3); lc_client_data := ref_client_data;
  lc_auth_data := ref_auth_data; lc_signature := Authentication.signature ref_auth_input;
  lc_row := {| row_subject_id := "alice"; row_credential_id := replicate 16 (u8_of 3);
               row_algorithm := EdDsa; row_public_key := replicate 32 (u8_of 7);
               row_counter_supported := true; row_sign_count := 7; row_revoked := false |};
  lc_claims := ref_auth_claims; lc_pg_now := 1784021400000000; lc_clock := 1784021400;
  lc_event_id := "01900000-0000-7000-8000-000000000000" |}.

(** The request has arrived and nothing else has happened. *)
Definition ref_start : system := {|
  db := ref_db; requests := [AuthenticationVerify ref_login];
  threads := [router ref_state (AuthenticationVerify ref_login)]; history := [] |}.

Lemma ref_presented : presented_challenge_bytes ref_client_data = Ok (replicate 32 (u8_of 1)).
Proof.
  unfold presented_challenge_bytes, ref_client_data.
  rewrite from_slice_to_vec; [|reflexivity|cbn; lia]. simpl mbind.
  change (de_Partial _) with (Some (url_safe_encode (replicate 32 (u8_of 1)))).
  cbn [ok_or res_bind]. by rewrite url_safe_decode_encode.
Qed.

Lemma ref_login_ready : login_ready ref_state ref_db ref_login ref_case.
Proof.
  constructor.
  - split_and!; apply url_safe_decode_encode.
  - apply ref_presented.
  - split; [done|]. split; [|done]. apply lookup_singleton_eq.
  - split; [|exists 7; split; [|by cbv]].
    + unfold find_authenticator. simpl authenticators. rewrite lookup_singleton_eq. done.
    + unfold counter_of. simpl authenticators. rewrite lookup_singleton_eq. done.
  - apply ref_authenticated.
  - done.
  - by cbv.
  - split; [|by cbv]. intros i e Hi. done.
  - split; [done|]. apply not_elem_of_nil.
Qed.

Lemma ref_converts : server_converts ref_case = true.
Proof. unfold server_converts. apply andb_true_iff. split; [done|]. by apply rfc3339_ok. Qed.

Lemma ref_assertion_signs :
  signs_as (IdentityAssertion.key IdentityAssertion.ref_sealer)
    (IdentityAssertion.key_id IdentityAssertion.ref_sealer) (ref_public_key (IdentityAssertion.key IdentityAssertion.ref_sealer)).
Proof. split; [apply ref_signs_for|]. split; [done|]. intros p digest. by eexists _, _. Qed.
Lemma ref_audit_signs :
  signs_as (AuditSeal.key ref_audit_sealer) (AuditSeal.key_id ref_audit_sealer)
    (ref_public_key (AuditSeal.key ref_audit_sealer)).
Proof. split; [apply ref_signs_for|]. split; [done|]. intros p digest. by eexists _, _. Qed.
Lemma ref_key_accepted :
  IdentityAssertion.accept_verifying_key IdentityAssertion.SUITE_V1
    (IdentityAssertion.key_id IdentityAssertion.ref_sealer)
    (ref_public_key (IdentityAssertion.key IdentityAssertion.ref_sealer)) = Ok ref_verifying_key.
Proof. vm_compute. reflexivity. Qed.

(** The same login over a server that reads the two texts and over one that refuses them. *)
Lemma login_outcome_witness :
  (∃ s' resp bs,
    rtc (step (R := unit) ref_state IdentityAssertion.ref_sealer ref_audit_sealer) ref_start s' ∧
    threads s' = [Ret (Ok (AuthenticationVerified resp))] ∧
    url_safe_decode (avr_assertion resp) = Some bs ∧
    verify_assertion {| verifier_key := ref_verifying_key |} 1784021500
      {| rq_assertion := bs; rq_expected_authority_domain := "prod" |} =
    Ok {| valid := true; reason := ""; rs_subject_id := "alice"; rs_aal := "AAL2";
          rs_auth_method := "webauthn/device-bound";
          rs_audit_event_id := "01900000-0000-7000-8000-000000000000" |}) ∧
  (∃ s',
    rtc (step (H5 := documented_conversions) (R := unit) ref_state IdentityAssertion.ref_sealer ref_audit_sealer)
      ref_start s' ∧
    threads s' = [Ret (Err {| status := 503; api_reason := "base_de_donnees_indisponible" |})] ∧
    events (db s') = [] ∧ counter_of (db s') (replicate 16 (u8_of 3)) = Some 8) ∧
  (∀ s' resp,
    IdpSystem.reachable (H5 := documented_conversions) (R := unit) ref_state IdentityAssertion.ref_sealer
      ref_audit_sealer ref_db s' →
    requests s' !! 0%nat = Some (AuthenticationVerify ref_login) → threads s' !! 0%nat ≠ Some (Ret (Ok resp))).
Proof.
  destruct (login_outcome (R := unit) ref_state IdentityAssertion.ref_sealer ref_audit_sealer ref_start 0%nat
    ref_login ref_case _ _ _ eq_refl ref_login_ready ref_assertion_signs ref_audit_signs ref_key_accepted)
    as [Hconverted _].
  destruct (login_outcome (H6 := documented_conversions) (R := unit) ref_state IdentityAssertion.ref_sealer
    ref_audit_sealer ref_start 0%nat ref_login ref_case _ _ _ eq_refl ref_login_ready ref_assertion_signs
    ref_audit_signs ref_key_accepted) as [Hrefused Hnever].
  split; [|split].
  - rewrite ref_converts in Hconverted. destruct Hconverted as (s' & resp & bs & Hrtc & _ & Hth & Hbs & Hv).
    exists s', resp, bs. split; [exact Hrtc|]. split; [exact Hth|]. split; [exact Hbs|].
    exact (Hv 1784021500 ltac:(by cbv)).
  - change (server_converts _) with false in Hrefused.
    destruct Hrefused as (s' & Hrtc & _ & Hth & Hev & _ & Hn). exists s'. by split_and!.
  - intros s' resp Hs Hr Ht. exact (Hnever (λ _, eq_refl) ref_db s' 0%nat _ resp Hs Hr Ht).
Defined.

(** The state after the login. *)
Lemma ref_logged_in :
  ∃ s resp, IdpSystem.reachable (R := unit) ref_state IdentityAssertion.ref_sealer ref_audit_sealer ref_db s ∧
    requests s = [AuthenticationVerify ref_login] ∧
    threads s = [Ret (Ok (AuthenticationVerified resp))].
Proof.
  destruct (login_goes_through (R := unit) ref_state IdentityAssertion.ref_sealer ref_audit_sealer ref_start 0%nat
    ref_login ref_case _ _ _ eq_refl ref_login_ready ref_assertion_signs ref_audit_signs ref_key_accepted
    ref_converts) as (s & resp & bs & Hrtc & Hreq & Hth & _).
  exists s, resp. split; [|done]. eapply rtc_l; [|exact Hrtc].
  apply (arrive ref_state _ _ (initial ref_db) (AuthenticationVerify ref_login)).
Qed.

(** ** The theorems of the other files in that state *)

Abbreviation ref_reachable s :=
  (IdpSystem.reachable (R := unit) ref_state IdentityAssertion.ref_sealer ref_audit_sealer ref_db s).

Lemma ref_spent resp :
  spent (AuthenticationVerify ref_login, Ret (Ok resp)) = Some (replicate 32 (u8_of 1)) ∧
  login_counter (AuthenticationVerify ref_login, Ret (Ok resp)) = Some (replicate 16 (u8_of 3), 8).
Proof.
  unfold spent, login_counter, presented, ref_login.
  cbn [av_client_data_json av_credential_id av_authenticator_data]. rewrite !url_safe_decode_encode.
  cbn [mbind option_bind]. rewrite ref_presented. split; [done|].
  assert (Authentication.parse_authenticator_data ref_auth_data = Ok {|
    paa_rp_id_hash := Authentication.rp_id_hash "idp.example"; paa_flags := 5; paa_sign_count := 8 |}) as ->; [|done].
  apply assertion_parse_Ok. exists (u8_of 5), (u8_of 0), (u8_of 0), (u8_of 0), (u8_of 8), []. by split_and!.
Qed.

Lemma ref_db_counters id n : counter_of ref_db id = Some n → 0 ≤ n.
Proof.
  unfold counter_of, ref_db. simpl authenticators.
  destruct (decide (id = replicate 16 (u8_of 3))) as [->|Hne].
  - rewrite lookup_singleton_eq. by intros [= <-].
  - by rewrite lookup_singleton_ne.
Qed.

Lemma ref_journal : good_journal ref_state ref_audit_sealer (events ref_db).
Proof. split; [intros i e Hi; done|]. intros e He. by apply elem_of_nil in He. Qed.

Lemma no_replay_witness :
  ∃ s, ref_reachable s ∧
    omap spent (zip (requests s) (threads s)) = [replicate 32 (u8_of 1)] ∧
    used (db s) (replicate 32 (u8_of 1)) ∧ NoDup (omap login_counter (zip (requests s) (threads s))).
Proof.
  destruct ref_logged_in as (s & resp & Hs & Hreq & Hth).
  destruct (no_replay ref_state IdentityAssertion.ref_sealer ref_audit_sealer ref_db s Hs) as (_ & Hnd & Hused).
  assert (omap spent (zip (requests s) (threads s)) = [replicate 32 (u8_of 1)]) as Hsp.
  { rewrite Hreq, Hth. simpl zip. cbn [omap list_omap]. by rewrite (proj1 (ref_spent _)). }
  exists s. split; [exact Hs|]. split; [exact Hsp|]. split; [|exact Hnd].
  apply Hused. rewrite Hsp. left.
Defined.

Lemma zero_counter_never_logs_in_witness :
  ∃ s, ref_reachable s ∧
    omap login_counter (zip (requests s) (threads s)) = [(replicate 16 (u8_of 3), 8)] ∧ 0 < 8.
Proof.
  destruct ref_logged_in as (s & resp & Hs & Hreq & Hth).
  destruct (zero_counter_never_logs_in ref_state IdentityAssertion.ref_sealer ref_audit_sealer ref_db s
    ref_db_counters Hs) as [Hpos _].
  assert (omap login_counter (zip (requests s) (threads s)) = [(replicate 16 (u8_of 3), 8)]) as Hlc.
  { rewrite Hreq, Hth. simpl zip. cbn [omap list_omap]. by rewrite (proj2 (ref_spent _)). }
  exists s. split; [exact Hs|]. split; [exact Hlc|]. apply (Hpos (replicate 16 (u8_of 3))). rewrite Hlc. left.
Defined.

Lemma journal_stays_linked_witness :
  ∃ s, ref_reachable s ∧ good_journal ref_state ref_audit_sealer (events (db s)) ∧
    (events (db s) ≠ [] → verify_chain (map journal_entry (events (db s))) = Ok tt).
Proof.
  destruct ref_logged_in as (s & resp & Hs & _).
  destruct (journal_stays_linked ref_state IdentityAssertion.ref_sealer ref_audit_sealer ref_db s
    eq_refl ref_journal Hs) as (Hg & Hv & _).
  exists s. split; [exact Hs|]. split; [exact Hg|exact Hv].
Defined.

Lemma assertion_has_event_witness :
  ∃ s resp row, ref_reachable s ∧ threads s = [Ret (Ok (AuthenticationVerified resp))] ∧
    row ∈ events (db s) ∧ er_event_type row = "authentication.succeeded".
Proof.
  destruct ref_logged_in as (s & resp & Hs & Hreq & Hth).
  destruct (assertion_has_event ref_state IdentityAssertion.ref_sealer ref_audit_sealer ref_db s 0%nat
    ref_login resp Hs ltac:(rewrite Hreq; reflexivity) ltac:(rewrite Hth; reflexivity))
    as (claims & sealed & row & f & p & p' & _ & _ & Hin & _ & _ & Hty & _).
  exists s, resp, row. split; [exact Hs|]. split; [exact Hth|]. split; [exact Hin|exact Hty].
Defined.

(** A state with a row in the journal. *)
Lemma ref_row_exists :
  ∃ s row, ref_reachable s ∧ row ∈ events (db s).
Proof.
  destruct ref_logged_in as (s & resp & Hs & Hreq & Hth).
  assert (requests s !! 0%nat = Some (AuthenticationVerify ref_login)) as Hr by (by rewrite Hreq).
  assert (threads s !! 0%nat = Some (Ret (Ok (AuthenticationVerified resp)))) as Ht by (by rewrite Hth).
  destruct (login_finished _ _ _ _ _ _ _ _ Hs Hr Ht) as (d & Hown & [_ _ _ _ Haud] & _).
  destruct (audited_row _ _ _ _ _ _ _ _ _ _ _ _ (take 6 (login_trace ref_state d)) Hs Haud Hown) as (row & Hin & _).
  by exists s, row.
Qed.

Lemma journal_rows_verify_witness :
  ∃ s row va, ref_reachable s ∧ row ∈ events (db s) ∧
    AuditSeal.verify [ref_audit_key] (er_sealed_bytes row) ref_audit_policy = Ok va ∧
    va_event_id va = er_event_id row.
Proof.
  destruct ref_row_exists as (s & row & Hs & Hin).
  destruct (journal_rows_verify ref_state IdentityAssertion.ref_sealer ref_audit_sealer ref_db s
    (ref_public_key (AuditSeal.key ref_audit_sealer)) ref_audit_key [ref_audit_key] ref_audit_policy row)
    as (va & Hva & Hid & _).
  - reflexivity.
  - exact ref_journal.
  - exact Hs.
  - apply ref_signs_for.
  - vm_compute. reflexivity.
  - apply (find_key_head ref_audit_key).
  - left.
  - reflexivity.
  - exact Hin.
  - exists s, row, va. split; [exact Hs|]. split; [exact Hin|]. split; [exact Hva|exact Hid].
Defined.
