(* ===== verification/IdpTables.v ===== *)
(** * The types of the identity provider's tables

    The columns of [deploy/migrations] are texts, byte strings and 64-bit integers; the
    service reads them as algorithms, accepted keys and 32-bit counters, with conversions
    that would lose what they cannot represent ([max(0) as u32], [Ok(None)] for an unknown
    algorithm, [as u64]).  [well_typed] is what every row satisfies; every step of the
    system keeps it, and on such tables no conversion loses anything. *)

From S2P Require Import Prelude.
From S2P Require Import Effects.
From S2P Require Import Json.
From S2P Require Import Serde.
From S2P Require Import JsonCodec.
From S2P Require Import Aws.
From S2P Require Import Common.
From S2P Require Import Signer.
From S2P Require Import IdentityAssertion.
From S2P Require Import AuditSeal.
From S2P Require Import AuthProof.
From S2P Require Import Chain.
From S2P Require Import ClientData.
From S2P Require Import Cose.
From S2P Require Import Registration.
From S2P Require Import Authentication.
From S2P Require Import IdpStore.
From S2P Require Import IdpHttp.
From S2P Require Import IdpSpec.
From S2P Require Import IdpSystem.
From S2P Require Import IdpReplay.
From S2P Require Import IdpJournal.
From S2P Require Import IdpLogin.

(** ** Types of rows *)

Record typed_challenge (ch : bytes) (r : challenge_row) : Prop := {
  tc_length : len ch = CHALLENGE_LEN;
  tc_kind : cr_ceremony_kind r ∈ ["registration"; "authentication"];
  tc_subject : pg_text (cr_subject_id r) = true;
  (** it was used before it expired *)
  tc_used : ∀ t, cr_used_at r = Some t → t < cr_expires_at r;
}.

(** A row holds a key that the suite accepts, under the name of its algorithm; a counter
    that means something is above zero. *)
Record typed_authenticator (id : bytes) (r : authenticator_row) (alg : Algorithm) : Prop := {
  ta_id : len id < 2 ^ 16;
  ta_subject : pg_text (ar_subject_id r) = true;
  ta_suite : ar_suite r = AuthProof.SUITE_V1;
  ta_algorithm : ar_algorithm r = algorithm_to_column alg;
  ta_key : accept_key AuthProof.SUITE_V1 {| pkm_algorithm := alg; pkm_raw := ar_public_key r |} =
    Ok {| ak_algorithm := alg; ak_raw := ar_public_key r |};
  ta_count : in_u32 (ar_sign_count r);
  ta_supported : ar_counter_supported r = true → 0 < ar_sign_count r;
  ta_aaguid : len (ar_aaguid r) = 16;
  ta_format : ar_attestation_format r ∈ ["none"; "packed"];
}.

Record typed_event (e : event_row) : Prop := {
  te_sequence : 0 ≤ er_sequence e ≤ AuditSeal.MAX_SAFE_INTEGER;
  te_outcome : er_outcome e ∈ ["success"; "denied"; "error"];
  te_prev_hash : prev_hash_format (er_prev_hash e) = true;
}.

(** Primary keys are the keys of the maps; the journal has two. *)
Record well_typed (d : Db) : Prop := {
  wt_challenges : ∀ ch r, challenges d !! ch = Some r → typed_challenge ch r;
  wt_authenticators : ∀ id r, authenticators d !! id = Some r → ∃ alg, typed_authenticator id r alg;
  wt_events : ∀ e, e ∈ events d → typed_event e;
  wt_event_ids : NoDup (map event_key (events d));
  wt_sequences : NoDup (map (λ e, (er_authority_domain e, er_sequence e)) (events d));
}.

(** ** Reading typed rows *)

Lemma algorithm_column alg : algorithm_from_column (algorithm_to_column alg) = Some alg.
Proof. by destruct alg. Qed.

(** What [find_authenticator] answers: the row as it is stored. *)
Definition stored_row (id : bytes) (r : authenticator_row) (alg : Algorithm) : AuthenticatorRow := {|
  row_subject_id := ar_subject_id r; row_credential_id := id; row_algorithm := alg;
  row_public_key := ar_public_key r; row_counter_supported := ar_counter_supported r;
  row_sign_count := ar_sign_count r; row_revoked := bool_decide (is_Some (ar_revoked_at r)) |}.

Lemma find_typed d id r alg :
  authenticators d !! id = Some r → typed_authenticator id r alg →
  find_authenticator d id = Ok (Some (stored_row id r alg)).
Proof.
  intros Hr Ht. unfold find_authenticator, stored_row. rewrite Hr, (ta_algorithm _ _ _ Ht), algorithm_column.
  pose proof (ta_count _ _ _ Ht) as [Hlo Hhi]. rewrite Z.max_l by done.
  unfold wrap_u32. rewrite Z.mod_small; [done|]. unfold u32_max in Hhi. lia.
Qed.

Lemma highest_elem l e : highest l = Some e → e ∈ l.
Proof.
  revert e. induction l as [|x l IH]; intros e; simpl; [done|].
  destruct (highest l) as [y|]; [destruct (_ <? _)|]; intros [= <-]; [right; by apply IH|left..].
Qed.
Lemma highest_upper l e x : highest l = Some e → x ∈ l → er_sequence x ≤ er_sequence e.
Proof.
  revert e x. induction l as [|y l IH]; intros e x; [done|]. simpl.
  destruct (highest l) as [z|] eqn:Hz.
  - destruct (_ <? _) eqn:Hlt; bool_simp; intros [= <-] [->|Hx]%elem_of_cons; try lia; [by apply IH|].
    specialize (IH _ _ eq_refl Hx). lia.
  - intros [= <-] [->|Hx]%elem_of_cons; [lia|]. destruct l as [|w l]; [by apply elem_of_nil in Hx|].
    simpl in Hz. by repeat case_match.
Qed.


(** The head of a domain is a new place of the journal. *)
Lemma chain_head_typed `{AwsLc} d dom :
  well_typed d → pg_text dom = true →
  ∃ h, chain_head d dom = Ok h ∧ 0 ≤ next_sequence h ≤ AuditSeal.MAX_SAFE_INTEGER + 1 ∧
    ∀ e, e ∈ events d → er_authority_domain e = dom → er_sequence e < next_sequence h.
Proof.
  intros Hd Hdom. unfold chain_head. rewrite Hdom. simpl.
  destruct (highest _) as [row|] eqn:Hh.
  - pose proof (highest_elem _ _ Hh) as [_ Hin]%list_elem_of_filter.
    pose proof (te_sequence _ (wt_events _ Hd _ Hin)) as Hseq.
    unfold AuditSeal.MAX_SAFE_INTEGER, Chain.next_u64 in *. change (Z.shiftl 1 53) with (2 ^ 53) in *.
    unfold wrap_u64. rewrite Z.mod_small, (proj2 (Z.ltb_lt _ _)) by (unfold u64_max; lia). simpl.
    eexists. split; [done|]. simpl. split; [lia|]. intros e He Hdm.
    assert (e ∈ filter (λ e, er_authority_domain e = dom) (events d)) as Hf
      by (by apply list_elem_of_filter).
    pose proof (highest_upper _ _ _ Hh Hf). lia.
  - eexists. split; [done|]. simpl. split; [by cbv|].
    intros e He Hdm. exfalso.
    assert (e ∈ filter (λ e, er_authority_domain e = dom) (events d)) as Hf
      by (by apply list_elem_of_filter).
    destruct (filter _ (events d)) as [|x l]; [by apply elem_of_nil in Hf|].
    simpl in Hh. by repeat case_match.
Qed.

(** ** Writing typed rows *)

(** The arguments of the calls that write. *)
Definition well_argued (c : idp_call) : Prop :=
  match c with
  | IssueChallenge ch _ _ _ => len ch = CHALLENGE_LEN
  | InsertAuthenticator _ id alg pk n ag _ sup => in_u32 n ∧ storable id alg pk n ag sup
  | AdvanceSignCount _ n => in_u32 n
  | Append _ n _ _ _ _ _ _ _ _ => 0 ≤ n ≤ AuditSeal.MAX_SAFE_INTEGER
  | _ => True
  end.

Lemma issue_typed now d ch s k ttl :
  len ch = CHALLENGE_LEN → well_typed d → well_typed (issue_challenge now d ch s k ttl).1.
Proof.
  intros Hlen Hd. unfold issue_challenge. rewrite commit_fst. destruct (pg_after now ttl); simpl; [|done].
  destruct (_ && _) eqn:Hb; [|done]. bool_simp. destruct Hd as [Hc Ha He Hn Hq]. constructor; try done.
  simpl. intros ch' r [[<- <-]|[_ Hr]]%lookup_insert_Some; [|by apply Hc]. by constructor.
Qed.

Lemma consume_typed now d ch k : well_typed d → well_typed (consume_challenge now d ch k).1.
Proof.
  intros Hd. unfold consume_challenge. destruct (challenges d !! ch) as [r|] eqn:Hr; [|done].
  destruct (consumable now k r) eqn:Hk; [|done]. unfold consumable in Hk. bool_simp.
  destruct Hd as [Hc Ha He Hn Hq]. constructor; try done.
  simpl. intros ch' r' [[<- <-]|[_ Hr']]%lookup_insert_Some; [|by apply Hc].
  destruct (Hc _ _ Hr). constructor; simpl; try done. intros t [= <-]. lia.
Qed.

Lemma insert_typed now d s id alg pk n ag fmt sup :
  in_u32 n → storable id alg pk n ag sup → well_typed d →
  well_typed (insert_authenticator now d s id alg pk n ag fmt sup).1.
Proof.
  intros Hn (Hkey & Hid & Hag & ->) Hd. unfold insert_authenticator. rewrite commit_fst.
  destruct (_ && _) eqn:Hb; [|done]. bool_simp. destruct Hd as [Hc Ha He Hni Hq]. constructor; try done.
  simpl. intros id' r [[<- <-]|[_ Hr]]%lookup_insert_Some; [|by apply Ha].
  exists alg. constructor; simpl; try done. intros Hz. bool_simp. destruct Hn. lia.
Qed.

Lemma advance_typed d id n : in_u32 n → well_typed d → well_typed (advance_sign_count d id n).1.
Proof.
  intros Hn Hd. unfold advance_sign_count. destruct (authenticators d !! id) as [r|] eqn:Hr; [|done].
  destruct (_ <? n) eqn:Hlt; [|done]. bool_simp. destruct Hd as [Hc Ha He Hni Hq]. constructor; try done.
  simpl. intros id' r' [[<- <-]|[_ Hr']]%lookup_insert_Some; [|by apply Ha].
  destruct (Ha _ _ Hr) as [alg Ht]. exists alg. pose proof (ta_count _ _ _ Ht) as [? _].
  destruct Ht. constructor; simpl; try done. lia.
Qed.

Lemma append_typed `{PgConversions} d id n at_ dom ty actor out ph sig bs :
  0 ≤ n ≤ AuditSeal.MAX_SAFE_INTEGER → well_typed d →
  well_typed (append d id n at_ dom ty actor out ph sig bs).1.
Proof.
  intros Hn Hd. unfold append. rewrite wrap_safe by done. rewrite commit_fst.
  destruct (insertable _ _) eqn:Hb; [|done]. unfold insertable in Hb. bool_simp.
  destruct Hd as [Hc Ha He Hni Hq]. constructor; simpl; try done.
  - intros e [Hin| ->%list_elem_of_singleton]%elem_of_app; [by apply He|]. by constructor.
  - rewrite map_app. apply NoDup_app. split_and!; [done| |apply NoDup_singleton].
    intros x Hx ->%list_elem_of_singleton. done.
  - rewrite map_app. apply NoDup_app. split_and!; [done| |apply NoDup_singleton].
    intros x Hx ->%list_elem_of_singleton. done.
Qed.

Lemma effect_typed `{PgConversions} c now d :
  well_argued c → well_typed d → well_typed (effect c now d).
Proof.
  intros Hc Hd. destruct c; simpl in *; try done.
  - by apply issue_typed.
  - by apply consume_typed.
  - destruct Hc. by apply insert_typed.
  - by apply advance_typed.
  - by apply append_typed.
Qed.

Section tables.
Context `{SerdeJson, Base64, AwsLc, Ciborium, Coset, ScanOrder, PgConversions}.
Context {P R : Type} `{HsmSigner P, Csprng R}.
Variable state : AppState.
Variables (asealer : AssertionSealer P) (esealer : AuditSealer P).
Abbreviation reachable := (IdpSystem.reachable (P := P) (R := R) state asealer esealer).

Lemma allowed_well_argued d0 s i c :
  reachable d0 s → allowed state (own i (history s)) c → well_argued c.
Proof.
  intros Hs Hall. destruct c; try done.
  - destruct Hall as (_ & ch & Hin%elem_of_own & ->).
    destruct (history_answers _ _ _ _ _ Hs _ Hin) as (d & d' & _ & rng & Hch). simpl in Hch.
    unfold new_challenge in Hch. destruct (fill rng CHALLENGE_LEN) as [rng' [bs|]] eqn:Hf; simpl in Hch; [|done].
    simplify_eq. simpl. by eapply fill_length.
  - by destruct Hall as (? & ? & _).
  - by destruct Hall as (? & _).
  - destruct (appended_row _ _ _ _ _ _ _ _ _ _ _ _ _ _ _ _ Hs Hall) as (head & f & _ & _ & _ & Hn & _). done.
Qed.

(** C22. The tables stay well typed under every interleaving of requests and every loss of
    an answer: challenges of 32 bytes used before they expire, keys that the suite accepts,
    32-bit counters, a journal without two events at one place.  So nothing is lost when
    a row is read: [find_authenticator] finds every stored authenticator, as it is stored
    and with a key the verifier accepts, and [chain_head] always finds a place above every
    event of the domain. *)
Theorem tables_well_typed d0 s (Hd0 : well_typed d0) (Hs : reachable d0 s) :
  well_typed (db s) ∧
  (∀ id r, authenticators (db s) !! id = Some r → ∃ alg,
     find_authenticator (db s) id = Ok (Some (stored_row id r alg)) ∧
     ar_algorithm r = algorithm_to_column alg ∧
     accept_key AuthProof.SUITE_V1 {| pkm_algorithm := alg; pkm_raw := ar_public_key r |} =
       Ok {| ak_algorithm := alg; ak_raw := ar_public_key r |}) ∧
  (∀ dom, pg_text dom = true → ∃ h, chain_head (db s) dom = Ok h ∧
     0 ≤ next_sequence h ≤ AuditSeal.MAX_SAFE_INTEGER + 1 ∧
     ∀ e, e ∈ events (db s) → er_authority_domain e = dom → er_sequence e < next_sequence h).
Proof.
  assert (well_typed (db s)) as Ht.
  { revert s Hs. refine (reachable_ind _ _ _ (λ d _, well_typed d) d0 Hd0 _).
    intros s i c x d' Hs Hall Hans IH.
    destruct (answers_effect _ _ _ _ _ _ Hans) as [now [->| ->]]; [done|].
    apply effect_typed; [by eapply allowed_well_argued|done]. }
  split; [done|]. split; [|intros dom Hdom; by apply chain_head_typed].
  intros id r Hr. destruct (wt_authenticators _ Ht _ _ Hr) as [alg Hty]. exists alg.
  split_and!; [by apply find_typed|apply Hty..].
Qed.
End tables.

(** ** After the login of [IdpLogin] *)

#[local] Existing Instances ref_idp_coset ref_csprng ref_scan ref_conversions.

Lemma ref_db_typed : well_typed ref_db.
Proof.
  constructor.
  - intros ch r Hr. unfold ref_db in Hr. simpl challenges in Hr.
    apply lookup_singleton_Some in Hr as [<- <-].
    constructor; [reflexivity|right; left|reflexivity|done].
  - intros id r Hr. unfold ref_db in Hr. simpl authenticators in Hr.
    apply lookup_singleton_Some in Hr as [<- <-]. exists EdDsa. constructor; done || (by cbv) || left.
  - intros e He. by apply elem_of_nil in He.
  - constructor.
  - constructor.
Qed.

Lemma tables_well_typed_witness :
  ∃ s, ref_reachable s ∧ well_typed (db s) ∧
    ∃ h, chain_head (db s) "prod" = Ok h ∧ 0 ≤ next_sequence h.
Proof.
  destruct ref_logged_in as (s & resp & Hs & _).
  destruct (tables_well_typed ref_state IdentityAssertion.ref_sealer ref_audit_sealer ref_db s
    ref_db_typed Hs) as (Ht & _ & Hhead).
  destruct (Hhead "prod" eq_refl) as (h & Hh & [Hpos _] & _).
  exists s. split; [exact Hs|]. split; [exact Ht|]. exists h. split; [exact Hh|exact Hpos].
Defined.
