(* ===== verification/IdpEnrol.v ===== *)
(** * From a registration to the logins of its credential

    What the tables say of a request that was answered stays true whatever the other
    requests do: a consumed challenge keeps its subject, a registered credential keeps its
    subject and its key ([history_facts]).  So a registration that succeeded bound its
    credential to the subject of its challenge for good ([registration_binds]), and every
    login that succeeds with that credential, in whatever order and interleaving, is for that
    subject and was verified with that key ([login_is_of_the_registered]). *)

From S2P Require Import Prelude.
From S2P Require Import Effects.
From S2P Require Import Json.
From S2P Require Import Serde.
From S2P Require Import JsonCodec.
From S2P Require Import Aws.
From S2P Require Import Common.
From S2P Require Import Signer.
From S2P Require Import Suite.
From S2P Require Import IdentityAssertion.
From S2P Require Import AuditSeal.
From S2P Require Import AuthProof.
From S2P Require Import ClientData.
From S2P Require Import Cose.
From S2P Require Import Registration.
From S2P Require Import Authentication.
From S2P Require Import IdpStore.
From S2P Require Import IdpGrpc.
From S2P Require Import IdpHttp.
From S2P Require Import IdpSpec.
From S2P Require Import IdpSystem.
From S2P Require Import IdpReplay.
From S2P Require Import IdpJournal.
From S2P Require Import IdpLogin.
From S2P Require Import IdpTables.

(** ** Rows through the statements *)

(** A credential changes by its counter only, which grows. *)
Definition grew (a b : authenticator_row) : Prop :=
  b = set_sign_count (ar_sign_count b) a ∧ ar_sign_count a ≤ ar_sign_count b.
(** A challenge changes by being used only, once. *)
Definition aged (a b : challenge_row) : Prop :=
  b = a ∨ (cr_used_at a = None ∧ ∃ t, b = mark_used t a).

Lemma grew_refl a : grew a a.
Proof. split; [by destruct a | lia]. Qed.

Section rows.
Context `{PgConversions}.

Lemma effect_credential c now d id a :
  authenticators d !! id = Some a → ∃ b, authenticators (effect c now d) !! id = Some b ∧ grew a b.
Proof.
  intros Ha. assert (∃ b, authenticators d !! id = Some b ∧ grew a b) as Hsame
    by (exists a; split; [done|apply grew_refl]).
  destruct c; simpl; try done.
  - unfold issue_challenge. rewrite commit_fst. destruct (pg_after _ _); simpl; [|done]. by destruct (_ && _).
  - unfold consume_challenge. destruct (challenges d !! _); [|done]. by destruct (consumable _ _ _).
  - unfold insert_authenticator. rewrite commit_fst. destruct (_ && _) eqn:Hb; [|done]. bool_simp. simpl.
    rewrite lookup_insert_ne; [done|]. congruence.
  - unfold advance_sign_count. destruct (authenticators d !! credential_id) as [r|] eqn:Hr; [|done].
    destruct (_ <? _) eqn:Hlt; [|done]. bool_simp. simpl.
    destruct (base.decide (credential_id = id)) as [->|Hne]; [|by rewrite lookup_insert_ne].
    rewrite lookup_insert_eq. rewrite Hr in Ha. simplify_eq. eexists. split; [done|]. split; [done|]. simpl. lia.
  - unfold append. rewrite commit_fst. by destruct (insertable _ _).
Qed.

Lemma effect_challenge c now d ch a :
  challenges d !! ch = Some a → ∃ b, challenges (effect c now d) !! ch = Some b ∧ aged a b.
Proof.
  intros Ha. assert (∃ b, challenges d !! ch = Some b ∧ aged a b) as Hsame by (exists a; split; [done|by left]).
  destruct c; simpl; try done.
  - unfold issue_challenge. rewrite commit_fst. destruct (pg_after _ _); simpl; [|done].
    destruct (_ && _) eqn:Hb; [|done]. bool_simp. simpl. rewrite lookup_insert_ne; [done|]. congruence.
  - unfold consume_challenge. destruct (challenges d !! challenge) as [r|] eqn:Hr; [|done].
    destruct (consumable _ _ _) eqn:Hc; [|done]. unfold consumable in Hc. bool_simp. simpl.
    destruct (base.decide (challenge = ch)) as [->|Hne]; [|by rewrite lookup_insert_ne].
    rewrite lookup_insert_eq. rewrite Hr in Ha. simplify_eq. eexists. split; [done|]. right. split; [done|by eexists].
  - unfold insert_authenticator. rewrite commit_fst. by destruct (_ && _).
  - unfold advance_sign_count. destruct (authenticators d !! _); [|done]. by destruct (_ <? _).
  - unfold append. rewrite commit_fst. by destruct (insertable _ _).
Qed.

(** ** What an answer says of the tables, for good *)

Definition consumed_fact (ch : bytes) (kind : string) (cc : ConsumedChallenge) (d : Db) : Prop :=
  ∃ r, challenges d !! ch = Some r ∧ cr_subject_id r = cc_subject_id cc ∧ cr_ceremony_kind r = kind ∧
    is_Some (cr_used_at r).

Definition inserted_fact (s : string) (id : bytes) (alg : Algorithm) (pk : bytes) (n : Z) (ag : bytes)
    (fmt : string) (sup : bool) (d : Db) : Prop :=
  ∃ r, authenticators d !! id = Some r ∧ ar_subject_id r = s ∧ ar_algorithm r = algorithm_to_column alg ∧
    ar_public_key r = pk ∧ ar_aaguid r = ag ∧ ar_attestation_format r = fmt ∧
    ar_counter_supported r = sup ∧ n ≤ ar_sign_count r.

Definition found_fact (id : bytes) (row : AuthenticatorRow) (d : Db) : Prop :=
  ∃ r, authenticators d !! id = Some r ∧ ar_subject_id r = row_subject_id row ∧
    algorithm_from_column (ar_algorithm r) = Some (row_algorithm row) ∧
    ar_public_key r = row_public_key row ∧ ar_counter_supported r = row_counter_supported row.

Definition fact (e : event (Σ := idp_signature)) (d : Db) : Prop :=
  match e with
  | existT c x =>
      (match c return idp_answer c → Prop with
       | ConsumeChallenge ch k => λ x, match x with Ok (Some cc) => consumed_fact ch k cc d | _ => True end
       | InsertAuthenticator s id alg pk n ag fmt sup => λ x,
           match x with Ok _ => inserted_fact s id alg pk n ag fmt sup d | _ => True end
       | FindAuthenticator id => λ x, match x with Ok (Some row) => found_fact id row d | _ => True end
       | _ => λ _, True
       end) x
  end.

Lemma fact_effect e c now d : fact e d → fact e (effect c now d).
Proof.
  destruct e as [c' x]. destruct c'; try done; simpl.
  - destruct x as [[cc|]| |]; try done. intros (r & Hr & Hs & Hk & Hu).
    destruct (effect_challenge c now _ _ _ Hr) as (r' & Hr' & [->|(Hn & t & ->)]); [by exists r|].
    exists (mark_used t r). split_and!; try done.
  - destruct x; try done. intros (r & Hr & H1 & H2 & H3 & H4 & H5 & H6 & H7).
    destruct (effect_credential c now _ _ _ Hr) as (r' & Hr' & Heq & Hle). exists r'.
    split; [done|]. rewrite Heq. simpl. split_and!; try done. lia.
  - destruct x as [[row|]| |]; try done. intros (r & Hr & H1 & H2 & H3 & H4).
    destruct (effect_credential c now _ _ _ Hr) as (r' & Hr' & Heq & Hle). exists r'.
    split; [done|]. by rewrite Heq.
Qed.
End rows.

Section enrol.
Context `{SerdeJson, Base64, AwsLc, Ciborium, Coset, ScanOrder, PgConversions}.
Context {P R : Type} `{HsmSigner P, Csprng R}.
Variable state : AppState.
Variables (asealer : AssertionSealer P) (esealer : AuditSealer P).
Abbreviation D := (st_authority_domain state).
Abbreviation answers := (IdpSystem.answers (P := P) (R := R) asealer esealer).
Abbreviation reachable := (IdpSystem.reachable (P := P) (R := R) state asealer esealer).

Lemma fact_answer d c x d' : answers d c x d' → fact (saw c x) d'.
Proof.
  destruct c; try done; simpl.
  - intros [now [Hdone|(? & -> & _)]]; [|done]. unfold consume_challenge in Hdone.
    destruct (challenges d !! challenge) as [r|] eqn:Hr; [|by simplify_eq].
    destruct (consumable _ _ _) eqn:Hc; [|by simplify_eq]. simplify_eq. unfold consumable in Hc. bool_simp.
    exists (mark_used now r). simpl. rewrite lookup_insert_eq. by split_and!.
  - intros [now [Hdone|(? & -> & _)]]; [|done]. unfold insert_authenticator, commit in Hdone.
    destruct (_ && _) eqn:Hb; simplify_eq; [|done]. eexists. simpl. rewrite lookup_insert_eq.
    split; [done|]. simpl. split_and!; done.
  - intros [Hdone|(? & -> & _)]; [|done]. simplify_eq. unfold find_authenticator.
    destruct (authenticators d !! credential_id) as [r|] eqn:Hr; [|done].
    destruct (algorithm_from_column _) eqn:Ha; [|done]. exists r. by split_and!.
Qed.

Lemma history_facts d0 s : reachable d0 s → ∀ e, e ∈ history s → fact e.2 (db s).
Proof.
  revert s. refine (reachable_ind _ _ _ (λ d h, ∀ e, e ∈ h → fact e.2 d) d0 _ _).
  { by intros e ?%elem_of_nil. }
  intros s i c x d' _ _ Hans IH e [Hin|Hin]%elem_of_app.
  - specialize (IH e Hin). destruct (answers_effect _ _ _ _ _ _ Hans) as [now [->| ->]]; [done|].
    by apply fact_effect.
  - apply list_elem_of_singleton in Hin as ->. by eapply fact_answer.
Qed.
(** ** Registrations and logins that succeeded *)

(** What a registration that succeeded verified and left in the tables. *)
Record bound (s : system) (req : RegistrationVerifyRequest) (ch : bytes) (out : RegistrationOutcome)
    (c : challenge_row) (r : authenticator_row) : Prop := {
  (** the ceremony, for the provider's origin and relying party and this challenge *)
  bd_ceremony : ∃ cdj att, url_safe_decode (rv_client_data_json req) = Some cdj ∧
    url_safe_decode (rv_attestation_object req) = Some att ∧
    verify_registration_ceremony (registration_input state cdj att {| ch_bytes := ch |}) = Ok out;
  (** the challenge, used *)
  bd_challenge : challenges (db s) !! ch = Some c ∧ cr_ceremony_kind c = "registration" ∧
    is_Some (cr_used_at c);
  (** the credential: of the subject of the challenge, with the key of the attestation *)
  bd_credential : authenticators (db s) !! Registration.credential_id out = Some r ∧
    ar_subject_id r = cr_subject_id c ∧
    ar_algorithm r = algorithm_to_column (public_key_algorithm out) ∧ ar_public_key r = public_key_raw out ∧
    ar_counter_supported r = negb (Registration.sign_count out =? 0) ∧
    Registration.sign_count out ≤ ar_sign_count r;
}.

Lemma enrolled_bound d0 s i req resp :
  reachable d0 s → requests s !! i = Some (RegistrationVerify req) →
  threads s !! i = Some (Ret (Ok (RegistrationVerified resp))) →
  ∃ d c r, own i (history s) = enrol_trace state d ∧ enrol_ok state req d ∧
    cc_subject_id (ed_consumed d) = cr_subject_id c ∧
    rvr_credential_id resp = url_safe_encode (Registration.credential_id (ed_outcome d)) ∧
    bound s req (ed_presented d) (ed_outcome d) c r.
Proof.
  intros Hs Hreq Hdone. destruct (enrol_finished _ _ _ _ _ _ _ _ Hs Hreq Hdone) as (d & Hown & Hok & [= ->]).
  assert (∀ e, e ∈ enrol_trace state d → fact e (db s)) as Hf.
  { intros e He. apply (history_facts _ _ Hs (i, e)), elem_of_own. by rewrite Hown. }
  pose proof (Hf _ ltac:(left)) as (c & Hc & Hsub & Hkind & Hused).
  pose proof (Hf _ ltac:(right; left)) as (r & Hr & H1' & H2' & H3' & _ & _ & H6' & H7').
  exists d, c, r. split_and!; try done. pose proof Hok as [[Hd1 Hd2] _ [_ Hcer] _]. constructor.
  - by exists (ed_client_data d), (ed_attestation d).
  - done.
  - split_and!; try done. by rewrite H1', Hsub.
Qed.

(** C20. A registration binds its credential for good: once it has succeeded, and in every later
    state of every interleaving, the challenge that it presented is a used registration
    challenge; the credential of its answer belongs to the subject for whom that challenge
    was issued, with the key and the algorithm of the attestation that was verified for the
    provider's origin, its relying party and that challenge, and a counter that has not gone
    back; and the journal holds its event, [authenticator.registered] by that subject. *)
Theorem registration_binds d0 s i req resp
    (Hs : reachable d0 s) (Hreq : requests s !! i = Some (RegistrationVerify req))
    (Hdone : threads s !! i = Some (Ret (Ok (RegistrationVerified resp)))) :
  ∃ ch out c r, bound s req ch out c r ∧
    rvr_credential_id resp = url_safe_encode (Registration.credential_id out) ∧
    ∃ row f, row ∈ events (db s) ∧ sealed_row esealer row f ∧
      er_event_type row = "authenticator.registered" ∧ er_outcome row = "success" ∧
      er_actor row = actor_json (cr_subject_id c).
Proof.
  destruct (enrolled_bound _ _ _ _ _ Hs Hreq Hdone) as (d & c & r & Hown & [_ _ _ Haud] & Hsub & Hresp & Hb).
  exists (ed_presented d), (ed_outcome d), c, r. split_and!; [done..|].
  destruct (audited_row _ _ _ _ _ _ _ _ _ _ _ _ (take 2 (enrol_trace state d)) Hs Haud Hown)
    as (row & Hrin & Hsr & _ & Hty & Hact & _ & Hout).
  exists row, (ad_fields (ed_audit d)). split_and!; try done.
  - by rewrite (sr_event_type _ _ _ Hsr), Hty.
  - by rewrite (sr_outcome _ _ _ Hsr), Hout.
  - by rewrite Hact, Hsub.
Qed.

(** C19. From enrolment to assertion: when a registration and a login have succeeded and the login
    presents the credential identifier that the registration answered, then, whatever came
    first and whatever ran between, the assertion that leaves is about the subject of the
    registration's challenge, and the signature of the login was verified, over its
    authenticator data and the hash of its client data, with the key of the attestation that
    was verified at the registration. *)
Theorem login_is_of_the_registered d0 s i j req resp lreq lresp
    (Hs : reachable d0 s)
    (Hreq : requests s !! i = Some (RegistrationVerify req))
    (Hdone : threads s !! i = Some (Ret (Ok (RegistrationVerified resp))))
    (Hlreq : requests s !! j = Some (AuthenticationVerify lreq))
    (Hldone : threads s !! j = Some (Ret (Ok (AuthenticationVerified lresp))))
    (Hsame : url_safe_decode (av_credential_id lreq) = url_safe_decode (rvr_credential_id resp)) :
  ∃ ch out c r claims sealed p p', bound s req ch out c r ∧
    avr_assertion lresp = url_safe_encode (IdentityAssertion.bytes_of sealed) ∧
    IdentityAssertion.seal (assertion_sealer_at asealer p) claims = (p', Ok sealed) ∧
    as_str (IdentityAssertion.subject_id claims) = cr_subject_id c ∧
    ∃ data cdj sig k,
      url_safe_decode (av_authenticator_data lreq) = Some data ∧
      url_safe_decode (av_client_data_json lreq) = Some cdj ∧
      url_safe_decode (av_signature lreq) = Some sig ∧
      accept_key AuthProof.SUITE_V1 {| pkm_algorithm := public_key_algorithm out;
                                       pkm_raw := public_key_raw out |} = Ok k ∧
      AuthProof.verify k (data ++ AuthProof.sha256 cdj) sig = Ok MkVerified.
Proof.
  destruct (enrolled_bound _ _ _ _ _ Hs Hreq Hdone) as (d & c & r & _ & _ & _ & Hresp & Hb).
  destruct (login_finished _ _ _ _ _ _ _ _ Hs Hlreq Hldone)
    as (l & Hown & [(Hid & Hcdj & Hdata & Hsig) _ [_ Hcer] (now & after & _ & Hclaims) _] & [= ->]).
  assert (∀ e, e ∈ login_trace state l → (j, e) ∈ history s) as Hin
    by (intros e He; apply elem_of_own; by rewrite Hown).
  assert (fact (saw (FindAuthenticator (ld_credential_id l)) (Ok (Some (ld_row l)))) (db s)) as Hf.
  { apply (history_facts _ _ Hs (j, _)), Hin. unfold login_trace. set_solver. }
  destruct Hf as (r' & Hr' & Hsub & Halg & Hpk & _).
  rewrite Hid, Hresp, url_safe_decode_encode in Hsame. injection Hsame as Hsame.
  destruct (bd_credential _ _ _ _ _ _ Hb) as (Hr & Hrs & Hra & Hrk & _). rewrite Hsame in Hr'. simplify_eq.
  assert ((j, saw (SealAssertion (ld_assertion l)) (Ok (ld_sealed l))) ∈ history s) as Hsa
    by (apply Hin; unfold login_trace; set_solver).
  destruct (history_answers _ _ _ _ _ Hs _ Hsa) as (d1 & d2 & _ & [?|[p Hp]]); [done|]. simpl in Hp.
  apply verify_authentication_sound in Hcer as (pa & Hauth).
  pose proof (aut_claims _ _ _ Hauth) as Hcl. pose proof (aut_signature _ _ _ Hauth) as (k & Hk & Hv).
  simpl in Hcl, Hk, Hv.
  exists (ed_presented d), (ed_outcome d), c, r', (ld_assertion l), (ld_sealed l), p,
    (IdentityAssertion.seal (assertion_sealer_at asealer p) (ld_assertion l)).1.
  split_and!; [done|done|rewrite Hp; by destruct (IdentityAssertion.seal _ _)| |].
  - rewrite (assertion_claims_subject _ _ _ _ _ _ Hclaims), Hcl. simpl. congruence.
  - exists (ld_auth_data l), (ld_client_data l), (ld_signature l), k. split_and!; try done.
    rewrite Hra, algorithm_column in Halg. injection Halg as Halg. by rewrite Halg, <- Hrk, Hpk.
Qed.
End enrol.
