(* ===== verification/Startup.v ===== *)
(** * The three binaries: [main.rs] of the services

    Each [main] reads its environment, opens what it needs and serves; whatever is missing
    ends the process before it serves.  The environment of the process is a function of
    variable names ([None]: absent, or not Unicode, which the code treats alike); loading
    the corpus, opening sealers and connections, binding and serving are calls of a program
    (file [Effects]).  [process::exit(n)] is [Err n] and a panic is [Panic]; log lines
    are not modelled. *)

From S2P Require Import Prelude.
From S2P Require Import Effects.
From S2P Require Import Json.
From S2P Require Import JsonCodec.
From S2P Require Import Aws.
From S2P Require Import Common.
From S2P Require Import Signer.
From S2P Require Import Suite.
From S2P Require Import IdentityAssertion.
From S2P Require Import AuditSeal.
From S2P Require Import DecisionSeal.
From S2P Require Import PolicyProto.
From S2P Require Import Pdp.
From S2P Require Import PolicyEngine.
From S2P Require Import AuditSealerApp.
From S2P Require Import IdpStore.
From S2P Require Import IdpGrpc.
From S2P Require Import IdpHttp.

(** ** Texts of the standard library *)

(** [char::to_digit(radix)], for a radix up to 16 *)
Definition to_digit (radix : Z) (c : u8) : option Z :=
  d ← hex_digit_value c; if d <? radix then Some d else None.

(** The digits at the front of a text: their value, up to [limit], their number, up to
    [max_digits] if given, and the rest. *)
Fixpoint read_digits (radix limit : Z) (max_digits : option Z) (acc count : Z) (l : bytes) :
    option (Z * Z * bytes) :=
  match l with
  | c :: l' =>
      match to_digit radix c with
      | Some d =>
          let acc := acc * radix + d in
          if limit <? acc then None
          else if bool_decide (max_digits = Some count) then None
          else read_digits radix limit max_digits acc (count + 1) l'
      | None => Some (acc, count, l)
      end
  | [] => Some (acc, count, [])
  end.

(** [i64::from_str]: a sign, at least one digit, nothing else. *)
Definition parse_i64 (s : string) : option Z :=
  let number limit l :=
    match read_digits 10 limit None 0 0 l with
    | Some (n, count, []) => if count =? 0 then None else Some n
    | _ => None
    end in
  match as_bytes s with
  | "+"%char :: l => number i64_max l
  | "-"%char :: l => Z.opp <$> number (- i64_min) l
  | l => number i64_max l
  end.

(** [core::net::parser] *)
Definition read_number (radix limit : Z) (max_digits : option Z) (allow_zero_prefix : bool)
    (l : bytes) : option (Z * bytes) :=
  match read_digits radix limit max_digits 0 0 l with
  | Some (n, count, l') =>
      if (count =? 0) ||
         (negb allow_zero_prefix && bool_decide (head l = Some "0"%char) && (1 <? count))
      then None else Some (n, l')
  | None => None
  end.

Definition read_given (c : ascii) (l : bytes) : option bytes :=
  match l with
  | x :: l' => if bool_decide (x = c) then Some l' else None
  | [] => None
  end.

(** [read_separator]: the separator is read before every part but the first. *)
Definition read_separator {A} (c : ascii) (first : bool) (p : bytes → option (A * bytes)) (l : bytes) :
    option (A * bytes) :=
  if first then p l else l' ← read_given c l; p l'.

Definition read_octet := read_number 10 255 (Some 3) false.
Definition read_ipv4 (l : bytes) : option (list Z * bytes) :=
  '(a, l) ← read_octet l;
  '(b, l) ← read_separator "."%char false read_octet l;
  '(c, l) ← read_separator "."%char false read_octet l;
  '(d, l) ← read_separator "."%char false read_octet l;
  Some ([a; b; c; d], l).

(** Groups of an IPv6 address, an IPv4 one at the end counting for two. *)
Fixpoint read_groups (limit : nat) (first : bool) (l : bytes) : list Z * bool * bytes :=
  match limit with
  | O => ([], false, l)
  | S limit' =>
      match (if bool_decide (limit' = O) then None else read_separator ":"%char first read_ipv4 l) with
      | Some ([a; b; c; d], l') => ([a * 256 + b; c * 256 + d], true, l')
      | _ =>
          match read_separator ":"%char first (read_number 16 65535 (Some 4) true) l with
          | Some (g, l') => let '(gs, v4, l'') := read_groups limit' false l' in (g :: gs, v4, l'')
          | None => ([], false, l)
          end
      end
  end.

Definition read_ipv6 (l : bytes) : option (list Z * bytes) :=
  let '(front, v4, l) := read_groups 8 true l in
  if bool_decide (length front = 8%nat) then Some (front, l)
  else if v4 then None
  else
    l ← read_given ":"%char l;
    l ← read_given ":"%char l;
    let '(back, _, l) := read_groups (7 - length front) true l in
    Some (front ++ replicate (8 - length front - length back) 0 ++ back, l).

Inductive SocketAddr :=
| V4 (octets : list Z) (port : Z)
| V6 (segments : list Z) (scope_id port : Z).

Definition read_port (l : bytes) : option (Z * bytes) :=
  l ← read_given ":"%char l; read_number 10 65535 None true l.
Definition read_scope_id (l : bytes) : option (Z * bytes) :=
  l ← read_given "%"%char l; read_number 10 u32_max None true l.

Definition read_socket_addr_v4 (l : bytes) : option (SocketAddr * bytes) :=
  '(ip, l) ← read_ipv4 l; '(port, l) ← read_port l; Some (V4 ip port, l).
Definition read_socket_addr_v6 (l : bytes) : option (SocketAddr * bytes) :=
  l ← read_given "["%char l;
  '(ip, l) ← read_ipv6 l;
  let '(scope_id, l) := default (0, l) (read_scope_id l) in
  l ← read_given "]"%char l;
  '(port, l) ← read_port l;
  Some (V6 ip scope_id port, l).

(** [SocketAddr::from_str]: the whole text, IPv4 first. *)
Definition parse_socket_addr (s : string) : option SocketAddr :=
  match
    match read_socket_addr_v4 (as_bytes s) with
    | Some r => Some r
    | None => read_socket_addr_v6 (as_bytes s)
    end
  with
  | Some (a, []) => Some a
  | _ => None
  end.

Example parse_v4 : parse_socket_addr "127.0.0.1:50062" = Some (V4 [127; 0; 0; 1] 50062).
Proof. reflexivity. Qed.
Example parse_v6 : parse_socket_addr "[fe80::1%3]:0443" = Some (V6 [65152; 0; 0; 0; 0; 0; 0; 1] 3 443).
Proof. reflexivity. Qed.
Example parse_v6_v4 :
  parse_socket_addr "[::ffff:10.0.0.1]:80" = Some (V6 [0; 0; 0; 0; 0; 65535; 2560; 1] 0 80).
Proof. reflexivity. Qed.
Example parse_bad :
  parse_socket_addr <$> ["localhost:80"; "1.2.3.04:80"; "1.2.3.4:65536"; "[1::2::3]:80"; "1.2.3.4:80 "] =
  replicate 5 None.
Proof. reflexivity. Qed.
Example parse_i64s :
  parse_i64 <$> ["120"; "-5"; "+7"; "5m"; "-"; ""; " 1"; "9223372036854775807"; "9223372036854775808";
                 "-9223372036854775808"] =
  [Some 120; Some (-5); Some 7; None; None; None; None; Some i64_max; None; Some i64_min].
Proof. reflexivity. Qed.

(** ** Calls *)

(** Why a call failed; it is only printed. *)
Inductive StartError := Unavailable.

(** The two servers of the identity provider, in one [select!]. *)
Inductive Entry := Grpc | Http.

Section startup.
Context `{Cedar, Fs, SerdeJson, AwsLc} {P : Type} `{HsmSigner P}.

Inductive start_call :=
| NewRuntime
| LoadPdp (schema_path policies_dir : string)
| OpenAssertionSealer (settings : IdentityAssertion.HsmSettings)
| OpenAuditSealer (settings : AuditSeal.HsmSettings)
| OpenDecisionSealer (settings : DecisionSeal.HsmSettings)
| ConnectIdentity (database_url : string)
| ConnectAudit (database_url : string)
| BindTcp (addr : SocketAddr)
| RemoveFile (path : string)
| BindUnix (path : string)
| ServeIdp (grpc_addr : SocketAddr) (verifier : AssertionVerifier) (http_addr : SocketAddr)
    (state : AppState) (assertion_sealer : AssertionSealer P) (audit_sealer : AuditSealer P)
| ServeSealer (socket : string) (service : SealerService P)
| ServePolicy (addr : SocketAddr) (engine : PolicyEngine P).

Definition start_answer (c : start_call) : Type :=
  match c with
  | LoadPdp _ _ => res Pdp PdpLoadError
  | OpenAssertionSealer _ => res (AssertionSealer P) IdentityAssertion.SealError
  | OpenAuditSealer _ => res (AuditSealer P) AuditSeal.SealError
  | OpenDecisionSealer _ => res (DecisionSealer P) DecisionSeal.SealError
  | ServeIdp _ _ _ _ _ _ => Entry * res unit StartError
  | _ => res unit StartError
  end.

#[export] Instance start_signature : Effects.Signature := {| call := start_call; answer := start_answer |}.

(** A call whose failure is printed and ends the process with status 1. *)
Definition or_exit {A E} (r : res A E) : res A Z := map_err (λ _, 1) r.
Definition obtain {A} (c : start_call) (f : start_answer c → res A Z) : prog (res A Z) :=
  prog_bind (trigger (c : call)) (λ x, Ret (f x)).

(** [expect] on an option, [unwrap_or_else] that exits. *)
Definition some_or_panic {A} (o : option A) : res A Z := match o with Some a => Ok a | None => Panic end.
Definition some_or_exit {A} (o : option A) : res A Z := ok_or o 1.

(** ** The environment *)

Section main.
(** [std::env::var(var).ok()] *)
Variable env : string → option string.

Definition require_env (var : string) : res string Z := some_or_exit (env var).
Definition env_or (var default : string) : string := match env var with Some v => v | None => default end.
Definition env_i64_or (var : string) (default : Z) : Z :=
  match env var ≫= parse_i64 with Some n => n | None => default end.

(** [env_path] of the two other services *)
Definition env_path (var default : string) : string := env_or var default.

(** [hex_decode] of this file has the body of the one of [common.rs]. *)
Definition hex_decode (s : string) : option bytes :=
  if negb (str_len s mod 2 =? 0) || negb (forallb is_ascii_hexdigit (as_bytes s)) then None
  else hex_pairs (as_bytes s).

(** ** [apps/identity-provider/src/main.rs] *)

Record IdpConfig := {
  c_verifying_key : AcceptedVerifyingKey;
  c_grpc_addr : SocketAddr;
  c_http_addr : SocketAddr;
  c_identity_database_url : string;
  c_audit_database_url : string;
  c_hsm_module_path : string;
  c_hsm_pin : string;
  c_assertion_key_label : string;
  c_audit_key_label : string;
  c_state : AppState;
}.

(** Everything [main] computes before it creates the runtime. *)
Definition idp_config : res IdpConfig Z :=
  let! key_hex := require_env "ZS_IDP_VERIFYING_KEY_HEX" in
  let! key_id := require_env "ZS_IDP_VERIFYING_KEY_ID" in
  let! raw := some_or_exit (hex_decode key_hex) in
  let! verifying_key :=
    or_exit (IdentityAssertion.accept_verifying_key IdentityAssertion.SUITE_V1 key_id raw) in
  let! grpc_addr := some_or_panic (parse_socket_addr (env_or "ZS_IDP_ADDR" "127.0.0.1:50062")) in
  let! http_addr := some_or_panic (parse_socket_addr (env_or "ZS_IDP_HTTP_ADDR" "127.0.0.1:50063")) in
  let! identity_database_url := require_env "ZS_IDP_IDENTITY_DATABASE_URL" in
  let! audit_database_url := require_env "ZS_IDP_AUDIT_DATABASE_URL" in
  let hsm_module_path := env_or "ZS_HSM_MODULE" "/usr/lib/softhsm/libsofthsm2.so" in
  let! hsm_pin := require_env "SOFTHSM2_PIN" in
  let assertion_key_label := env_or "ZS_IDP_ASSERTION_HSM_KEY_LABEL" "zs-identity-assertion-v1" in
  let audit_key_label := env_or "ZS_IDP_AUDIT_HSM_KEY_LABEL" "zs-audit-seal-v1" in
  let! rp_id := require_env "ZS_IDP_RP_ID" in
  let! origin := require_env "ZS_IDP_ORIGIN" in
  let authority_domain := env_or "ZS_IDP_AUTHORITY_DOMAIN" "identity-provider" in
  let! audience := require_env "ZS_IDP_ASSERTION_AUDIENCE" in
  let challenge_ttl_seconds := env_i64_or "ZS_IDP_CHALLENGE_TTL_SECONDS" 120 in
  let assertion_ttl_seconds := env_i64_or "ZS_IDP_ASSERTION_TTL_SECONDS" 120 in
  Ok {| c_verifying_key := verifying_key; c_grpc_addr := grpc_addr; c_http_addr := http_addr;
        c_identity_database_url := identity_database_url; c_audit_database_url := audit_database_url;
        c_hsm_module_path := hsm_module_path; c_hsm_pin := hsm_pin;
        c_assertion_key_label := assertion_key_label; c_audit_key_label := audit_key_label;
        c_state := {| IdpHttp.rp_id := rp_id; st_origin := origin;
                      st_authority_domain := authority_domain; st_audience := audience;
                      IdpHttp.challenge_ttl_seconds := challenge_ttl_seconds;
                      IdpHttp.assertion_ttl_seconds := assertion_ttl_seconds |} |}.

(** [Duration::from_secs(5)], in nanoseconds *)
Definition five_seconds : Z := 5 * 10 ^ 9.

Definition assertion_settings (c : IdpConfig) : IdentityAssertion.HsmSettings := {|
  IdentityAssertion.hs_module_path := c_hsm_module_path c; IdentityAssertion.hs_slot_id := None;
  IdentityAssertion.hs_pin := c_hsm_pin c; IdentityAssertion.hs_pool_size := 4;
  IdentityAssertion.hs_acquire_timeout := five_seconds;
  IdentityAssertion.hs_key_label := c_assertion_key_label c |}.
Definition audit_settings (module_path pin key_label : string) : AuditSeal.HsmSettings := {|
  AuditSeal.hs_module_path := module_path; AuditSeal.hs_slot_id := None; AuditSeal.hs_pin := pin;
  AuditSeal.hs_pool_size := 4; AuditSeal.hs_acquire_timeout := five_seconds;
  AuditSeal.hs_key_label := key_label |}.

Definition idp_main : prog (res unit Z) :=
  do! c := Ret idp_config in
  do! _ := obtain NewRuntime expect in
  do! assertion_sealer := obtain (OpenAssertionSealer (assertion_settings c)) or_exit in
  do! audit_sealer := obtain (OpenAuditSealer (audit_settings (c_hsm_module_path c) (c_hsm_pin c)
                                                 (c_audit_key_label c))) or_exit in
  do! _ := obtain (ConnectIdentity (c_identity_database_url c)) or_exit in
  do! _ := obtain (ConnectAudit (c_audit_database_url c)) or_exit in
  do! _ := obtain (BindTcp (c_http_addr c)) or_exit in
  obtain (ServeIdp (c_grpc_addr c) {| verifier_key := c_verifying_key c |} (c_http_addr c) (c_state c)
            assertion_sealer audit_sealer) (λ r, or_exit r.2).

(** ** [apps/audit-sealer/src/main.rs] *)

Definition sealer_main : prog (res unit Z) :=
  let module_path := env_path "ZS_HSM_MODULE" "/usr/lib/softhsm/libsofthsm2.so" in
  do! pin := Ret (require_env "SOFTHSM2_PIN") in
  let key_label := env_or "ZS_AUDIT_SEALER_HSM_KEY_LABEL" "zs-audit-seal-v1" in
  do! socket_path := Ret (require_env "ZS_AUDIT_SEALER_SOCKET") in
  do! sealer := obtain (OpenAuditSealer (audit_settings module_path pin key_label)) or_exit in
  do! _ := obtain (RemoveFile socket_path) (λ _, Ok tt) in
  do! _ := obtain (BindUnix socket_path) or_exit in
  obtain (ServeSealer socket_path (AuditSealerApp.new sealer)) or_exit.

(** ** [apps/policy-engine/src/main.rs] *)

Definition decision_settings (module_path pin key_label : string) : DecisionSeal.HsmSettings := {|
  DecisionSeal.hs_module_path := module_path; DecisionSeal.hs_slot_id := None;
  DecisionSeal.hs_pin := pin; DecisionSeal.hs_pool_size := 4;
  DecisionSeal.hs_acquire_timeout := five_seconds; DecisionSeal.hs_key_label := key_label |}.

Definition policy_main : prog (res unit Z) :=
  let schema_path := env_path "ZS_POLICY_ENGINE_SCHEMA" "contracts/cedar/schema.cedarschema.json" in
  let policies_dir := env_path "ZS_POLICY_ENGINE_POLICIES_DIR" "policies/access" in
  do! pdp := obtain (LoadPdp schema_path policies_dir) or_exit in
  let module_path := env_path "ZS_HSM_MODULE" "/usr/lib/softhsm/libsofthsm2.so" in
  do! pin := Ret (require_env "SOFTHSM2_PIN") in
  let key_label := env_or "ZS_POLICY_ENGINE_HSM_KEY_LABEL" "zs-decision-seal-v1" in
  do! sealer := obtain (OpenDecisionSealer (decision_settings module_path pin key_label)) or_exit in
  do! addr := Ret (some_or_panic (parse_socket_addr (env_or "ZS_POLICY_ENGINE_ADDR" "127.0.0.1:50061"))) in
  do! engine := Ret (PolicyEngine.serve pdp sealer) in
  obtain (ServePolicy addr engine) or_exit.
End main.

(** ** Executions up to a call *)

Abbreviation start_trace := (list (event (Σ := start_signature))).
Definition did (c : start_call) (x : start_answer c) : event (Σ := start_signature) :=
  Ev (Σ := start_signature) c x.

(** After the answers of [tr], the program makes the call [c]. *)
Definition stops_at {A} (p : prog A) (tr : start_trace) (c : start_call) : Prop :=
  ∃ k, run p tr (Call (c : call) k).

Lemma stops_obtain {A} c (f : start_answer c → res A Z) tr d :
  stops_at (obtain c f) tr d ↔ tr = [] ∧ d = c.
Proof.
  split.
  - intros [k [[-> Heq]|(x & tr' & -> & Hr)]%run_inv]; [by simplify_eq|].
    by apply run_inv in Hr as [_ ?].
  - intros [-> ->]. eexists. constructor.
Qed.

Lemma stops_obtain_then {A B} c (f : start_answer c → res A Z) (k : A → prog (res B Z)) tr d :
  stops_at (do! a := obtain c f in k a) tr d ↔
  (tr = [] ∧ d = c) ∨ ∃ x a tr', tr = did c x :: tr' ∧ f x = Ok a ∧ stops_at (k a) tr' d.
Proof.
  split.
  - intros [q [[-> Heq]|(x & tr' & -> & Hr)]%run_inv]; [left; by simplify_eq|].
    right. simpl in Hr. destruct (f x) as [a|e|] eqn:Hx.
    + exists x, a, tr'. split_and!; [done|done|by exists q].
    + by apply run_inv in Hr as [_ ?].
    + by apply run_inv in Hr as [_ ?].
  - intros [[-> ->]|(x & a & tr' & -> & Hx & q & Hr)]; [eexists; constructor|].
    exists q. constructor. simpl. rewrite Hx. exact Hr.
Qed.

Lemma stops_ret_then {A B} (r : res A Z) (k : A → prog (res B Z)) tr d :
  stops_at (do! a := Ret r in k a) tr d ↔ ∃ a, r = Ok a ∧ stops_at (k a) tr d.
Proof.
  split.
  - intros [q Hr]. destruct r as [a|e|]; [exists a; split; [done|by exists q]|..];
      by apply run_inv in Hr as [_ ?].
  - by intros (a & -> & q & Hr); exists q.
Qed.

Lemma or_exit_Ok {A E} (r : res A E) a : or_exit r = Ok a ↔ r = Ok a.
Proof. apply map_err_Ok. Qed.
Lemma expect_Ok' {A E} (r : res A E) (a : A) : expect (F := Z) r = Ok a ↔ r = Ok a.
Proof. destruct r; simpl; naive_solver. Qed.
Lemma some_or_exit_Ok {A} (o : option A) a : some_or_exit o = Ok a ↔ o = Some a.
Proof. apply ok_or_Ok. Qed.
Lemma some_or_panic_Ok {A} (o : option A) a : some_or_panic o = Ok a ↔ o = Some a.
Proof. destruct o; simpl; naive_solver. Qed.

(** ** What it takes to serve *)

Section specification.
Variable env : string → option string.

(** The environment that [main] accepts, and what it makes of it. *)
Record idp_environment (c : IdpConfig) : Prop := {
  ie_key : ∃ hex kid raw,
    env "ZS_IDP_VERIFYING_KEY_HEX" = Some hex ∧ env "ZS_IDP_VERIFYING_KEY_ID" = Some kid ∧
    hex_decode hex = Some raw ∧ len raw = 65 ∧ raw !! 0%nat = Some (u8_of 4) ∧
    c_verifying_key c = {| avk_key_id := kid; avk_raw := raw |};
  ie_grpc : parse_socket_addr (default "127.0.0.1:50062" (env "ZS_IDP_ADDR")) = Some (c_grpc_addr c);
  ie_http : parse_socket_addr (default "127.0.0.1:50063" (env "ZS_IDP_HTTP_ADDR")) = Some (c_http_addr c);
  ie_required :
    env "ZS_IDP_IDENTITY_DATABASE_URL" = Some (c_identity_database_url c) ∧
    env "ZS_IDP_AUDIT_DATABASE_URL" = Some (c_audit_database_url c) ∧
    env "SOFTHSM2_PIN" = Some (c_hsm_pin c) ∧
    env "ZS_IDP_RP_ID" = Some (IdpHttp.rp_id (c_state c)) ∧
    env "ZS_IDP_ORIGIN" = Some (st_origin (c_state c)) ∧
    env "ZS_IDP_ASSERTION_AUDIENCE" = Some (st_audience (c_state c));
  ie_defaults :
    c_hsm_module_path c = default "/usr/lib/softhsm/libsofthsm2.so" (env "ZS_HSM_MODULE") ∧
    c_assertion_key_label c = default "zs-identity-assertion-v1" (env "ZS_IDP_ASSERTION_HSM_KEY_LABEL") ∧
    c_audit_key_label c = default "zs-audit-seal-v1" (env "ZS_IDP_AUDIT_HSM_KEY_LABEL") ∧
    st_authority_domain (c_state c) = default "identity-provider" (env "ZS_IDP_AUTHORITY_DOMAIN");
  (** a text that is no number counts as absent *)
  ie_ttls :
    IdpHttp.challenge_ttl_seconds (c_state c) = default 120 (env "ZS_IDP_CHALLENGE_TTL_SECONDS" ≫= parse_i64) ∧
    IdpHttp.assertion_ttl_seconds (c_state c) = default 120 (env "ZS_IDP_ASSERTION_TTL_SECONDS" ≫= parse_i64);
}.

(** Every resource was obtained, once and in this order. *)
Definition idp_started (tr : start_trace) (g : SocketAddr) (v : AssertionVerifier) (h : SocketAddr)
    (st : AppState) (a : AssertionSealer P) (e : AuditSealer P) : Prop :=
  ∃ c, idp_environment c ∧ g = c_grpc_addr c ∧ v = {| verifier_key := c_verifying_key c |} ∧
    h = c_http_addr c ∧ st = c_state c ∧
    tr = [did NewRuntime (Ok tt); did (OpenAssertionSealer (assertion_settings c)) (Ok a);
          did (OpenAuditSealer (audit_settings (c_hsm_module_path c) (c_hsm_pin c) (c_audit_key_label c))) (Ok e);
          did (ConnectIdentity (c_identity_database_url c)) (Ok tt);
          did (ConnectAudit (c_audit_database_url c)) (Ok tt); did (BindTcp (c_http_addr c)) (Ok tt)].

Definition sealer_started (tr : start_trace) (socket : string) (s : SealerService P) : Prop :=
  ∃ pin x, env "SOFTHSM2_PIN" = Some pin ∧ env "ZS_AUDIT_SEALER_SOCKET" = Some socket ∧
    tr = [did (OpenAuditSealer (audit_settings
            (default "/usr/lib/softhsm/libsofthsm2.so" (env "ZS_HSM_MODULE")) pin
            (default "zs-audit-seal-v1" (env "ZS_AUDIT_SEALER_HSM_KEY_LABEL"))))
            (Ok (AuditSealerApp.sealer s));
          did (RemoveFile socket) x; did (BindUnix socket) (Ok tt)].

Definition policy_started (tr : start_trace) (addr : SocketAddr) (engine : PolicyEngine P) : Prop :=
  ∃ pin, env "SOFTHSM2_PIN" = Some pin ∧
    parse_socket_addr (default "127.0.0.1:50061" (env "ZS_POLICY_ENGINE_ADDR")) = Some addr ∧
    accepted_verifying_key (PolicyEngine.sealer engine) = Ok (PolicyEngine.verifying_key engine) ∧
    tr = [did (LoadPdp (default "contracts/cedar/schema.cedarschema.json" (env "ZS_POLICY_ENGINE_SCHEMA"))
                 (default "policies/access" (env "ZS_POLICY_ENGINE_POLICIES_DIR")))
            (Ok (PolicyEngine.pdp engine));
          did (OpenDecisionSealer (decision_settings
            (default "/usr/lib/softhsm/libsofthsm2.so" (env "ZS_HSM_MODULE")) pin
            (default "zs-decision-seal-v1" (env "ZS_POLICY_ENGINE_HSM_KEY_LABEL"))))
            (Ok (PolicyEngine.sealer engine))].

(** The last call of the process was its server, however that ended. *)
Definition served (tr : start_trace) : Prop :=
  ∃ tr' c x, tr = tr' ++ [did c x] ∧
    match c with ServeIdp _ _ _ _ _ _ | ServeSealer _ _ | ServePolicy _ _ => True | _ => False end.

(** ** Proofs *)

Lemma accept_verifying_key_Ok kid raw k :
  IdentityAssertion.accept_verifying_key IdentityAssertion.SUITE_V1 kid raw = Ok k ↔
  len raw = 65 ∧ raw !! 0%nat = Some (u8_of 4) ∧ k = {| avk_key_id := kid; avk_raw := raw |}.
Proof.
  unfold IdentityAssertion.accept_verifying_key, accept_verifying_key_for, sec1_malformed.
  rewrite bool_decide_true by done. destruct (len raw =? 65) eqn:Hl; bool_simp; simpl; [|naive_solver].
  case_bool_decide; simpl; naive_solver.
Qed.

Lemma env_or_default var d : env_or env var d = default d (env var).
Proof. unfold env_or. by destruct (env var). Qed.
Lemma env_i64_default var d : env_i64_or env var d = default d (env var ≫= parse_i64).
Proof. unfold env_i64_or. by destruct (env var ≫= parse_i64). Qed.

Lemma idp_config_Ok c : idp_config env = Ok c ↔ idp_environment c.
Proof.
  unfold idp_config, require_env. rewrite !env_or_default, !env_i64_default. split.
  - intros Hc. ok_inv.
    repeat match goal with
    | Hx : some_or_exit _ = Ok _ |- _ => apply some_or_exit_Ok in Hx
    | Hx : some_or_panic _ = Ok _ |- _ => apply some_or_panic_Ok in Hx
    | Hx : or_exit _ = Ok _ |- _ => apply or_exit_Ok, accept_verifying_key_Ok in Hx as (? & ? & ->)
    end. simplify_eq. constructor; simpl; eauto 10.
  - intros [(hex & kid & raw & E1 & E2 & E3 & E4 & E5 & E6) Hg Hh (R1 & R2 & R3 & R4 & R5 & R6)
      (D1 & D2 & D3 & D4) [T1 T2]].
    rewrite E1, E2. cbn [some_or_exit ok_or res_bind]. rewrite E3. cbn [some_or_exit ok_or res_bind].
    rewrite (proj2 (accept_verifying_key_Ok kid raw _)) by done.
    cbn [or_exit map_err res_bind]. rewrite Hg, Hh. cbn [some_or_panic res_bind].
    rewrite R1, R2, R3, R4, R5, R6. cbn [some_or_exit ok_or res_bind].
    rewrite <- D1, <- D2, <- D3, <- D4, <- T1, <- T2. destruct c as [????????? st]. simpl in *. subst. by destruct st.
Qed.

(** An execution up to the server, call by call. *)
Ltac stops_inv H :=
  lazymatch type of H with
  | stops_at (and_then (obtain _ _) _) _ _ =>
      let x := fresh "x" in let a := fresh "a" in let tr := fresh "tr" in let Hx := fresh "Hx" in
      apply stops_obtain_then in H as [[_ ?]|(x & a & tr & -> & Hx & H)]; [done|]
  | stops_at (and_then (Ret _) _) _ _ =>
      let a := fresh "a" in let Ha := fresh "Ha" in apply stops_ret_then in H as (a & Ha & H)
  | stops_at (obtain _ _) _ _ => apply stops_obtain in H as [-> H]
  end.
Ltac stops_make :=
  lazymatch goal with
  | |- stops_at (and_then (obtain _ _) _) _ _ =>
      apply stops_obtain_then; right; do 3 eexists; split_and!; [reflexivity|..]
  | |- stops_at (and_then (Ret _) _) _ _ => apply stops_ret_then; eexists; split
  | |- stops_at (obtain _ _) _ _ => by apply stops_obtain
  end.

Lemma idp_serves tr g v h st a e :
  stops_at (idp_main env) tr (ServeIdp g v h st a e) ↔ idp_started tr g v h st a e.
Proof.
  unfold idp_main. split.
  - intros Hr. do 8 stops_inv Hr. apply idp_config_Ok in Ha.
    repeat match goal with
    | Hx : or_exit _ = Ok _ |- _ => apply or_exit_Ok in Hx as ->
    | Hx : expect _ = Ok _ |- _ => apply expect_Ok' in Hx as ->
    | u : unit |- _ => destruct u
    end. simplify_eq. by exists a0.
  - intros (c & Hc & -> & -> & -> & -> & ->). apply idp_config_Ok in Hc.
    stops_make; [exact Hc|]. do 6 (stops_make; [done|]). stops_make.
Qed.

Lemma sealer_serves tr socket s :
  stops_at (sealer_main env) tr (ServeSealer socket s) ↔ sealer_started tr socket s.
Proof.
  unfold sealer_main, env_path, require_env. rewrite !env_or_default. split.
  - intros Hr. cbv zeta in Hr. do 6 stops_inv Hr.
    apply some_or_exit_Ok in Ha, Ha0. apply or_exit_Ok in Hx as ->. apply or_exit_Ok in Hx1 as ->.
    destruct a3. simplify_eq. by exists a, x0.
  - intros (pin & x & Hp & Hs & ->). cbv zeta.
    stops_make; [by apply some_or_exit_Ok|]. stops_make; [by apply some_or_exit_Ok|].
    do 3 (stops_make; [done|]). apply stops_obtain. by destruct s.
Qed.

Lemma policy_serves tr addr engine :
  stops_at (policy_main env) tr (ServePolicy addr engine) ↔ policy_started tr addr engine.
Proof.
  unfold policy_main, env_path, require_env. rewrite !env_or_default. split.
  - intros Hr. cbv zeta in Hr. do 6 stops_inv Hr.
    apply some_or_exit_Ok in Ha. apply some_or_panic_Ok in Ha0.
    apply or_exit_Ok in Hx as ->. apply or_exit_Ok in Hx0 as ->. simplify_eq.
    apply (proj1 (expect_Ok' _ _)) in Ha1. unfold PolicyEngine.new in Ha1. ok_inv.
    simplify_eq. by exists a0.
  - intros (pin & Hp & Haddr & Hk & ->). cbv zeta.
    stops_make; [done|]. stops_make; [by apply some_or_exit_Ok|]. stops_make; [done|].
    stops_make; [by apply some_or_panic_Ok|].
    stops_make; [|apply stops_obtain; split; [done|reflexivity]].
    unfold PolicyEngine.serve, PolicyEngine.new. rewrite Hk. by destruct engine.
Qed.
End specification.

(** A process ends with status 0 only after its server ended well; else with status 1 or a
    panic. *)
Definition ends_well (tr : start_trace) (r : res unit Z) : Prop :=
  match r with Ok _ => served tr | Err n => n = 1 | Panic => True end.
Abbreviation ends p past :=
  (wp (Σ := start_signature) (λ _ _, True) (λ _ _, True) p past ends_well).

(** Failures have status 1. *)
Definition status_1 {A} (r : res A Z) : Prop := ∀ n, r = Err n → n = 1.

Lemma ends_obtain_then {A} c (f : start_answer c → res A Z) (k : A → prog (res unit Z)) past :
  (∀ x, status_1 (f x)) → (∀ a tr, ends (k a) tr) → ends (do! a := obtain c f in k a) past.
Proof.
  intros Hf Hk. split; [done|]. intros x _. specialize (Hf x). simpl.
  destruct (f x); [apply Hk|by apply Hf|done].
Qed.
Lemma ends_ret_then {A} (r : res A Z) (k : A → prog (res unit Z)) past :
  status_1 r → (∀ a, ends (k a) past) → ends (do! a := Ret r in k a) past.
Proof. intros Hr Hk. destruct r; [apply Hk|by apply Hr|done]. Qed.
Lemma ends_server c (f : start_answer c → res unit Z) past :
  match c with ServeIdp _ _ _ _ _ _ | ServeSealer _ _ | ServePolicy _ _ => True | _ => False end →
  (∀ x, status_1 (f x)) → ends (obtain c f) past.
Proof.
  intros Hc Hf. split; [done|]. intros x _. specialize (Hf x). simpl.
  destruct (f x) as [[]|e|]; [by exists past, c, x|by apply Hf|done].
Qed.

Lemma status_1_or_exit {A E} (r : res A E) : status_1 (or_exit r).
Proof. destruct r; intros n; simpl; by intros [=]. Qed.
Lemma status_1_expect {A E} (r : res A E) : status_1 (expect r).
Proof. by destruct r. Qed.
Lemma status_1_some_or_exit {A} (o : option A) : status_1 (some_or_exit o).
Proof. destruct o; intros n; simpl; by intros [=]. Qed.
Lemma status_1_some_or_panic {A} (o : option A) : status_1 (some_or_panic o).
Proof. by destruct o. Qed.
Lemma status_1_bind {A B} (r : res A Z) (f : A → res B Z) :
  status_1 r → (∀ a, status_1 (f a)) → status_1 (res_bind r f).
Proof. destruct r; intros Hr Hf n; [apply Hf| |done]. intros [= <-]. by apply Hr. Qed.

Ltac status_tac :=
  first [ apply status_1_or_exit | apply status_1_expect | apply status_1_some_or_exit
        | apply status_1_some_or_panic | done ].
Ltac ends_tac :=
  repeat first
  [ apply ends_server; [exact I|intros; status_tac]
  | apply ends_obtain_then; [intros; status_tac|intros ? ?]
  | apply ends_ret_then; [status_tac|intros ?] ].

Lemma idp_config_status env : status_1 (idp_config env).
Proof. unfold idp_config, require_env. repeat (apply status_1_bind; [status_tac|intros ?]). done. Qed.

Lemma mains_end env m :
  m ∈ [idp_main env; sealer_main env; policy_main env] → ends m [].
Proof.
  rewrite !elem_of_cons, elem_of_nil. intros [->|[->|[->|[]]]].
  - unfold idp_main. apply ends_ret_then; [apply idp_config_status|intros c]. ends_tac.
  - unfold sealer_main, require_env. cbv zeta. ends_tac.
  - unfold policy_main, require_env. cbv zeta. ends_tac.
Qed.

(** C26. The services start closed.  Each process comes to serve exactly when every variable
    it requires is set (the PIN among them, which has no default), its addresses and its
    key are accepted, and every resource was obtained, once and in order: corpus, sealers,
    connections, sockets, with the settings that the environment names.  Otherwise it ends
    with status 1 or a panic: status 0 comes only after a server that ended well. *)
Theorem services_start_closed (env : string → option string) (tr : start_trace) :
  (∀ g v h st a e, stops_at (idp_main env) tr (ServeIdp g v h st a e) ↔ idp_started env tr g v h st a e) ∧
  (∀ socket s, stops_at (sealer_main env) tr (ServeSealer socket s) ↔ sealer_started env tr socket s) ∧
  (∀ addr engine,
     stops_at (policy_main env) tr (ServePolicy addr engine) ↔ policy_started env tr addr engine) ∧
  (∀ m r, m ∈ [idp_main env; sealer_main env; policy_main env] → run m tr (Ret r) → ends_well tr r).
Proof.
  split_and!.
  - intros. apply idp_serves.
  - intros. apply sealer_serves.
  - intros. apply policy_serves.
  - intros m r Hm Hr. apply mains_end in Hm. eapply wp_run in Hm; [|exact Hr|done]. exact Hm.
Qed.
End startup.

(** ** A concrete start *)

Lemma hex_decode_same s : hex_decode s = Common.hex_decode s.
Proof. unfold hex_decode, Common.hex_decode. by rewrite <- len_as_bytes. Qed.

Fixpoint lookup_var (l : list (string * string)) (var : string) : option string :=
  match l with
  | [] => None
  | (k, v) :: l' => if String.eqb k var then Some v else lookup_var l' var
  end.

(** The defaults where there are some, and a duration that is no number. *)
Definition ref_vars : list (string * string) := [
  ("ZS_IDP_VERIFYING_KEY_HEX", Common.hex_encode (u8_of 4 :: replicate 64 (u8_of 7)));
  ("ZS_IDP_VERIFYING_KEY_ID", "0123456789abcdef");
  ("ZS_IDP_IDENTITY_DATABASE_URL", "postgres://identity_app@db/zs");
  ("ZS_IDP_AUDIT_DATABASE_URL", "postgres://audit_writer@db/zs");
  ("SOFTHSM2_PIN", "1234"); ("ZS_IDP_RP_ID", "idp.example");
  ("ZS_IDP_ORIGIN", "https://idp.example"); ("ZS_IDP_ASSERTION_AUDIENCE", "policy-engine");
  ("ZS_IDP_CHALLENGE_TTL_SECONDS", "5m"); ("ZS_IDP_ASSERTION_TTL_SECONDS", "300")].
Definition ref_env : string → option string := lookup_var ref_vars.

Definition ref_idp_config : IdpConfig := {|
  c_verifying_key := {| avk_key_id := "0123456789abcdef"; avk_raw := u8_of 4 :: replicate 64 (u8_of 7) |};
  c_grpc_addr := V4 [127; 0; 0; 1] 50062; c_http_addr := V4 [127; 0; 0; 1] 50063;
  c_identity_database_url := "postgres://identity_app@db/zs";
  c_audit_database_url := "postgres://audit_writer@db/zs";
  c_hsm_module_path := "/usr/lib/softhsm/libsofthsm2.so"; c_hsm_pin := "1234";
  c_assertion_key_label := "zs-identity-assertion-v1"; c_audit_key_label := "zs-audit-seal-v1";
  c_state := {| IdpHttp.rp_id := "idp.example"; st_origin := "https://idp.example";
                st_authority_domain := "identity-provider"; st_audience := "policy-engine";
                IdpHttp.challenge_ttl_seconds := 120; IdpHttp.assertion_ttl_seconds := 300 |} |}.

Lemma ref_idp_environment : idp_environment ref_env ref_idp_config.
Proof.
  constructor.
  - exists (Common.hex_encode (u8_of 4 :: replicate 64 (u8_of 7))), "0123456789abcdef",
      (u8_of 4 :: replicate 64 (u8_of 7)).
    split; [reflexivity|]. split; [reflexivity|].
    split; [rewrite hex_decode_same; apply hex_decode_encode|]. split_and!; reflexivity.
  - reflexivity.
  - reflexivity.
  - split_and!; reflexivity.
  - split_and!; reflexivity.
  - split; reflexivity.
Qed.

#[local] Instance ref_start_fs : Fs := ref_fs [].

Definition ref_start_calls : list (event (Σ := start_signature (P := nat))) :=
  let c := ref_idp_config in
  [did NewRuntime (Ok tt);
   did (OpenAssertionSealer (assertion_settings c)) (Ok IdentityAssertion.ref_sealer);
   did (OpenAuditSealer (audit_settings (c_hsm_module_path c) (c_hsm_pin c) (c_audit_key_label c)))
     (Ok ref_audit_sealer);
   did (ConnectIdentity (c_identity_database_url c)) (Ok tt);
   did (ConnectAudit (c_audit_database_url c)) (Ok tt); did (BindTcp (c_http_addr c)) (Ok tt)].

(** A start, whose duration "5m" was read as 120 seconds, and one without variables. *)
Lemma services_start_closed_witness :
  stops_at (idp_main ref_env) ref_start_calls
    (ServeIdp (V4 [127; 0; 0; 1] 50062) {| verifier_key := c_verifying_key ref_idp_config |}
       (V4 [127; 0; 0; 1] 50063) (c_state ref_idp_config) IdentityAssertion.ref_sealer ref_audit_sealer) ∧
  IdpHttp.challenge_ttl_seconds (c_state ref_idp_config) = 120 ∧
  ends_well (P := nat) [] (Err 1).
Proof.
  split; [|split; [reflexivity|]].
  - apply (services_start_closed (P := nat) ref_env). exists ref_idp_config.
    split; [exact ref_idp_environment|]. split_and!; reflexivity.
  - apply (proj2 (proj2 (proj2 (services_start_closed (P := nat) (λ _, None) [])))
      (idp_main (λ _, None))); [left|]. constructor.
Defined.

(** A duration that overflows the clock is accepted too: no login could answer. *)
Example overflowing_ttl :
  parse_i64 "9223372036854775807" = Some i64_max ∧
  rfc3339_now_and_after (E := ApiError) 1784021400 i64_max = Panic.
Proof. split; reflexivity. Qed.
