(* ===== verification/EventContract.v ===== *)
(** * [contracts/events/audit-event.schema.json]: the contract of audit events

    The contract is a JSON Schema.  The keywords it uses are the type [schema], their meaning
    the function [valid], and the file itself the value [audit_event_schema].  The theorem:
    what [audit-sealer] seals is a document of the contract, but for one case. *)

From S2P Require Import Prelude.
From S2P Require Import Json.
From S2P Require Import Serde.
From S2P Require Import JsonCodec.
From S2P Require Import Aws.
From S2P Require Import Signer.
From S2P Require Import Common.
From S2P Require Import Suite.
From S2P Require Import Calendar.
From S2P Require Import PolicyProto.
From S2P Require Import AuditProto.
From S2P Require Import IdentityAssertion.
From S2P Require Import AuditSeal.
From S2P Require Import AuditSealerApp.

(** ** JSON Schema: the keywords of the contract *)

Inductive string_keyword :=
| Enum (values : list string)
(** the patterns [^[0-9a-f]{n}$] and [^[0-9a-f]+$] *)
| LowerHex (n : Z)
| LowerHexes
| FormatUuid
| FormatDateTime
| MaxLength (n : Z).

Inductive schema :=
| Const (n : Z)
| Str (keywords : list string_keyword)
| Int (minimum : Z)
| Arr (min_items : Z) (items : schema)
(** [additionalProperties] is false everywhere in the contract *)
| Obj (required : list string) (properties : list (string * schema)).

Definition is_lower_hex (b : u8) : bool := is_ascii_digit b || between 97 (u8_val b) 102.

(** [n] decimal digits from position [i]. *)
Definition field (bs : bytes) (i n : nat) : Z := dec_value (take n (drop i bs)).

(** An RFC 3339 [date-time] in UTC and whole seconds, the only form the code writes; leap
    seconds are left out. *)
Definition date_time (s : string) : bool :=
  let bs := as_bytes s in
  timestamp_ok s && between 1 (field bs 5 2) 12 &&
  between 1 (field bs 8 2) (days_in_month (field bs 0 4) (field bs 5 2)) &&
  (field bs 11 2 <? 24) && (field bs 14 2 <? 60) && (field bs 17 2 <? 60).

(** Lengths count characters: the bytes that do not continue one. *)
Definition char_count (s : string) : Z :=
  len (filter (λ b, between 128 (u8_val b) 191 = false) (as_bytes s)).

Definition satisfies (s : string) (k : string_keyword) : bool :=
  match k with
  | Enum values => bool_decide (s ∈ values)
  | LowerHex n => (str_len s =? n) && forallb is_lower_hex (as_bytes s)
  | LowerHexes => negb (str_len s =? 0) && forallb is_lower_hex (as_bytes s)
  | FormatUuid => uuid_ok false s
  | FormatDateTime => date_time s
  | MaxLength n => char_count s <=? n
  end.

Fixpoint valid (v : value) (s : schema) : bool :=
  match s, v with
  | Const n, Number (PosInt m) => m =? n
  | Str keywords, VString t => forallb (satisfies t) keywords
  | Int minimum, Number (PosInt n) => minimum <=? n
  | Int minimum, Number (NegInt n) => minimum <=? n
  | Arr min_items items, Array l => (min_items <=? len l) && forallb (λ x, valid x items) l
  | Obj required properties, Object m =>
      forallb (λ k, bool_decide (k ∈ m.*1)) required &&
      forallb (λ kv, match map_get kv.1 properties with Some s' => valid kv.2 s' | None => false end) m
  | _, _ => false
  end.

(** ** The contract *)

Definition actor_schema : schema :=
  Obj ["subject_id"; "kind"]
    [("subject_id", Str []); ("kind", Str [Enum ["human"; "workload"; "system"]]);
     ("aal", Str [Enum ["AAL1"; "AAL2"; "AAL3"]]); ("auth_method", Str [])].

Definition target_schema : schema := Obj [] [("type", Str []); ("id", Str [])].

Definition decision_schema : schema :=
  Obj ["request_id"; "decision_hash"; "policy_version"]
    [("request_id", Str [FormatUuid]); ("decision_hash", Str [LowerHex 64]);
     ("policy_version", Str []); ("reasons", Arr 0 (Str []));
     ("granted_ttl_seconds", Int 0); ("decision_signature", Str [LowerHexes]);
     ("decision_signature_key_id", Str [])].

Definition context_schema : schema :=
  Obj [] [("source_network", Str []); ("ticket_ref", Str []); ("justification", Str [MaxLength 512])].

Definition component_schema : schema :=
  Obj ["component"; "value"]
    [("component", Str []); ("value", Str [LowerHexes]); ("key_id", Str [])].

Definition signature_schema : schema :=
  Obj ["suite"; "components"]
    [("suite", Str [Enum ["audit-seal/v1"; "audit-seal/v2"]]); ("components", Arr 1 component_schema)].

Definition event_types : list string :=
  ["authenticator.registered"; "authenticator.revoked"; "authentication.attempted";
   "authentication.succeeded"; "authentication.failed"; "access.requested"; "access.approved";
   "access.denied"; "policy.decided"; "credential.issued"; "credential.expired";
   "credential.revoked"; "policy.modified"; "quorum.operation"; "recovery.initiated";
   "audit.chain_verified"].

Definition event_properties : list (string * schema) :=
  [("schema_version", Const 1); ("event_id", Str [FormatUuid]); ("sequence", Int 0);
   ("occurred_at", Str [FormatDateTime]); ("authority_domain", Str []);
   ("event_type", Str [Enum event_types]); ("actor", actor_schema); ("target", target_schema);
   ("outcome", Str [Enum ["success"; "denied"; "error"]]); ("decision", decision_schema);
   ("context", context_schema); ("prev_hash", Str [LowerHex 64]); ("signature", signature_schema)].

Definition audit_event_schema : schema :=
  Obj ["schema_version"; "event_id"; "sequence"; "occurred_at"; "authority_domain"; "event_type";
       "actor"; "outcome"; "prev_hash"; "signature"] event_properties.

Definition conforms (v : value) : bool := valid v audit_event_schema.

(** ** Lemmas: validity and the order of members *)

Lemma forallb_perm {A} (f : A → bool) l1 l2 : l1 ≡ₚ l2 → forallb f l1 = forallb f l2.
Proof. induction 1 as [|x l l' _ IH|x y l|l1 l2 l3 _ IH1 _ IH2]; simpl; try congruence. by destruct (f x), (f y). Qed.

Lemma forallb_ext_Forall {A} (f g : A → bool) l : Forall (λ x, f x = g x) l → forallb f l = forallb g l.
Proof. induction 1 as [|x l Hx _ IH]; simpl; [done|]. by rewrite Hx, IH. Qed.

Lemma forallb_map' {A B} (f : B → bool) (g : A → B) l : forallb f (map g l) = forallb (λ x, f (g x)) l.
Proof. induction l as [|x l IH]; simpl; [done|]. by rewrite IH. Qed.

(** Sorting the members changes nothing. *)
Lemma valid_canon v s : valid (canon v) s = valid v s.
Proof.
  revert s. induction v as [|b|n|t|l IH|m IH] using value_nested_ind; intros s; try done.
  - destruct s as [| | |min items|]; try done. simpl. f_equal.
    + unfold len. by rewrite length_map.
    + rewrite forallb_map'. apply forallb_ext_Forall. eapply Forall_impl; [exact IH|]. auto.
  - destruct s as [| | | |required properties]; try done. simpl.
    pose proof (merge_sort_Permutation key_le (map (λ kv, (kv.1, canon kv.2)) m)) as Hp. f_equal.
    + apply forallb_ext_Forall, Forall_forall. intros k _. apply bool_decide_ext.
      by rewrite Hp, fmap_canon_keys.
    + rewrite (forallb_perm _ _ _ Hp), forallb_map'. apply forallb_ext_Forall.
      eapply Forall_impl; [exact IH|]. intros [k x] Hx. simpl in *. by destruct (map_get k properties).
Qed.

(** ** Lemmas: documents built by insertion *)

(** Every member is allowed and has its value allowed. *)
Definition fits (properties : list (string * schema)) (m : list (string * value)) : Prop :=
  Forall (λ kv, ∃ s, map_get kv.1 properties = Some s ∧ valid kv.2 s = true) m.

Lemma valid_Obj required properties m :
  valid (Object m) (Obj required properties) = true ↔
  (∀ k, k ∈ required → k ∈ m.*1) ∧ fits properties m.
Proof.
  simpl. rewrite andb_true_iff, !forallb_forall. unfold fits. rewrite Forall_forall.
  setoid_rewrite <- list_elem_of_In. setoid_rewrite bool_decide_eq_true. f_equiv.
  split; intros Hm kv Hkv; specialize (Hm kv Hkv).
  - destruct (map_get kv.1 properties) as [s|]; [by exists s|done].
  - by destruct Hm as (s & -> & ?).
Qed.

Lemma fits_nil ps : fits ps [].
Proof. constructor. Qed.
Lemma fits_cons ps k v m s : map_get k ps = Some s → valid v s = true → fits ps m → fits ps ((k, v) :: m).
Proof. constructor; [by exists s|done]. Qed.
Lemma fits_insert ps k v m s :
  map_get k ps = Some s → valid v s = true → fits ps m → fits ps (map_insert k v m).
Proof.
  intros Hk Hv. induction 1 as [|[k' v'] m Hk' Hm IH]; simpl; [constructor; [by exists s|constructor]|].
  case_bool_decide; subst; constructor; [by exists s|done|done|done].
Qed.
Lemma fits_insert_opt ps k o m s :
  map_get k ps = Some s → (∀ v, o = Some v → valid v s = true) → fits ps m → fits ps (map_insert_opt k o m).
Proof. intros Hk Hv Hm. destruct o; simpl; [eapply fits_insert; eauto|done]. Qed.
Lemma fits_get ps m k v s :
  fits ps m → map_get k m = Some v → map_get k ps = Some s → valid v s = true.
Proof.
  unfold fits. rewrite Forall_forall. intros Hm Hv Hs. apply map_get_elem_of in Hv.
  destruct (Hm _ Hv) as (s' & Hs' & ?). simpl in *. congruence.
Qed.

Lemma insert_key {A} k j (v : A) m : k ∈ (map_insert j v m).*1 ↔ k = j ∨ k ∈ m.*1.
Proof. rewrite map_insert_keys. case_bool_decide; set_solver. Qed.
Lemma insert_opt_key {A} k j (o : option A) m : k ∈ m.*1 → k ∈ (map_insert_opt j o m).*1.
Proof. destruct o; simpl; [rewrite insert_key; auto|done]. Qed.

(** A required member, found among the insertions. *)
Ltac find_key_tac :=
  repeat first
    [ apply insert_key; left; reflexivity
    | apply insert_key; right
    | apply insert_opt_key ];
  try (apply (bool_decide_unpack _); vm_compute; exact I).
(** One goal per inserted member: its value is valid. *)
Ltac fits_tac :=
  repeat first
    [ eapply fits_insert; [reflexivity| |]
    | eapply fits_insert_opt; [reflexivity|intros ? (? & ? & ->)%fmap_Some|]
    | eapply fits_cons; [reflexivity| |]
    | apply fits_nil ];
  try reflexivity.

(** ** Lemmas: the texts the sealer writes *)

Lemma lower_hex_encode bs : forallb is_lower_hex (as_bytes (hex_encode bs)) = true.
Proof.
  unfold hex_encode. rewrite as_bytes_of. induction bs as [|b bs IH]; [done|]. simpl. rewrite IH.
  clear. by destruct b as [[][][][][][][][]].
Qed.
Lemma valid_hex32 bs : len bs = 32 → valid (VString (hex_encode bs)) (Str [LowerHex 64]) = true.
Proof. intros Hl. simpl. by rewrite str_len_hex_encode, Hl, lower_hex_encode. Qed.
Lemma valid_hexes bs : valid (VString (hex_encode bs)) (Str [LowerHexes]) = true ↔ bs ≠ [].
Proof.
  simpl. rewrite str_len_hex_encode, lower_hex_encode, !andb_true_r. destruct bs as [|b bs]; [done|].
  rewrite len_cons, (proj2 (Z.eqb_neq _ 0)) by (pose proof (len_nonneg bs); lia). done.
Qed.
Lemma valid_any t : valid (VString t) (Str []) = true.
Proof. done. Qed.
Lemma valid_nonneg n : 0 ≤ n → valid (jint n) (Int 0) = true.
Proof. intros Hn. unfold jint. rewrite (proj2 (Z.ltb_ge n 0)) by done. exact (proj2 (Z.leb_le 0 n) Hn). Qed.
Lemma valid_strings l : valid (jstrings l) (Arr 0 (Str [])) = true.
Proof.
  unfold jstrings. cbn [valid]. rewrite (proj2 (Z.leb_le 0 _)) by apply len_nonneg.
  by induction l.
Qed.
Lemma uuid_ok_weaken v7 s : uuid_ok v7 s = true → uuid_ok false s = true.
Proof.
  unfold uuid_ok. cbv zeta. destruct (_ && forallb _ uuid_dashes); [|by rewrite andb_false_r].
  intros [-> _]%andb_true_iff. done.
Qed.
Lemma valid_uuid {v7} (u : uuid v7) : valid (VString (uuid_str u)) (Str [FormatUuid]) = true.
Proof. cbn [valid forallb satisfies]. by rewrite (uuid_ok_weaken v7) by apply uuid_str_ok. Qed.
Lemma char_count_le s : char_count s ≤ str_len s.
Proof. unfold char_count. rewrite <- len_as_bytes. unfold len. apply inj_le, length_filter. Qed.

(** The dates of the service are calendar dates. *)
Lemma date_time_rfc3339 s : four_digit_years s → date_time (Calendar.rfc3339_from_seconds s) = true.
Proof.
  intros Hy. unfold date_time. rewrite (proj2 (rfc3339_timestamp_iff s) Hy). revert Hy.
  destruct (rfc3339_fields s) as (y & m & d & h & mi & se & -> & Hv & Hh & Hmi & Hse & ->).
  rewrite four_digit_years_iff by done. intros Hy.
  pose proof (format_rfc3339_digits _ _ _ _ _ _ Hy Hv Hh Hmi Hse) as Hf.
  rewrite as_bytes_of. unfold format_rfc3339.
  repeat (apply Forall_cons in Hf as [(? & ? & ?) Hf]; cbn [fst snd] in * ).
  destruct (fmt_int_pad 4 y) as [|y1 [|y2 [|y3 [|y4 [|]]]]]; try done.
  destruct (fmt_int_pad 2 m) as [|m1 [|m2 [|]]]; try done.
  destruct (fmt_int_pad 2 d) as [|d1 [|d2 [|]]]; try done.
  destruct (fmt_int_pad 2 h) as [|h1 [|h2 [|]]]; try done.
  destruct (fmt_int_pad 2 mi) as [|i1 [|i2 [|]]]; try done.
  destruct (fmt_int_pad 2 se) as [|s1 [|s2 [|]]]; try done.
  unfold field. cbn [app take drop]. destruct Hv as [Hm Hd].
  repeat match goal with H : dec_value ?l = _ |- context [dec_value ?l] => rewrite H end.
  unfold between. lia.
Qed.

(** ** Lemmas: the members the sealer writes *)

Create HintDb contract.
#[local] Hint Resolve valid_hex32 valid_uuid valid_strings valid_any : contract.

(** [satisfies] stays folded in the goals of [fits_tac]. *)
#[local] Arguments satisfies : simpl never.

Lemma actor_valid a : valid (actor_value a) actor_schema = true.
Proof.
  apply valid_Obj. split; [apply (Forall_forall (λ k, k ∈ _)); repeat constructor; find_key_tac|].
  fits_tac; [by destruct (actor_aal a) as [[]|]; simplify_eq | by destruct (actor_kind a)].
Qed.
Lemma target_valid t : valid (target_value t) target_schema = true.
Proof. apply valid_Obj. split; [by intros k ?%not_elem_of_nil|]. fits_tac. Qed.
Lemma context_valid c : valid (context_value c) context_schema = true.
Proof.
  apply valid_Obj. split; [by intros k ?%not_elem_of_nil|]. fits_tac.
  change (satisfies (as_str x) (MaxLength 512) && true = true). rewrite andb_true_r. apply Z.leb_le. etrans; [apply char_count_le|].
  apply ascii_text_len.
Qed.
Lemma decision_valid d :
  typed_decision d →
  valid (decision_value d) decision_schema = true ↔ decision_signature d ≠ Some [].
Proof.
  intros [Hh Ht]. unfold decision_value, decision_schema. rewrite valid_Obj. split.
  - intros [_ Hf] He. rewrite He in Hf. eapply (fits_get _ _ "decision_signature" (VString "") (Str [LowerHexes])) in Hf; [done| |reflexivity].
    by destruct (granted_ttl_seconds d), (decision_signature_key_id d).
  - intros Hs. split; [apply (Forall_forall (λ k, k ∈ _)); repeat constructor; find_key_tac|].
    fits_tac; auto with contract.
    + apply valid_hexes. congruence.
    + apply valid_nonneg. unfold in_u32 in Ht. naive_solver.
Qed.
#[local] Hint Resolve actor_valid target_valid context_valid : contract.

Lemma signature_valid kid sig :
  sig ≠ [] →
  valid (signature_value SUITE_V1
    [{| component := "ecdsa-p256"; comp_key_id := kid; comp_value := hex_encode sig |}])
    signature_schema = true.
Proof.
  intros Hs%valid_hexes. unfold signature_value. cbn [map]. apply valid_Obj.
  split; [apply (Forall_forall (λ k, k ∈ _)); repeat constructor; find_key_tac|]. fits_tac.
  change (valid (component_json {| component := "ecdsa-p256"; comp_key_id := kid; comp_value := hex_encode sig |})
    component_schema && true = true).
  rewrite andb_true_r. apply valid_Obj.
  split; [apply (Forall_forall (λ k, k ∈ _)); repeat constructor; find_key_tac|]. by fits_tac.
Qed.

(** What is left to ask of the fields. *)
Definition contract_fields (f : AuditEventFields) : Prop :=
  date_time (ts_str (occurred_at f)) = true ∧
  ∀ d, decision f = Some d → decision_signature d ≠ Some [].

Lemma sealed_document_conforms f kid sig :
  typed_fields f → sig ≠ [] →
  conforms (Object (full_document (wire_of f kid (hex_encode sig)))) = true ↔ contract_fields f.
Proof.
  intros [Hp Hd] Hs. unfold conforms, audit_event_schema, full_document.
  rewrite <- unsigned_document_wire, valid_Obj. unfold unsigned_document. split.
  - intros [_ Hf]. split.
    + eapply (fits_get _ _ "occurred_at" (VString (ts_str (occurred_at f))) (Str [FormatDateTime])) in Hf;
        [| |reflexivity].
      * cbn [valid forallb] in Hf. by rewrite andb_true_r in Hf.
      * by destruct (target f), (context f), (decision f).
    + intros d Hfd. apply decision_valid; [by apply Hd|].
      eapply (fits_get _ _ "decision"); [exact Hf| |reflexivity].
      rewrite Hfd. by destruct (target f), (context f).
  - intros [Ht Hds]. split; [apply (Forall_forall (λ k, k ∈ _)); repeat constructor; find_key_tac|].
    fits_tac; auto with contract.
    + by apply signature_valid.
    + apply decision_valid; eauto.
    + by destruct (outcome f).
    + by destruct (event_type f).
    + cbn [valid forallb]. by rewrite andb_true_r.
    + apply valid_nonneg. destruct (sequence f) as [n Hn]. unfold between in Hn. simpl. lia.
Qed.

(** The bytes of a successful [seal], read as JSON. *)
Lemma sealed_event_conforms `{SerdeJsonLaws, AwsLc} {P} `{HsmSigner P} (self : AuditSealer P) p' f sealed pk :
  seal self f = (p', Ok sealed) → typed_fields f → signs_for (key self) pk →
  ∃ v, from_slice (bytes_of sealed) = Some v ∧ (conforms v = true ↔ contract_fields f).
Proof.
  intros Hseal Hty Hkey. rewrite event_seal_eq in Hseal. destruct (prepare self f); [|done|done].
  destruct (sign_digest _ _ _ _) as [p [s|e|]] eqn:Hs; simplify_eq. apply Hkey in Hs as [Hlen _].
  set (doc := Object (full_document (wire_of f (key_id self) (hex_encode (sig_bytes s))))).
  exists (canon doc). split.
  - apply (from_slice_to_vec (canon doc)).
    + by apply wf_canon, event_full_document_wf, wire_of_typed.
    + rewrite depth_canon. apply event_full_document_depth.
  - unfold conforms. rewrite valid_canon. apply sealed_document_conforms; [done|]. intros Hn. by rewrite Hn in Hlen.
Qed.

(** ** Theorem *)

(** C12. What the sealing service answers is an event of the contract: when the sealer's key
    answers to a verifying key, the bytes of every response parse, and the document they
    hold satisfies [audit-event.schema.json] (required members, no others, every
    enumeration, pattern, format, minimum and length), unless the decision of the request
    carries an empty signature, which the sealer copies into a text that the pattern of
    [decision_signature] refuses. *)
Theorem service_events_conform `{SerdeJsonLaws, AwsLc} {P} `{HsmSigner P}
    (self : SealerService P) p req p' resp pk
    (Httl : ∀ d n, sr_decision req = Some d → pd_granted_ttl_seconds d = Some n → in_u32 n)
    (Hkey : signs_for (key (sealer self)) pk)
    (Hresp : seal_handler self p req = (p', Ok resp)) :
  ∃ v, from_slice (sr_sealed_bytes resp) = Some v ∧
    (conforms v = true ↔ ∀ d, sr_decision req = Some d → pd_decision_signature d ≠ Some []).
Proof.
  rewrite seal_handler_eq in Hresp. destruct (fields_from_request req) as [f| |] eqn:Hf; [|done|done].
  apply fields_from_request_Ok in Hf as (Hph & Hdh & t & Ht & Hreq).
  destruct (seal _ f) as [p1 [sealed| |]] eqn:Hs; cbn [fst snd] in Hresp; simplify_eq.
  apply (sealed_event_conforms _ _ _ _ pk) in Hs as (v & Hv & Hc); [| |done].
  - exists v. split; [done|]. rewrite Hc. unfold contract_fields. cbn [sr_decision request_of].
    assert (date_time (ts_str (occurred_at f)) = true) as Hdate.
    { rewrite Ht, rfc3339_same. apply date_time_rfc3339, rfc3339_timestamp_iff.
      rewrite <- rfc3339_same, <- Ht. apply ts_ok. }
    destruct (decision f) as [d|]; simpl; naive_solver.
  - split; [done|]. intros d Hd. split; [by apply Hdh|]. intros n Hn.
    apply (Httl (proto_of_decision d) n); [|done]. cbn. by rewrite Hd.
Qed.

(** ** The theorem at a concrete input *)

Lemma service_events_conform_witness :
  ∃ v, from_slice (bytes_of ref_sealed_event) = Some v ∧ conforms v = true.
Proof.
  destruct (service_events_conform (new ref_audit_sealer) 0%nat ref_request 1%nat
    {| sr_sealed_bytes := bytes_of ref_sealed_event |} (ref_public_key (key ref_audit_sealer)))
    as (v & Hv & Hc).
  - intros d n [= <-] [= <-]. by cbv.
  - apply ref_signs_for.
  - rewrite seal_handler_eq, ref_request_fields. change (sealer_at _ _) with ref_audit_sealer.
    by rewrite ref_event_sealed.
  - exists v. split; [exact Hv|]. apply Hc. by intros d [= <-] [=].
Defined.
