(* ===== verification/SignatureText.v ===== *)
(** * The text of a signature, in the two suites whose bytes are hashed

    An assertion and an event carry their signature as a hexadecimal text, and their whole
    serialisation, that text included, is hashed (the digest in the login event, the link
    to the next event).  The verifiers compare the bytes they receive with the canonical
    form of the document they read, but decode the text without looking at the case of its
    letters.  The theorems say which other documents that lets through, and that a
    lower-case text, the one the contracts ask for, is unique. *)

From S2P Require Import Prelude.
From S2P Require Import Json.
From S2P Require Import Serde.
From S2P Require Import JsonCodec.
From S2P Require Import Aws.
From S2P Require Import Signer.
From S2P Require Import Common.
From S2P Require Import Suite.
From S2P Require Import IdentityAssertion.
From S2P Require Import AuditSeal.
From S2P Require Import EventContract.

(** ** Other texts of the same bytes *)

(** [str::to_ascii_uppercase] *)
Definition ascii_upper (b : u8) : u8 := if between 97 (u8_val b) 122 then u8_of (u8_val b - 32) else b.
Definition to_ascii_uppercase (s : string) : string := from_utf8_bytes (map ascii_upper (as_bytes s)).

(** The document with another text in its signature components. *)
Definition with_text (t : string) (c : WireSignatureComponent) : WireSignatureComponent :=
  {| component := component c; comp_key_id := comp_key_id c; comp_value := t |}.

Definition assertion_with_text (t : string) (doc : IdentityAssertion.WireDocument) :
    IdentityAssertion.WireDocument :=
  {| IdentityAssertion.w_schema_version := IdentityAssertion.w_schema_version doc;
     IdentityAssertion.w_suite := IdentityAssertion.w_suite doc;
     IdentityAssertion.w_authority_domain := IdentityAssertion.w_authority_domain doc;
     IdentityAssertion.w_subject_id := IdentityAssertion.w_subject_id doc;
     IdentityAssertion.w_aal := IdentityAssertion.w_aal doc;
     IdentityAssertion.w_auth_method := IdentityAssertion.w_auth_method doc;
     IdentityAssertion.w_audience := IdentityAssertion.w_audience doc;
     IdentityAssertion.w_issued_at := IdentityAssertion.w_issued_at doc;
     IdentityAssertion.w_expires_at := IdentityAssertion.w_expires_at doc;
     IdentityAssertion.w_audit_event_id := IdentityAssertion.w_audit_event_id doc;
     IdentityAssertion.w_signatures := with_text t <$> IdentityAssertion.w_signatures doc |}.

Definition event_with_text (t : string) (doc : WireDocument) : WireDocument :=
  {| w_schema_version := w_schema_version doc; w_event_id := w_event_id doc;
     w_sequence := w_sequence doc; w_occurred_at := w_occurred_at doc;
     w_authority_domain := w_authority_domain doc; w_event_type := w_event_type doc;
     w_actor := w_actor doc; w_target := w_target doc; w_outcome := w_outcome doc;
     w_context := w_context doc; w_decision := w_decision doc; w_prev_hash := w_prev_hash doc;
     w_signature := {| ws_suite := ws_suite (w_signature doc);
                       ws_components := with_text t <$> ws_components (w_signature doc) |} |}.

Definition assertion_bytes `{SerdeJson} (doc : IdentityAssertion.WireDocument) : bytes :=
  to_vec (canon (Object (IdentityAssertion.full_document doc))).
Definition event_bytes `{SerdeJson} (doc : WireDocument) : bytes :=
  to_vec (canon (Object (full_document doc))).

(** ** Lemmas: hexadecimal texts *)

Lemma hex_digit_upper b : is_ascii_hexdigit b = true →
  hex_digit_value (ascii_upper b) = hex_digit_value b ∧ is_ascii_hexdigit (ascii_upper b) = true.
Proof. by destruct b as [[][][][][][][][]]. Qed.


Lemma andb_true_iff_2 a b c : a && (b && c) = true ↔ a = true ∧ b = true ∧ c = true.
Proof. by rewrite !andb_true_iff. Qed.

Lemma pair_induction {A} (Q : list A → Prop) :
  Q [] → (∀ a, Q [a]) → (∀ a b l, Q l → Q (a :: b :: l)) → ∀ l, Q l.
Proof.
  intros H0 H1 H2 l. enough (Q l ∧ ∀ a, Q (a :: l)) by tauto.
  induction l as [|a l [IH1 IH2]]; auto.
Qed.

Lemma hex_pairs_upper l : forallb is_ascii_hexdigit l = true →
  hex_pairs (map ascii_upper l) = hex_pairs l ∧ forallb is_ascii_hexdigit (map ascii_upper l) = true.
Proof.
  induction l as [|a|a b l IH] using pair_induction; [done| |].
  - simpl. intros [Ha _]%andb_true_iff. by destruct (hex_digit_upper a Ha) as [_ ->].
  - cbn [forallb]. intros (Ha & Hb & Hl)%andb_true_iff_2. cbn [map hex_pairs forallb].
    destruct (hex_digit_upper a Ha) as [-> ->], (hex_digit_upper b Hb) as [-> ->], (IH Hl) as [-> ->]. done.
Qed.

(** Upper case decodes to the same bytes. *)
Lemma hex_decode_upper s bs : hex_decode s = Some bs → hex_decode (to_ascii_uppercase s) = Some bs.
Proof.
  unfold hex_decode, to_ascii_uppercase. rewrite as_bytes_of. unfold len at 2. rewrite length_map. fold (len (as_bytes s)).
  destruct (len (as_bytes s) mod 2 =? 0); [|done].
  destruct (forallb is_ascii_hexdigit (as_bytes s)) eqn:Hx; [|done].
  by destruct (hex_pairs_upper _ Hx) as [-> ->].
Qed.

Lemma lower_digit b x : is_lower_hex b = true → hex_digit_value b = Some x → 0 ≤ x < 16 ∧ digit x = b.
Proof. destruct b as [[][][][][][][][]]; try done; intros _ [= <-]; (split; [split; by vm_compute | reflexivity]). Qed.

Lemma hex_pairs_lower l bs :
  forallb is_lower_hex l = true → hex_pairs l = Some bs → l = concat (map hex_byte bs).
Proof.
  revert bs. induction l as [|a|a b l IH] using pair_induction; intros bs; [by intros _ [= <-]|done|].
  cbn [forallb hex_pairs]. intros (Ha & Hb & Hl)%andb_true_iff_2 Hd.
  destruct (hex_digit_value a) as [x|] eqn:Hx; [|done]. destruct (hex_digit_value b) as [y|] eqn:Hy; [|done].
  destruct (hex_pairs l) as [r|] eqn:Hr; simplify_option_eq.
  apply lower_digit in Hx as [Hx1 Hx2], Hy as [Hy1 Hy2]; [|done..].
  cbn [map concat]. rewrite <- (IH r) by done. unfold hex_byte. rewrite u8_val_of.
  rewrite (Z.mod_small (x * 16 + y) 256) by lia.
  rewrite Z.div_add_l, (Z.div_small y), Z.add_0_r by lia.
  rewrite Z.add_comm, Z.mod_add, Z.mod_small by lia. simpl. congruence.
Qed.

(** A text in lower case is the one [hex_encode] writes. *)
Lemma hex_decode_lower s bs :
  hex_decode s = Some bs ∧ forallb is_lower_hex (as_bytes s) = true ↔ s = hex_encode bs.
Proof.
  split.
  - unfold hex_decode. intros [Hd Hl]. destruct (_ || _); [done|]. apply hex_pairs_lower in Hd; [|done].
    apply as_bytes_inj. unfold hex_encode. by rewrite as_bytes_of.
  - intros ->. split; [apply hex_decode_encode | apply lower_hex_encode].
Qed.

Lemma hex_decode_plain s bs : hex_decode s = Some bs → plain_string s = true.
Proof.
  unfold hex_decode, plain_string. destruct (forallb is_ascii_hexdigit _) eqn:Hx; [|by rewrite orb_true_r].
  intros _. rewrite forallb_forall in *. intros b Hb. by apply hexdigit_plain, Hx.
Qed.

(** ** Lemmas: the documents *)

Section documents.
Context `{SerdeJsonLaws, AwsLc}.

(** Two texts of the same bytes have the same length. *)
Lemma len_component_text c t s :
  hex_decode (comp_value c) = Some s → hex_decode t = Some s →
  len (to_vec (component_json (with_text t c))) = len (to_vec (component_json c)).
Proof.
  intros Hc Ht. pose proof (hex_decode_plain _ _ Hc) as Hcp. pose proof (hex_decode_plain _ _ Ht) as Htp.
  apply hex_decode_len in Hc, Ht. unfold component_json.
  rewrite !len_to_vec_object by done. cbn [map sum_len fst snd]. rewrite !len_member_plain by done.
  cbn [component comp_key_id comp_value with_text]. rewrite (len_to_vec_plain t), (len_to_vec_plain (comp_value c)) by done.
  repeat match goal with |- context [len [?a; ?b; ?c]] => change (len [a; b; c]) with 3 end. lia.
Qed.

Lemma len_components_text c t s :
  hex_decode (comp_value c) = Some s → hex_decode t = Some s →
  len (to_vec (Array (map component_json [with_text t c]))) = len (to_vec (Array (map component_json [c]))).
Proof.
  intros Hc Ht. rewrite !to_vec_array. cbn [map join]. rewrite !len_cons, !len_app.
  by rewrite (len_component_text c t s).
Qed.

Lemma component_valid_text keys m c t s :
  hex_decode (comp_value c) = Some s → hex_decode t = Some s →
  component_valid keys m c → component_valid keys m (with_text t c).
Proof.
  intros Hc Ht (k & s' & Hk & Hs & Hv). exists k, s'. split_and!; [done| |done].
  cbn [comp_value with_text]. congruence.
Qed.

Lemma assertion_bytes_inj d1 d2 :
  IdentityAssertion.w_schema_version d1 = 1 → IdentityAssertion.w_schema_version d2 = 1 →
  assertion_bytes d1 = assertion_bytes d2 → d1 = d2.
Proof.
  intros H1' H2' Heq. apply to_vec_canon_inj in Heq.
  - apply (f_equal IdentityAssertion.de_WireDocument) in Heq.
    rewrite !de_full_document in Heq by (rewrite ?H1', ?H2'; by cbv). by injection Heq.
  - apply full_document_wf. rewrite H1'. by cbv.
  - apply full_document_wf. rewrite H2'. by cbv.
  - apply full_document_depth.
  - apply full_document_depth.
Qed.

Lemma event_bytes_inj d1 d2 : typed_wire d1 → typed_wire d2 → event_bytes d1 = event_bytes d2 → d1 = d2.
Proof.
  intros H1' H2' Heq. apply to_vec_canon_inj in Heq.
  - apply (f_equal de_WireDocument) in Heq. rewrite !event_de_full_document in Heq by done. by injection Heq.
  - by apply event_full_document_wf.
  - by apply event_full_document_wf.
  - apply event_full_document_depth.
  - apply event_full_document_depth.
Qed.

Lemma assertion_len_text doc c t s :
  IdentityAssertion.w_signatures doc = [c] → hex_decode (comp_value c) = Some s → hex_decode t = Some s →
  len (assertion_bytes (assertion_with_text t doc)) = len (assertion_bytes doc).
Proof.
  intros Hc Hs Ht. unfold assertion_bytes, IdentityAssertion.full_document.
  change (IdentityAssertion.unsigned_document_from_wire (assertion_with_text t doc))
    with (IdentityAssertion.unsigned_document_from_wire doc).
  cbn [IdentityAssertion.w_signatures assertion_with_text]. rewrite Hc. cbn [fmap list_fmap].
  assert ("signatures" ∉ (IdentityAssertion.unsigned_document_from_wire doc).*1)
    by (apply (bool_decide_unpack _); vm_compute; exact I).
  rewrite !len_canon_insert, !canon_components by done. by rewrite (len_components_text c t s).
Qed.

Lemma event_len_text doc c t s :
  ws_components (w_signature doc) = [c] → hex_decode (comp_value c) = Some s → hex_decode t = Some s →
  len (event_bytes (event_with_text t doc)) = len (event_bytes doc).
Proof.
  intros Hc Hs Ht. unfold event_bytes, full_document.
  change (unsigned_document_from_wire (event_with_text t doc)) with (unsigned_document_from_wire doc).
  destruct (unsigned_open doc) as [Hne Hnew]. rewrite !len_canon_insert by done.
  cbn [w_signature ws_suite ws_components event_with_text]. rewrite Hc. cbn [fmap list_fmap].
  unfold signature_value. rewrite !len_to_vec_canon by done. cbn [map sum_len fst snd].
  repeat match goal with |- context [canon (Array [component_json ?x])] =>
    change (canon (Array [component_json x])) with (canon (Array (map component_json [x]))) end.
  rewrite !len_member_plain, !canon_components by done. by rewrite (len_components_text c t s).
Qed.

(** Another text of the same signature: the verifier's answer is the same. *)
Lemma assertion_text_accepted keys bs policy doc c t s :
  IdentityAssertion.accepted keys bs policy doc → IdentityAssertion.w_signatures doc = [c] →
  hex_decode (comp_value c) = Some s → hex_decode t = Some s →
  IdentityAssertion.accepted keys (assertion_bytes (assertion_with_text t doc)) policy (assertion_with_text t doc).
Proof.
  intros [Hsz Hp Hsv Hsu Hcan (c' & Hc' & Hcn & Hval) Hdom Hw] Hc Hs Ht.
  constructor; try done; [| |].
  - rewrite (assertion_len_text doc c t s) by done. unfold assertion_bytes. by rewrite <- Hcan.
  - unfold assertion_bytes. rewrite from_slice_to_vec.
    + cbn [mbind option_bind]. apply de_full_document. cbn. rewrite Hsv. by cbv.
    + apply wf_canon, full_document_wf. cbn. rewrite Hsv. by cbv.
    + rewrite depth_canon. apply full_document_depth.
  - exists (with_text t c). cbn. rewrite Hc. assert (c' = c) as -> by congruence.
    split_and!; [done|done|]. by apply (component_valid_text _ _ _ _ s).
Qed.

Lemma event_text_accepted keys bs policy doc va c t s :
  accepted keys bs policy doc va → ws_components (w_signature doc) = [c] →
  hex_decode (comp_value c) = Some s → hex_decode t = Some s →
  accepted keys (event_bytes (event_with_text t doc)) policy (event_with_text t doc) va.
Proof.
  intros [Hsz Hp Hsv Hsu Het Hac Ho Hdec Hcan (c' & Hc' & Hcn & Hval) Hdom Hph Hr] Hc Hs Ht.
  assert (typed_wire (event_with_text t doc)) as Hw.
  { destruct (from_slice bs) as [v|]; [|done]. by apply (de_WireDocument_typed v doc). }
  constructor; try done; [| |].
  - rewrite (event_len_text doc c t s) by done. unfold event_bytes. by rewrite <- Hcan.
  - unfold event_bytes. rewrite from_slice_to_vec; [by apply event_de_full_document|by apply wf_canon, event_full_document_wf|].
    rewrite depth_canon. apply event_full_document_depth.
  - exists (with_text t c). cbn. rewrite Hc. assert (c' = c) as -> by congruence.
    split_and!; [done|done|]. by apply (component_valid_text _ _ _ _ s).
Qed.
End documents.

(** ** Theorem *)

(** [ser] writes a document with a given signature text: every other text of the bytes that
    [text] stands for is accepted and gives other bytes, upper case among them, but only
    one is in lower case. *)
Definition text_variants (accept : bytes → Prop) (ser : string → bytes) (text : string) : Prop :=
  ∃ s, hex_decode text = Some s ∧ hex_decode (to_ascii_uppercase text) = Some s ∧
    (∀ t, hex_decode t = Some s → accept (ser t) ∧ (ser t = ser text ↔ t = text)) ∧
    (∀ t, hex_decode t = Some s → forallb is_lower_hex (as_bytes t) = true ↔ t = hex_encode s).

Lemma text_variants_intro (accept : bytes → Prop) ser text s :
  hex_decode text = Some s →
  (∀ t, hex_decode t = Some s → accept (ser t)) → (∀ t, ser t = ser text → t = text) →
  text_variants accept ser text.
Proof.
  intros Hs Ha Hi. exists s. split_and!; [done|by apply hex_decode_upper| |].
  - intros t Ht. split; [by apply Ha|]. split; [apply Hi|by intros ->].
  - intros t Ht. rewrite <- hex_decode_lower. tauto.
Qed.

(** The bytes of an accepted document are not unique: whoever holds an accepted
    assertion or an accepted event can rewrite the letters of its signature in upper case (or
    in any mixture), and [verify] gives the same answer on the rewritten document, whose
    bytes, and so its digest, are different.  A verifier that asked for lower-case texts, as
    the contract of the events does, would leave one document for each signature. *)
Theorem signature_text_not_unique `{SerdeJsonLaws, AwsLc} keys bs :
  (∀ policy va, IdentityAssertion.verify keys bs policy = Ok va → ∃ doc c,
     from_slice bs ≫= IdentityAssertion.de_WireDocument = Some doc ∧
     IdentityAssertion.w_signatures doc = [c] ∧
     bs = assertion_bytes (assertion_with_text (comp_value c) doc) ∧
     text_variants (λ b, IdentityAssertion.verify keys b policy = Ok va)
       (λ t, assertion_bytes (assertion_with_text t doc)) (comp_value c)) ∧
  (∀ policy va, verify keys bs policy = Ok va → ∃ doc c,
     from_slice bs ≫= de_WireDocument = Some doc ∧ ws_components (w_signature doc) = [c] ∧
     bs = event_bytes (event_with_text (comp_value c) doc) ∧
     text_variants (λ b, verify keys b policy = Ok va)
       (λ t, event_bytes (event_with_text t doc)) (comp_value c)).
Proof.
  split; intros policy va Hv.
  - apply verify_sound in Hv as (doc & Hacc & ->). pose proof Hacc as [_ Hp Hsv _ Hcan (c & Hc & _ & (_ & s & _ & Hs & _)) _ _].
    exists doc, c. assert (assertion_with_text (comp_value c) doc = doc) as Hsame
      by (destruct doc, c; cbn in *; by rewrite Hc).
    split_and!; [done|done|by rewrite Hsame|]. apply (text_variants_intro _ _ _ s); [done| |].
    + intros t Ht. exact (verify_complete _ _ _ _ (assertion_text_accepted _ _ _ _ _ _ _ Hacc Hc Hs Ht)).
    + intros t Ht%assertion_bytes_inj; [|done..].
      apply (f_equal IdentityAssertion.w_signatures) in Ht. cbn in Ht. rewrite Hc in Ht. by injection Ht.
  - apply event_verify_sound in Hv as (doc & Hacc).
    pose proof Hacc as [_ Hp Hsv _ _ _ _ _ Hcan (c & Hc & _ & (_ & s & _ & Hs & _)) _ _ _].
    exists doc, c. assert (event_with_text (comp_value c) doc = doc) as Hsame
      by (destruct doc as [????????????[]], c; cbn in *; by rewrite Hc).
    assert (typed_wire doc) as Hw.
    { destruct (from_slice bs) as [v|]; [|done]. by apply (de_WireDocument_typed v doc). }
    split_and!; [done|done|by rewrite Hsame|]. apply (text_variants_intro _ _ _ s); [done| |].
    + intros t Ht. exact (event_verify_complete _ _ _ _ _ (event_text_accepted _ _ _ _ _ _ _ _ Hacc Hc Hs Ht)).
    + intros t Ht%event_bytes_inj; [|done..].
      apply (f_equal (λ d, ws_components (w_signature d))) in Ht. cbn in Ht. rewrite Hc in Ht. by injection Ht.
Qed.

(** ** The theorem at a concrete input *)

(** A signature with letters in its text: 64 bytes [0xab]. *)
Definition ref_letters : bytes := replicate 64 (u8_of 171).
Definition ref_text_doc : WireDocument :=
  wire_of ref_fields (key_id ref_audit_sealer) (hex_encode ref_letters).

Lemma ref_letters_upper : to_ascii_uppercase (hex_encode ref_letters) ≠ hex_encode ref_letters.
Proof. intros [=]. Qed.

Lemma signature_text_not_unique_witness :
  let aws := one_message_aws (fields_message ref_fields) in
  ∃ va bs, verify [ref_audit_key] bs ref_audit_policy = Ok va ∧
    verify [ref_audit_key] (event_bytes ref_text_doc) ref_audit_policy = Ok va ∧
    bs ≠ event_bytes ref_text_doc.
Proof.
  intros aws.
  assert (verify [ref_audit_key] (event_bytes ref_text_doc) ref_audit_policy =
          Ok (verified_fields ref_fields)) as Hv.
  { etrans; [apply (event_verify_genuine ref_fields ref_audit_key ref_letters)|].
    - apply ref_fields_typed.
    - done.
    - by vm_compute.
    - apply find_key_head.
    - by apply bool_decide_eq_true.
    - vm_compute. reflexivity. }
  destruct (signature_text_not_unique [ref_audit_key] (event_bytes ref_text_doc)) as [_ Hthm].
  destruct (Hthm _ _ Hv) as (doc & c & Hp & Hc & Hbs & s & Hs & Hup & Hall & _).
  destruct (Hall _ Hup) as [Hacc Hsame].
  exists (verified_fields ref_fields), (event_bytes (event_with_text (to_ascii_uppercase (comp_value c)) doc)).
  split; [exact Hacc|]. split; [exact Hv|]. rewrite Hbs. intros Heq%Hsame.
  pose proof (wire_of_typed ref_fields (key_id ref_audit_sealer) (hex_encode ref_letters) ref_fields_typed) as Hw.
  unfold event_bytes in Hp. rewrite from_slice_to_vec in Hp.
  - cbn [mbind option_bind] in Hp. rewrite event_de_full_document in Hp by exact Hw.
    injection Hp as <-. injection Hc as <-. exact (ref_letters_upper Heq).
  - by apply wf_canon, event_full_document_wf.
  - rewrite depth_canon. apply event_full_document_depth.
Defined.
