(* ===== verification/Evidence.v ===== *)
(** * From a decision to its event: the decision point and the audit sealer together

    A decision that [policy-engine] returns is written by its client into the [decision] of
    an audit event ([contracts/proto/audit/v1/sealing.proto]), which [audit-sealer] seals.
    The client is not Rust code: it appears as the relation [copied], what the contract says
    of the copy.  The theorems say what the sealed event proves of the decision to a third
    party who holds the two public keys, and which decisions cannot be written at all. *)

From S2P Require Import Prelude.
From S2P Require Import Json.
From S2P Require Import Serde.
From S2P Require Import JsonCodec.
From S2P Require Import Aws.
From S2P Require Import Signer.
From S2P Require Import Common.
From S2P Require Import Suite.
From S2P Require Import IdentityAssertion.
From S2P Require Import AuditSeal.
From S2P Require Import Calendar.
From S2P Require Import AuditProto.
From S2P Require Import AuditSealerApp.
From S2P Require Import DecisionSeal.
From S2P Require Import PolicyProto.
From S2P Require Import DecisionBinding.
From S2P Require Import Pdp.
From S2P Require Import PolicyEngine.

(** The copy of a decision into an event: hash, version, reasons, TTL, seal. *)
Record copied (d : ProtoDecision) (resp : DecisionResponse) : Prop := {
  copied_hash : pd_decision_hash d = decision_hash resp;
  copied_version : pd_policy_version d = policy_version resp;
  copied_reasons : pd_reasons d = reasons resp;
  copied_ttl : pd_granted_ttl_seconds d = seconds <$> max_ttl resp;
  copied_signature : pd_decision_signature d = Some (decision_signature resp);
  copied_key_id : pd_decision_signature_key_id d = Some (decision_signature_key_id resp);
}.

(** The fields of [decision-seal/v1] that a reader of the event can fill in, given what the
    event does not hold: the effect, the constraints and the date of the seal. *)
Definition offline_fields (wd : WireDecision) (hash : bytes) (allow : bool) (cs : list string)
    (t : Timestamp) : DecisionFields := {|
  DecisionSeal.request_id := ""; DecisionSeal.decision_hash := hash;
  DecisionSeal.policy_version := wd_policy_version wd; DecisionSeal.effect_allow := allow;
  DecisionSeal.reasons := wd_reasons wd;
  DecisionSeal.max_ttl_seconds := default 0 (wd_granted_ttl_seconds wd);
  DecisionSeal.constraints := cs; DecisionSeal.issued_at := t |}.

(** ** Lemmas *)

(** The reasons of a translated decision are texts that [Reason::new] accepts. *)
Lemma carried_reasons req f d :
  fields_from_request req = Ok f → sr_decision req = Some d →
  Forall (λ s, bounded_ascii 256 s = true) (pd_reasons d).
Proof.
  intros (_ & _ & t & _ & ->)%fields_from_request_Ok Hd. cbn in Hd.
  destruct (AuditSeal.decision f) as [d'|]; [|done]. injection Hd as <-. cbn.
  apply Forall_fmap, Forall_forall. intros a _. apply as_str_ok.
Qed.

(** The event whose decision has the single reason [s]. *)
Definition event_with_reason (s : string) : SealRequest :=
  let d := proto_of_decision ref_decision in
  let r := AuditSealerApp.ref_request in {|
  sr_event_id := sr_event_id r; sr_sequence := sr_sequence r; sr_prev_hash := sr_prev_hash r;
  sr_occurred_at := sr_occurred_at r; sr_authority_domain := sr_authority_domain r;
  sr_event_type := sr_event_type r; sr_actor := sr_actor r; sr_target := sr_target r;
  sr_outcome := "denied"; sr_context := sr_context r;
  sr_decision := Some {| pd_request_id := pd_request_id d; pd_decision_hash := pd_decision_hash d;
    pd_policy_version := pd_policy_version d; pd_reasons := [s];
    pd_granted_ttl_seconds := pd_granted_ttl_seconds d;
    pd_decision_signature := pd_decision_signature d;
    pd_decision_signature_key_id := pd_decision_signature_key_id d |} |}.

Lemma event_with_reason_translated s :
  bounded_ascii 256 s = true → ∃ f, fields_from_request (event_with_reason s) = Ok f.
Proof.
  intros Hs.
  set (d := {| AuditSeal.request_id := AuditSeal.request_id ref_decision;
    AuditSeal.decision_hash := AuditSeal.decision_hash ref_decision;
    AuditSeal.policy_version := AuditSeal.policy_version ref_decision;
    AuditSeal.reasons := [AsciiText (max_len := 256) s Hs];
    granted_ttl_seconds := granted_ttl_seconds ref_decision;
    AuditSeal.decision_signature := AuditSeal.decision_signature ref_decision;
    AuditSeal.decision_signature_key_id := AuditSeal.decision_signature_key_id ref_decision |}).
  exists {| event_id := event_id ref_fields; sequence := sequence ref_fields; prev_hash := prev_hash ref_fields;
    occurred_at := occurred_at ref_fields; authority_domain := authority_domain ref_fields;
    event_type := PolicyDecided; actor := actor ref_fields; target := None; outcome := Denied;
    AuditSeal.context := AuditSeal.context ref_fields; AuditSeal.decision := Some d |}.
  apply fields_from_request_Ok. split_and!; [done | by intros ? [= <-] |].
  eexists. split; [|reflexivity]. vm_compute. reflexivity.
Qed.

(** What [decide] answers for a resource of another type. *)
Definition unknown_type_reason (t : string) : string := "resource_type_inconnu:" +:+ t.

Lemma decide_unknown_type `{Cedar, SerdeJson, AwsLc, SetOrder} {E} (self : Pdp) r x :
  distinct_attributes r → pinned self r →
  is_Some (principal r) → is_Some (action r) → is_Some (context r) →
  resource r = Some x → rtype x ≠ "Database" →
  Pdp.decide (E := E) self r =
  Ok (deny [unknown_type_reason (rtype x)] (request_digest r) (pdp_policy_version self)).
Proof.
  intros Hd Hp [pr Hpr] [a Ha] [c Hc] Hx Ht. rewrite decide_eq, bool_decide_true by done.
  unfold translate. rewrite Hpr, Ha, Hc, Hx. cbn [ok_or res_bind]. by rewrite bool_decide_false.
Qed.

Lemma find_key_one k kid k' : find_key [k] kid = Some k' → k' = k.
Proof. simpl. case_bool_decide; naive_solver. Qed.

Section evidence.
Context `{HC : Cedar, HJ : SerdeJsonLaws, HA : AwsLc, HO : SetOrder} {P Q : Type} `{HP : HsmSigner P, HQ : HsmSigner Q}.

(** A returned decision: the evaluated response, the clock's second and one signature. *)
Lemma decided (self : PolicyEngine P) p p' now r resp :
  distinct_attributes r → 0 ≤ now → four_digit_years now →
  PolicyEngine.decide self p now r = (p', Ok resp) →
  ∃ response t s, Pdp.decide (E := PolicyEngine.Status) (pdp self) r = Ok response ∧
    ts_str t = Calendar.rfc3339_from_seconds now ∧
    sign_digest p (key (PolicyEngine.sealer self)) EcdsaP256Sha256
      (sha256 (fields_message (fields_at response t))) = (p', Ok s) ∧
    resp = with_seal response now (sig_bytes s) (key_id (PolicyEngine.sealer self)).
Proof.
  intros Hd Hclock Hyear Hdec.
  destruct (decide_returns (E := PolicyEngine.Status) (pdp self) r Hd) as [response Hresp].
  unfold PolicyEngine.decide in Hdec. rewrite Hresp in Hdec.
  unfold rfc3339_now in Hdec. rewrite (proj2 (Z.ltb_ge now 0)) in Hdec by lia.
  rewrite wrap_i64_small in Hdec by (by apply four_digit_i64).
  destruct (seal_response_eq self p response now Hyear) as (t & Ht & Heq). rewrite Heq in Hdec.
  destruct (sign_digest _ _ _ _) as [p1 [s|e|]] eqn:Hs; [|done|done]. injection Hdec as <- <-.
  by exists response, t, s.
Qed.

(** The document of a sealed request. *)
Lemma sealed_request_document (svc : SealerService Q) q q' req sresp :
  (∀ d n, sr_decision req = Some d → pd_granted_ttl_seconds d = Some n → in_u32 n) →
  seal_handler svc q req = (q', Ok sresp) →
  ∃ f kid sig t, req = request_of f t ∧
    from_slice (sr_sealed_bytes sresp) ≫= AuditSeal.de_WireDocument = Some (AuditSeal.wire_of f kid sig).
Proof.
  intros Httl Hseal. rewrite seal_handler_eq in Hseal.
  destruct (fields_from_request req) as [f| |] eqn:Hf; [|done|done].
  apply fields_from_request_Ok in Hf as (Hph & Hdh & t & Ht & Hreq).
  rewrite event_seal_eq in Hseal. destruct (prepare _ f) as [u| |]; [|done|done].
  destruct (sign_digest _ _ _ _) as [q1 [s| |]]; [|done|done]. cbn [fst snd] in Hseal.
  injection Hseal as <- <-. cbn [sr_sealed_bytes bytes_of].
  exists f, (AuditSeal.key_id (AuditSealerApp.sealer_at svc q)), (hex_encode (sig_bytes s)), t. split; [done|].
  set (doc := AuditSeal.wire_of _ _ _).
  assert (typed_wire doc) as Hw.
  { apply wire_of_typed. split; [done|]. intros d Hd. split; [by apply Hdh|]. intros n Hn.
    apply (Httl (proto_of_decision d) n); [|done]. rewrite Hreq. cbn. by rewrite Hd. }
  rewrite (from_slice_to_vec (canon (Object (AuditSeal.full_document doc)))).
  - by apply event_de_full_document.
  - by apply wf_canon, event_full_document_wf.
  - rewrite depth_canon. apply event_full_document_depth.
Qed.

(** ** Theorems *)

(** C14. A refusal that leaves no event: asked about a resource whose type is not
    ["Database"], the service answers a sealed [DENY] whose reason repeats the type that the
    caller sent.  An event can carry this reason exactly when the text is printable ASCII of
    at most 256 bytes without quotes or backslashes; for any other type, every request to
    seal the decision with its reasons is refused as invalid, before any signature. *)
Theorem refusal_without_event (self : PolicyEngine P) p p' now r x resp
    (Hd : distinct_attributes r) (Hclock : 0 ≤ now) (Hyear : four_digit_years now)
    (Hpin : pinned (pdp self) r)
    (Hp : is_Some (principal r)) (Ha : is_Some (action r)) (Hc : is_Some (context r))
    (Hx : resource r = Some x) (Htype : rtype x ≠ "Database")
    (Hdec : PolicyEngine.decide self p now r = (p', Ok resp)) :
  effect resp = effect_i32 Deny ∧ reasons resp = [unknown_type_reason (rtype x)] ∧
  let carried := λ req, ∃ d, sr_decision req = Some d ∧ pd_reasons d = reasons resp in
  ((∃ req f, carried req ∧ fields_from_request req = Ok f) ↔
   bounded_ascii 256 (unknown_type_reason (rtype x)) = true) ∧
  (bounded_ascii 256 (unknown_type_reason (rtype x)) = false →
   ∀ (svc : SealerService Q) q req, carried req →
     ∃ why, seal_handler svc q req =
       (q, Err {| AuditSealerApp.code := AuditSealerApp.InvalidArgument; AuditSealerApp.message := why |})).
Proof.
  apply decided in Hdec as (response & t & s & Hresp & _ & _ & ->); [|done..].
  rewrite (decide_unknown_type _ _ x) in Hresp by done. injection Hresp as <-.
  split; [done|]. split; [done|]. intros carried.
  assert (∀ req f, carried req → fields_from_request req = Ok f →
    bounded_ascii 256 (unknown_type_reason (rtype x)) = true) as Hcar.
  { intros req f (d & Hdd & Hr) Hf. pose proof (carried_reasons _ _ _ Hf Hdd) as Hall.
    rewrite Hr in Hall. by inversion Hall. }
  split; [split|].
  - intros (req & f & Hreq & Hf). by eapply Hcar.
  - intros Hb. destruct (event_with_reason_translated _ Hb) as [f Hf].
    exists (event_with_reason (unknown_type_reason (rtype x))), f. split; [|done]. by eexists.
  - intros Hb svc q req Hreq. rewrite seal_handler_eq.
    destruct (fields_from_request req) as [f|why|] eqn:Hf.
    + rewrite (Hcar _ _ Hreq Hf) in Hb. done.
    + by exists why.
    + by apply fields_from_request_no_panic in Hf.
Qed.

(** C9. What a sealed event proves of the decision it carries: when the decision that the
    service returned was copied into a request that [audit-sealer] sealed, the document
    read from the sealed bytes gives the request hash, the signature and its key identifier,
    and the service's public key verifies the signature for the fields of the event, if the
    reader supplies the effect, the empty constraints and the second at which the decision
    was sealed; for any other effect, constraints or date it does not, unless the key
    verifies one signature for two messages.  And that second is not in the event: the copy
    is the same whatever the date of the decision. *)
Theorem audited_decision_is_evidence (pdp0 : Pdp) (sealer0 : DecisionSealer P) (self : PolicyEngine P)
    p p' now r resp (svc : SealerService Q) q q' req d sresp
    (Hnew : PolicyEngine.new pdp0 sealer0 = Ok self)
    (Hkey : signs_for (P := P) (key sealer0) (public_key_sec1 sealer0))
    (Hkid : key_id sealer0 = key_id_from_public_key (public_key_sec1 sealer0))
    (Hd : distinct_attributes r) (Hclock : 0 ≤ now) (Hyear : four_digit_years now)
    (Hdec : PolicyEngine.decide self p now r = (p', Ok resp))
    (Hreq : sr_decision req = Some d) (Hcopy : copied d resp)
    (Hseal : seal_handler svc q req = (q', Ok sresp)) :
  (∃ doc wd hash sig kid t,
     from_slice (sr_sealed_bytes sresp) ≫= AuditSeal.de_WireDocument = Some doc ∧
     w_decision doc = Some wd ∧ hex_decode (wd_decision_hash wd) = Some hash ∧
     wd_decision_signature wd ≫= hex_decode = Some sig ∧ wd_decision_signature_key_id wd = Some kid ∧
     ts_str t = Calendar.rfc3339_from_seconds now ∧
     let offline := λ allow cs t', DecisionSeal.verify [verifying_key self]
                      (offline_fields wd hash allow cs t') kid sig in
     offline (effect resp =? effect_i32 Allow) [] t = Ok tt ∧
     ∀ allow cs t', offline allow cs t' = Ok tt →
       allow = (effect resp =? effect_i32 Allow) ∧ cs = [] ∧ t' = t ∨
       ∃ m1 m2, m1 ≠ m2 ∧ p256_verify (avk_raw (verifying_key self)) m1 sig = true ∧
         p256_verify (avk_raw (verifying_key self)) m2 sig = true) ∧
  ∀ now', copied d (with_seal resp now' (decision_signature resp) (decision_signature_key_id resp)).
Proof.
  split; [|by destruct Hcopy].
  apply decided in Hdec as (response & t & s & Hresp & Ht & Hs & ->); [|done..].
  unfold PolicyEngine.new, accepted_verifying_key, accept_verifying_key, accept_verifying_key_for in Hnew.
  rewrite bool_decide_true in Hnew by done. destruct (sec1_malformed _); [done|]. injection Hnew as <-.
  apply Hkey in Hs as [Hlen Hv]. destruct Hcopy as [Ch Cv Cr Ct Cs Ck].
  assert (max_ttl response = None ∧ constraints response = []) as [Hmax Hcs]
    by (rewrite decide_eq in Hresp by done; injection Hresp as <-; repeat case_match; done).
  cbn in Ch, Cv, Cr, Ct, Cs, Ck. rewrite Hmax in Ct.
  apply sealed_request_document in Hseal as (f & kid & sg & t0 & -> & Hdoc).
  2: { intros d' n Hd' Hn. rewrite Hd' in Hreq. injection Hreq as ->. by rewrite Ct in Hn. }
  cbn in Hreq. destruct (AuditSeal.decision f) as [e|] eqn:He; [|done]. injection Hreq as <-. cbn in Ch, Cv, Cr, Ct, Cs, Ck.
  exists (AuditSeal.wire_of f kid sg), (wire_decision e), (AuditSeal.decision_hash e), (sig_bytes s),
    (key_id sealer0), t.
  cbn. rewrite He, hex_decode_encode, Cs. cbn. rewrite hex_decode_encode.
  assert (∀ allow cs t', offline_fields (wire_decision e) (AuditSeal.decision_hash e) allow cs t' = {|
    DecisionSeal.request_id := ""; DecisionSeal.decision_hash := PolicyProto.decision_hash response;
    DecisionSeal.policy_version := PolicyProto.policy_version response; effect_allow := allow;
    DecisionSeal.reasons := PolicyProto.reasons response; max_ttl_seconds := 0;
    DecisionSeal.constraints := cs; DecisionSeal.issued_at := t' |}) as Hoff.
  { intros allow cs t'. unfold offline_fields. cbn. by rewrite Ch, Cv, Cr, Ct. }
  assert (fields_at response t = offline_fields (wire_decision e) (AuditSeal.decision_hash e)
            (effect response =? 1) [] t) as Hfields
    by (rewrite Hoff; unfold fields_at; by rewrite Hmax, Hcs).
  split_and!; try done.
  - rewrite <- Hfields. apply decision_verify_Ok. split_and!.
    + intros E. pose proof (len_key_id (public_key_sec1 sealer0)) as Hl. rewrite <- Hkid, E in Hl. done.
    + intros E. by rewrite E in Hlen.
    + eexists. split; [apply (find_key_head {| avk_key_id := key_id sealer0; avk_raw := _ |}) | done].
  - intros allow cs t' Hver. apply decision_verify_Ok in Hver as (_ & _ & k & ->%find_key_one & Hv').
    cbn [avk_raw verifying_key] in Hv'. rewrite Hfields in Hv.
    match type of Hv with p256_verify _ ?m _ = _ => set (m1 := m) in Hv end.
    match type of Hv' with p256_verify _ ?m _ = _ => set (m2 := m) in Hv' end.
    destruct (base.decide (m1 = m2)) as [Heq|Hne]; [|right; by exists m1, m2].
    left. unfold m1, m2 in Heq. rewrite !Hoff in Heq.
    apply fields_message_inj in Heq; [by injection Heq as <- <- <-|by cbv..].
Qed.
End evidence.

(** ** The theorems at concrete inputs *)

(** The nominal request, about a resource of another type: printable text with a backslash. *)
Definition ref_odd_request : DecisionRequest := {|
  request_id := "req-1"; principal := principal (Pdp.ref_request 0 [] ref_attrs);
  action := action (Pdp.ref_request 0 [] ref_attrs);
  resource := Some {| rtype := "Data\base"; rid := "db"; rs_authority_domain := "corp"; attributes := ref_attrs |};
  context := context (Pdp.ref_request 0 [] ref_attrs); dr_policy_version := "" |}.

Lemma ref_odd_distinct : distinct_attributes ref_odd_request.
Proof. intros x [= <-]. apply (bool_decide_unpack _). vm_compute. exact I. Qed.

(** The engine answers a request whose evaluation is known. *)
Definition ref_time : Timestamp := MkTimestamp "2026-07-14T09:30:00Z" eq_refl.
Definition ref_decision_signature (response : DecisionResponse) : bytes :=
  fold_digest (fields_message (fields_at response ref_time)) ++
  take 32 (drop 1 (ref_public_key (key ref_decision_sealer))).

Lemma ref_engine_decides r response :
  Pdp.decide (E := PolicyEngine.Status) ref_pdp r = Ok response →
  PolicyEngine.decide ref_engine 0%nat ref_now r =
  (1%nat, Ok (with_seal response ref_now (ref_decision_signature response) (key_id ref_decision_sealer))).
Proof.
  intros Hr. destruct (seal_response_eq ref_engine 0%nat response ref_now ref_now_year) as (t & Ht & Heq).
  assert (Hnow : rfc3339_now (E := PolicyEngine.Status) ref_now = Ok (Calendar.rfc3339_from_seconds ref_now))
    by reflexivity.
  assert (t = ref_time) as -> by (apply Timestamp_eq; rewrite Ht; vm_compute; reflexivity).
  unfold PolicyEngine.decide. change (pdp ref_engine) with ref_pdp. rewrite Hr, Hnow. exact Heq.
Qed.

Lemma refusal_without_event_witness :
  ∃ resp, PolicyEngine.decide ref_engine 0%nat ref_now ref_odd_request = (1%nat, Ok resp) ∧
    effect resp = effect_i32 Deny ∧
    ∀ req d, sr_decision req = Some d → pd_reasons d = reasons resp →
      ∃ why, seal_handler (AuditSealerApp.new ref_audit_sealer) 0%nat req =
        (0%nat, Err {| AuditSealerApp.code := AuditSealerApp.InvalidArgument; AuditSealerApp.message := why |}).
Proof.
  destruct (decide_returns (E := PolicyEngine.Status) ref_pdp _ ref_odd_distinct) as [response Hr].
  pose proof (ref_engine_decides _ _ Hr) as Hdec. eexists. split; [exact Hdec|].
  destruct (refusal_without_event (Q := nat) ref_engine 0%nat 1%nat ref_now ref_odd_request
    {| rtype := "Data\base"; rid := "db"; rs_authority_domain := "corp"; attributes := ref_attrs |}
    (with_seal response ref_now (ref_decision_signature response) (key_id ref_decision_sealer))) as (He & _ & _ & Hno).
  - exact ref_odd_distinct.
  - by cbv.
  - exact ref_now_year.
  - by left.
  - by eexists.
  - by eexists.
  - by eexists.
  - reflexivity.
  - discriminate.
  - exact Hdec.
  - split; [exact He|]. intros req d Hd Hreasons. apply Hno; [reflexivity|]. exists d. split; [exact Hd | exact Hreasons].
Defined.

(** The nominal decision and an event that carries it. *)
Definition ref_response_of (hash : bytes) : DecisionResponse := {|
  effect := 1; reasons := ["db-connect-production"]; max_ttl := None; constraints := [];
  decision_hash := hash; policy_version := "v"; issued_at := None;
  decision_signature := []; decision_signature_key_id := "" |}.
Definition ref_response : DecisionResponse := ref_response_of (request_digest (Pdp.ref_request 0 [] ref_attrs)).

Lemma ref_response_ok : Pdp.decide (E := PolicyEngine.Status) ref_pdp (Pdp.ref_request 0 [] ref_attrs) = Ok ref_response.
Proof.
  etrans; [apply decide_eq; by apply ref_request_distinct|]. apply (f_equal Ok). unfold ref_response.
  generalize (request_digest (Pdp.ref_request 0 [] ref_attrs)). intros h. reflexivity.
Qed.

Lemma ref_key_id_text : bounded_ascii 256 (key_id ref_decision_sealer) = true.
Proof.
  change (bounded_ascii 256 (hex_encode (take 8 (sha256 (ref_public_key (key ref_decision_sealer))))) = true).
  assert (len (take 8 (sha256 (ref_public_key (key ref_decision_sealer)))) = 8) as Hl.
  { pose proof (len_sha256 (ref_public_key (key ref_decision_sealer))). unfold len in *. rewrite length_take. lia. }
  apply bounded_ascii_hex; lia.
Qed.

Definition ref_evidence_decision : DecisionInfo := {|
  AuditSeal.request_id := AuditSeal.request_id ref_decision;
  AuditSeal.decision_hash := decision_hash ref_response;
  AuditSeal.policy_version := AsciiText (max_len := 256) "v" eq_refl;
  AuditSeal.reasons := [AsciiText (max_len := 256) "db-connect-production" eq_refl];
  granted_ttl_seconds := None;
  AuditSeal.decision_signature := Some (ref_decision_signature ref_response);
  AuditSeal.decision_signature_key_id :=
    Some (AsciiText (max_len := 256) (key_id ref_decision_sealer) ref_key_id_text) |}.

Definition ref_evidence_fields : AuditEventFields := {|
  event_id := event_id ref_fields; sequence := sequence ref_fields; prev_hash := prev_hash ref_fields;
  occurred_at := occurred_at ref_fields; authority_domain := authority_domain ref_fields;
  event_type := PolicyDecided; actor := actor ref_fields; target := None; outcome := Success;
  AuditSeal.context := None; AuditSeal.decision := Some ref_evidence_decision |}.

Definition ref_evidence_request : SealRequest :=
  request_of ref_evidence_fields {| seconds := 1767225600; nanos := 0 |}.

Lemma ref_evidence_fits :
  coupling_ok ref_evidence_fields && (len (to_vec (canon (Object (AuditSeal.full_document (AuditSeal.wire_of
    ref_evidence_fields (AuditSeal.key_id (AuditSealerApp.sealer (AuditSealerApp.new ref_audit_sealer))) (hex_encode (replicate 64 (u8_of 0)))))))) <=? AuditSeal.MAX_BYTES) = true.
Proof. vm_compute. reflexivity. Qed.

Lemma ref_evidence_translated : fields_from_request ref_evidence_request = Ok ref_evidence_fields.
Proof.
  apply fields_from_request_Ok. split_and!.
  - reflexivity.
  - intros d [= <-]. exact (len_sha256 _).
  - eexists. split; [|reflexivity]. vm_compute. reflexivity.
Qed.

Lemma ref_evidence_sealed :
  ∃ sresp, seal_handler (AuditSealerApp.new ref_audit_sealer) 0%nat ref_evidence_request = (1%nat, Ok sresp).
Proof.
  eexists. etrans; [exact (sealable_handler (AuditSealerApp.new ref_audit_sealer) 0%nat _ _
    (conj ref_evidence_translated ref_evidence_fits))|]. reflexivity.
Qed.

Lemma audited_decision_is_evidence_witness :
  ∃ resp sresp wd hash sig kid t,
    PolicyEngine.decide ref_engine 0%nat ref_now (Pdp.ref_request 0 [] ref_attrs) = (1%nat, Ok resp) ∧
    seal_handler (AuditSealerApp.new ref_audit_sealer) 0%nat ref_evidence_request = (1%nat, Ok sresp) ∧
    DecisionSeal.verify [verifying_key ref_engine] (offline_fields wd hash true [] t) kid sig = Ok tt.
Proof.
  destruct ref_evidence_sealed as [sresp Hseal]. pose proof (ref_engine_decides _ _ ref_response_ok) as Hdec.
  destruct (audited_decision_is_evidence ref_pdp ref_decision_sealer ref_engine 0%nat 1%nat ref_now
    (Pdp.ref_request 0 [] ref_attrs)
    (with_seal ref_response ref_now (ref_decision_signature ref_response) (key_id ref_decision_sealer))
    (AuditSealerApp.new ref_audit_sealer) 0%nat 1%nat ref_evidence_request
    (proto_of_decision ref_evidence_decision) sresp) as [(doc & wd & hash & sig & kid & t & _ & _ & _ & _ & _ & _ & Hv & _) _].
  - reflexivity.
  - apply ref_signs_for.
  - reflexivity.
  - by apply ref_request_distinct.
  - by cbv.
  - exact ref_now_year.
  - exact Hdec.
  - reflexivity.
  - split; reflexivity.
  - exact Hseal.
  - exists (with_seal ref_response ref_now (ref_decision_signature ref_response) (key_id ref_decision_sealer)), sresp, wd, hash, sig, kid, t. split; [exact Hdec|]. split; [exact Hseal | exact Hv].
Defined.
