(* ===== verification/Availability.v ===== *)
(** * The sealing service over its session pool

    [audit-sealer] runs its sealer on the pool of [zs-hsm].  The file puts the two together
    ([AuditSealerApp] over [Pool]) and says what a sequence of requests gets: every one is
    answered while the token answers, and how many failed key lookups end the service. *)

From S2P Require Import Prelude.
From S2P Require Import Json.
From S2P Require Import JsonCodec.
From S2P Require Import Aws.
From S2P Require Import Signer.
From S2P Require Import Common.
From S2P Require Import Suite.
From S2P Require Import AuditSeal.
From S2P Require Import AuditProto.
From S2P Require Import AuditSealerApp.
From S2P Require Import Pool.

(** ** Requests in sequence *)

Section serve.
Context `{SerdeJson, AwsLc} {P : Type} `{HsmSigner P}.

(** The requests of a service, one after the other. *)
Fixpoint serve_all (self : SealerService P) (p : P) (reqs : list SealRequest) :
    P * list (res SealResponse Status) :=
  match reqs with
  | [] => (p, [])
  | req :: reqs' =>
      let '(p, r) := seal_handler self p req in
      let '(p, rs) := serve_all self p reqs' in
      (p, r :: rs)
  end.
End serve.

(** ** What the token is assumed to do *)

Definition is_lookup (c : call) : bool := match c with CFindObjects _ _ _ => true | _ => false end.
Definition lookups (h : history) : nat := length (filter (λ c, is_lookup c = true) h).

(** The token finds the key and signs with it. *)
Definition healthy `{Token, AwsLc} (k : KeyRef) (pk : bytes) : Prop :=
  (∀ h s, ∃ handle, tk_find_objects (h ++ [CFindObjects s PRIVATE_KEY (label k)]) = inl [handle]) ∧
  (∀ h s handle m, ∃ raw, tk_sign (h ++ [CSign s ECDSA handle (sha256 m)]) = inl raw ∧
     len raw = 64 ∧ p256_verify pk m raw = true).

(** ** Lemmas: one signature *)

Section signature.
Context `{Token, AwsLc}.

(** A healthy token signs, and the session goes to the end of the queue. *)
Lemma healthy_sign p s rest k pk m :
  healthy k pk → sessions p = s :: rest → ∃ p' sig,
    Pool.sign_digest p k EcdsaP256Sha256 (sha256 m) = (p', Ok sig) ∧ sessions p' = rest ++ [s] ∧
    len (sig_bytes sig) = 64 ∧ p256_verify pk m (sig_bytes sig) = true.
Proof.
  intros [Hfind Hsign] Hs. unfold Pool.sign_digest. rewrite (acquire_free _ _ s rest) by done.
  unfold find_key. cbn [log record_call with_sessions].
  destruct (Hfind (log p) s) as [hd ->]. cbn [ck res_bind].
  destruct (Hsign (log p ++ [CFindObjects s PRIVATE_KEY (label k)]) s hd m) as (raw & Hraw & Hlen & Hv).
  cbn [log record_call to_cryptoki_mechanism]. rewrite Hraw. by eexists _, {| sig_bytes := raw |}.
Qed.

(** A failed lookup costs the session. *)
Lemma missing_key_sign p s rest k m d :
  sessions p = s :: rest → tk_find_objects (log p ++ [CFindObjects s PRIVATE_KEY (label k)]) = inl [] →
  ∃ p', Pool.sign_digest p k m d = (p', Err (KeyNotFound (label k))) ∧ sessions p' = rest ∧
    schedule p' = schedule p ∧ lookups (log p') = S (lookups (log p)).
Proof.
  intros Hs Hf. unfold Pool.sign_digest. rewrite (acquire_free _ _ s rest) by done.
  unfold find_key. cbn [log record_call with_sessions]. rewrite Hf. cbn [ck res_bind].
  eexists. split; [done|]. split; [done|]. split; [done|]. unfold lookups. cbn [log drop_session record_call with_sessions].
  rewrite !filter_app, !length_app. simpl. lia.
Qed.

(** Without a session, and without a thread that would return one, there is no signature. *)
Lemma empty_pool_sign p k m d :
  sessions p = [] → schedule p = [] →
  ∃ p', Pool.sign_digest p k m d = (p', Err PoolExhausted) ∧ sessions p' = [] ∧ schedule p' = [] ∧ log p' = log p.
Proof.
  intros Hs Hsch. unfold Pool.sign_digest, acquire. rewrite Hsch. cbn [acquire_loop]. rewrite Hs.
  destruct (Z.max _ _ =? 0); eexists; (split; [done|]); done.
Qed.
End signature.

(** ** Theorem *)

(** A request that the service accepts, within the integer widths of the contract. *)
Definition acceptable `{SerdeJson} (self : SealerService SessionPool) (req : SealRequest) : Prop :=
  (∃ f, sealable self req f) ∧
  ∀ d n, sr_decision req = Some d → pd_granted_ttl_seconds d = Some n → in_u32 n.

(** The answer that [req] asks for: its sealed form, which verifies. *)
Definition answered `{SerdeJson, AwsLc} (keys : list AcceptedVerifyingKey) (req : SealRequest)
    (r : res SealResponse Status) : Prop :=
  ∃ resp f, r = Ok resp ∧ fields_from_request req = Ok f ∧
    verify keys (sr_sealed_bytes resp)
      {| accepted_suites := [SUITE_V1]; expected_authority_domain := sr_authority_domain req |} =
    Ok (verified_fields f).

Section availability.
Context `{SerdeJsonLaws, AwsLc, Token}.

Lemma sealable_size (self : SealerService SessionPool) req f sig :
  sealable self req f → len sig = 64 → coupling_ok f = true ∧
  len (to_vec (canon (Object (full_document (wire_of f (key_id (sealer self)) (hex_encode sig)))))) ≤ MAX_BYTES.
Proof.
  intros [_ [Hc Hsz]%andb_true_iff] Hlen. split; [done|].
  pose proof (validate_size_ok f (key_id (sealer self)) (replicate 64 (u8_of 0)) eq_refl) as V1.
  rewrite (validate_size_ok f (key_id (sealer self)) sig Hlen), Hsz in V1.
  apply Z.leb_le. revert V1. set (b := _ <=? MAX_BYTES). destruct b; [done | discriminate].
Qed.

Lemma healthy_answer (self : SealerService SessionPool) p s rest pk k (keys : list AcceptedVerifyingKey) req :
  healthy (key (sealer self)) pk →
  AuditSeal.accept_verifying_key SUITE_V1 (key_id (sealer self)) pk = Ok k →
  Suite.find_key keys (key_id (sealer self)) = Some k →
  sessions p = s :: rest → acceptable self req →
  ∃ p' r, seal_handler self p req = (p', r) ∧ sessions p' = rest ++ [s] ∧ answered keys req r.
Proof.
  intros Hh Hacc Hfind Hs [[f Hseal] Httl]. rewrite (sealable_handler self p req f Hseal).
  destruct (healthy_sign p s rest _ _ (fields_message f) Hh Hs) as (p' & sig & Hsign & Hp' & Hlen & Hv).
  change (Signer.sign_digest p) with (Pool.sign_digest p). rewrite Hsign.
  eexists _, _. split; [done|]. split; [done|]. eexists _, f. split; [done|].
  destruct (sealable_size self req f _ Hseal Hlen) as [Hc Hsz]. destruct Hseal as [Hf _].
  split; [done|]. cbn [sr_sealed_bytes].
  apply fields_from_request_Ok in Hf as (Hph & Hdh & t & _ & ->).
  unfold accept_verifying_key, accept_verifying_key_for in Hacc. rewrite bool_decide_true in Hacc by done.
  destruct (sec1_malformed pk); simplify_eq/=.
  etrans; [apply (event_verify_genuine f {| avk_key_id := key_id (sealer self); avk_raw := pk |})|].
  - split; [done|]. intros d Hd. split; [by apply Hdh|]. intros n Hn.
    apply (Httl (proto_of_decision d) n); [|done]. cbn. by rewrite Hd.
  - exact Hc.
  - exact Hsz.
  - done.
  - done.
  - unfold policy_decision. cbn [accepted_suites expected_authority_domain].
    rewrite !bool_decide_true by (done || left). done.
Qed.

Lemma missing_key_answer (self : SealerService SessionPool) p s rest req f :
  sealable self req f → sessions p = s :: rest →
  tk_find_objects (log p ++ [CFindObjects s PRIVATE_KEY (label (key (sealer self)))]) = inl [] →
  ∃ p', seal_handler self p req = (p', Err {| code := Unavailable;
      message := "scellement indisponible : " +:+ seal_error_text SealingUnavailable |}) ∧
    sessions p' = rest ∧ schedule p' = schedule p ∧ lookups (log p') = S (lookups (log p)).
Proof.
  intros Hseal Hs Hf. rewrite (sealable_handler self p req f Hseal).
  destruct (missing_key_sign p s rest (key (sealer self)) EcdsaP256Sha256 (sha256 (fields_message f)) Hs Hf)
    as (p' & Hsign & Hrest).
  change (Signer.sign_digest p) with (Pool.sign_digest p). rewrite Hsign. by exists p'.
Qed.

Lemma empty_pool_answer (self : SealerService SessionPool) p req f :
  sealable self req f → sessions p = [] → schedule p = [] →
  ∃ p', seal_handler self p req = (p', Err {| code := Unavailable;
      message := "scellement indisponible : " +:+ seal_error_text SealingUnavailable |}) ∧
    sessions p' = [] ∧ schedule p' = [] ∧ log p' = log p.
Proof.
  intros Hseal Hs Hsch. rewrite (sealable_handler self p req f Hseal).
  destruct (empty_pool_sign p (key (sealer self)) EcdsaP256Sha256 (sha256 (fields_message f)) Hs Hsch)
    as (p' & Hsign & Hrest).
  change (Signer.sign_digest p) with (Pool.sign_digest p). rewrite Hsign. by exists p'.
Qed.

(** C13. The sealing service over its session pool, on any sequence of acceptable requests.
    While the token finds the key and signs, every request is answered by its sealed form,
    which verifies, and the pool keeps its sessions: none is lost and none is added.  But
    when the token fails to find the key as many times in a row as there are sessions, every
    request is refused as unavailable, then and for ever, even after the token recovers. *)
Theorem service_availability (self : SealerService SessionPool) p reqs
    (Hreqs : Forall (acceptable self) reqs) :
  (∀ pk k keys, healthy (key (sealer self)) pk →
     AuditSeal.accept_verifying_key SUITE_V1 (key_id (sealer self)) pk = Ok k →
     Suite.find_key keys (key_id (sealer self)) = Some k → sessions p ≠ [] →
     Forall2 (answered keys) reqs (serve_all self p reqs).2 ∧
     sessions (serve_all self p reqs).1 ≡ₚ sessions p) ∧
  (schedule p = [] →
   (∀ h, (lookups h ≤ lookups (log p) + length (sessions p))%nat → tk_find_objects h = inl []) →
   Forall (λ r, ∃ why, r = Err {| code := Unavailable; message := why |}) (serve_all self p reqs).2).
Proof.
  revert p. induction Hreqs as [|req reqs Hreq _ IH]; intros p; [by split|]. split.
  - intros pk k keys Hh Hacc Hfind Hs. destruct (sessions p) as [|s rest] eqn:Hp; [done|].
    destruct (healthy_answer self p s rest pk k keys req) as (p' & r & Heq & Hp' & Ha); [done..|].
    destruct (IH p') as [IH' _]. cbn [serve_all]. rewrite Heq. destruct (serve_all self p' reqs) as [p2 rs].
    cbn [fst snd] in *. destruct (IH' pk k keys) as [Hall Hperm]; [done..|by rewrite Hp'; destruct rest|].
    split; [by constructor|]. rewrite Hperm, Hp'. by rewrite Permutation_app_comm.
  - intros Hsch Hmiss. destruct Hreq as [[f Hseal] _]. cbn [serve_all].
    destruct (sessions p) as [|s rest] eqn:Hp.
    + destruct (empty_pool_answer self p req f) as (p' & -> & Hp' & Hsch' & Hlog); [done..|].
      destruct (IH p') as [_ IH']. destruct (serve_all self p' reqs) as [p2 rs]. constructor; [by eexists|].
      apply IH'; [done|]. by rewrite Hp', Hlog.
    + destruct (missing_key_answer self p s rest req f) as (p' & -> & Hp' & Hsch' & Hlog); [done|done| |].
      { apply Hmiss. unfold lookups. rewrite filter_app, length_app. simpl. lia. }
      destruct (IH p') as [_ IH']. destruct (serve_all self p' reqs) as [p2 rs]. constructor; [by eexists|].
      apply IH'; [by rewrite Hsch'|]. intros h Hh. apply Hmiss. rewrite Hp', Hlog in Hh. simpl in *. lia.
Qed.
End availability.

(** ** The theorem at concrete inputs *)

(** A token whose first [n] key lookups fail, and that signs like the reference signer. *)
Definition blind_token (n : nat) : Token := {|
  tk_initialize _ := true;
  tk_slots _ := inl [1];
  tk_max_session_count _ := inl (LimitMax 8);
  tk_mechanisms _ := inl [ECDSA];
  tk_open_rw_session h := inl (100 + len h);
  tk_login _ _ := inl tt;
  tk_find_objects h := if bool_decide (lookups h ≤ n)%nat then inl [] else inl [7];
  tk_sign h := match last h with
    | Some (CSign _ _ _ d) => inl (d ++ take 32 (drop 1 (ref_public_key known)))
    | _ => inr OtherCkError end;
  tk_get_attributes _ := inl [];
|}.

Lemma blind_token_healthy : healthy (H := blind_token 0) known (ref_public_key known).
Proof.
  split.
  - intros h s. exists 7. cbn. rewrite bool_decide_false; [done|].
    unfold lookups. rewrite filter_app, length_app. simpl. lia.
  - intros h s handle m. exists (sha256 m ++ take 32 (drop 1 (ref_public_key known))). split.
    + cbn [tk_sign blind_token]. by rewrite last_snoc.
    + exact (ref_signs_for known 0%nat 1%nat m {| sig_bytes := sha256 m ++ take 32 (drop 1 (ref_public_key known)) |} eq_refl).
Qed.

Definition ref_pooled_service : SealerService SessionPool :=
  new {| AuditSeal.pool := ref_pool; key := known; key_id := key_id ref_audit_sealer |}.

Lemma ref_acceptable : acceptable ref_pooled_service ref_request.
Proof.
  split.
  - exists ref_fields. split; [apply ref_request_fields|]. cbn [sealer new ref_pooled_service key_id].
    exact ref_event_fits.
  - intros d n [= <-] [= <-]. by cbv.
Qed.

Lemma service_availability_witness :
  Forall2 (answered [ref_audit_key]) [ref_request; ref_request; ref_request]
    (serve_all (P := SessionPool) (H1 := pool_signer (H := blind_token 0)) ref_pooled_service ref_pool
       [ref_request; ref_request; ref_request]).2 ∧
  Forall (λ r, ∃ why, r = Err {| code := Unavailable; message := why |})
    (serve_all (P := SessionPool) (H1 := pool_signer (H := blind_token 2)) ref_pooled_service ref_pool
       [ref_request; ref_request; ref_request]).2.
Proof.
  assert (Forall (acceptable ref_pooled_service) [ref_request; ref_request; ref_request]) as Hreqs
    by (do 3 (apply Forall_cons_2; [apply ref_acceptable|]); constructor).
  split.
  - apply (proj1 (service_availability (H2 := blind_token 0) ref_pooled_service ref_pool _ Hreqs)
      (ref_public_key known) ref_audit_key).
    + exact blind_token_healthy.
    + vm_compute. reflexivity.
    + apply (find_key_head ref_audit_key).
    + discriminate.
  - apply (proj2 (service_availability (H2 := blind_token 2) ref_pooled_service ref_pool _ Hreqs)); [reflexivity|].
    intros h Hh. cbn. by rewrite bool_decide_true.
Defined.
