(* ===== verification/CedarPolicy.v ===== *)
(** * [policies/access]: the access policies and what they decide

    The two Cedar files of the corpus, policy by policy, as conditions on the request; the
    evaluation rules of Cedar that they rely on (default deny, a forbid overrides every
    permit, an error skips the policy); and the class [CedarSemantics], which says of the
    crate [cedar_policy] that the values the code builds with its constructors are what it
    evaluates.  Against that class: the decision on a database as a condition on the fields
    of the request, and what no permit policy, present or future, can grant. *)

From stdpp Require Import pretty.
From S2P Require Import Prelude.
From S2P Require Import Json.
From S2P Require Import JsonCodec.
From S2P Require Import Aws.
From S2P Require Import PolicyProto.
From S2P Require Import Pdp.

(** ** Values and conditions of the Cedar language *)

Inductive cvalue :=
| CvString (s : string)
| CvLong (n : Z)
| CvBool (b : bool)
| CvSet (l : list cvalue)
| CvRecord (m : list (string * cvalue)).

(** An entity's type and identifier. *)
Abbreviation uid := (string * string)%type.

(** What a policy is evaluated on. *)
Record env := {
  e_principal : uid;
  e_action : uid;
  e_resource : uid;
  e_principal_attrs : gmap string cvalue;
  e_resource_attrs : gmap string cvalue;
  e_context : list (string * cvalue);
}.

(** Terms and conditions; [None] is an evaluation error. *)
Definition term : Type := env → option cvalue.
Definition condition : Type := env → option bool.

Definition principal_attr (a : string) : term := λ e, e_principal_attrs e !! a.
Definition resource_attr (a : string) : term := λ e, e_resource_attrs e !! a.
Definition context_attr (a : string) : term := λ e, map_get a (e_context e).
Definition dot (t : term) (a : string) : term := λ e,
  v ← t e; match v with CvRecord m => map_get a m | _ => None end.
Definition text (s : string) : term := λ _, Some (CvString s).
Definition number (n : Z) : term := λ _, Some (CvLong n).

(** Equality of values of the primitive types; the policies compare no others. *)
Definition prim_eq (x y : cvalue) : option bool :=
  match x, y with
  | CvString a, CvString b => Some (bool_decide (a = b))
  | CvLong a, CvLong b => Some (a =? b)
  | CvBool a, CvBool b => Some (Bool.eqb a b)
  | (CvSet _ | CvRecord _), _ | _, (CvSet _ | CvRecord _) => None
  | _, _ => Some false
  end.

Definition c_eq (a b : term) : condition := λ e, x ← a e; y ← b e; prim_eq x y.
Definition c_not (c : condition) : condition := λ e, b ← c e; Some (negb b).
Definition c_neq (a b : term) : condition := c_not (c_eq a b).
(** [&&] does not evaluate its right side when the left one is false. *)
Definition c_and (c d : condition) : condition := λ e, b ← c e; if b : bool then d e else Some false.
Definition c_le (a b : term) : condition := λ e,
  x ← a e; y ← b e; match x, y with CvLong m, CvLong n => Some (m <=? n) | _, _ => None end.
(** Longs have 64 bits; an overflow is an error. *)
Definition minus (a b : term) : term := λ e,
  x ← a e; y ← b e;
  match x, y with
  | CvLong m, CvLong n => if between i64_min (m - n) i64_max then Some (CvLong (m - n)) else None
  | _, _ => None
  end.
Definition is_empty (t : term) : condition := λ e,
  v ← t e; match v with CvSet l => Some (bool_decide (l = [])) | _ => None end.

#[local] Instance nil_dec {A} (l : list A) : Decision (l = []).
Proof. destruct l; [by left | by right]. Defined.

(** ** Policies *)

Inductive policy_effect := Permit | Forbid.
#[export] Instance policy_effect_eq_dec : EqDecision policy_effect.
Proof. solve_decision. Defined.

(** [p_id] is the annotation [@id], else the identifier of the policy; the condition is the scope, then the clauses. *)
Record policy := { p_id : string; p_effect : policy_effect; p_condition : condition }.

(** [principal is P, action == A, resource is R] *)
Definition scope (principal_type : string) (action : uid) (resource_type : string) : condition := λ e,
  Some (bool_decide ((e_principal e).1 = principal_type) && bool_decide (e_action e = action) &&
        bool_decide ((e_resource e).1 = resource_type)).

Fixpoint clauses (l : list condition) : condition :=
  match l with [] => λ _, Some true | c :: l' => c_and c (clauses l') end.

(** The scope of the four policies. *)
Definition db_connect : condition :=
  scope "ZeroSecret::Principal" ("ZeroSecret::Action", "db.connect") "ZeroSecret::Database".

Definition in_production : condition := c_eq (resource_attr "environment") (text "production").
Definition same_domain : condition :=
  c_eq (principal_attr "authority_domain") (resource_attr "authority_domain").
Definition is_aal3 : condition := c_eq (principal_attr "aal") (text "AAL3").
Definition has_ticket : condition := c_neq (context_attr "ticket_ref") (text "").
Definition has_approval : condition := c_not (is_empty (context_attr "approvals")).
Definition fresh_posture : condition :=
  let requested_at := context_attr "requested_at" in
  let evaluated_at := dot (context_attr "posture") "evaluated_at" in
  c_and (c_le evaluated_at requested_at) (c_le (minus requested_at evaluated_at) (number 3600)).

(** [db_connect.cedar] *)
Definition db_connect_production : policy := {|
  p_id := "db-connect-production"; p_effect := Permit;
  p_condition := clauses [db_connect; in_production; same_domain; is_aal3; has_ticket;
                          has_approval; fresh_posture];
|}.

(** [db_connect_guardrails.cedar]; [unless] is the negation of its condition *)
Definition guardrail_aal3 : policy := {|
  p_id := "guardrail-production-requires-aal3"; p_effect := Forbid;
  p_condition := clauses [db_connect; in_production; c_not is_aal3];
|}.
Definition guardrail_domain : policy := {|
  p_id := "guardrail-authority-domain-isolation"; p_effect := Forbid;
  p_condition := clauses [db_connect; c_not same_domain];
|}.
Definition guardrail_ticket_and_approval : policy := {|
  p_id := "guardrail-production-requires-ticket-and-approval"; p_effect := Forbid;
  p_condition := clauses [db_connect; in_production; c_not (c_and has_ticket has_approval)];
|}.

Definition guardrails : list policy := [guardrail_aal3; guardrail_domain; guardrail_ticket_and_approval].
Definition corpus : list policy := db_connect_production :: guardrails.

(** ** Authorization *)

(** The policies of an effect whose condition holds; those in error are skipped. *)
Definition satisfied (eff : policy_effect) (e : env) (ps : list (string * policy)) : gset string :=
  list_to_set (filter (λ ip, p_effect ip.2 = eff ∧ p_condition ip.2 e = Some true) ps).*1.

(** Allowed when a permit holds and no forbid does; the policies of the answer are those that
    determined it. *)
Definition authorize (ps : list (string * policy)) (e : env) : CedarDecision * gset string :=
  let permits := satisfied Permit e ps in
  let forbids := satisfied Forbid e ps in
  if bool_decide (permits = ∅) || negb (bool_decide (forbids = ∅))
  then (CedarDeny, forbids) else (CedarAllow, permits).

(** What a request and the entities beside it show to a policy. *)
Definition env_at (q : uid * uid * uid * list (string * cvalue))
    (es : gmap uid (gmap string cvalue)) : env :=
  let '(p, a, r, c) := q in {|
    e_principal := p; e_action := a; e_resource := r;
    e_principal_attrs := default ∅ (es !! p); e_resource_attrs := default ∅ (es !! r);
    e_context := c |}.

(** ** What the code relies on of [cedar_policy] *)

Class CedarSemantics (C : Cedar) := {
  (** what the values of the crate stand for *)
  uid_of : EntityUid → uid;
  value_of : RestrictedExpression → cvalue;
  entity_of : Entity → uid * gmap string cvalue;
  entities_of : Entities → gmap uid (gmap string cvalue);
  context_of : CedarContext → list (string * cvalue);
  request_of : CedarRequest → uid * uid * uid * list (string * cvalue);
  policies_of : PolicySet → list (string * policy);
  (** the constructors *)
  uid_law s i t : parse_type_name s = inl t → uid_of (from_type_name_and_id t i) = (s, i);
  string_law s : value_of (new_string s) = CvString s;
  long_law n : value_of (new_long n) = CvLong n;
  bool_law b : value_of (new_bool b) = CvBool b;
  set_law l : value_of (new_set l) = CvSet (map value_of l);
  record_law m v : new_record m = inl v → value_of v = CvRecord (map (λ kv, (kv.1, value_of kv.2)) m);
  entity_law u attrs e : entity_new u attrs = inl e → entity_of e = (uid_of u, value_of <$> attrs);
  entities_law l s es e : from_entities l s = inl es → e ∈ l →
    entities_of es !! (entity_of e).1 = Some (entity_of e).2;
  context_law m c : context_from_pairs m = inl c → context_of c = map (λ kv, (kv.1, value_of kv.2)) m;
  request_law p a r c s q : request_new p a r c s = inl q →
    request_of q = (uid_of p, uid_of a, uid_of r, context_of c);
  (** evaluation: the rules above, for policies with identifiers of their own, over a store of
      entities without parents such as [from_entities] builds from those of [entity_new];
      conditions that follow a hierarchy or the entities of an attribute are not in [condition],
      and no policy of the repository has one *)
  ids_distinct ps : NoDup (policies_of ps).*1;
  authorize_law l s q ps es : from_entities l s = inl es →
    is_authorized q ps es = authorize (policies_of ps) (env_at (request_of q) (entities_of es));
  (** a policy without the annotation [@id] is known by its identifier in the set *)
  annotation_law ps i p : (i, p) ∈ policies_of ps → default i (annotation ps i "id") = p_id p;
}.

(** ** What a translated request shows *)

(** The parts of a request that the access policies read; times in seconds. *)
Record connection := {
  cn_principal : Principal;
  cn_verb : string;
  cn_resource : Resource;
  cn_environment : string;
  cn_context : Context;
  cn_requested_at : Z;
  cn_evaluated_at : Z;
}.

Record connection_of (r : DecisionRequest) (n : connection) : Prop := {
  co_principal : principal r = Some (cn_principal n);
  co_verb : verb <$> action r = Some (cn_verb n);
  co_resource : resource r = Some (cn_resource n);
  co_environment : map_get "environment" (attributes (cn_resource n)) = Some (cn_environment n);
  co_context : context r = Some (cn_context n);
  co_requested : seconds <$> requested_at (cn_context n) = Some (cn_requested_at n);
  co_evaluated : posture (cn_context n) ≫= (λ o, seconds <$> evaluated_at o) = Some (cn_evaluated_at n);
}.

Record shows (e : env) (n : connection) : Prop := {
  sh_principal : (e_principal e).1 = "ZeroSecret::Principal";
  sh_action : e_action e = ("ZeroSecret::Action", cn_verb n);
  sh_resource : (e_resource e).1 = "ZeroSecret::Database";
  sh_aal : e_principal_attrs e !! "aal" = Some (CvString (auth_level_to_str (aal (cn_principal n))));
  sh_domain : e_principal_attrs e !! "authority_domain" =
                Some (CvString (pr_authority_domain (cn_principal n)));
  sh_zone : e_resource_attrs e !! "authority_domain" =
              Some (CvString (rs_authority_domain (cn_resource n)));
  sh_environment : e_resource_attrs e !! "environment" = Some (CvString (cn_environment n));
  sh_ticket : map_get "ticket_ref" (e_context e) = Some (CvString (ticket_ref (cn_context n)));
  sh_approvals : ∃ l, map_get "approvals" (e_context e) = Some (CvSet l) ∧
                   (l = [] ↔ approvals (cn_context n) = []);
  sh_requested : map_get "requested_at" (e_context e) = Some (CvLong (cn_requested_at n));
  sh_evaluated : ∃ m, map_get "posture" (e_context e) = Some (CvRecord m) ∧
                   map_get "evaluated_at" m = Some (CvLong (cn_evaluated_at n));
}.

Lemma connection_unique r m n : connection_of r m → connection_of r n → m = n.
Proof. intros [] []. destruct m, n. simpl in *. simplify_eq. done. Qed.

Section semantics.
Context `{S : CedarSemantics}.

Lemma entity_uid_Ok ty i u :
  entity_uid ty i = Ok u → uid_of u = (NAMESPACE +:+ "::" +:+ ty, i).
Proof.
  unfold entity_uid. intros Hu. apply bind_Ok in Hu as (t & Ht & [= <-]).
  apply map_err_Ok, lift_Ok in Ht. by apply uid_law.
Qed.

Ltac attr := rewrite !lookup_fmap; repeat first
  [ rewrite lookup_insert_eq | rewrite lookup_insert_ne by done ]; simpl; rewrite ?string_law; done.

Lemma principal_entity_shows p ent :
  principal_entity p = Ok ent →
  (entity_of ent).1 = ("ZeroSecret::Principal", subject_id p) ∧
  (entity_of ent).2 !! "aal" = Some (CvString (auth_level_to_str (aal p))) ∧
  (entity_of ent).2 !! "authority_domain" = Some (CvString (pr_authority_domain p)).
Proof.
  unfold principal_entity. intros He. apply bind_Ok in He as (u & Hu & He).
  apply bind_Ok in He as (t & _ & He). apply map_err_Ok, lift_Ok, entity_law in He. rewrite He.
  split; [by apply entity_uid_Ok|]. split; cbn [snd]; attr.
Qed.

Lemma database_entity_shows x ent :
  database_entity x = Ok ent →
  ∃ environment, map_get "environment" (attributes x) = Some environment ∧
  (entity_of ent).1 = ("ZeroSecret::Database", rid x) ∧
  (entity_of ent).2 !! "environment" = Some (CvString environment) ∧
  (entity_of ent).2 !! "authority_domain" = Some (CvString (rs_authority_domain x)).
Proof.
  unfold database_entity. intros He. apply bind_Ok in He as (u & Hu & He).
  apply bind_Ok in He as (v & Hv & He). apply ok_or_Ok in Hv. exists v. split; [done|].
  apply map_err_Ok, lift_Ok, entity_law in He. rewrite He.
  split; [by apply entity_uid_Ok|]. split; cbn [snd]; attr.
Qed.

Lemma build_context_shows c ctx :
  build_context c = Ok ctx →
  ∃ req ev, seconds <$> requested_at c = Some req ∧
    posture c ≫= (λ o, seconds <$> evaluated_at o) = Some ev ∧
    map_get "ticket_ref" (context_of ctx) = Some (CvString (ticket_ref c)) ∧
    (∃ l, map_get "approvals" (context_of ctx) = Some (CvSet l) ∧ (l = [] ↔ approvals c = [])) ∧
    map_get "requested_at" (context_of ctx) = Some (CvLong req) ∧
    (∃ m, map_get "posture" (context_of ctx) = Some (CvRecord m) ∧
          map_get "evaluated_at" m = Some (CvLong ev)).
Proof.
  unfold build_context. intros Hb. apply bind_Ok in Hb as (req & Hreq & Hb).
  apply bind_Ok in Hb as (o & Ho & Hb). apply ok_or_Ok in Ho.
  apply bind_Ok in Hb as (ev & Hev & Hb). apply bind_Ok in Hb as (pr & Hpr & Hb).
  apply bind_Ok in Hb as (aps & Haps & Hb). apply try_map_Ok in Haps.
  apply map_err_Ok, lift_Ok, record_law in Hpr. apply map_err_Ok, lift_Ok, context_law in Hb.
  exists req, ev. rewrite Hb, Ho. cbn. rewrite !string_law, !long_law, set_law, Hpr. cbn. rewrite long_law.
  split_and!; [..|by eexists].
  - destruct (requested_at c); [|done]. by injection Hreq as <-.
  - destruct (evaluated_at o); [|done]. by injection Hev as <-.
  - done.
  - eexists. split; [done|]. by destruct Haps.
  - done.
Qed.

(** A request that Cedar accepts shows its own fields. *)
Lemma translated_shows r s q es :
  translate r s = Ok (q, es) →
  ∃ n, connection_of r n ∧ shows (env_at (request_of q) (entities_of es)) n ∧
    ∃ l, from_entities l s = inl es.
Proof.
  unfold translate. intros Ht.
  apply bind_Ok in Ht as (p & Hp & Ht). apply bind_Ok in Ht as (x & Hx & Ht).
  apply bind_Ok in Ht as (a & Ha & Ht). apply bind_Ok in Ht as (c & Hc & Ht).
  apply ok_or_Ok in Hp, Hx, Ha, Hc. destruct (bool_decide (rtype x = "Database")); [|done].
  apply bind_Ok in Ht as (pu & Hpu & Ht). apply bind_Ok in Ht as (pe & Hpe & Ht).
  apply bind_Ok in Ht as (ru & Hru & Ht). apply bind_Ok in Ht as (re & Hre & Ht).
  apply bind_Ok in Ht as (au & Hau & Ht). apply bind_Ok in Ht as (ctx & Hctx & Ht).
  apply bind_Ok in Ht as (es' & Hes & Ht). apply bind_Ok in Ht as (q' & Hq & [= <- <-]).
  apply entity_uid_Ok in Hpu, Hru, Hau. apply principal_entity_shows in Hpe as (Hpe & Haal & Hdom).
  apply database_entity_shows in Hre as (en & Hen & Hre & Henv & Hzone).
  apply build_context_shows in Hctx as (req & ev & Hreq & Hev & Htk & Hap & Hrq & Hpo).
  apply map_err_Ok, lift_Ok in Hes. apply map_err_Ok, lift_Ok, request_law in Hq.
  pose proof (entities_law _ _ _ pe Hes ltac:(set_solver)) as Hlp. rewrite Hpe in Hlp.
  pose proof (entities_law _ _ _ re Hes ltac:(set_solver)) as Hlr. rewrite Hre in Hlr.
  rewrite Hq, Hpu, Hru, Hau. unfold env_at.
  exists {| cn_principal := p; cn_verb := verb a; cn_resource := x; cn_environment := en; cn_context := c;
            cn_requested_at := req; cn_evaluated_at := ev |}.
  change (NAMESPACE +:+ "::" +:+ "Principal") with "ZeroSecret::Principal".
  change (NAMESPACE +:+ "::" +:+ "Database") with "ZeroSecret::Database".
  change (NAMESPACE +:+ "::" +:+ "Action") with "ZeroSecret::Action".
  split; [|split; [|by eexists]]; split; cbn; rewrite ?Ha, ?Hlp, ?Hlr; cbn; done.
Qed.
End semantics.

(** ** The conditions, on the fields of the request *)

(** What the permit policy asks of a connection. *)
Definition grants (n : connection) : Prop :=
  cn_verb n = "db.connect" ∧ cn_environment n = "production" ∧
  pr_authority_domain (cn_principal n) = rs_authority_domain (cn_resource n) ∧
  aal (cn_principal n) = 3 ∧ ticket_ref (cn_context n) ≠ "" ∧ approvals (cn_context n) ≠ [] ∧
  cn_evaluated_at n ≤ cn_requested_at n ≤ cn_evaluated_at n + 3600.

(** What the guardrails demand of one. *)
Definition guarded (n : connection) : Prop :=
  pr_authority_domain (cn_principal n) = rs_authority_domain (cn_resource n) ∧
  (cn_environment n = "production" →
   aal (cn_principal n) = 3 ∧ ticket_ref (cn_context n) ≠ "" ∧ approvals (cn_context n) ≠ []).

(** The guardrails that forbid a connection. *)
Definition violated (n : connection) : list string :=
  let prod := bool_decide (cn_environment n = "production") in
  let when (b : bool) (p : policy) := if bool_decide (cn_verb n = "db.connect") && b then [p_id p] else [] in
  when (prod && negb (aal (cn_principal n) =? 3)) guardrail_aal3 ++
  when (negb (bool_decide (pr_authority_domain (cn_principal n) = rs_authority_domain (cn_resource n))))
    guardrail_domain ++
  when (prod && negb (negb (bool_decide (ticket_ref (cn_context n) = "")) && negb (len (approvals (cn_context n)) =? 0)))
    guardrail_ticket_and_approval.

Lemma len_eqb_nil {A} (l : list A) : (len l =? 0) = bool_decide (l = []).
Proof.
  destruct l as [|x l]; [done|]. rewrite bool_decide_false, len_cons by done. pose proof (len_nonneg l). lia.
Qed.

Lemma clauses_true l e : clauses l e = Some true ↔ Forall (λ c : condition, c e = Some true) l.
Proof.
  induction l as [|c l IH]; [by split; intros; [constructor|]|]. rewrite Forall_cons, <- IH.
  cbn [clauses]. unfold c_and. destruct (c e) as [[]|]; naive_solver.
Qed.
Lemma c_not_true (c : condition) e : c_not c e = Some true ↔ c e = Some false.
Proof. unfold c_not. destruct (c e) as [[]|]; naive_solver. Qed.

Lemma auth_level_AAL3 n : auth_level_to_str n = "AAL3" ↔ n = 3.
Proof. split; [|by intros ->]. by destruct n as [|[[]|[]|]|]. Qed.

Section conditions.
Variables (e : env) (n : connection).
Hypothesis Hn : shows e n.

Lemma db_connect_eq : db_connect e = Some (bool_decide (cn_verb n = "db.connect")).
Proof.
  unfold db_connect, scope. rewrite (sh_principal _ _ Hn), (sh_action _ _ Hn), (sh_resource _ _ Hn).
  cbn. rewrite andb_true_r. f_equal. apply bool_decide_ext.
  split; [by intros [= ?] | by intros ->].
Qed.
Lemma in_production_eq : in_production e = Some (bool_decide (cn_environment n = "production")).
Proof. unfold in_production, c_eq, resource_attr. by rewrite (sh_environment _ _ Hn). Qed.
Lemma same_domain_eq : same_domain e =
  Some (bool_decide (pr_authority_domain (cn_principal n) = rs_authority_domain (cn_resource n))).
Proof.
  unfold same_domain, c_eq, principal_attr, resource_attr. by rewrite (sh_domain _ _ Hn), (sh_zone _ _ Hn).
Qed.
Lemma is_aal3_eq : is_aal3 e = Some (aal (cn_principal n) =? 3).
Proof.
  unfold is_aal3, c_eq, principal_attr. rewrite (sh_aal _ _ Hn). cbn. f_equal.
  apply eq_true_iff_eq. by rewrite bool_decide_eq_true, auth_level_AAL3, Z.eqb_eq.
Qed.
Lemma has_ticket_eq : has_ticket e = Some (negb (bool_decide (ticket_ref (cn_context n) = ""))).
Proof. unfold has_ticket, c_neq, c_not, c_eq, context_attr. by rewrite (sh_ticket _ _ Hn). Qed.
Lemma has_approval_eq : has_approval e = Some (negb (len (approvals (cn_context n)) =? 0)).
Proof.
  destruct (sh_approvals _ _ Hn) as (l & Hl & Hnil). unfold has_approval, c_not, is_empty, context_attr.
  rewrite Hl. cbn. do 2 f_equal. apply eq_true_iff_eq. rewrite bool_decide_eq_true, Hnil, Z.eqb_eq.
  unfold len. destruct (approvals _); simpl; split; (done || lia).
Qed.
(** A difference beyond 64 bits is an error, hence no permission. *)
Lemma fresh_posture_true :
  fresh_posture e = Some true ↔ cn_evaluated_at n ≤ cn_requested_at n ≤ cn_evaluated_at n + 3600.
Proof.
  destruct (sh_evaluated _ _ Hn) as (m & Hm & Hev).
  unfold fresh_posture, c_and, c_le, minus, dot, context_attr, number.
  rewrite Hm, (sh_requested _ _ Hn). cbn. rewrite Hev. cbn.
  destruct (cn_evaluated_at n <=? cn_requested_at n) eqn:Hle; [|naive_solver lia].
  destruct (between _ _ _) eqn:Hb; cbn.
  - split; [intros [= ?]; lia | intros ?; f_equal; lia].
  - split; [done|]. unfold between, i64_min, i64_max in Hb. lia.
Qed.

Lemma permit_iff : p_condition db_connect_production e = Some true ↔ grants n.
Proof.
  unfold db_connect_production, grants. cbn [p_condition]. rewrite clauses_true, !Forall_cons.
  rewrite db_connect_eq, in_production_eq, same_domain_eq, is_aal3_eq, has_ticket_eq, has_approval_eq,
    fresh_posture_true.
  rewrite len_eqb_nil.
  split.
  - intros ([= ?] & [= ?] & [= ?] & [= ?] & [= ?] & [= ?] & [? ?] & _). bool_simp.
    split_and!; done.
  - intros (-> & -> & -> & -> & ? & ? & ?). repeat (case_bool_decide; try done).
Qed.

Lemma guardrails_violated :
  map p_id (filter (λ p, p_effect p = Forbid ∧ p_condition p e = Some true) corpus) = violated n.
Proof.
  assert (∀ p l, p_effect p = Forbid →
    map p_id (filter (λ p, p_effect p = Forbid ∧ p_condition p e = Some true) (p :: l)) =
    (if bool_decide (p_condition p e = Some true) then [p_id p] else []) ++
    map p_id (filter (λ p, p_effect p = Forbid ∧ p_condition p e = Some true) l)) as Hcons.
  { intros p l Hp. case_bool_decide; [rewrite filter_cons_True by done | rewrite filter_cons_False by naive_solver]; done. }
  unfold corpus, guardrails, violated. rewrite filter_cons_False by naive_solver.
  rewrite !Hcons by done. rewrite app_nil_r. f_equal; [|f_equal].
  all: unfold guardrail_aal3, guardrail_domain, guardrail_ticket_and_approval; cbn [p_condition p_id clauses];
    unfold c_and, c_not; rewrite ?db_connect_eq, ?in_production_eq, ?same_domain_eq, ?is_aal3_eq,
      ?has_ticket_eq, ?has_approval_eq.
  all: destruct (bool_decide (cn_verb n = _)); try reflexivity.
  - by destruct (bool_decide (cn_environment n = _)), (aal _ =? _).
  - by destruct (bool_decide (pr_authority_domain _ = _)).
  - by destruct (bool_decide (cn_environment n = _)), (bool_decide (ticket_ref _ = _)), (len _ =? _).
Qed.
End conditions.

(** The guardrails, read from what they leave. *)
Lemma guarded_iff n : cn_verb n = "db.connect" → violated n = [] ↔ guarded n.
Proof.
  intros Hv. unfold violated, guarded. rewrite len_eqb_nil, (bool_decide_true (cn_verb n = _)) by done. cbn [andb].
  split.
  - intros [H1 [H2 H3]%app_eq_nil]%app_eq_nil.
    destruct (bool_decide (pr_authority_domain _ = _)) eqn:Hd; [|done]. split; [by bool_simp|]. intros Hp.
    rewrite bool_decide_true in H1, H3 by done.
    destruct (aal _ =? 3) eqn:Ha; [|done]. destruct (bool_decide (ticket_ref _ = _)) eqn:Ht; [done|].
    destruct (bool_decide (approvals _ = _)) eqn:Hap; [done|]. by bool_simp.
  - intros [-> Hp]. rewrite (bool_decide_true (rs_authority_domain _ = _)) by done. cbn [negb app].
    case_bool_decide; [|done]. destruct Hp as (-> & ? & ?); [done|]. by rewrite !bool_decide_false.
Qed.

Lemma grants_violates_none n : grants n → violated n = [].
Proof. intros (Hv & He & Hd & Ha & Ht & Hap & _). apply guarded_iff; [done|]. by split. Qed.

(** ** The policies of an answer *)

Section answers.
Context `{S : CedarSemantics} `{O : SetOrder}.

Definition holding (eff : policy_effect) (e : env) (l : list policy) : list policy :=
  filter (λ p, p_effect p = eff ∧ p_condition p e = Some true) l.

Lemma holding_ids eff e (l : list (string * policy)) (f : string → string) :
  (∀ i p, (i, p) ∈ l → f i = p_id p) →
  map f (filter (λ ip, p_effect ip.2 = eff ∧ p_condition ip.2 e = Some true) l).*1 =
  map p_id (holding eff e l.*2).
Proof.
  unfold holding. induction l as [|[i p] l IH]; intros Hf; [done|]. rewrite fmap_cons.
  assert (∀ i p, (i, p) ∈ l → f i = p_id p) as Hl by (intros; apply Hf; by right). specialize (IH Hl).
  destruct (base.decide (p_effect p = eff ∧ p_condition p e = Some true)) as [Hd|Hd].
  - rewrite !filter_cons_True by done. rewrite fmap_cons. cbn [map fst snd]. rewrite IH. f_equal.
    apply Hf. by left.
  - by rewrite !filter_cons_False by done.
Qed.

Lemma reason_of_id ps i p : (i, p) ∈ policies_of ps → reason_of ps i = p_id p.
Proof. intros Hip. by apply annotation_law. Qed.

Lemma filter_keys_NoDup {A B} (P : A * B → Prop) `{∀ x, Decision (P x)} l :
  NoDup l.*1 → NoDup (filter P l).*1.
Proof.
  induction l as [|x l IH]; intros Hl; [done|]. rewrite fmap_cons in Hl. apply NoDup_cons in Hl as [Hx Hl].
  destruct (base.decide (P x)); [rewrite filter_cons_True by done | rewrite filter_cons_False by done; by apply IH].
  rewrite fmap_cons. apply NoDup_cons. split; [|by apply IH].
  rewrite list_elem_of_fmap. intros (y & Heq & [_ Hy]%list_elem_of_filter). apply Hx.
  rewrite Heq. by apply list_elem_of_fmap_2.
Qed.

(** The reasons listed for the policies of one effect are their [@id]s, in some order. *)
Lemma satisfied_reasons eff e ps :
  map (reason_of ps) (iter_set (satisfied eff e (policies_of ps))) ≡ₚ
  map p_id (holding eff e (policies_of ps).*2).
Proof.
  unfold satisfied. rewrite iter_set_perm, elements_list_to_set.
  - by rewrite (holding_ids _ _ _ (reason_of ps) (reason_of_id ps)).
  - apply filter_keys_NoDup, (ids_distinct ps).
Qed.

Lemma satisfied_empty eff e ps :
  satisfied eff e (policies_of ps) = ∅ ↔ holding eff e (policies_of ps).*2 = [].
Proof.
  pose proof (holding_ids eff e (policies_of ps) (reason_of ps)) as Hids. unfold satisfied.
  assert (∀ l : list string, list_to_set (C := gset string) l = ∅ ↔ l = []) as Hset.
  { intros l. split; [|by intros ->]. destruct l; [done | set_solver]. }
  rewrite Hset. split; intros Hnil.
  - destruct (holding _ _ _) as [|p l]; [done|]. rewrite Hnil in Hids. discriminate (Hids (reason_of_id ps)).
  - rewrite Hnil in Hids. by eapply map_eq_nil, Hids, reason_of_id.
Qed.

(** The answer to an evaluated request. *)
Lemma authorized e l0 s q ps es :
  from_entities l0 s = inl es → env_at (request_of q) (entities_of es) = e →
  let l := (policies_of ps).*2 in
  let d := is_authorized q ps es in
  (d.1 = CedarAllow ↔ holding Permit e l ≠ [] ∧ holding Forbid e l = []) ∧
  map (reason_of ps) (iter_set d.2) ≡ₚ
    map p_id (holding (match d.1 with CedarAllow => Permit | CedarDeny => Forbid end) e l).
Proof.
  intros Hes He. cbn zeta. rewrite (authorize_law _ _ _ _ _ Hes), He. unfold authorize.
  pose proof (satisfied_empty Permit e ps) as Hp. pose proof (satisfied_empty Forbid e ps) as Hf.
  destruct (bool_decide (satisfied Permit e (policies_of ps) = ∅)) eqn:H1; bool_simp; cbn [orb fst snd].
  - split; [naive_solver | apply satisfied_reasons].
  - destruct (bool_decide (satisfied Forbid e (policies_of ps) = ∅)) eqn:H2; bool_simp; cbn [negb fst snd];
      (split; [naive_solver | apply satisfied_reasons]).
Qed.

Lemma holding_nil eff e l :
  holding eff e l = [] ↔ ∀ p, p ∈ l → p_effect p = eff → p_condition p e ≠ Some true.
Proof.
  unfold holding. split.
  - intros Hnil p Hp He Hc. by eapply (filter_nil_not_elem_of _ _ p Hnil).
  - intros Hall. destruct (filter _ l) as [|p k] eqn:Hk; [done|].
    assert (p ∈ filter (λ p, p_effect p = eff ∧ p_condition p e = Some true) l) as Hp by (rewrite Hk; by left).
    apply list_elem_of_filter in Hp as [[??] ?]. by destruct (Hall p).
Qed.

Lemma holding_permit e :
  holding Permit e corpus =
  if bool_decide (p_condition db_connect_production e = Some true) then [db_connect_production] else [].
Proof.
  unfold holding, corpus, guardrails. rewrite !filter_cons. case_bool_decide as Hc.
  - destruct (base.decide _) as [_|Hn]; [done | by destruct Hn].
  - destruct (base.decide _) as [[_ ?]|_]; done.
Qed.

#[export] Instance holding_perm eff e : Proper ((≡ₚ) ==> (≡ₚ)) (holding eff e).
Proof. intros l k Hlk. unfold holding. by rewrite Hlk. Qed.
End answers.

(** ** Theorems *)

Section theorems.
Context {HC : Cedar} `{S : !CedarSemantics HC, HS : SerdeJson, HA : AwsLc, HO : SetOrder}.

Lemma allow_needs_ok {E} (self : Pdp) r resp :
  distinct_attributes r → decide (E := E) self r = Ok resp → effect resp = effect_i32 Allow →
  pinned self r ∧ ∃ q es, translate r (schema self) = Ok (q, es).
Proof.
  intros Hd Hdec Ha. rewrite decide_eq in Hdec by done. injection Hdec as <-.
  case_bool_decide; [|done]. split; [done|]. destruct (translate _ _) as [[q es]|e|]; [by eexists _, _|done..].
Qed.

(** What [decide] answers to a request that Cedar evaluates. *)
Lemma decide_evaluated {E} (self : Pdp) r resp q es n :
  distinct_attributes r → decide (E := E) self r = Ok resp → pinned self r →
  translate r (schema self) = Ok (q, es) → connection_of r n →
  ∃ e, shows e n ∧
    let l := (policies_of (policies self)).*2 in
    (effect resp = effect_i32 Allow ↔ holding Permit e l ≠ [] ∧ holding Forbid e l = []) ∧
    reasons resp ≡ₚ
      map p_id (holding (if bool_decide (effect resp = effect_i32 Allow) then Permit else Forbid) e l).
Proof.
  intros Hd Hdec Hp Ht Hn. rewrite decide_eq, bool_decide_true, Ht in Hdec by done. injection Hdec as <-.
  destruct (translated_shows _ _ _ _ Ht) as (n' & Hn' & Hs & l0 & Hes).
  rewrite (connection_unique _ _ _ Hn' Hn) in Hs. eexists. split; [exact Hs|].
  destruct (authorized _ _ _ q (policies self) es Hes eq_refl) as [Hallow Hr]. cbn zeta. unfold evaluated. cbn [effect reasons].
  destruct (is_authorized q (policies self) es).1; cbn [effect_i32] in *.
  - rewrite bool_decide_true by done. split; [naive_solver | done].
  - rewrite bool_decide_false by done. split; [naive_solver | done].
Qed.

(** C10. The access decision of the shipped corpus.  A decision point loaded with the four
    policies of [policies/access] allows a request exactly when its version is not another
    one, Cedar accepts it, and it is a [db.connect] to a production database of the
    principal's own authority domain, by a principal at AAL3, with a ticket, at least one
    approval, and a posture evaluated at most 3600 seconds before the request and not after
    it.  An [ALLOW] names [db-connect-production] as its only reason; a refusal of a request
    that Cedar evaluated names exactly the guardrails that the request violates, in some
    order. *)
Theorem database_decision {E} (self : Pdp) r resp
    (Hcorpus : (policies_of (policies self)).*2 ≡ₚ corpus)
    (Hd : distinct_attributes r) (Hdec : decide (E := E) self r = Ok resp) :
  (effect resp = effect_i32 Allow ↔
     pinned self r ∧ is_ok (translate r (schema self)) = true ∧
     ∃ n, connection_of r n ∧ grants n) ∧
  (effect resp = effect_i32 Allow → reasons resp = ["db-connect-production"]) ∧
  (∀ n, pinned self r → is_ok (translate r (schema self)) = true → connection_of r n →
     effect resp ≠ effect_i32 Allow → reasons resp ≡ₚ violated n).
Proof.
  assert (Heval : ∀ q es n, pinned self r → translate r (schema self) = Ok (q, es) → connection_of r n →
    (effect resp = effect_i32 Allow ↔ grants n) ∧
    reasons resp ≡ₚ if bool_decide (effect resp = effect_i32 Allow)
                    then ["db-connect-production"] else violated n).
  { intros q es n Hp Ht Hn. destruct (decide_evaluated self r resp q es n Hd Hdec Hp Ht Hn) as (e & He & Hiff & Hr).
    assert (holding Forbid e (policies_of (policies self)).*2 ≡ₚ holding Forbid e corpus) as Hf by (by rewrite Hcorpus).
    assert (holding Permit e (policies_of (policies self)).*2 ≡ₚ holding Permit e corpus) as Hq by (by rewrite Hcorpus).
    pose proof (guardrails_violated e n He) as Hv. pose proof (permit_iff e n He) as Hperm.
    pose proof (holding_permit e) as Hone.
    split.
    - rewrite Hiff, <- Hperm. split.
      + intros [Hne _]. rewrite Hone in Hq. case_bool_decide; [done|].
        by apply Permutation_nil_r in Hq.
      + intros Hc. rewrite Hone, bool_decide_true in Hq by done. split.
        * intros Hnil. rewrite Hnil in Hq. by apply Permutation_nil_cons in Hq.
        * apply Hperm in Hc. rewrite (grants_violates_none n Hc) in Hv.
          apply map_eq_nil in Hv. unfold holding in Hf. rewrite Hv in Hf.
          by apply Permutation_nil_r.
    - rewrite Hr. destruct (bool_decide (effect resp = _)) eqn:Ha; rewrite ?Hf, ?Hq.
      + apply bool_decide_eq_true, Hiff in Ha as [Hne _]. rewrite Hone in *. case_bool_decide; [done|].
        by apply Permutation_nil_r in Hq.
      + by rewrite <- Hv. }
  split_and!.
  - split.
    + intros Ha. destruct (allow_needs_ok self r resp Hd Hdec Ha) as (Hp & q & es & Ht).
      destruct (translated_shows _ _ _ _ Ht) as (n & Hn & _). split; [done|]. rewrite Ht. split; [done|].
      exists n. split; [done|]. by apply (Heval q es n Hp Ht Hn).
    + intros (Hp & Hok & n & Hn & Hg). destruct (translate r (schema self)) as [[q es]|e|] eqn:Ht; [|done..].
      by apply (Heval q es n Hp eq_refl Hn).
  - intros Ha. destruct (allow_needs_ok self r resp Hd Hdec Ha) as (Hp & q & es & Ht).
    destruct (translated_shows _ _ _ _ Ht) as (n & Hn & _).
    destruct (Heval q es n Hp Ht Hn) as [_ Hr]. rewrite bool_decide_true in Hr by done.
    symmetry in Hr. by apply Permutation_length_1_inv in Hr.
  - intros n Hp Hok Hn Hno. destruct (translate r (schema self)) as [[q es]|e|] eqn:Ht; [|done..].
    destruct (Heval q es n Hp eq_refl Hn) as [_ Hr]. by rewrite bool_decide_false in Hr by done.
Qed.

(** C11. The guardrails bound every corpus: whatever other policies are loaded beside them,
    permits of any condition included, a decision point whose policies contain the three
    guardrails never allows a [db.connect] across authority domains, nor one to a production
    database without AAL3, a ticket and an approval. *)
Theorem guardrails_bound_every_corpus {E} (self : Pdp) r resp
    (Hguard : guardrails ⊆ (policies_of (policies self)).*2)
    (Hd : distinct_attributes r) (Hdec : decide (E := E) self r = Ok resp)
    (Hallow : effect resp = effect_i32 Allow) :
  ∃ n, connection_of r n ∧ (cn_verb n = "db.connect" → guarded n).
Proof.
  destruct (allow_needs_ok self r resp Hd Hdec Hallow) as (Hp & q & es & Ht).
  destruct (translated_shows _ _ _ _ Ht) as (n & Hn & _). exists n. split; [done|]. intros Hverb.
  destruct (decide_evaluated self r resp q es n Hd Hdec Hp Ht Hn) as (e & He & Hiff & _).
  apply Hiff in Hallow as [_ Hnone]. rewrite holding_nil in Hnone.
  apply (guarded_iff n Hverb). rewrite <- (guardrails_violated e n He).
  change (holding Forbid e corpus) with (filter (λ p, p_effect p = Forbid ∧ p_condition p e = Some true) corpus).
  enough (holding Forbid e corpus = []) as Hh by (unfold holding in Hh; by rewrite Hh).
  apply holding_nil. intros p Hp' Hf. apply Hnone; [|done]. unfold corpus in Hp'.
  apply elem_of_cons in Hp' as [->|Hp']; [done | by apply Hguard].
Qed.
End theorems.

(** ** The theorems at concrete inputs *)

(** A Cedar that is its own semantics: a policy set is a list of policies, numbered. *)
Definition numbered (ps : list policy) : list (string * policy) :=
  imap (λ i p, ("policy" +:+ pretty (N.of_nat i), p)) ps.

Lemma numbered_distinct ps : NoDup (numbered ps).*1.
Proof.
  unfold numbered. rewrite fmap_imap. apply NoDup_alt. intros i j k.
  rewrite !list_lookup_imap. intros (? & _ & Hi)%fmap_Some (? & _ & Hj)%fmap_Some. rewrite Hi in Hj.
  cbn in Hj. apply (inj (String.append "policy")), (inj pretty) in Hj. lia.
Qed.

#[export] Instance light_cedar : Cedar := {|
  Schema := unit; PolicySet := list policy; EntityTypeName := string; EntityUid := uid;
  RestrictedExpression := cvalue; Entity := uid * gmap string cvalue;
  Entities := gmap uid (gmap string cvalue); CedarContext := list (string * cvalue);
  CedarRequest := uid * uid * uid * list (string * cvalue);
  schema_from_json_str _ := inl tt; parse_policies _ := inl corpus; parse_type_name := inl;
  from_type_name_and_id t i := (t, i);
  new_string := CvString; new_long := CvLong; new_bool := CvBool; new_set := CvSet;
  new_record m := inl (CvRecord m); entity_new u attrs := inl (u, attrs);
  from_entities l _ :=
    if bool_decide (NoDup l.*1) then inl (list_to_map l) else inr "duplicate entity";
  context_from_pairs := inl; request_new p a r c _ := inl (p, a, r, c);
  is_authorized q ps es := authorize (numbered ps) (env_at q es);
  annotation ps i k := if bool_decide (k = "id") then p_id <$> map_get i (numbered ps) else None;
|}.

Lemma same_pairs {A} (m : list (string * A)) : map (λ kv, (kv.1, kv.2)) m = m.
Proof. induction m as [|[k v] m IH]; [done|]. simpl. by rewrite IH. Qed.

#[export] Program Instance light_semantics : CedarSemantics light_cedar := {|
  uid_of u := u; value_of v := v; entity_of e := e; entities_of es := es; context_of c := c;
  request_of q := q; policies_of := numbered |}.
Next Obligation. by intros s i t [= <-]. Qed.
Next Obligation. done. Qed.
Next Obligation. done. Qed.
Next Obligation. done. Qed.
Next Obligation. intros l. change (CvSet l = CvSet (map id l)). by rewrite map_id. Qed.
Next Obligation. intros m v [= <-]. cbn. by rewrite same_pairs. Qed.
Next Obligation. intros u attrs e [= <-]. cbn. f_equal. symmetry. apply map_fmap_id. Qed.
Next Obligation.
  intros l s es e. cbn. case_bool_decide as Hl; [|done]. intros [= <-] He.
  apply elem_of_list_to_map_1; [done|]. by destruct e.
Qed.
Next Obligation. intros m c [= <-]. cbn. by rewrite same_pairs. Qed.
Next Obligation. by intros p a r c s q [= <-]. Qed.
Next Obligation. apply numbered_distinct. Qed.
Next Obligation. done. Qed.
Next Obligation.
  intros ps i p Hp. cbn. by rewrite (map_get_Some i p) by (apply numbered_distinct || done).
Qed.

Definition light_pdp (ps : list policy) : Pdp := {| schema := tt; policies := ps; pdp_policy_version := "v" |}.

Definition ref_connection : connection := {|
  cn_principal := {| subject_id := "sub-6b2f9c"; aal := 3; auth_method := "webauthn/device-bound";
    authenticated_at := at_time 1787500680 0; roles := ["dba"]; pr_authority_domain := "corp.eu-west" |};
  cn_verb := "db.connect";
  cn_resource := {| rtype := "Database"; rid := "db-billing-prod"; rs_authority_domain := "corp.eu-west";
    attributes := ref_attrs |};
  cn_environment := "production";
  cn_context := {| requested_at := at_time 1787500800 0; source_network := "10.42.0.0/16";
    posture := Some {| managed := true; disk_encrypted := true; agent_version := "2.4.1";
      evaluated_at := at_time 1787499000 0 |};
    ticket_ref := "INC-482913"; justification := "incident";
    approvals := [{| approver_id := "sub-a1f2e8"; approved_at := at_time 1787500200 0; ap_signature := [] |}] |};
  cn_requested_at := 1787500800; cn_evaluated_at := 1787499000 |}.

Lemma ref_connection_of : connection_of (ref_request 0 [] ref_attrs) ref_connection.
Proof. by split. Qed.
Lemma ref_connection_granted : grants ref_connection.
Proof. unfold grants. simpl. split_and!; done. Qed.

(** A permit without conditions, beside the guardrails. *)
Definition permit_all : policy := {|
  p_id := "permit-all"; p_effect := Permit; p_condition := clauses [db_connect] |}.

Lemma light_corpus : (policies_of (policies (light_pdp corpus))).*2 ≡ₚ corpus.
Proof. reflexivity. Qed.

(** What a decision point with these policies answers to the nominal request. *)
Definition light_response (ps : list policy) (h : bytes) : DecisionResponse :=
  match translate (ref_request 0 [] ref_attrs) (schema (light_pdp ps)) with
  | Ok (q, es) => evaluated (light_pdp ps) h q es
  | _ => deny [] h ""
  end.
Definition ref_digest : bytes := request_digest (ref_request 0 [] ref_attrs).

Lemma ref_distinct : distinct_attributes (ref_request 0 [] ref_attrs).
Proof. by apply ref_request_distinct. Qed.

Lemma light_decides ps :
  decide (E := unit) (light_pdp ps) (ref_request 0 [] ref_attrs) = Ok (light_response ps ref_digest).
Proof.
  rewrite (decide_eq _ _ ref_distinct), bool_decide_true by (by left). apply (f_equal Ok).
  unfold light_response, ref_digest. generalize (request_digest (ref_request 0 [] ref_attrs)). intros h.
  assert (∃ qe, translate (ref_request 0 [] ref_attrs) (schema (light_pdp ps)) = Ok qe) as [[q es] ->]; [|done].
  by eexists.
Qed.

Lemma light_response_allows ps :
  ps = corpus ∨ ps = permit_all :: guardrails → ∀ h, effect (light_response ps h) = effect_i32 Allow.
Proof. intros [-> | ->] h; vm_compute; reflexivity. Qed.

Lemma database_decision_witness :
  ∃ resp, decide (E := unit) (light_pdp corpus) (ref_request 0 [] ref_attrs) = Ok resp ∧
    effect resp = effect_i32 Allow ∧ reasons resp = ["db-connect-production"].
Proof.
  exists (light_response corpus ref_digest). split; [exact (light_decides corpus)|].
  destruct (database_decision (E := unit) (light_pdp corpus) _ _ light_corpus ref_distinct (light_decides corpus))
    as (Hiff & Hr & _).
  assert (Ha : effect (light_response corpus ref_digest) = effect_i32 Allow).
  { apply Hiff. split; [by left|]. split; [reflexivity|].
    exists ref_connection. split; [exact ref_connection_of | exact ref_connection_granted]. }
  split; [exact Ha | exact (Hr Ha)].
Defined.

Lemma guardrails_bound_every_corpus_witness :
  ∃ resp, decide (E := unit) (light_pdp (permit_all :: guardrails)) (ref_request 0 [] ref_attrs) = Ok resp ∧
    effect resp = effect_i32 Allow ∧
    ∃ n, connection_of (ref_request 0 [] ref_attrs) n ∧ (cn_verb n = "db.connect" → guarded n).
Proof.
  exists (light_response (permit_all :: guardrails) ref_digest).
  pose proof (light_response_allows _ (or_intror eq_refl) ref_digest) as Ha.
  split; [exact (light_decides _)|]. split; [exact Ha|].
  refine (guardrails_bound_every_corpus (E := unit) (light_pdp (permit_all :: guardrails)) _ _ _
    ref_distinct (light_decides _) Ha).
  change ((policies_of _).*2) with (permit_all :: guardrails).
  intros p Hp. by right.
Defined.
