(* ===== verification/TestKit.v ===== *)
(** * What the repository's unit tests use

    The files [Unit*] are the [mod tests] of the crates, translated like the code and run on
    the model: a test is a computation that panics when an assertion fails.  The assertions
    of Rust, the text functions of the tests, and the one crate they use for themselves
    ([p256], a class) are here.  The tests are evaluated with a small digest and signature
    ([light_aws], [light_p256]): what they test does not depend on the strength of either. *)

From S2P Require Import Prelude.
From S2P Require Import Json.
From S2P Require Import JsonCodec.
From S2P Require Import Aws.
From S2P Require Import Common.

(** ** Assertions *)

Abbreviation test := (res unit unit).

Definition assert (b : bool) : test := if b then Ok tt else Panic.
Definition assert_eq {A} `{EqDecision A} (a b : A) : test := assert (bool_decide (a = b)).
Definition assert_ne {A} `{EqDecision A} (a b : A) : test := assert (negb (bool_decide (a = b))).
Definition is_err {A E} (r : res A E) : bool := match r with Err _ => true | _ => false end.
(** [Result::unwrap_err] *)
Definition unwrap_err {A E F} (r : res A E) : res E F := match r with Err e => Ok e | _ => Panic end.

Definition passes (t : test) : bool := match t with Ok _ => true | _ => false end.

#[export] Instance res_eq_dec {A E} `{EqDecision A, EqDecision E} : EqDecision (res A E).
Proof. solve_decision. Defined.
#[export] Instance field_error_eq_dec : EqDecision FieldError.
Proof. solve_decision. Defined.

(** ** Texts *)

(** The texts of the tests hold double quotes: written as apostrophes. *)
Definition dq (s : string) : string :=
  from_utf8_bytes (map (λ c, if bool_decide (c = "'"%char) then quote else c) (as_bytes s)).

Fixpoint strip_prefix (pat l : bytes) : option bytes :=
  match pat, l with
  | [], _ => Some l
  | p :: pat', c :: l' => if bool_decide (p = c) then strip_prefix pat' l' else None
  | _ :: _, [] => None
  end.

(** [str::replacen(pat, to, 1)] *)
Fixpoint replacen1 (pat to l : bytes) : bytes :=
  match strip_prefix pat l with
  | Some rest => to ++ rest
  | None => match l with [] => [] | c :: l' => c :: replacen1 pat to l' end
  end.

(** [str::find] *)
Fixpoint find_text (pat l : bytes) : option nat :=
  match strip_prefix pat l with
  | Some _ => Some 0%nat
  | None => match l with [] => None | _ :: l' => S <$> find_text pat l' end
  end.

(** [str::contains] *)
Definition contains (pat l : bytes) : bool := bool_decide (is_Some (find_text pat l)).

(** ** The crate [p256] of the tests' signers *)

Class P256Crate := {
  (** [SigningKey::from_bytes(k).verifying_key().to_encoded_point(false)] *)
  encoded_point : bytes → bytes;
  (** [SigningKey::from_bytes(k).sign_prehash(digest)] *)
  sign_prehash : bytes → bytes → bytes;
}.

(** ** A light instance *)

Definition light_digest (m : bytes) : bytes :=
  to_be_bytes 32 (fold_left (λ acc b, (acc * 257 + u8_val b + 1) mod 2 ^ 24) m 0).

#[export] Program Instance light_aws : AwsLc := {|
  sha256_digest := light_digest;
  p256_verify key message sig := bool_decide (sig = light_digest message ++ take 32 (drop 1 key));
  ed25519_verify key message sig := bool_decide (sig = light_digest message ++ take 32 key);
|}.
Next Obligation. intros m. apply length_to_be_bytes. Qed.

#[export] Instance light_p256 : P256Crate := {|
  encoded_point k := u8_of 4 :: k ++ k;
  sign_prehash k digest := digest ++ k;
|}.

(** The reference printer and parser, with the white space of JSON: it is dropped beside a
    bracket, a comma, a colon or an end of the text, and nowhere else. *)
Definition is_ws (c : ascii) : bool := bool_decide (u8_val c ∈ [9; 10; 13; 32]).
Definition structural (c : ascii) : bool := bool_decide (c ∈ ["["; "]"; "{"; "}"; ","; ":"]%char).

Fixpoint skip_ws (l : bytes) : bytes :=
  match l with c :: l' => if is_ws c then skip_ws l' else l | [] => [] end.

(** [after]: white space may be dropped here; [in_string]: inside a string; [esc]: after a
    backslash. *)
Fixpoint compact (after in_string esc : bool) (l : bytes) : bytes :=
  match l with
  | [] => []
  | c :: l' =>
      if in_string then
        c :: compact false (esc || negb (bool_decide (c = quote)))
               (negb esc && bool_decide (c = backslash)) l'
      else if is_ws c then
        let droppable := after || match skip_ws l' with [] => true | d :: _ => structural d end in
        if droppable then compact after false false l' else c :: compact false false false l'
      else c :: compact (structural c) (bool_decide (c = quote)) false l'
  end.

#[export] Instance light_json : SerdeJson := {|
  to_vec := print; from_slice bs := parse_all (compact true false false bs) |}.
