(* ===== verification/IdpRun.v ===== *)
(** * An environment that runs the identity provider

    [IdpSystem.answers] says what each call of a handler may be answered.  Here is one
    environment among those it allows, as a function: nothing is lost, the clocks stand
    where they are set, the identifiers and the generator advance at each draw.  [exec] runs
    a handler against it, to its end: a program is a finite tree.  [exec_step] is the
    refinement that makes such an execution worth looking at: it is an execution of the
    system, so what is computed here is reached by [IdpSystem.step].  The ceremonies of
    [UnitIntegration] are computed by [exec]. *)

From S2P Require Import Prelude.
From S2P Require Import Effects.
From S2P Require Import Json.
From S2P Require Import Serde.
From S2P Require Import JsonCodec.
From S2P Require Import Aws.
From S2P Require Import Common.
From S2P Require Import Signer.
From S2P Require Import IdentityAssertion.
From S2P Require Import AuditSeal.
From S2P Require Import AuthProof.
From S2P Require Import ClientData.
From S2P Require Import Cose.
From S2P Require Import IdpStore.
From S2P Require Import IdpHttp.
From S2P Require Import IdpSpec.
From S2P Require Import IdpSystem.

(** The crate [uuid]: [Uuid::now_v7().to_string()], from a count of the draws made. *)
Class UuidCrate := { now_v7 : Z → string; now_v7_ok n : uuid_ok true (now_v7 n) = true }.

Section run.
Context `{SerdeJson, Base64, AwsLc, Ciborium, Coset, ScanOrder, PgConversions, UuidCrate}.
Context {P R : Type} `{HsmSigner P, Csprng R}.
Variable state : AppState.
Variables (asealer : AssertionSealer P) (esealer : AuditSealer P).

(** What surrounds the service: the tables, the generator, the two session pools, the host's
    clock in seconds, the server's in microseconds, the number of identifiers drawn. *)
Record world := {
  w_db : Db;
  w_rng : R;
  w_assertion_pool : P;
  w_audit_pool : P;
  w_clock : Z;
  w_pg_now : Z;
  w_uuids : Z;
}.

Definition with_db (w : world) (d : Db) : world := {|
  w_db := d; w_rng := w_rng w; w_assertion_pool := w_assertion_pool w;
  w_audit_pool := w_audit_pool w; w_clock := w_clock w; w_pg_now := w_pg_now w;
  w_uuids := w_uuids w |}.
Definition with_rng (w : world) (r : R) : world := {|
  w_db := w_db w; w_rng := r; w_assertion_pool := w_assertion_pool w;
  w_audit_pool := w_audit_pool w; w_clock := w_clock w; w_pg_now := w_pg_now w;
  w_uuids := w_uuids w |}.
Definition with_pools (w : world) (p q : P) : world := {|
  w_db := w_db w; w_rng := w_rng w; w_assertion_pool := p; w_audit_pool := q;
  w_clock := w_clock w; w_pg_now := w_pg_now w; w_uuids := w_uuids w |}.
Definition next_uuid (w : world) : world := {|
  w_db := w_db w; w_rng := w_rng w; w_assertion_pool := w_assertion_pool w;
  w_audit_pool := w_audit_pool w; w_clock := w_clock w; w_pg_now := w_pg_now w;
  w_uuids := w_uuids w + 1 |}.

(** A statement: its tables and its answer. *)
Definition stmt {A} (w : world) (done : Db * A) : world * A := (with_db w done.1, done.2).

Definition serve_call (w : world) (c : idp_call) : world * idp_answer c :=
  match c return world * idp_answer c with
  | NewChallenge => let '(r, x) := new_challenge (w_rng w) in (with_rng w r, x)
  | Clock => (w, w_clock w)
  | NowV7 => (next_uuid w, now_v7 (w_uuids w))
  | IssueChallenge ch s k ttl => stmt w (issue_challenge (w_pg_now w) (w_db w) ch s k ttl)
  | ConsumeChallenge ch k => stmt w (consume_challenge (w_pg_now w) (w_db w) ch k)
  | InsertAuthenticator s id a pk n g fmt sup =>
      stmt w (insert_authenticator (w_pg_now w) (w_db w) s id a pk n g fmt sup)
  | FindAuthenticator id => stmt w (w_db w, find_authenticator (w_db w) id)
  | CredentialIdsForSubject s => stmt w (w_db w, credential_ids_for_subject (w_db w) s)
  | AdvanceSignCount id n => stmt w (advance_sign_count (w_db w) id n)
  | GetChainHead dom => stmt w (w_db w, chain_head (w_db w) dom)
  | Append id n at_ dom ty actor out ph sig bs =>
      stmt w (append (w_db w) id n at_ dom ty actor out ph sig bs)
  | SealAssertion claims =>
      let '(p, x) := IdentityAssertion.seal (assertion_sealer_at asealer (w_assertion_pool w)) claims in
      (with_pools w p (w_audit_pool w), x)
  | SealEvent fields =>
      let '(q, x) := AuditSeal.seal (audit_sealer_at esealer (w_audit_pool w)) fields in
      (with_pools w (w_assertion_pool w) q, x)
  end.

Fixpoint exec {A} (w : world) (p : prog A) : world * A :=
  match p with
  | Ret a => (w, a)
  | Call c k => let '(w', x) := serve_call w c in exec w' (k x)
  end.

(** One request, by the router. *)
Definition oneshot (w : world) (r : ApiRequest) : world * res ApiResponse ApiError :=
  exec w (router state r).

(** ** This environment is one of those of the system *)

Abbreviation answers := (IdpSystem.answers (P := P) (R := R) asealer esealer).
Abbreviation answered := (IdpSystem.answered (P := P) (R := R) asealer esealer).
Abbreviation step := (IdpSystem.step (P := P) (R := R) state asealer esealer).

Lemma stmt_lossy {A} w (done : Db * res A SqlxError) :
  lossy (w_db w) done (stmt w done).2 (w_db (stmt w done).1).
Proof. left. by destruct done. Qed.

Lemma serve_call_answers w c : answers (w_db w) c (serve_call w c).2 (w_db (serve_call w c).1).
Proof.
  destruct c; unfold answers; cbn [serve_call]; try (exists (w_pg_now w)); try apply stmt_lossy.
  - destruct (new_challenge (w_rng w)) as [r x] eqn:Hr. split; [done|]. exists (w_rng w). by rewrite Hr.
  - done.
  - split; [done|]. apply now_v7_ok.
  - destruct (IdentityAssertion.seal _ _) as [p x] eqn:Hs. split; [done|]. right.
    exists (w_assertion_pool w). by rewrite Hs.
  - destruct (AuditSeal.seal _ _) as [q x] eqn:Hs. split; [done|]. right.
    exists (w_audit_pool w). by rewrite Hs.
Qed.

Lemma exec_run {A} (p : prog A) w :
  ∃ tr, run p tr (Ret (exec w p).2) ∧ answered (w_db w) tr (w_db (exec w p).1).
Proof.
  revert w. induction p as [a|c k IH]; intros w.
  - exists []. split; [constructor|done].
  - cbn [exec]. pose proof (serve_call_answers w c) as Hans.
    destruct (serve_call w c) as [w' x]. destruct (IH x w') as (tr & Hrun & Htr).
    exists (Ev c x :: tr). split; [by constructor|]. by exists (w_db w').
Qed.

(** A request that is run here is served by the system: it arrives as a new thread, which
    makes all its calls and ends with the same answer on the same tables. *)
Theorem exec_step s w r :
  db s = w_db w →
  ∃ h, rtc step s {| db := w_db (oneshot w r).1; requests := requests s ++ [r];
                     threads := threads s ++ [Ret (oneshot w r).2]; history := history s ++ h |}.
Proof.
  intros Hdb. destruct (exec_run (router state r) w) as (tr & Hrun & Htr).
  eexists. eapply rtc_l; [apply (arrive state asealer esealer s r)|].
  match goal with |- rtc _ ?s1 _ =>
    pose proof (run_steps state asealer esealer s1 (length (threads s)) (router state r) tr) as Hsteps
  end. cbn [threads db history requests] in Hsteps.
  rewrite lookup_app_r, Nat.sub_diag in Hsteps by lia.
  specialize (Hsteps _ (w_db (oneshot w r).1) eq_refl Hrun). rewrite Hdb in Hsteps.
  specialize (Hsteps Htr). rewrite insert_app_r_alt, Nat.sub_diag in Hsteps by lia. rewrite Hdb. exact Hsteps.
Qed.

(** Requests one after the other, and the tables they leave: reached by the system. *)
Fixpoint sequence (w : world) (l : list ApiRequest) : world * list (res ApiResponse ApiError) :=
  match l with
  | [] => (w, [])
  | r :: l' => let '(w1, x) := oneshot w r in
               let '(w2, xs) := sequence w1 l' in (w2, x :: xs)
  end.

Lemma sequence_steps l s w :
  db s = w_db w →
  ∃ h, rtc step s {| db := w_db (sequence w l).1; requests := requests s ++ l;
                     threads := threads s ++ (Ret <$> (sequence w l).2); history := history s ++ h |}.
Proof.
  revert s w. induction l as [|r l IH]; intros s w Hdb.
  - exists []. cbn. rewrite !app_nil_r, <- Hdb. destruct s. constructor.
  - destruct (exec_step s w r Hdb) as [h Hs]. cbn [sequence].
    destruct (oneshot w r) as [w1 x] eqn:Hone. cbn [fst snd] in Hs.
    match type of Hs with rtc _ _ ?s1 => destruct (IH s1 w1 eq_refl) as [h' Hs'] end.
    exists (h ++ h'). destruct (sequence w1 l) as [w2 xs]. etrans; [exact Hs|].
    cbn [fst snd db requests threads history fmap list_fmap] in *.
    rewrite <- !app_assoc in Hs'. exact Hs'.
Qed.

Theorem sequence_reachable l w :
  ∃ s, IdpSystem.reachable state asealer esealer (R := R) (w_db w) s ∧
    db s = w_db (sequence w l).1 ∧ requests s = l ∧ threads s = Ret <$> (sequence w l).2.
Proof.
  destruct (sequence_steps l (initial (w_db w)) w eq_refl) as [h Hs].
  eexists. split; [exact Hs|]. done.
Qed.
End run.
Arguments world P R : clear implicits.
