(* ===== verification/Sha256.v ===== *)
(** * SHA-256 (FIPS 180-4), as a function

    The digest of [aws-lc-rs] is a parameter of the development; this file is an instance of
    it that can be computed, for the tests that compare bytes with recorded ones: the hash
    function of the standard, with its published examples. *)

From S2P Require Import Prelude.

(** ** Words of 32 bits *)

Definition mask : Z := 2 ^ 32 - 1.
Definition add32 (a b : Z) : Z := Z.land (a + b) mask.
Definition rotr (n x : Z) : Z := Z.lor (Z.shiftr x n) (Z.land (Z.shiftl x (32 - n)) mask).
Definition xor3 (a b c : Z) : Z := Z.lxor a (Z.lxor b c).

Definition big_sigma0 (x : Z) : Z := xor3 (rotr 2 x) (rotr 13 x) (rotr 22 x).
Definition big_sigma1 (x : Z) : Z := xor3 (rotr 6 x) (rotr 11 x) (rotr 25 x).
Definition small_sigma0 (x : Z) : Z := xor3 (rotr 7 x) (rotr 18 x) (Z.shiftr x 3).
Definition small_sigma1 (x : Z) : Z := xor3 (rotr 17 x) (rotr 19 x) (Z.shiftr x 10).
(** [Z.lnot e] within 32 bits *)
Definition ch (e f g : Z) : Z := Z.lxor (Z.land e f) (Z.land (Z.lxor e mask) g).
Definition maj (a b c : Z) : Z := xor3 (Z.land a b) (Z.land a c) (Z.land b c).

Definition round_constants : list Z :=
  [1116352408; 1899447441; 3049323471; 3921009573; 961987163; 1508970993;
   2453635748; 2870763221; 3624381080; 310598401; 607225278; 1426881987;
   1925078388; 2162078206; 2614888103; 3248222580; 3835390401; 4022224774;
   264347078; 604807628; 770255983; 1249150122; 1555081692; 1996064986;
   2554220882; 2821834349; 2952996808; 3210313671; 3336571891; 3584528711;
   113926993; 338241895; 666307205; 773529912; 1294757372; 1396182291;
   1695183700; 1986661051; 2177026350; 2456956037; 2730485921; 2820302411;
   3259730800; 3345764771; 3516065817; 3600352804; 4094571909; 275423344;
   430227734; 506948616; 659060556; 883997877; 958139571; 1322822218;
   1537002063; 1747873779; 1955562222; 2024104815; 2227730452; 2361852424;
   2428436474; 2756734187; 3204031479; 3329325298].

(** ** The compression function *)

Record state := { sa : Z; sb : Z; sc : Z; sd : Z; se : Z; sf : Z; sg : Z; sh : Z }.

Definition initial : state :=
  {| sa := 1779033703; sb := 3144134277; sc := 1013904242; sd := 2773480762;
     se := 1359893119; sf := 2600822924; sg := 528734635; sh := 1541459225 |}.

(** One round; the window holds the next sixteen words of the schedule. *)
Definition round (sw : state * list Z) (k : Z) : state * list Z :=
  let '(s, window) := sw in
  let w i := default 0 (window !! i) in
  let t1 := add32 (sh s) (add32 (big_sigma1 (se s)) (add32 (ch (se s) (sf s) (sg s)) (add32 k (w 0%nat)))) in
  let t2 := add32 (big_sigma0 (sa s)) (maj (sa s) (sb s) (sc s)) in
  let next := add32 (small_sigma1 (w 14%nat)) (add32 (w 9%nat) (add32 (small_sigma0 (w 1%nat)) (w 0%nat))) in
  ({| sa := add32 t1 t2; sb := sa s; sc := sb s; sd := sc s;
      se := add32 (sd s) t1; sf := se s; sg := sf s; sh := sg s |},
   drop 1 window ++ [next]).

Definition compress (s : state) (block : list Z) : state :=
  let '(r, _) := fold_left round round_constants (s, block) in
  {| sa := add32 (sa s) (sa r); sb := add32 (sb s) (sb r); sc := add32 (sc s) (sc r);
     sd := add32 (sd s) (sd r); se := add32 (se s) (se r); sf := add32 (sf s) (sf r);
     sg := add32 (sg s) (sg r); sh := add32 (sh s) (sh r) |}.

(** ** Padding and blocks *)

(** A one bit, zeros up to 56 modulo 64 bytes, and the length in bits. *)
Definition pad (m : bytes) : bytes :=
  m ++ u8_of 128 :: replicate (Z.to_nat ((55 - len m) mod 64)) (u8_of 0) ++ to_be_bytes 8 (8 * len m).

Fixpoint words (l : bytes) : list Z :=
  match l with
  | a :: b :: c :: d :: l' => from_be_bytes [a; b; c; d] :: words l'
  | _ => []
  end.

Fixpoint absorb (fuel : nat) (s : state) (ws : list Z) : state :=
  match fuel, ws with
  | S fuel, _ :: _ => absorb fuel (compress s (take 16 ws)) (drop 16 ws)
  | _, _ => s
  end.

(** There are at most as many blocks as words. *)
Definition sha256 (m : bytes) : bytes :=
  let ws := words (pad m) in
  let s := absorb (length ws) initial ws in
  concat (map (to_be_bytes 4) [sa s; sb s; sc s; sd s; se s; sf s; sg s; sh s]).

Lemma length_sha256 m : length (sha256 m) = 32%nat.
Proof. unfold sha256. cbn [map concat]. by rewrite !length_app, !length_to_be_bytes. Qed.

(** The padded message is a whole number of blocks. *)
Lemma length_pad m : len (pad m) mod 64 = 0.
Proof.
  unfold pad. rewrite len_app, len_cons, len_app, (len_to_be_bytes 8).
  unfold len at 2. rewrite length_replicate, Z2Nat.id by (apply Z.mod_pos_bound; lia).
  Z.div_mod_to_equations. lia.
Qed.

(** The examples of the standard: one block, two blocks; and the empty message. *)
Example sha256_examples :
  map (λ t, from_be_bytes (sha256 (as_bytes t)))
    ["abc"; "abcdbcdecdefdefgefghfghighijhijkijkljklmklmnlmnomnopnopq"; ""] =
  [0xba7816bf8f01cfea414140de5dae2223b00361a396177a9cb410ff61f20015ad;
   0x248d6a61d20638b8e5c026930c3e6039a33ce45964ff2167f6ecedd419db06c1;
   0xe3b0c44298fc1c149afbf4c8996fb92427ae41e4649b934ca495991b7852b855].
Proof. vm_compute. reflexivity. Qed.
