(* ===== verification/UnitAssertion.v ===== *)
(** * The unit tests of [crates/zs-crypto/src/identity_assertion.rs]

    Every test of the module, on the model of [IdentityAssertion]. *)

From S2P Require Import Prelude.
From S2P Require Import Json.
From S2P Require Import JsonCodec.
From S2P Require Import Aws.
From S2P Require Import Common.
From S2P Require Import Suite.
From S2P Require Import IdentityAssertion.
From S2P Require Import TestKit.

#[export] Instance assertion_error_eq_dec : EqDecision VerifyError.
Proof. solve_decision. Defined.
#[export] Instance verified_assertion_eq_dec : EqDecision VerifiedAssertion.
Proof. solve_decision. Defined.

Section tests.
Context `{SerdeJson, AwsLc, P256Crate}.

Record MockSigner := { signing_key : bytes }.

Definition mock_new : MockSigner := {| signing_key := replicate 32 (u8_of 17) |}.
Definition mock_public_key_sec1 (self : MockSigner) : bytes := encoded_point (signing_key self).
Definition mock_key_id (self : MockSigner) : string :=
  key_id_from_public_key (mock_public_key_sec1 self).

Definition sign_document (self : MockSigner) (unsigned : list (string * value)) : res bytes unit :=
  let! message := signed_message unsigned in
  let digest := sha256 message in
  Ok (sign_prehash (signing_key self) digest).

Definition sample_claims (subject : string) : res AssertionClaims unit :=
  let! subject_id := expect (SubjectId_new subject) in
  let! auth_method := expect (AuthMethod_new "webauthn/device-bound") in
  let! audience := expect (Audience_new "policy-engine") in
  let! issued_at := expect (Timestamp_new "2026-08-23T10:00:00Z") in
  let! expires_at := expect (Timestamp_new "2026-08-23T10:02:00Z") in
  let! audit_event_id := expect (EventId_new "0198e6c1-0000-7000-8000-000000000000") in
  Ok {| authority_domain := "identity-provider"; subject_id := subject_id; aal := Aal2;
        auth_method := auth_method; audience := audience; issued_at := issued_at;
        expires_at := expires_at; audit_event_id := audit_event_id |}.

Definition component_value (kid v : string) : value :=
  Object [("component", VString "ecdsa-p256"); ("key_id", VString kid); ("value", VString v)].

Definition seal_with_mock (signer : MockSigner) (claims : AssertionClaims) : res SealedAssertion unit :=
  let unsigned := unsigned_document claims in
  let! sig := sign_document signer unsigned in
  let document := map_insert "signatures"
    (Array [component_value (mock_key_id signer) (hex_encode sig)]) unsigned in
  let! bs := canonical_bytes (Object document) in
  Ok {| bytes_of := bs |}.

Definition default_policy : res AcceptancePolicy unit :=
  let! now := expect (Timestamp_new "2026-08-23T10:01:00Z") in
  Ok {| accepted_suites := [SUITE_V1]; now := now; expected_authority_domain := "identity-provider" |}.

(** The first lines of most tests: the signer, a sealed assertion, its key. *)
Definition signer : MockSigner := mock_new.
Definition sealed_sample : res SealedAssertion unit :=
  let! claims := sample_claims "subject-1" in seal_with_mock signer claims.
Definition own_key : res AcceptedVerifyingKey unit :=
  expect (accept_verifying_key SUITE_V1 (mock_key_id signer) (mock_public_key_sec1 signer)).

Definition assertion_scellee_est_verifiee : test :=
  let! sealed := sealed_sample in
  let! key := own_key in
  let! policy := default_policy in
  let! verified := expect (verify [key] (sealed_as_bytes sealed) policy) in
  let! _ := assert_eq (va_subject_id verified) "subject-1" in
  let! _ := assert_eq (va_aal verified) "AAL2" in
  assert_eq (va_audience verified) "policy-engine".

Definition digest_correspond_au_sha256_des_octets_scelles : test :=
  let! sealed := sealed_sample in
  assert_eq (digest sealed) (sha256 (sealed_as_bytes sealed)).

Definition signature_modifiee_est_refusee : test :=
  let! sealed := sealed_sample in
  let! key := own_key in
  let text := sealed_as_bytes sealed in
  let pat := as_bytes (dq "'value':'") in
  let! value_start := map_ok (λ i, (i + length pat)%nat) (unwrap (find_text pat text)) in
  let! c := unwrap (text !! value_start) in
  let chars := <[value_start := if bool_decide (c = "0"%char) then "1"%char else "0"%char]> text in
  let! policy := default_policy in
  assert_eq (verify [key] chars policy) (Err InvalidSignature).

Definition cle_publique_dune_autre_paire_est_refusee : test :=
  let! sealed := sealed_sample in
  let autre := {| signing_key := replicate 32 (u8_of 34) |} in
  let! key := expect (accept_verifying_key SUITE_V1 (mock_key_id signer) (mock_public_key_sec1 autre)) in
  let! policy := default_policy in
  assert_eq (verify [key] (sealed_as_bytes sealed) policy) (Err InvalidSignature).

Definition suite_inconnue_est_refusee : test :=
  let! key := own_key in
  let! default := default_policy in
  let policy := {| accepted_suites := ["autre-suite/v1"]; now := now default;
                   expected_authority_domain := expected_authority_domain default |} in
  let! sealed := sealed_sample in
  assert_eq (verify [key] (sealed_as_bytes sealed) policy) (Err UnknownSuite).

Definition arite_de_signature_incorrecte_est_refusee : test :=
  let! claims := sample_claims "subject-1" in
  let unsigned := unsigned_document claims in
  let! sig := sign_document signer unsigned in
  let document := map_insert "signatures"
    (Array [component_value (mock_key_id signer) (hex_encode sig);
            Object [("component", VString "ml-dsa-65"); ("key_id", VString "bogus"); ("value", VString "00")]])
    unsigned in
  let! bytes := canonical_bytes (Object document) in
  let! key := own_key in
  let! policy := default_policy in
  assert_eq (verify [key] bytes policy) (Err InvalidSignatureArity).

Definition signatures_vide_est_refusee : test :=
  let! claims := sample_claims "subject-1" in
  let unsigned := unsigned_document claims in
  let document := map_insert "signatures" (Array []) unsigned in
  let! bytes := canonical_bytes (Object document) in
  let! key := own_key in
  let! policy := default_policy in
  assert_eq (verify [key] bytes policy) (Err InvalidSignatureArity).

Definition cle_dupliquee_dans_le_json_est_refusee : test :=
  let! sealed := sealed_sample in
  let injected := replacen1 (as_bytes (dq "'subject_id':'subject-1'"))
    (as_bytes (dq "'subject_id':'subject-1','subject_id':'subject-1'")) (sealed_as_bytes sealed) in
  let! key := own_key in
  let! policy := default_policy in
  assert_eq (verify [key] injected policy) (Err MalformedDocument).

Definition espace_superflu_est_refuse_comme_non_canonique : test :=
  let! sealed := sealed_sample in
  let injected := replacen1 (as_bytes (dq "'schema_version':")) (as_bytes (dq "'schema_version': "))
    (sealed_as_bytes sealed) in
  let! key := own_key in
  let! policy := default_policy in
  assert_eq (verify [key] injected policy) (Err NonCanonical).

Definition champ_inconnu_est_refuse : test :=
  let! sealed := sealed_sample in
  let injected := replacen1 (as_bytes "{") (as_bytes (dq "{'unknown_field':'x',")) (sealed_as_bytes sealed) in
  let! key := own_key in
  let! policy := default_policy in
  assert_eq (verify [key] injected policy) (Err MalformedDocument).

Definition expiree_est_refusee : test :=
  let! sealed := sealed_sample in
  let! key := own_key in
  let! default := default_policy in
  let! late := expect (Timestamp_new "2026-08-23T10:03:00Z") in
  let policy := {| accepted_suites := accepted_suites default; now := late;
                   expected_authority_domain := expected_authority_domain default |} in
  assert_eq (verify [key] (sealed_as_bytes sealed) policy) (Err NotYetValidOrExpired).

Definition domaine_dautorite_inattendu_est_refuse : test :=
  let! sealed := sealed_sample in
  let! key := own_key in
  let! default := default_policy in
  let policy := {| accepted_suites := accepted_suites default; now := now default;
                   expected_authority_domain := "autre-domaine" |} in
  assert_eq (verify [key] (sealed_as_bytes sealed) policy) (Err UnexpectedAuthorityDomain).

Definition identifiant_de_cle_inconnu_est_refuse : test :=
  let! sealed := sealed_sample in
  let! key := expect (accept_verifying_key SUITE_V1 "autre-key-id" (mock_public_key_sec1 signer)) in
  let! policy := default_policy in
  assert_eq (verify [key] (sealed_as_bytes sealed) policy) (Err UnknownKeyId).

Definition taille_excessive_est_refusee_avant_tout_parse : test :=
  let oversized := replicate (Z.to_nat (MAX_BYTES + 1)) "a"%char in
  let! policy := default_policy in
  assert_eq (verify [] oversized policy) (Err TooLarge).

Definition subject_id_non_ascii_est_refuse : test :=
  let! e := unwrap_err (SubjectId_new "sujet-é") in
  assert_eq e {| field_name := "subject_id" |}.

Definition timestamp_avec_offset_est_refuse : test :=
  assert (is_err (Timestamp_new "2026-08-23T10:00:00+02:00")).

Definition audit_event_id_version_4_est_refuse : test :=
  assert (is_err (EventId_new "0198e6c1-0000-4000-8000-000000000000")).

Definition cle_publique_malformee_est_refusee : test :=
  let! e := unwrap_err (accept_verifying_key SUITE_V1 "k" (replicate 10 (u8_of 0))) in
  assert_eq e MalformedKey.

Definition suite_inconnue_a_lacceptation_de_cle_est_refusee : test :=
  let! e := unwrap_err (accept_verifying_key "autre-suite/v1" "k" (replicate 65 (u8_of 4))) in
  assert_eq e UnknownSuite.

Definition assertion_tests : list test :=
  [assertion_scellee_est_verifiee; digest_correspond_au_sha256_des_octets_scelles;
   signature_modifiee_est_refusee; cle_publique_dune_autre_paire_est_refusee;
   suite_inconnue_est_refusee; arite_de_signature_incorrecte_est_refusee;
   signatures_vide_est_refusee; cle_dupliquee_dans_le_json_est_refusee;
   espace_superflu_est_refuse_comme_non_canonique; champ_inconnu_est_refuse;
   expiree_est_refusee; domaine_dautorite_inattendu_est_refuse;
   identifiant_de_cle_inconnu_est_refuse; taille_excessive_est_refusee_avant_tout_parse;
   subject_id_non_ascii_est_refuse; timestamp_avec_offset_est_refuse;
   audit_event_id_version_4_est_refuse; cle_publique_malformee_est_refusee;
   suite_inconnue_a_lacceptation_de_cle_est_refusee].
End tests.

Example assertion_tests_pass : map passes assertion_tests = replicate 19 true.
Proof. vm_compute. reflexivity. Qed.
