(* ===== verification/UnitEvent.v ===== *)
(** * The unit tests of [crates/zs-crypto/src/audit_seal.rs]

    Every test of the module but the two on the frozen chain, on the model of [AuditSeal];
    the frozen chain is in [UnitVectors] (its regeneration is a tool).  The tests that
    validate a sealed event against the contract use [EventContract.conforms] for the crate [jsonschema]. *)

From S2P Require Import Prelude.
From S2P Require Import Json.
From S2P Require Import JsonCodec.
From S2P Require Import Aws.
From S2P Require Import Common.
From S2P Require Import Suite.
From S2P Require Import IdentityAssertion.
From S2P Require Import AuditSeal.
From S2P Require Import EventContract.
From S2P Require Import TestKit.

#[export] Instance event_type_eq_dec : EqDecision EventType.
Proof. solve_decision. Defined.
#[export] Instance seal_error_eq_dec : EqDecision SealError.
Proof. solve_decision. Defined.
#[export] Instance event_error_eq_dec : EqDecision VerifyError.
Proof. solve_decision. Defined.
#[export] Instance verified_event_eq_dec : EqDecision VerifiedAuditEvent.
Proof. solve_decision. Defined.

(** [Struct { field: value, ..fields }] *)
Definition with_event_type (e : EventType) (f : AuditEventFields) : AuditEventFields := {|
  event_id := event_id f; sequence := sequence f; prev_hash := prev_hash f; occurred_at := occurred_at f;
  authority_domain := authority_domain f; event_type := e; actor := actor f; target := target f;
  outcome := outcome f; context := context f; decision := decision f |}.
Definition with_decision (d : option DecisionInfo) (f : AuditEventFields) : AuditEventFields := {|
  event_id := event_id f; sequence := sequence f; prev_hash := prev_hash f; occurred_at := occurred_at f;
  authority_domain := authority_domain f; event_type := event_type f; actor := actor f; target := target f;
  outcome := outcome f; context := context f; decision := d |}.
Definition with_actor_context (a : Actor) (c : option Context) (f : AuditEventFields) : AuditEventFields := {|
  event_id := event_id f; sequence := sequence f; prev_hash := prev_hash f; occurred_at := occurred_at f;
  authority_domain := authority_domain f; event_type := event_type f; actor := a; target := target f;
  outcome := outcome f; context := c; decision := decision f |}.
Definition with_reasons (l : list Reason) (d : DecisionInfo) : DecisionInfo := {|
  request_id := request_id d; decision_hash := decision_hash d; policy_version := policy_version d;
  reasons := l; granted_ttl_seconds := granted_ttl_seconds d; decision_signature := decision_signature d;
  decision_signature_key_id := decision_signature_key_id d |}.

(** ** Fixtures *)

Section tests.
Context `{SerdeJson, AwsLc, P256Crate}.

Record MockSigner := { signing_key : bytes }.

Definition mock_new (seed : Z) : MockSigner := {| signing_key := replicate 32 (u8_of seed) |}.
Definition mock_public_key_sec1 (self : MockSigner) : bytes := encoded_point (signing_key self).
Definition mock_key_id (self : MockSigner) : string :=
  key_id_from_public_key (mock_public_key_sec1 self).

Definition sign_document (self : MockSigner) (domain_prefix : string) (unsigned : list (string * value)) :
    res bytes unit :=
  let! message := signed_message domain_prefix unsigned in
  let digest := sha256 message in
  Ok (sign_prehash (signing_key self) digest).

Definition sample_fields (n : Z) (prev_hash : bytes) : res AuditEventFields unit :=
  let! event_id := expect (EventId_new "0198e6c1-0000-7000-8000-000000000000") in
  let! sequence := expect (Sequence_new n) in
  let! occurred_at := expect (Timestamp_new "2026-08-23T10:00:00Z") in
  let! authority_domain := expect (AuthorityDomain_new "identity-provider") in
  let! subject_id := expect (SubjectId_new "subject-1") in
  let! auth_method := expect (AuthMethod_new "webauthn/device-bound") in
  Ok {| event_id := event_id; sequence := sequence; prev_hash := prev_hash; occurred_at := occurred_at;
        authority_domain := authority_domain; event_type := AuthenticationSucceeded;
        actor := {| actor_subject_id := subject_id; actor_kind := Human; actor_aal := Some Aal2;
                    actor_auth_method := Some auth_method |};
        target := None; outcome := Success; context := None; decision := None |}.

Definition sample_decision : res DecisionInfo unit :=
  let! request_id := expect (RequestId_new "f47ac10b-58cc-4372-a567-0e02b2c3d479") in
  let! policy_version := expect (PolicyVersion_new "db.connect@1") in
  let! reason := expect (Reason_new "db-connect-production") in
  let! key_id := expect (ShortText_new "decision-key-1") in
  Ok {| request_id := request_id; decision_hash := replicate 32 (u8_of 205);
        policy_version := policy_version; reasons := [reason]; granted_ttl_seconds := Some 900;
        decision_signature := Some (replicate 64 (u8_of 239)); decision_signature_key_id := Some key_id |}.

Definition sample_policy_decided_fields (n : Z) (prev_hash : bytes) : res AuditEventFields unit :=
  let! d := sample_decision in
  map_ok (λ f, with_event_type PolicyDecided (with_decision (Some d) f)) (sample_fields n prev_hash).

Definition sample_credential_issued_fields (n : Z) (prev_hash : bytes) : res AuditEventFields unit :=
  let! d := sample_decision in
  map_ok (λ f, with_event_type CredentialIssued (with_decision (Some d) f)) (sample_fields n prev_hash).

Definition seal_with_mock (signer : MockSigner) (fields : AuditEventFields) : res SealedAuditEvent unit :=
  let unsigned := unsigned_document fields in
  let! sig := sign_document signer DOMAIN_PREFIX_V1 unsigned in
  let document := map_insert "signature"
    (Object [("suite", VString SUITE_V1);
             ("components", Array [Object [("component", VString "ecdsa-p256");
                ("key_id", VString (mock_key_id signer)); ("value", VString (hex_encode sig))]])]) unsigned in
  let! bs := canonical_bytes (Object document) in
  Ok {| bytes_of := bs |}.

Definition default_policy : AcceptancePolicy :=
  {| accepted_suites := [SUITE_V1]; expected_authority_domain := "identity-provider" |}.

(** The first lines of most tests. *)
Definition zero_hash : bytes := replicate 32 (u8_of 0).
Definition sealed_by (signer : MockSigner) (fields : res AuditEventFields unit) : res SealedAuditEvent unit :=
  let! f := fields in seal_with_mock signer f.
Definition key_of (signer : MockSigner) : res AcceptedVerifyingKey unit :=
  expect (accept_verifying_key SUITE_V1 (mock_key_id signer) (mock_public_key_sec1 signer)).
Definition verified_is (signer : MockSigner) (bs : bytes) (policy : AcceptancePolicy)
    (r : res VerifiedAuditEvent VerifyError) : test :=
  let! key := key_of signer in assert_eq (verify [key] bs policy) r.

(** ** Sealing and verifying *)

Definition evenement_scelle_est_verifie : test :=
  let signer := mock_new 17 in
  let! sealed := sealed_by signer (sample_fields 0 zero_hash) in
  let! key := key_of signer in
  let! verified := expect (verify [key] (event_as_bytes sealed) default_policy) in
  let! _ := assert_eq (va_sequence verified) 0 in
  assert_eq (va_event_type verified) AuthenticationSucceeded.

Definition champ_optionnel_absent_nest_jamais_null : test :=
  let! sealed := sealed_by (mock_new 17) (sample_fields 0 zero_hash) in
  let text := event_as_bytes sealed in
  let! _ := assert (negb (contains (as_bytes "null") text)) in
  let! _ := assert (negb (contains (as_bytes (dq "'target'")) text)) in
  assert (negb (contains (as_bytes (dq "'context'")) text)).

Definition champ_interne_optionnel_absent_nest_jamais_null_meme_objet_present : test :=
  let signer := mock_new 17 in
  let! fields := sample_fields 0 zero_hash in
  let fields := with_actor_context
    {| actor_subject_id := actor_subject_id (actor fields); actor_kind := actor_kind (actor fields);
       actor_aal := None; actor_auth_method := None |}
    (Some {| source_network := None; ticket_ref := None; justification := None |}) fields in
  let! sealed := seal_with_mock signer fields in
  let text := event_as_bytes sealed in
  let! _ := assert (negb (contains (as_bytes "null") text)) in
  let! _ := assert (contains (as_bytes (dq "'context':{}")) text) in
  let! key := key_of signer in
  assert (is_ok (verify [key] (event_as_bytes sealed) default_policy)).

Definition policy_decided_avec_decision_est_scelle_et_verifie : test :=
  let signer := mock_new 34 in
  let! sealed := sealed_by signer (sample_policy_decided_fields 0 zero_hash) in
  let! key := key_of signer in
  let! verified := expect (verify [key] (event_as_bytes sealed) default_policy) in
  assert_eq (va_event_type verified) PolicyDecided.

Definition policy_decided_valide_le_contrat : test :=
  let! sealed := sealed_by (mock_new 34) (sample_policy_decided_fields 0 zero_hash) in
  let! document := unwrap (from_slice (event_as_bytes sealed)) in
  assert (conforms document).

Definition credential_issued_avec_decision_est_scelle_et_verifie : test :=
  let signer := mock_new 51 in
  let! sealed := sealed_by signer (sample_credential_issued_fields 0 zero_hash) in
  let! key := key_of signer in
  let! verified := expect (verify [key] (event_as_bytes sealed) default_policy) in
  assert_eq (va_event_type verified) CredentialIssued.

Definition credential_issued_valide_le_contrat : test :=
  let! sealed := sealed_by (mock_new 51) (sample_credential_issued_fields 0 zero_hash) in
  let! document := unwrap (from_slice (event_as_bytes sealed)) in
  assert (conforms document).

Definition octets_scelles_valident_le_contrat : test :=
  let! sealed := sealed_by (mock_new 17) (sample_fields 0 zero_hash) in
  let! document := unwrap (from_slice (event_as_bytes sealed)) in
  assert (conforms document).

(** ** The coupling of type and decision *)

Definition decision_absente_sur_credential_issued_est_refusee_au_scellement : test :=
  assert_eq (validate_decision_coupling CredentialIssued None) (Err (InvalidFields "decision")).

Definition decision_absente_sur_credential_issued_est_refusee_a_la_verification : test :=
  let signer := mock_new 17 in
  let! sealed := sealed_by signer (map_ok (with_event_type CredentialIssued) (sample_fields 0 zero_hash)) in
  verified_is signer (event_as_bytes sealed) default_policy (Err MalformedDocument).

Definition decision_absente_sur_policy_decided_est_refusee_au_scellement : test :=
  assert_eq (validate_decision_coupling PolicyDecided None) (Err (InvalidFields "decision")).

Definition decision_presente_sur_type_non_policy_decided_est_refusee_au_scellement : test :=
  let! d := sample_decision in
  assert_eq (validate_decision_coupling AuthenticationSucceeded (Some d)) (Err (InvalidFields "decision")).

Definition decision_absente_sur_policy_decided_est_refusee_a_la_verification : test :=
  let signer := mock_new 17 in
  let! sealed := sealed_by signer (map_ok (with_event_type PolicyDecided) (sample_fields 0 zero_hash)) in
  verified_is signer (event_as_bytes sealed) default_policy (Err MalformedDocument).

Definition decision_presente_sur_type_non_policy_decided_est_refusee_a_la_verification : test :=
  let signer := mock_new 17 in
  let! d := sample_decision in
  let! sealed := sealed_by signer (map_ok (with_decision (Some d)) (sample_fields 0 zero_hash)) in
  verified_is signer (event_as_bytes sealed) default_policy (Err MalformedDocument).

Definition zeros64 : bytes := replicate 64 "0"%char.

Definition decision_hash_falsifie_est_refuse_par_la_signature : test :=
  let signer := mock_new 34 in
  let! sealed := sealed_by signer (sample_policy_decided_fields 0 zero_hash) in
  let injected := replacen1 (as_bytes (hex_encode (replicate 32 (u8_of 205)))) zeros64 (event_as_bytes sealed) in
  verified_is signer injected default_policy (Err InvalidSignature).

Definition request_id_non_uuid_est_refuse : test :=
  let! e := unwrap_err (RequestId_new "pas-un-uuid") in
  let! _ := assert_eq e {| field_name := "decision.request_id" |} in
  assert (is_ok (RequestId_new "f47ac10b-58cc-4372-a567-0e02b2c3d479")).

(** [(0..MAX_REASONS + 1).map(|i| Reason::new(format!("motif-{i}")).unwrap()).collect()] *)
Definition too_many_reasons : res (list Reason) unit :=
  try_map (λ i, expect (Reason_new ("motif-" +:+ from_utf8_bytes (fmt_nat (Z.of_nat i)))))
    (seq 0 (Z.to_nat (MAX_REASONS + 1))).

Definition reasons_au_dela_de_max_est_refuse_au_scellement : test :=
  let! d := sample_decision in
  let! l := too_many_reasons in
  assert_eq (validate_decision_coupling PolicyDecided (Some (with_reasons l d)))
    (Err (InvalidFields "decision.reasons")).

Definition reasons_au_dela_de_max_est_refuse_a_la_verification : test :=
  let signer := mock_new 34 in
  let! d := sample_decision in
  let! l := too_many_reasons in
  let! sealed := sealed_by signer
    (map_ok (with_decision (Some (with_reasons l d))) (sample_policy_decided_fields 0 zero_hash)) in
  verified_is signer (event_as_bytes sealed) default_policy (Err MalformedDocument).

(** ** Sizes *)

Definition document_surdimensionne_est_refuse_au_scellement : test :=
  let! fields := sample_fields 0 zero_hash in
  let unsigned := map_insert "__test_filler__"
    (VString (from_utf8_bytes (replicate (Z.to_nat MAX_BYTES) "x"%char))) (unsigned_document fields) in
  assert_eq (validate_size unsigned "0123456789abcdef") (Err (InvalidFields "size")).

Definition document_de_taille_normale_est_accepte_au_scellement : test :=
  let! fields := sample_policy_decided_fields 0 zero_hash in
  assert (is_ok (validate_size (unsigned_document fields) "0123456789abcdef")).

Definition taille_excessive_est_refusee_avant_tout_parse : test :=
  let oversized := replicate (Z.to_nat (MAX_BYTES + 1)) "a"%char in
  assert_eq (verify [] oversized default_policy) (Err TooLarge).

(** ** Refusals *)

Definition signature_modifiee_est_refusee : test :=
  let signer := mock_new 17 in
  let! sealed := sealed_by signer (sample_fields 0 zero_hash) in
  let text := event_as_bytes sealed in
  let pat := as_bytes (dq "'value':'") in
  let! value_start := map_ok (λ i, (i + length pat)%nat) (unwrap (find_text pat text)) in
  let! c := unwrap (text !! value_start) in
  let chars := <[value_start := if bool_decide (c = "0"%char) then "1"%char else "0"%char]> text in
  verified_is signer chars default_policy (Err InvalidSignature).

Definition prev_hash_falsifie_est_refuse_par_la_signature : test :=
  let signer := mock_new 17 in
  let! sealed := sealed_by signer (sample_fields 1 (replicate 32 (u8_of 170))) in
  let injected := replacen1 (as_bytes (hex_encode (replicate 32 (u8_of 170)))) zeros64 (event_as_bytes sealed) in
  verified_is signer injected default_policy (Err InvalidSignature).

Definition deux_evenements_signature_valide_prev_hash_different_ne_sont_distingues_que_par_le_chainage : test :=
  let signer := mock_new 17 in
  let! a := sealed_by signer (sample_fields 1 (replicate 32 (u8_of 1))) in
  let! b := sealed_by signer (sample_fields 1 (replicate 32 (u8_of 2))) in
  let! key_a := key_of signer in
  let! key_b := key_of signer in
  let! _ := assert (is_ok (verify [key_a] (event_as_bytes a) default_policy)) in
  assert (is_ok (verify [key_b] (event_as_bytes b) default_policy)).

Definition evenement_audit_est_refuse_par_identity_assertion_verify : test :=
  let! audit_event := sealed_by (mock_new 17) (sample_fields 0 zero_hash) in
  let! now := expect (Timestamp_new "2026-08-23T10:01:00Z") in
  let policy := {| IdentityAssertion.accepted_suites := [IdentityAssertion.SUITE_V1];
                   IdentityAssertion.now := now;
                   IdentityAssertion.expected_authority_domain := "identity-provider" |} in
  assert (is_err (IdentityAssertion.verify [] (event_as_bytes audit_event) policy)).

Definition suite_inconnue_est_refusee : test :=
  let signer := mock_new 17 in
  let policy := {| accepted_suites := ["autre-suite/v1"];
                   expected_authority_domain := expected_authority_domain default_policy |} in
  let! sealed := sealed_by signer (sample_fields 0 zero_hash) in
  verified_is signer (event_as_bytes sealed) policy (Err UnknownSuite).

Definition arite_de_signature_incorrecte_est_refusee : test :=
  let signer := mock_new 17 in
  let! fields := sample_fields 0 zero_hash in
  let unsigned := unsigned_document fields in
  let! sig := sign_document signer DOMAIN_PREFIX_V1 unsigned in
  let document := map_insert "signature"
    (Object [("suite", VString SUITE_V1);
       ("components", Array [
          Object [("component", VString "ecdsa-p256"); ("key_id", VString (mock_key_id signer));
                  ("value", VString (hex_encode sig))];
          Object [("component", VString "ml-dsa-65"); ("key_id", VString "bogus"); ("value", VString "00")]])])
    unsigned in
  let! bytes := canonical_bytes (Object document) in
  verified_is signer bytes default_policy (Err InvalidSignatureArity).

Definition espace_superflu_est_refuse_comme_non_canonique : test :=
  let signer := mock_new 17 in
  let! sealed := sealed_by signer (sample_fields 0 zero_hash) in
  let injected := replacen1 (as_bytes (dq "'schema_version':")) (as_bytes (dq "'schema_version': "))
    (event_as_bytes sealed) in
  verified_is signer injected default_policy (Err NonCanonical).

Definition champ_inconnu_est_refuse : test :=
  let signer := mock_new 17 in
  let! sealed := sealed_by signer (sample_fields 0 zero_hash) in
  let injected := replacen1 (as_bytes "{") (as_bytes (dq "{'unknown_field':'x',")) (event_as_bytes sealed) in
  verified_is signer injected default_policy (Err MalformedDocument).

Definition domaine_dautorite_inattendu_est_refuse : test :=
  let signer := mock_new 17 in
  let! sealed := sealed_by signer (sample_fields 0 zero_hash) in
  let policy := {| accepted_suites := accepted_suites default_policy;
                   expected_authority_domain := "autre-domaine" |} in
  verified_is signer (event_as_bytes sealed) policy (Err UnexpectedAuthorityDomain).

Definition identifiant_de_cle_inconnu_est_refuse : test :=
  let signer := mock_new 17 in
  let! sealed := sealed_by signer (sample_fields 0 zero_hash) in
  let! key := expect (accept_verifying_key SUITE_V1 "autre-key-id" (mock_public_key_sec1 signer)) in
  assert_eq (verify [key] (event_as_bytes sealed) default_policy) (Err UnknownKeyId).

Definition sequence_au_dela_de_2_puissance_53_est_refusee : test :=
  let! e := unwrap_err (Sequence_new (MAX_SAFE_INTEGER + 1)) in
  let! _ := assert_eq e {| field_name := "sequence" |} in
  assert (is_ok (Sequence_new MAX_SAFE_INTEGER)).

Definition cle_publique_malformee_est_refusee : test :=
  let! e := unwrap_err (accept_verifying_key SUITE_V1 "k" (replicate 10 (u8_of 0))) in
  assert_eq e MalformedKey.

Definition event_tests : list test :=
  [evenement_scelle_est_verifie; champ_optionnel_absent_nest_jamais_null;
   champ_interne_optionnel_absent_nest_jamais_null_meme_objet_present;
   policy_decided_avec_decision_est_scelle_et_verifie; policy_decided_valide_le_contrat;
   credential_issued_avec_decision_est_scelle_et_verifie; credential_issued_valide_le_contrat;
   octets_scelles_valident_le_contrat;
   decision_absente_sur_credential_issued_est_refusee_au_scellement;
   decision_absente_sur_credential_issued_est_refusee_a_la_verification;
   decision_absente_sur_policy_decided_est_refusee_au_scellement;
   decision_presente_sur_type_non_policy_decided_est_refusee_au_scellement;
   decision_absente_sur_policy_decided_est_refusee_a_la_verification;
   decision_presente_sur_type_non_policy_decided_est_refusee_a_la_verification;
   decision_hash_falsifie_est_refuse_par_la_signature; request_id_non_uuid_est_refuse;
   reasons_au_dela_de_max_est_refuse_au_scellement;
   reasons_au_dela_de_max_est_refuse_a_la_verification;
   document_surdimensionne_est_refuse_au_scellement;
   document_de_taille_normale_est_accepte_au_scellement;
   taille_excessive_est_refusee_avant_tout_parse; signature_modifiee_est_refusee;
   prev_hash_falsifie_est_refuse_par_la_signature;
   deux_evenements_signature_valide_prev_hash_different_ne_sont_distingues_que_par_le_chainage;
   evenement_audit_est_refuse_par_identity_assertion_verify; suite_inconnue_est_refusee;
   arite_de_signature_incorrecte_est_refusee; espace_superflu_est_refuse_comme_non_canonique;
   champ_inconnu_est_refuse; domaine_dautorite_inattendu_est_refuse;
   identifiant_de_cle_inconnu_est_refuse; sequence_au_dela_de_2_puissance_53_est_refusee;
   cle_publique_malformee_est_refusee].
End tests.

Example event_tests_pass : map passes event_tests = replicate 33 true.
Proof. vm_compute. reflexivity. Qed.
