(* ===== verification/UnitDecision.v ===== *)
(** * The unit tests of [decision_seal.rs], [decision_binding.rs] and [common.rs]

    Every test of the three modules of [crates/zs-crypto/src], on the models of
    [DecisionSeal], [DecisionBinding] and [Json]. *)

From S2P Require Import Prelude.
From S2P Require Import Json.
From S2P Require Import JsonCodec.
From S2P Require Import Aws.
From S2P Require Import Common.
From S2P Require Import Suite.
From S2P Require Import DecisionBinding.
From S2P Require Import DecisionSeal.
From S2P Require Import TestKit.

#[export] Instance decision_error_eq_dec : EqDecision VerifyError.
Proof. solve_decision. Defined.
#[export] Instance binding_eq_dec : EqDecision DecisionBinding.DecisionBinding.
Proof. solve_decision. Defined.
#[export] Instance corpus_error_eq_dec : EqDecision DecisionBinding.CorpusBindingError.
Proof. solve_decision. Defined.

Section tests.
Context `{SerdeJson, AwsLc, P256Crate}.

(** ** [decision_seal.rs] *)

Record MockSigner := { signing_key : bytes }.

Definition mock_new : MockSigner := {| signing_key := replicate 32 (u8_of 51) |}.
Definition mock_public_key_sec1 (self : MockSigner) : bytes := encoded_point (signing_key self).
Definition mock_key_id (self : MockSigner) : string :=
  key_id_from_public_key (mock_public_key_sec1 self).

Definition sign (self : MockSigner) (fields : DecisionFields) : res bytes unit :=
  let! message := signed_message fields in
  let digest := sha256 message in
  Ok (sign_prehash (signing_key self) digest).

Definition sample_fields : res DecisionFields unit :=
  let! issued_at := expect (Timestamp_new "2026-08-23T10:00:00Z") in
  Ok {| request_id := "req-1"; decision_hash := replicate 32 (u8_of 171);
        policy_version := "decision-binding/v1:abc"; effect_allow := true;
        reasons := ["db-connect-production"]; max_ttl_seconds := 900; constraints := [];
        issued_at := issued_at |}.

Definition signer : MockSigner := mock_new.
Definition own_key : res AcceptedVerifyingKey unit :=
  expect (accept_verifying_key SUITE_V1 (mock_key_id signer) (mock_public_key_sec1 signer)).

Definition decision_scellee_est_verifiee : test :=
  let! fields := sample_fields in
  let! sig := sign signer fields in
  let! key := own_key in
  assert_eq (verify [key] fields (mock_key_id signer) sig) (Ok tt).

(** The signature of the sample, presented with other fields. *)
Definition falsified (change : DecisionFields → DecisionFields) : test :=
  let! fields := sample_fields in
  let! sig := sign signer fields in
  let! key := own_key in
  let falsifie := change fields in
  assert_eq (verify [key] falsifie (mock_key_id signer) sig) (Err InvalidSignature).

Definition effect_substitue_sous_un_decision_hash_valide_est_refuse : test :=
  falsified (λ f, {| request_id := request_id f; decision_hash := decision_hash f;
    policy_version := policy_version f; effect_allow := false; reasons := reasons f;
    max_ttl_seconds := max_ttl_seconds f; constraints := constraints f; issued_at := issued_at f |}).

Definition reasons_modifiees_sont_refusees : test :=
  falsified (λ f, {| request_id := request_id f; decision_hash := decision_hash f;
    policy_version := policy_version f; effect_allow := effect_allow f; reasons := ["autre-politique"];
    max_ttl_seconds := max_ttl_seconds f; constraints := constraints f; issued_at := issued_at f |}).

Definition max_ttl_modifie_est_refuse : test :=
  falsified (λ f, {| request_id := request_id f; decision_hash := decision_hash f;
    policy_version := policy_version f; effect_allow := effect_allow f; reasons := reasons f;
    max_ttl_seconds := 999999; constraints := constraints f; issued_at := issued_at f |}).

Definition signature_absente_est_refusee : test :=
  let! key := own_key in
  let! fields := sample_fields in
  assert_eq (verify [key] fields "" []) (Err MissingSignature).

Definition identifiant_de_cle_inconnu_est_refuse : test :=
  let! fields := sample_fields in
  let! sig := sign signer fields in
  let! key := expect (accept_verifying_key SUITE_V1 "autre-key-id" (mock_public_key_sec1 signer)) in
  assert_eq (verify [key] fields (mock_key_id signer) sig) (Err UnknownKeyId).

Definition cle_publique_malformee_est_refusee : test :=
  let! e := unwrap_err (accept_verifying_key SUITE_V1 "k" (replicate 10 (u8_of 0))) in
  assert_eq e MalformedKey.

Definition suite_inconnue_a_lacceptation_de_cle_est_refusee : test :=
  let! e := unwrap_err (accept_verifying_key "autre-suite/v1" "k" (replicate 65 (u8_of 4))) in
  assert_eq e UnknownSuite.

Definition cle_dune_autre_paire_est_refusee : test :=
  let! fields := sample_fields in
  let! sig := sign signer fields in
  let autre := {| signing_key := replicate 32 (u8_of 68) |} in
  let! key := expect (accept_verifying_key SUITE_V1 (mock_key_id signer) (mock_public_key_sec1 autre)) in
  assert_eq (verify [key] fields (mock_key_id signer) sig) (Err InvalidSignature).

(** ** [decision_binding.rs] *)

Definition file (p c : string) : CorpusFile := {| relative_path := p; contents := c |}.

Definition empreinte_de_requete_est_deterministe : test :=
  let r := Object [("request_id", VString "abc"); ("action", VString "db.connect")] in
  let! a := bind_request r in
  let! b := bind_request r in
  assert_eq a b.

Definition empreinte_de_requete_change_avec_le_contenu : test :=
  let! a := bind_request (Object [("request_id", VString "abc")]) in
  let! b := bind_request (Object [("request_id", VString "abd")]) in
  assert_ne a b.

Definition representation_textuelle_prefixee_de_la_suite : test :=
  let! b := bind_request (Object [("x", jint 1)]) in
  let hex := to_hex_string b in
  let! _ := assert (starts_with (as_bytes "decision-binding/v1:") (as_bytes hex)) in
  assert_eq (str_len hex) (str_len "decision-binding/v1:" + 64).

Definition empreinte_de_corpus_est_deterministe : test :=
  let files := [file "access/db_connect.cedar" "permit(...);"] in
  let! a := expect (bind_policy_corpus "{}" "4.12.0" files) in
  let! b := expect (bind_policy_corpus "{}" "4.12.0" files) in
  assert_eq a b.

Definition empreinte_de_corpus_independante_de_lordre_dentree : test :=
  let f1 := file "a.cedar" "1" in
  let f2 := file "b.cedar" "2" in
  let! dans_lordre := expect (bind_policy_corpus "{}" "4.12.0" [f1; f2]) in
  let! inverse := expect (bind_policy_corpus "{}" "4.12.0" [f2; f1]) in
  assert_eq dans_lordre inverse.

Definition empreinte_de_corpus_distingue_deplacement_de_contenu_entre_fichiers : test :=
  let a := [file "x.cedar" "ab"; file "y.cedar" "c"] in
  let b := [file "x.cedar" "a"; file "y.cedar" "bc"] in
  let! ba := expect (bind_policy_corpus "{}" "4.12.0" a) in
  let! bb := expect (bind_policy_corpus "{}" "4.12.0" b) in
  assert_ne ba bb.

Definition empreinte_de_corpus_change_avec_la_version_du_moteur_cedar : test :=
  let files := [file "a.cedar" "1"] in
  let! v1 := expect (bind_policy_corpus "{}" "4.12.0" files) in
  let! v2 := expect (bind_policy_corpus "{}" "4.13.0" files) in
  assert_ne v1 v2.

Definition empreinte_de_corpus_change_avec_le_schema : test :=
  let files := [file "a.cedar" "1"] in
  let! a := expect (bind_policy_corpus (dq "{'x':1}") "4.12.0" files) in
  let! b := expect (bind_policy_corpus (dq "{'x':2}") "4.12.0" files) in
  assert_ne a b.

Definition fichier_avec_bom_est_refuse : test :=
  let files := [file "a.cedar" (from_utf8_bytes bom +:+ "permit(...)")] in
  assert_eq (bind_policy_corpus "{}" "4.12.0" files) (Err (InvalidEncoding "a.cedar")).

Definition chemin_non_normalise_est_refuse : test :=
  let files := [file "access\db_connect.cedar" "x"] in
  assert_eq (bind_policy_corpus "{}" "4.12.0" files) (Err (InvalidPath "access\db_connect.cedar")).

(** ** [common.rs] *)

Definition cles_triees_quel_que_soit_lordre_dinsertion : test :=
  let! inverse := canonical_bytes (Object [("z", jint 1); ("a", jint 2); ("m", jint 3)]) in
  let! triee := canonical_bytes (Object [("a", jint 2); ("m", jint 3); ("z", jint 1)]) in
  let! _ := assert_eq inverse triee in
  assert_eq inverse (as_bytes (dq "{'a':2,'m':3,'z':1}")).

Definition tri_recursif_dans_les_objets_imbriques : test :=
  let! bs := canonical_bytes (Object [("b", Object [("y", jint 1); ("x", jint 2)]); ("a", jint 1)]) in
  assert_eq bs (as_bytes (dq "{'a':1,'b':{'x':2,'y':1}}")).

Definition ordre_des_tableaux_jamais_trie : test :=
  let! bs := canonical_bytes (Object [("a", Array [jint 3; jint 1; jint 2])]) in
  assert_eq bs (as_bytes (dq "{'a':[3,1,2]}")).

Definition aucun_espace_superflu : test :=
  let! bs := canonical_bytes (Object [("a", jint 1); ("b", Array [jint 1; jint 2])]) in
  assert (negb (bool_decide (" "%char ∈ bs))).

(** [#[should_panic]]; the binary64 1.5 by its bits *)
Definition nombre_a_virgule_flottante_est_refuse : test :=
  match canonical_bytes (E := unit) (Object [("a", Number (Float 4609434218613702656))]) with Panic => Ok tt | _ => Panic end.

Definition decision_tests : list test :=
  [decision_scellee_est_verifiee; effect_substitue_sous_un_decision_hash_valide_est_refuse;
   reasons_modifiees_sont_refusees; max_ttl_modifie_est_refuse; signature_absente_est_refusee;
   identifiant_de_cle_inconnu_est_refuse; cle_publique_malformee_est_refusee;
   suite_inconnue_a_lacceptation_de_cle_est_refusee; cle_dune_autre_paire_est_refusee;
   empreinte_de_requete_est_deterministe; empreinte_de_requete_change_avec_le_contenu;
   representation_textuelle_prefixee_de_la_suite; empreinte_de_corpus_est_deterministe;
   empreinte_de_corpus_independante_de_lordre_dentree;
   empreinte_de_corpus_distingue_deplacement_de_contenu_entre_fichiers;
   empreinte_de_corpus_change_avec_la_version_du_moteur_cedar;
   empreinte_de_corpus_change_avec_le_schema; fichier_avec_bom_est_refuse;
   chemin_non_normalise_est_refuse; cles_triees_quel_que_soit_lordre_dinsertion;
   tri_recursif_dans_les_objets_imbriques; ordre_des_tableaux_jamais_trie;
   aucun_espace_superflu; nombre_a_virgule_flottante_est_refuse].
End tests.

Example decision_tests_pass : map passes decision_tests = replicate 24 true.
Proof. vm_compute. reflexivity. Qed.
