(* ===== verification/UnitAudit.v ===== *)
(** * The unit tests of [zs-audit] and of the recovery quorum

    The tests of [crates/zs-audit/src/chain.rs] and [sink.rs], with their two sinks, and
    those of [crates/zs-webauthn/src/recovery.rs]. *)

From S2P Require Import Prelude.
From S2P Require Import Aws.
From S2P Require Import Chain.
From S2P Require Import AuditRecord.
From S2P Require Import Authentication.
From S2P Require Import Recovery.
From S2P Require Import TestKit.

#[export] Instance chain_error_eq_dec : EqDecision ChainError.
Proof. solve_decision. Defined.
#[export] Instance event_type_eq_dec : EqDecision AuditRecord.EventType.
Proof. solve_decision. Defined.
#[export] Instance recovery_error_eq_dec : EqDecision RecoveryError.
Proof. solve_decision. Defined.

Section chain_tests.
Context `{AwsLc}.

(** ** [chain.rs] *)

Definition entry (domain : string) (sequence : Z) (prev_hash : bytes) (payload : string) : ChainEntry :=
  {| authority_domain := domain; sequence := sequence; prev_hash := prev_hash;
     sealed_bytes := as_bytes payload |}.

Definition chaine_valide_est_acceptee : test :=
  let e0 := entry "identity-provider" 0 CHAIN_ROOT "evenement-0-scelle" in
  let h0 := hash_sealed_event (sealed_bytes e0) in
  let e1 := entry "identity-provider" 1 h0 "evenement-1-scelle" in
  let h1 := hash_sealed_event (sealed_bytes e1) in
  let e2 := entry "identity-provider" 2 h1 "evenement-2-scelle" in
  assert (is_ok (verify_chain [e0; e1; e2])).

Definition deux_domaines_independants_sont_acceptes : test :=
  let a0 := entry "identity-provider" 0 CHAIN_ROOT "a-0" in
  let b0 := entry "policy-engine" 0 CHAIN_ROOT "b-0" in
  let ha0 := hash_sealed_event (sealed_bytes a0) in
  let a1 := entry "identity-provider" 1 ha0 "a-1" in
  assert (is_ok (verify_chain [a0; b0; a1])).

Definition chaine_vide_est_refusee : test :=
  let! e := unwrap_err (verify_chain []) in assert_eq e Chain.Empty.

Definition racine_incorrecte_est_refusee : test :=
  let bogus_root := replicate 32 (u8_of 170) in
  let e0 := entry "identity-provider" 0 bogus_root "e0" in
  let! e := unwrap_err (verify_chain [e0]) in assert_eq e (InvalidRoot "identity-provider").

Definition premiere_sequence_non_nulle_est_refusee : test :=
  let e0 := entry "identity-provider" 5 CHAIN_ROOT "e0" in
  let! e := unwrap_err (verify_chain [e0]) in assert_eq e (FirstSequenceNotZero "identity-provider" 5).

Definition trou_de_sequence_est_refuse : test :=
  let e0 := entry "identity-provider" 0 CHAIN_ROOT "e0" in
  let h0 := hash_sealed_event (sealed_bytes e0) in
  let e2 := entry "identity-provider" 2 h0 "e2" in
  let! e := unwrap_err (verify_chain [e0; e2]) in assert_eq e (SequenceGap "identity-provider" 0 2).

Definition sequence_dupliquee_est_refusee : test :=
  let e0 := entry "identity-provider" 0 CHAIN_ROOT "e0" in
  let h0 := hash_sealed_event (sealed_bytes e0) in
  let e0_bis := entry "identity-provider" 0 h0 "e0-bis" in
  let! e := unwrap_err (verify_chain [e0; e0_bis]) in
  assert_eq e (SequenceGap "identity-provider" 0 0).

Definition prev_hash_incoherent_est_refuse : test :=
  let e0 := entry "identity-provider" 0 CHAIN_ROOT "e0" in
  let mauvais_hash := replicate 32 (u8_of 17) in
  let e1 := entry "identity-provider" 1 mauvais_hash "e1" in
  let! e := unwrap_err (verify_chain [e0; e1]) in assert_eq e (BrokenLink "identity-provider" 1).

Definition troncature_en_queue_de_chaine_nest_pas_detectee : test :=
  let e0 := entry "identity-provider" 0 CHAIN_ROOT "e0" in
  let h0 := hash_sealed_event (sealed_bytes e0) in
  let e1 := entry "identity-provider" 1 h0 "e1" in
  let h1 := hash_sealed_event (sealed_bytes e1) in
  let e2 := entry "identity-provider" 2 h1 "e2" in
  let! _ := assert (is_ok (verify_chain [e0; e1; e2])) in
  assert (is_ok (verify_chain [e0; e1])).

Definition chain_tests : list test :=
  [chaine_valide_est_acceptee; deux_domaines_independants_sont_acceptes; chaine_vide_est_refusee;
   racine_incorrecte_est_refusee; premiere_sequence_non_nulle_est_refusee;
   trou_de_sequence_est_refuse; sequence_dupliquee_est_refusee; prev_hash_incoherent_est_refuse;
   troncature_en_queue_de_chaine_nest_pas_detectee].
End chain_tests.

(** ** [sink.rs] *)

Definition sample_record (event_type : EventType) : AuditRecord := {|
  rec_occurred_at := "2026-08-22T10:00:00Z";
  rec_authority_domain := "identity-provider";
  rec_event_type := event_type;
  rec_actor := {| subject_id := "subject-1"; kind := Human; aal := None; auth_method := None |};
  rec_target := None;
  rec_outcome := Success;
  rec_context := None;
|}.

(** [CountingSink]: what it received, in order. *)
Record CountingSink := { received : list EventType }.
Definition counting_new : CountingSink := {| received := [] |}.
#[export] Instance counting_sink : AuditSink CountingSink unit unit := {|
  record self record := ({| received := received self ++ [rec_event_type record] |}, Ok tt)
|}.

Inductive FailingSink := MkFailingSink.
#[export] Instance failing_sink : AuditSink FailingSink unit string := {|
  record self _ := (self, Err "puits d'audit indisponible")
|}.

(** [for event_type in event_types { record_or_fail(&sink, ..).unwrap() }] *)
Fixpoint record_all (sink : CountingSink) (event_types : list EventType) : res CountingSink unit :=
  match event_types with
  | [] => Ok sink
  | t :: event_types' =>
      let '(sink, r) := record_or_fail sink (sample_record t) in
      let! _ := expect r in
      record_all sink event_types'
  end.

Definition event_types_received : list EventType :=
  [AuthenticatorRegistered; AuditRecord.AuthenticatorRevoked; AuthenticationAttempted; AuthenticationSucceeded;
   AuthenticationFailed; RecoveryInitiated; QuorumOperation; AuditChainVerified].

Definition chaque_type_devenement_du_parcours_est_compte : test :=
  let! sink := record_all counting_new event_types_received in
  let! _ := assert_eq (len (received sink)) (len event_types_received) in
  assert (forallb (λ t, bool_decide (t ∈ received sink)) event_types_received).

Definition echec_du_puits_nest_jamais_avale_silencieusement : test :=
  let '(_, result) := record_or_fail MkFailingSink (sample_record AuthenticationFailed) in
  let! e := unwrap_err result in assert_eq e "puits d'audit indisponible".

(** ** [recovery.rs] *)

Definition claims (credential_id : string) : AuthenticationClaims := {|
  cl_subject_id := "subject-1";
  cl_credential_id := as_bytes credential_id;
  cl_aal := Aal2;
  cl_method := "webauthn/device-bound";
  cl_new_sign_count := 1;
|}.

Definition quorum_atteint_avec_porteurs_distincts_est_accepte : test :=
  let approvals := [from_verified_authentication (claims "porteur-a");
                    from_verified_authentication (claims "porteur-b")] in
  let! outcome := expect (verify_quorum approvals 2) in
  assert_eq (len (approving_credential_ids outcome)) 2.

Definition un_seul_porteur_ne_peut_jamais_declencher_une_recuperation : test :=
  let approvals := [from_verified_authentication (claims "porteur-a")] in
  let! e := unwrap_err (verify_quorum approvals 1) in assert_eq e ThresholdBelowMinimum.

Definition meme_porteur_repete_ne_compte_quune_fois : test :=
  let approvals := [from_verified_authentication (claims "porteur-a");
                    from_verified_authentication (claims "porteur-a")] in
  let! e := unwrap_err (verify_quorum approvals 2) in assert_eq e (QuorumNotReached 1 2).

Definition quorum_insuffisant_est_refuse : test :=
  let approvals := [from_verified_authentication (claims "porteur-a")] in
  let! e := unwrap_err (verify_quorum approvals 2) in assert_eq e (QuorumNotReached 1 2).

Definition seuil_zero_est_refuse : test :=
  let! e := unwrap_err (verify_quorum [] 0) in assert_eq e ThresholdBelowMinimum.

Definition sink_and_recovery_tests : list test :=
  [chaque_type_devenement_du_parcours_est_compte;
   echec_du_puits_nest_jamais_avale_silencieusement;
   quorum_atteint_avec_porteurs_distincts_est_accepte;
   un_seul_porteur_ne_peut_jamais_declencher_une_recuperation;
   meme_porteur_repete_ne_compte_quune_fois; quorum_insuffisant_est_refuse; seuil_zero_est_refuse].

Example audit_unit_tests_pass : map passes (chain_tests ++ sink_and_recovery_tests) = replicate 16 true.
Proof. vm_compute. reflexivity. Qed.
