(* ===== verification/Base64Url.v ===== *)
(** * [URL_SAFE_NO_PAD] of RFC 4648, section 5

    The alphabet, the encoder and the strict decoder (no padding, no white space, no bits
    left over) as functions: an instance of the class [Base64] that the ceremonies and the
    HTTP handlers are written against, with the law of that class proved. *)

From S2P Require Import Prelude.
From S2P Require Import ClientData.

(** ** Sextets and characters *)

Definition sextet_char (v : Z) : ascii :=
  if v <? 26 then u8_of (65 + v)
  else if v <? 52 then u8_of (97 + (v - 26))
  else if v <? 62 then u8_of (48 + (v - 52))
  else if v =? 62 then "-"%char else "_"%char.

Definition char_sextet (c : ascii) : option Z :=
  let n := u8_val c in
  if between 65 n 90 then Some (n - 65)
  else if between 97 n 122 then Some (n - 97 + 26)
  else if between 48 n 57 then Some (n - 48 + 52)
  else if n =? 45 then Some 62
  else if n =? 95 then Some 63
  else None.

(** ** Three bytes are four sextets *)

Fixpoint sextets (l : list Z) : list Z :=
  match l with
  | a :: b :: c :: l' =>
      a / 4 :: a mod 4 * 16 + b / 16 :: b mod 16 * 4 + c / 64 :: c mod 64 :: sextets l'
  | [a; b] => [a / 4; a mod 4 * 16 + b / 16; b mod 16 * 4]
  | [a] => [a / 4; a mod 4 * 16]
  | [] => []
  end.

Fixpoint octets (l : list Z) : option (list Z) :=
  match l with
  | w :: x :: y :: z :: l' =>
      r ← octets l';
      Some (w * 4 + x / 16 :: x mod 16 * 16 + y / 4 :: y mod 4 * 64 + z :: r)
  | [w; x; y] => if y mod 4 =? 0 then Some [w * 4 + x / 16; x mod 16 * 16 + y / 4] else None
  | [w; x] => if x mod 16 =? 0 then Some [w * 4 + x / 16] else None
  | [_] => None
  | [] => Some []
  end.

Definition encode_url (bs : bytes) : string :=
  from_utf8_bytes (map sextet_char (sextets (map u8_val bs))).
Definition decode_url (s : string) : option bytes :=
  map u8_of <$> (mapM char_sextet (as_bytes s) ≫= octets).

(** ** Lemmas *)

Lemma char_sextet_char v : 0 ≤ v < 64 → char_sextet (sextet_char v) = Some v.
Proof.
  intros Hv. assert (Forall (λ n, char_sextet (sextet_char (Z.of_nat n)) = Some (Z.of_nat n)) (seq 0 64))
    as Hall by (repeat constructor).
  rewrite <- (Z2Nat.id v) by lia. rewrite Forall_forall in Hall. apply Hall, elem_of_seq. lia.
Qed.

Lemma mapM_char_sextet l : Forall (λ v, 0 ≤ v < 64) l → mapM char_sextet (map sextet_char l) = Some l.
Proof.
  induction 1 as [|v l Hv _ IH]; [done|]. cbn [map mapM]. rewrite char_sextet_char by done.
  cbn [mbind option_bind]. by rewrite IH.
Qed.

(** Lists taken three at a time. *)
Lemma triples_ind {A} (P : list A → Prop) :
  P [] → (∀ a, P [a]) → (∀ a b, P [a; b]) → (∀ a b c l, P l → P (a :: b :: c :: l)) → ∀ l, P l.
Proof.
  intros H0 H1 H2 H3. fix IH 1. intros [|a [|b [|c l]]]; [done|done|done|]. apply H3, IH.
Qed.

Lemma sextets_bounds l : Forall (λ b, 0 ≤ b < 256) l → Forall (λ v, 0 ≤ v < 64) (sextets l).
Proof.
  induction l as [|a|a b|a b c l IH] using triples_ind; intros Hl;
    repeat (apply Forall_cons in Hl as [? Hl]); cbn [sextets];
    repeat (apply Forall_cons; split); auto; Z.div_mod_to_equations; lia.
Qed.

Lemma octets_sextets l : Forall (λ b, 0 ≤ b < 256) l → octets (sextets l) = Some l.
Proof.
  induction l as [|a|a b|a b c l IH] using triples_ind; intros Hl;
    repeat (apply Forall_cons in Hl as [? Hl]); cbn [sextets octets].
  - done.
  - rewrite (proj2 (Z.eqb_eq _ _)) by (Z.div_mod_to_equations; lia). repeat f_equal; Z.div_mod_to_equations; lia.
  - rewrite (proj2 (Z.eqb_eq _ _)) by (Z.div_mod_to_equations; lia). repeat f_equal; Z.div_mod_to_equations; lia.
  - rewrite IH by done. cbn [mbind option_bind]. repeat f_equal; Z.div_mod_to_equations; lia.
Qed.

Lemma decode_encode_url bs : decode_url (encode_url bs) = Some bs.
Proof.
  unfold decode_url, encode_url. rewrite as_bytes_of.
  assert (Forall (λ b, 0 ≤ b < 256) (map u8_val bs)) as Hb
    by (apply Forall_map, Forall_true; intros b; apply u8_val_range).
  rewrite mapM_char_sextet by (by apply sextets_bounds). cbn [mbind option_bind].
  rewrite octets_sextets by done. cbn. f_equal. rewrite map_map.
  erewrite map_ext by (intros b; apply u8_of_val). apply map_id.
Qed.

#[export] Instance url_safe_no_pad : Base64 := {|
  url_safe_encode := encode_url; url_safe_decode := decode_url;
  url_safe_decode_encode := decode_encode_url;
|}.

(** The vectors of RFC 4648, section 10, without padding. *)
Example base64_vectors :
  map (λ t, encode_url (as_bytes t)) ["f"; "fo"; "foo"; "foob"; "fooba"; "foobar"] =
  ["Zg"; "Zm8"; "Zm9v"; "Zm9vYg"; "Zm9vYmE"; "Zm9vYmFy"].
Proof. reflexivity. Qed.

(** What is not the encoding of any bytes: padding, white space, leftover bits. *)
Example base64_refusals :
  map decode_url ["AAA="; "AA AA"; "A"; "AB"; "AAB"; "+A"] = replicate 6 None.
Proof. reflexivity. Qed.
