(* ===== verification/WebauthnKit.v ===== *)
(** * What the unit tests of the WebAuthn ceremonies use

    The test modules of [authentication.rs], [registration.rs], [cose.rs] and
    [authenticator_proof.rs] make their own authenticators and attestation objects: with
    key pairs of [aws-lc-rs], the writer of [ciborium] and the COSE builders of [coset].
    Those crates are classes; light instances, with a CBOR reader and writer of the types
    the tests use, run them. *)

From S2P Require Import Prelude.
From S2P Require Import Json.
From S2P Require Import JsonCodec.
From S2P Require Import Aws.
From S2P Require Import AuthProof.
From S2P Require Import ClientData.
From S2P Require Import Cose.
From S2P Require Import Registration.
From S2P Require Import TestKit.

(** ** Crates of the tests *)

(** [EcdsaKeyPair] with [ECDSA_P256_SHA256_FIXED]: generation draws from the generator. *)
Class EcdsaKeyPair (R : Type) := {
  keypair : Type;
  generate : R → R * keypair;
  public_key : keypair → bytes;
  kp_sign : keypair → bytes → bytes;
}.

(** [ciborium::ser::into_writer] and [CoseKey::to_vec] of a key with an algorithm. *)
Class CborWriter := {
  into_writer : cbor → bytes;
  cose_to_vec : Z → CoseKey → bytes;
}.

(** [CoseKeyBuilder::new_ec2_pub_key] and [new_okp_key] with its parameters; the numbers of
    [coset::iana]. *)
Definition new_ec2_pub_key (curve : Z) (x y : bytes) : CoseKey :=
  {| kty := EC2; params := [(LInt (-1), CInteger curve); (LInt (-2), CBytes x); (LInt (-3), CBytes y)] |}.
Definition new_okp_key (ps : list (label * cbor)) : CoseKey := {| kty := OKP; params := ps |}.
Definition P_256 : Z := 1.
Definition P_384 : Z := 2.
Definition ES256 : Z := -7.
Definition ES384 : Z := -35.
Definition EdDSA : Z := -8.

(** ** The fixtures *)

Definition RP_ID : string := "zero-secret.example".
Definition ORIGIN : string := "https://zero-secret.example".

Section fixtures.
Context `{SerdeJson, Base64, AwsLc} {R : Type} `{Csprng R, EcdsaKeyPair R, CborWriter}.

Record TestAuthenticator := { key_pair : keypair }.

Definition authenticator_new (rng : R) : R * TestAuthenticator :=
  let '(rng, kp) := generate rng in (rng, {| key_pair := kp |}).
Definition public_key_raw (self : TestAuthenticator) : bytes := public_key (key_pair self).
Definition authenticator_sign (self : TestAuthenticator) (message : bytes) : bytes :=
  kp_sign (key_pair self) message.

Definition client_data_json (ceremony_type origin : string) (challenge : bytes) : bytes :=
  to_vec (Object [("type", VString ceremony_type);
                  ("challenge", VString (url_safe_encode challenge));
                  ("origin", VString origin)]).
End fixtures.

(** ** Light instances *)

(** A generator that counts its draws: two draws differ until it wraps. *)
#[export] Program Instance light_csprng : Csprng Z := {|
  fill r n := (r + 1, if 0 <=? n then Some (replicate (Z.to_nat n) (u8_of r)) else None)
|}.
Next Obligation.
  intros r n r' bs. simpl. destruct (0 <=? n) eqn:Hn; [|done]. intros [= _ <-]. bool_simp.
  unfold len. rewrite length_replicate. lia.
Qed.

(** A key pair is its 32 secret bytes; [sign] hashes the message, then signs as [p256]. *)
#[export] Instance light_key_pair : EcdsaKeyPair Z := {|
  keypair := bytes;
  generate r := (r + 1, replicate 32 (u8_of r));
  public_key kp := encoded_point kp;
  kp_sign kp message := sign_prehash kp (light_digest message);
|}.

(** CBOR: the head of an item is its major type and its argument, in the shortest form. *)
Definition head (major n : Z) : bytes :=
  if n <? 24 then [u8_of (major * 32 + n)]
  else if n <? 2 ^ 8 then [u8_of (major * 32 + 24); u8_of n]
  else if n <? 2 ^ 16 then u8_of (major * 32 + 25) :: to_be_bytes 2 n
  else u8_of (major * 32 + 26) :: to_be_bytes 4 n.

(** Integers, bytes, texts and maps: the items the tests write. *)
Fixpoint write (v : cbor) : bytes :=
  match v with
  | CInteger n => if 0 <=? n then head 0 n else head 1 (-1 - n)
  | CBytes bs => head 2 (len bs) ++ bs
  | CText s => head 3 (len (as_bytes s)) ++ as_bytes s
  | CMap m => head 5 (len m) ++ concat (map (λ e, match e with (k, x) => write k ++ write x end) m)
  | _ => []
  end.

Definition read_head (bs : bytes) : option (Z * Z * bytes) :=
  match bs with
  | [] => None
  | b :: rest =>
      let major := u8_val b / 32 in let info := u8_val b mod 32 in
      let w := if info =? 24 then 1%nat else if info =? 25 then 2%nat else 4%nat in
      if info <? 24 then Some (major, info, rest)
      else if (26 <? info) || (length rest <? w)%nat then None
      else Some (major, from_be_bytes (take w rest), drop w rest)
  end.

Definition read_bytes (n : Z) (bs : bytes) : option (bytes * bytes) :=
  if len bs <? n then None else Some (take (Z.to_nat n) bs, drop (Z.to_nat n) bs).

Fixpoint read (fuel : nat) (bs : bytes) : option (cbor * bytes) :=
  match fuel with
  | O => None
  | S fuel =>
      '(major, n, rest) ← read_head bs;
      if major =? 0 then Some (CInteger n, rest)
      else if major =? 1 then Some (CInteger (-1 - n), rest)
      else if major =? 2 then '(b, rest) ← read_bytes n rest; Some (CBytes b, rest)
      else if major =? 3 then
        '(b, rest) ← read_bytes n rest; Some (CText (from_utf8_bytes b), rest)
      else if major =? 5 then
        '(m, rest) ← (fix entries k rest :=
            match k with
            | O => Some ([], rest)
            | S k =>
                '(key, rest) ← read fuel rest; '(v, rest) ← read fuel rest;
                '(m, rest) ← entries k rest; Some ((key, v) :: m, rest)
            end) (Z.to_nat n) rest;
        Some (CMap m, rest)
      else None
  end.

(** A nesting of four is enough for an attestation object. *)
#[export] Program Instance light_ciborium : Ciborium := {|
  from_reader bs :=
    '(v, rest) ← read 5 bs;
    let n := len bs - len rest in
    if (0 <=? n) && (n <=? len bs) then Some (v, n) else None
|}.
Next Obligation.
  intros bs v n. cbv beta. destruct (read 5 bs) as [[v' rest]|]; cbn [mbind option_bind]; [|done].
  destruct ((0 <=? _) && _) eqn:Hn; [|done]. intros [= _ <-].
  apply andb_true_iff in Hn as [? ?]. lia.
Qed.

Definition write_label (l : label) : cbor := match l with LInt n => CInteger n | LText s => CText s end.
Definition key_type_number (k : key_type) : Z := match k with EC2 => 2 | OKP => 1 | OtherKeyType => 4 end.

#[export] Instance light_cbor_writer : CborWriter := {|
  into_writer := write;
  cose_to_vec alg key :=
    write (CMap ((CInteger 1, CInteger (key_type_number (kty key))) :: (CInteger 3, CInteger alg) ::
                 map (λ '(l, v), (write_label l, v)) (params key)));
|}.

(** Label 1 is the key type, labels 2 to 5 are fields of their own, the others parameters. *)
Definition read_param (e : cbor * cbor) : option (label * cbor) :=
  match e with
  | (CInteger n, v) => if (1 <=? n) && (n <=? 5) then None else Some (LInt n, v)
  | (CText s, v) => Some (LText s, v)
  | _ => None
  end.

Fixpoint read_kty (m : list (cbor * cbor)) : option key_type :=
  match m with
  | [] => None
  | (CInteger 1, CInteger n) :: _ =>
      Some (if n =? 2 then EC2 else if n =? 1 then OKP else OtherKeyType)
  | _ :: m' => read_kty m'
  end.

#[export] Instance light_coset : Coset := {|
  cose_from_slice bs :=
    '(v, rest) ← read 5 bs;
    m ← as_map v;
    k ← read_kty m;
    if bool_decide (rest = []) then Some {| kty := k; params := omap read_param m |} else None
|}.

(** The reader inverts the writer on the attestation object of a test. *)
Example light_cbor_round_trip :
  let v := CMap [(CText "fmt", CText "none"); (CText "attStmt", CMap []);
                 (CText "authData", CBytes (replicate 300 (u8_of 7))); (CInteger (-7), CInteger 70000)] in
  from_reader (into_writer v ++ [u8_of 1]) = Some (v, len (into_writer v)).
Proof. vm_compute. reflexivity. Qed.
