(* ===== verification/FuzzTargets.v ===== *)
(** * The fuzz targets of [zs-crypto] and [zs-webauthn]

    [crates/zs-crypto/fuzz/fuzz_targets/{identity_assertion_verify,audit_seal_verify}.rs] and
    [crates/zs-webauthn/fuzz/fuzz_targets/attestation_parser.rs]: a target fails on the bytes
    for which it panics.  Here they are proved to fail on none, which fuzzing cannot show;
    of the third, when the system's generator is there ([new_challenge] panics without it). *)

From S2P Require Import Prelude.
From S2P Require Import Json.
From S2P Require Import JsonCodec.
From S2P Require Import Aws.
From S2P Require Import Common.
From S2P Require Import Suite.
From S2P Require Import IdentityAssertion.
From S2P Require Import AuditSeal.
From S2P Require Import AuthProof.
From S2P Require Import ClientData.
From S2P Require Import Cose.
From S2P Require Import Registration.
From S2P Require Import TestKit.
From S2P Require Import WebauthnKit.

(** [vec![0x04u8; 65]] with [sec1[1..].copy_from_slice(&[0x11u8; 64])] *)
Definition fuzz_sec1 : bytes := u8_of 4 :: replicate 64 (u8_of 17).

Section targets.
Context `{SerdeJson, Base64, AwsLc, Ciborium, Coset} {R : Type} `{Csprng R}.

(** [let Ok(x) = r else { return };] *)
Definition let_ok {A E} (r : res A E) (k : A → test) : test :=
  match r with Ok a => k a | Err _ => Ok tt | Panic => Panic end.
(** [let _ = r;] *)
Definition ignore {A E} (r : res A E) : test :=
  match r with Panic => Panic | _ => Ok tt end.

Definition identity_assertion_verify (data : bytes) : test :=
  let sec1 := fuzz_sec1 in
  let_ok (IdentityAssertion.accept_verifying_key IdentityAssertion.SUITE_V1 "fuzz-key-id" sec1) (λ key,
  let_ok (Timestamp_new "2026-08-23T10:00:00Z") (λ now,
  let policy := {| IdentityAssertion.accepted_suites := [IdentityAssertion.SUITE_V1];
                   IdentityAssertion.now := now;
                   IdentityAssertion.expected_authority_domain := "identity-provider" |} in
  ignore (IdentityAssertion.verify [key] data policy))).

Definition audit_seal_verify (data : bytes) : test :=
  let sec1 := fuzz_sec1 in
  let_ok (AuditSeal.accept_verifying_key AuditSeal.SUITE_V1 "fuzz-key-id" sec1) (λ key,
  let policy := {| AuditSeal.accepted_suites := [AuditSeal.SUITE_V1];
                   AuditSeal.expected_authority_domain := "identity-provider" |} in
  ignore (AuditSeal.verify [key] data policy)).

Definition attestation_parser (rng : R) (attestation_object : bytes) : test :=
  let! challenge := expect (new_challenge rng).2 in
  let client_data_json := to_vec (Object [
    ("type", VString "webauthn.create");
    ("challenge", VString (url_safe_encode (challenge_as_bytes challenge)));
    ("origin", VString "https://zero-secret.example")]) in
  ignore (verify_registration_ceremony {|
    Registration.client_data_json := client_data_json;
    Registration.attestation_object := attestation_object;
    expected_origin := "https://zero-secret.example";
    expected_rp_id := "zero-secret.example";
    expected_challenge := challenge;
    policy := Any |}).

Lemma ignore_returns {A E} (r : res A E) : r ≠ Panic → ignore r = Ok tt.
Proof. by destruct r. Qed.
Lemma let_ok_returns {A E} (r : res A E) k :
  r ≠ Panic → (∀ a, k a = Ok tt) → let_ok r k = Ok tt.
Proof. destruct r; simpl; auto. done. Qed.

Lemma accept_key_returns {E} suite_v1 (unknown malformed : E) suite kid pk :
  accept_verifying_key_for suite_v1 unknown malformed suite kid pk ≠ Panic.
Proof. unfold accept_verifying_key_for. destruct (bool_decide _); [by destruct (negb _)|done]. Qed.

(** The key of the first two is accepted, so they reach the verifiers. *)
Lemma fuzz_key_accepted {E} suite (unknown malformed : E) kid :
  accept_verifying_key_for suite unknown malformed suite kid fuzz_sec1 =
  Ok {| avk_key_id := kid; avk_raw := fuzz_sec1 |}.
Proof. unfold accept_verifying_key_for. by rewrite bool_decide_true. Qed.

(** No input makes a target panic. *)
Theorem fuzz_targets_return data rng rng' bs :
  fill rng CHALLENGE_LEN = (rng', Some bs) →
  identity_assertion_verify data = Ok tt ∧ audit_seal_verify data = Ok tt ∧
  attestation_parser rng data = Ok tt.
Proof.
  intros Hrng. split_and!.
  - unfold identity_assertion_verify. apply let_ok_returns; [|intros key; apply let_ok_returns; [|intros now]].
    + apply accept_key_returns.
    + done.
    + apply ignore_returns, verify_never_panics.
  - unfold audit_seal_verify. apply let_ok_returns; [|intros key].
    + apply accept_key_returns.
    + apply ignore_returns, event_verify_never_panics.
  - unfold attestation_parser, new_challenge. rewrite Hrng. cbn.
    apply ignore_returns, verify_registration_no_panic.
Qed.
End targets.
