(* ===== verification/UnitAuthentication.v ===== *)
(** * The unit tests of [authenticator_proof.rs], [client_data.rs] and [authentication.rs]

    Every test of the three modules, on the models of [AuthProof], [ClientData] and
    [Authentication].  The generator of a test is threaded through it: [SystemRandom] and
    [new_challenge] draw from it. *)

From S2P Require Import Prelude.
From S2P Require Import Json.
From S2P Require Import JsonCodec.
From S2P Require Import Aws.
From S2P Require Import AuthProof.
From S2P Require Import ClientData.
From S2P Require Import Cose.
From S2P Require Import Registration.
From S2P Require Import Authentication.
From S2P Require Import TestKit.
From S2P Require Import Base64Url.
From S2P Require Import WebauthnKit.

#[export] Instance client_data_error_eq_dec : EqDecision ClientData.Error.
Proof. solve_decision. Defined.
#[export] Instance authentication_error_eq_dec : EqDecision AuthenticationError.
Proof. solve_decision. Defined.
#[export] Instance aal_eq_dec : EqDecision Authentication.Aal.
Proof. solve_decision. Defined.

Section tests.
Context `{SerdeJson, Base64, AwsLc} {R : Type} `{Csprng R, EcdsaKeyPair R}.
Variable rng : R.

(** ** [authenticator_proof.rs] *)

Definition gen_es256 (rng : R) : R * (PublicKeyMaterial * keypair) :=
  let '(rng, kp) := generate rng in
  (rng, ({| pkm_algorithm := Es256; pkm_raw := public_key kp |}, kp)).

Definition es256_signature_valide_est_acceptee : test :=
  let '(_, (material, kp)) := gen_es256 rng in
  let! key := expect (accept_key SUITE_V1 material) in
  let msg := as_bytes "authData || sha256(clientDataJSON)" in
  assert (is_ok (AuthProof.verify key msg (kp_sign kp msg))).

Definition signature_invalide_est_refusee : test :=
  let '(_, (material, kp)) := gen_es256 rng in
  let! key := expect (accept_key SUITE_V1 material) in
  let sig := kp_sign kp (as_bytes "message original") in
  assert (is_err (AuthProof.verify key (as_bytes "message modifie") sig)).

Definition suite_inconnue_est_refusee : test :=
  let '(_, (material, _)) := gen_es256 rng in
  assert match accept_key "authenticator-proof/v0-inexistante" material with
         | Err AuthProof.UnknownSuite => true | _ => false end.

Definition cle_es256_mal_encodee_est_refusee : test :=
  let material := {| pkm_algorithm := Es256; pkm_raw := replicate 65 (u8_of 0) |} in
  assert match accept_key SUITE_V1 material with Err AuthProof.MalformedKey => true | _ => false end.

Definition cle_longueur_incoherente_avec_algorithme_est_refusee : test :=
  let material := {| pkm_algorithm := EdDsa; pkm_raw := replicate 65 (u8_of 0) |} in
  assert match accept_key SUITE_V1 material with Err AuthProof.MalformedKey => true | _ => false end.

Definition challenge_rejoue_est_detecte_comme_non_concordant : test :=
  let '(rng, c1) := new_challenge rng in let! c1 := expect c1 in
  let '(rng, c2) := new_challenge rng in let! c2 := expect c2 in
  let! _ := assert (negb (challenge_matches c1 (challenge_as_bytes c2))) in
  assert (challenge_matches c1 (challenge_as_bytes c1)).

Definition challenge_reussit_le_round_trip_par_ses_octets : test :=
  let '(rng, original) := new_challenge rng in let! original := expect original in
  let bytes := challenge_as_bytes original in
  let! rehydrated := expect (accept_challenge SUITE_V1 bytes) in
  assert (challenge_matches original (challenge_as_bytes rehydrated)).

Definition challenge_de_longueur_incorrecte_est_refuse : test :=
  let! _ := assert match accept_challenge SUITE_V1 (replicate 31 (u8_of 0)) with
                   | Err MalformedChallenge => true | _ => false end in
  assert match accept_challenge SUITE_V1 (replicate 33 (u8_of 0)) with
         | Err MalformedChallenge => true | _ => false end.

Definition challenge_avec_suite_inconnue_est_refuse : test :=
  assert match accept_challenge "autre-suite/v1" (replicate 32 (u8_of 0)) with
         | Err AuthProof.UnknownSuite => true | _ => false end.

Definition proof_tests : list test :=
  [es256_signature_valide_est_acceptee; signature_invalide_est_refusee; suite_inconnue_est_refusee;
   cle_es256_mal_encodee_est_refusee; cle_longueur_incoherente_avec_algorithme_est_refusee;
   challenge_rejoue_est_detecte_comme_non_concordant;
   challenge_reussit_le_round_trip_par_ses_octets; challenge_de_longueur_incorrecte_est_refuse;
   challenge_avec_suite_inconnue_est_refuse].

(** ** [client_data.rs] *)

(** [verify] for the test's registration ceremony. *)
Definition verify_create (cdj : bytes) (challenge : Challenge) : res unit ClientData.Error :=
  ClientData.verify cdj "webauthn.create" ORIGIN challenge.

Definition client_data_cas_nominal_est_accepte : test :=
  let '(rng, challenge) := new_challenge rng in let! challenge := expect challenge in
  let cdj := client_data_json "webauthn.create" ORIGIN (challenge_as_bytes challenge) in
  assert (is_ok (verify_create cdj challenge)).

Definition client_data_challenge_rejoue_est_refuse : test :=
  let '(rng, challenge) := new_challenge rng in let! challenge := expect challenge in
  let '(rng, autre) := new_challenge rng in let! autre_challenge := expect autre in
  let cdj := client_data_json "webauthn.create" ORIGIN (challenge_as_bytes autre_challenge) in
  assert_eq (verify_create cdj challenge) (Err ChallengeMismatch).

Definition client_data_origin_incorrecte_est_refusee : test :=
  let '(rng, challenge) := new_challenge rng in let! challenge := expect challenge in
  let cdj := client_data_json "webauthn.create" "https://phishing.example"
               (challenge_as_bytes challenge) in
  assert_eq (verify_create cdj challenge) (Err (UnexpectedOrigin "https://phishing.example")).

Definition type_de_ceremonie_incorrect_est_refuse : test :=
  let '(rng, challenge) := new_challenge rng in let! challenge := expect challenge in
  let cdj := client_data_json "webauthn.get" ORIGIN (challenge_as_bytes challenge) in
  assert_eq (verify_create cdj challenge) (Err (UnexpectedType "webauthn.get")).

Definition client_data_tests : list test :=
  [client_data_cas_nominal_est_accepte; client_data_challenge_rejoue_est_refuse;
   client_data_origin_incorrecte_est_refusee; type_de_ceremonie_incorrect_est_refuse].

(** ** [authentication.rs] *)

Definition auth_data (rp_id : string) (flags sign_count : Z) : bytes :=
  AuthProof.sha256 (as_bytes rp_id) ++ u8_of flags :: to_be_bytes 4 sign_count.

Definition registered (auth : TestAuthenticator) (counter_supported : bool) (stored : Z) :
    RegisteredCredential := {|
  rc_subject_id := "subject-1";
  rc_credential_id := as_bytes "test-credential-id";
  rc_public_key_algorithm := Es256;
  rc_public_key_raw := public_key_raw auth;
  Authentication.counter_supported := counter_supported;
  stored_sign_count := stored;
  revoked := false;
|}.

Definition sign_and_build (auth : TestAuthenticator) (cdj auth_data : bytes) : bytes :=
  let client_data_hash := AuthProof.sha256 cdj in
  let signed_message := auth_data ++ client_data_hash in
  authenticator_sign auth signed_message.

(** The ceremony of every test, with the expected relying party and origin. *)
Definition ceremony (cdj auth_data sig : bytes) (challenge : Challenge)
    (credential : RegisteredCredential) : res AuthenticationClaims AuthenticationError :=
  verify_authentication_ceremony {|
    Authentication.client_data_json := cdj;
    authenticator_data := auth_data;
    signature := sig;
    Authentication.expected_origin := ORIGIN;
    Authentication.expected_rp_id := RP_ID;
    Authentication.expected_challenge := challenge;
    credential := credential;
  |}.

Definition assertion_valide_est_acceptee : test :=
  let '(rng, auth) := authenticator_new rng in
  let '(rng, challenge) := new_challenge rng in let! challenge := expect challenge in
  let cdj := client_data_json "webauthn.get" ORIGIN (challenge_as_bytes challenge) in
  let auth_data := auth_data RP_ID 5 7 in
  let sig := sign_and_build auth cdj auth_data in
  let credential := registered auth true 6 in
  let! claims := expect (ceremony cdj auth_data sig challenge credential) in
  let! _ := assert_eq (cl_aal claims) Aal2 in
  let! _ := assert_eq (cl_new_sign_count claims) 7 in
  assert_eq (cl_subject_id claims) "subject-1".

Definition compteur_non_supporte_est_accepte_a_zero : test :=
  let '(rng, auth) := authenticator_new rng in
  let '(rng, challenge) := new_challenge rng in let! challenge := expect challenge in
  let cdj := client_data_json "webauthn.get" ORIGIN (challenge_as_bytes challenge) in
  let auth_data := auth_data RP_ID 1 0 in
  let sig := sign_and_build auth cdj auth_data in
  let credential := registered auth false 0 in
  let! claims := expect (ceremony cdj auth_data sig challenge credential) in
  assert_eq (cl_aal claims) Aal1.

Definition compteur_regressif_est_refuse : test :=
  let '(rng, auth) := authenticator_new rng in
  let '(rng, challenge) := new_challenge rng in let! challenge := expect challenge in
  let cdj := client_data_json "webauthn.get" ORIGIN (challenge_as_bytes challenge) in
  let auth_data := auth_data RP_ID 1 5 in
  let sig := sign_and_build auth cdj auth_data in
  let credential := registered auth true 10 in
  let! e := unwrap_err (ceremony cdj auth_data sig challenge credential) in
  assert_eq e SignCounterRegression.

Definition compteur_identique_est_refuse : test :=
  let '(rng, auth) := authenticator_new rng in
  let '(rng, challenge) := new_challenge rng in let! challenge := expect challenge in
  let cdj := client_data_json "webauthn.get" ORIGIN (challenge_as_bytes challenge) in
  let auth_data := auth_data RP_ID 1 10 in
  let sig := sign_and_build auth cdj auth_data in
  let credential := registered auth true 10 in
  let! e := unwrap_err (ceremony cdj auth_data sig challenge credential) in
  assert_eq e SignCounterRegression.

Definition challenge_rejoue_est_refuse : test :=
  let '(rng, auth) := authenticator_new rng in
  let '(rng, challenge) := new_challenge rng in let! challenge := expect challenge in
  let '(rng, autre) := new_challenge rng in let! autre_challenge := expect autre in
  let cdj := client_data_json "webauthn.get" ORIGIN (challenge_as_bytes autre_challenge) in
  let auth_data := auth_data RP_ID 1 1 in
  let sig := sign_and_build auth cdj auth_data in
  let credential := registered auth true 0 in
  assert match ceremony cdj auth_data sig challenge credential with
         | Err (ClientDataError ChallengeMismatch) => true | _ => false end.

Definition origin_incorrecte_est_refusee : test :=
  let '(rng, auth) := authenticator_new rng in
  let '(rng, challenge) := new_challenge rng in let! challenge := expect challenge in
  let cdj := client_data_json "webauthn.get" "https://phishing.example"
               (challenge_as_bytes challenge) in
  let auth_data := auth_data RP_ID 1 1 in
  let sig := sign_and_build auth cdj auth_data in
  let credential := registered auth true 0 in
  assert match ceremony cdj auth_data sig challenge credential with
         | Err (ClientDataError (UnexpectedOrigin _)) => true | _ => false end.

Definition confusion_de_ceremonie_est_refusee : test :=
  let '(rng, auth) := authenticator_new rng in
  let '(rng, challenge) := new_challenge rng in let! challenge := expect challenge in
  let cdj := client_data_json "webauthn.create" ORIGIN (challenge_as_bytes challenge) in
  let auth_data := auth_data RP_ID 1 1 in
  let sig := sign_and_build auth cdj auth_data in
  let credential := registered auth true 0 in
  assert match ceremony cdj auth_data sig challenge credential with
         | Err (ClientDataError (UnexpectedType _)) => true | _ => false end.

Definition rp_id_incorrect_est_refuse : test :=
  let '(rng, auth) := authenticator_new rng in
  let '(rng, challenge) := new_challenge rng in let! challenge := expect challenge in
  let cdj := client_data_json "webauthn.get" ORIGIN (challenge_as_bytes challenge) in
  let auth_data := auth_data "autre-domaine.example" 1 1 in
  let sig := sign_and_build auth cdj auth_data in
  let credential := registered auth true 0 in
  let! e := unwrap_err (ceremony cdj auth_data sig challenge credential) in
  assert_eq e RpIdMismatch.

Definition user_present_absent_est_refuse : test :=
  let '(rng, auth) := authenticator_new rng in
  let '(rng, challenge) := new_challenge rng in let! challenge := expect challenge in
  let cdj := client_data_json "webauthn.get" ORIGIN (challenge_as_bytes challenge) in
  let auth_data := auth_data RP_ID 0 1 in
  let sig := sign_and_build auth cdj auth_data in
  let credential := registered auth true 0 in
  let! e := unwrap_err (ceremony cdj auth_data sig challenge credential) in
  assert_eq e UserNotPresent.

Definition assertion_signature_invalide_est_refusee : test :=
  let '(rng, auth) := authenticator_new rng in
  let '(rng, autre_auth) := authenticator_new rng in
  let '(rng, challenge) := new_challenge rng in let! challenge := expect challenge in
  let cdj := client_data_json "webauthn.get" ORIGIN (challenge_as_bytes challenge) in
  let auth_data := auth_data RP_ID 1 1 in
  let sig := sign_and_build autre_auth cdj auth_data in
  let credential := registered auth true 0 in
  let! e := unwrap_err (ceremony cdj auth_data sig challenge credential) in
  assert_eq e InvalidSignature.

Definition authentificateur_revoque_est_refuse_immediatement : test :=
  let '(rng, auth) := authenticator_new rng in
  let '(rng, challenge) := new_challenge rng in let! challenge := expect challenge in
  let cdj := client_data_json "webauthn.get" ORIGIN (challenge_as_bytes challenge) in
  let auth_data := auth_data RP_ID 1 1 in
  let sig := sign_and_build auth cdj auth_data in
  let c := registered auth true 0 in
  let credential := {|
    rc_subject_id := rc_subject_id c; rc_credential_id := rc_credential_id c;
    rc_public_key_algorithm := rc_public_key_algorithm c; rc_public_key_raw := rc_public_key_raw c;
    Authentication.counter_supported := Authentication.counter_supported c;
    stored_sign_count := stored_sign_count c; revoked := true |} in
  let! e := unwrap_err (ceremony cdj auth_data sig challenge credential) in
  assert_eq e AuthenticatorRevoked.

Definition authentication_tests : list test :=
  [assertion_valide_est_acceptee; compteur_non_supporte_est_accepte_a_zero;
   compteur_regressif_est_refuse; compteur_identique_est_refuse; challenge_rejoue_est_refuse;
   origin_incorrecte_est_refusee; confusion_de_ceremonie_est_refusee; rp_id_incorrect_est_refuse;
   user_present_absent_est_refuse; assertion_signature_invalide_est_refusee;
   authentificateur_revoque_est_refuse_immediatement].
End tests.

Example authentication_unit_tests_pass :
  map passes (proof_tests 1 ++ client_data_tests 1 ++ authentication_tests 1) = replicate 24 true.
Proof. vm_compute. reflexivity. Qed.
