(* ===== verification/UnitRegistration.v ===== *)
(** * The unit tests of [cose.rs] and [registration.rs]

    Every test of the two modules, on the models of [Cose] and [Registration]: attestation
    objects are built as the tests build them, with the writers of [WebauthnKit]. *)

From S2P Require Import Prelude.
From S2P Require Import Json.
From S2P Require Import JsonCodec.
From S2P Require Import Aws.
From S2P Require Import AuthProof.
From S2P Require Import ClientData.
From S2P Require Import Cose.
From S2P Require Import Registration.
From S2P Require Import TestKit.
From S2P Require Import Base64Url.
From S2P Require Import WebauthnKit.

#[export] Instance cose_error_eq_dec : EqDecision Cose.Error.
Proof. solve_decision. Defined.
#[export] Instance registration_client_error_eq_dec : EqDecision ClientData.Error.
Proof. solve_decision. Defined.
#[export] Instance registration_error_eq_dec : EqDecision RegistrationError.
Proof. solve_decision. Defined.

Section tests.
Context `{SerdeJson, Base64, AwsLc} {R : Type} `{Csprng R, EcdsaKeyPair R, CborWriter, Ciborium, Coset}.
Variable rng : R.

(** ** [cose.rs] *)

Definition cle_ec2_p256_valide_est_extraite : test :=
  let key := new_ec2_pub_key P_256 (replicate 32 (u8_of 1)) (replicate 32 (u8_of 2)) in
  let bytes := cose_to_vec ES256 key in
  let! material := expect (extract_public_key_material bytes) in
  let! _ := assert_eq (pkm_algorithm material) Es256 in
  let! _ := assert_eq (len (pkm_raw material)) 65 in
  let! b := index (pkm_raw material) 0 in
  assert_eq b (u8_of 4).

Definition cle_okp_ed25519_valide_est_extraite : test :=
  let key := new_okp_key [(LInt (-1), CInteger 6); (LInt (-2), CBytes (replicate 32 (u8_of 7)))] in
  let bytes := cose_to_vec EdDSA key in
  let! material := expect (extract_public_key_material bytes) in
  let! _ := assert_eq (pkm_algorithm material) EdDsa in
  assert_eq (len (pkm_raw material)) 32.

Definition courbe_non_supportee_est_refusee : test :=
  let key := new_ec2_pub_key P_384 (replicate 48 (u8_of 1)) (replicate 48 (u8_of 2)) in
  let bytes := cose_to_vec ES384 key in
  assert match extract_public_key_material bytes with Err UnsupportedKeyType => true | _ => false end.

Definition cbor_invalide_est_refuse : test :=
  assert match extract_public_key_material [u8_of 255; u8_of 0; u8_of 1] with
         | Err Cose.InvalidCbor => true | _ => false end.

Definition cose_tests : list test :=
  [cle_ec2_p256_valide_est_extraite; cle_okp_ed25519_valide_est_extraite;
   courbe_non_supportee_est_refusee; cbor_invalide_est_refuse].

(** ** [registration.rs] *)

Definition cose_public_key (self : TestAuthenticator) : res bytes unit :=
  let raw := public_key_raw self in
  let! x := slice raw 1 33 in
  let! y := slice raw 33 65 in
  Ok (cose_to_vec ES256 (new_ec2_pub_key P_256 x y)).

Definition auth_data (self : TestAuthenticator) (rp_id : string) (flags sign_count : Z) : res bytes unit :=
  let data := AuthProof.sha256 (as_bytes rp_id) ++ u8_of flags :: to_be_bytes 4 sign_count in
  if has_flag flags FLAG_ATTESTED_CRED_DATA then
    let cred_id := as_bytes "test-credential-id" in
    let! key := cose_public_key self in
    Ok (data ++ replicate 16 (u8_of 170) ++ to_be_bytes 2 (len cred_id) ++ cred_id ++ key)
  else Ok data.

Definition attestation_object_none (auth_data : bytes) : bytes :=
  into_writer (CMap [(CText "fmt", CText "none"); (CText "attStmt", CMap []);
                     (CText "authData", CBytes auth_data)]).

Definition attestation_object_packed (auth_data client_data_json : bytes)
    (authenticator : TestAuthenticator) : bytes :=
  let client_data_hash := AuthProof.sha256 client_data_json in
  let signed_message := auth_data ++ client_data_hash in
  let sig := authenticator_sign authenticator signed_message in
  let att_stmt := CMap [(CText "alg", CInteger (-7)); (CText "sig", CBytes sig)] in
  into_writer (CMap [(CText "fmt", CText "packed"); (CText "attStmt", att_stmt);
                     (CText "authData", CBytes auth_data)]).

(** The ceremony of every test, with the expected relying party and origin. *)
Definition ceremony (cdj att_obj : bytes) (challenge : Challenge) (policy : AttestationPolicy) :
    res RegistrationOutcome RegistrationError :=
  verify_registration_ceremony {|
    Registration.client_data_json := cdj;
    attestation_object := att_obj;
    expected_origin := ORIGIN;
    expected_rp_id := RP_ID;
    expected_challenge := challenge;
    policy := policy;
  |}.

Definition enregistrement_none_avec_politique_any_est_accepte : test :=
  let '(rng, auth) := authenticator_new rng in
  let '(rng, challenge) := new_challenge rng in let! challenge := expect challenge in
  let cdj := client_data_json "webauthn.create" ORIGIN (challenge_as_bytes challenge) in
  let! auth_data := auth_data auth RP_ID 65 0 in
  let att_obj := attestation_object_none auth_data in
  let! outcome := expect (ceremony cdj att_obj challenge Any) in
  let! _ := assert_eq (attestation_format outcome) "none" in
  assert_eq (credential_id outcome) (as_bytes "test-credential-id").

Definition enregistrement_packed_auto_attestation_est_accepte : test :=
  let '(rng, auth) := authenticator_new rng in
  let '(rng, challenge) := new_challenge rng in let! challenge := expect challenge in
  let cdj := client_data_json "webauthn.create" ORIGIN (challenge_as_bytes challenge) in
  let! auth_data := auth_data auth RP_ID 65 0 in
  let att_obj := attestation_object_packed auth_data cdj auth in
  let! outcome := expect (ceremony cdj att_obj challenge Required) in
  assert_eq (attestation_format outcome) "packed".

Definition challenge_rejoue_est_refuse : test :=
  let '(rng, auth) := authenticator_new rng in
  let '(rng, challenge) := new_challenge rng in let! challenge := expect challenge in
  let '(rng, autre) := new_challenge rng in let! autre_challenge := expect autre in
  let cdj := client_data_json "webauthn.create" ORIGIN (challenge_as_bytes autre_challenge) in
  let! auth_data := auth_data auth RP_ID 65 0 in
  let att_obj := attestation_object_none auth_data in
  assert match ceremony cdj att_obj challenge Any with
         | Err (ClientDataError ChallengeMismatch) => true | _ => false end.

Definition origin_incorrecte_est_refusee : test :=
  let '(rng, auth) := authenticator_new rng in
  let '(rng, challenge) := new_challenge rng in let! challenge := expect challenge in
  let cdj := client_data_json "webauthn.create" "https://phishing.example"
               (challenge_as_bytes challenge) in
  let! auth_data := auth_data auth RP_ID 65 0 in
  let att_obj := attestation_object_none auth_data in
  assert match ceremony cdj att_obj challenge Any with
         | Err (ClientDataError (UnexpectedOrigin _)) => true | _ => false end.

Definition attestation_absente_alors_quexigee_est_refusee : test :=
  let '(rng, auth) := authenticator_new rng in
  let '(rng, challenge) := new_challenge rng in let! challenge := expect challenge in
  let cdj := client_data_json "webauthn.create" ORIGIN (challenge_as_bytes challenge) in
  let! auth_data := auth_data auth RP_ID 65 0 in
  let att_obj := attestation_object_none auth_data in
  let! e := unwrap_err (ceremony cdj att_obj challenge Required) in
  assert_eq e AttestationRequiredButAbsent.

Definition format_attestation_non_supporte_est_refuse_explicitement : test :=
  let '(rng, auth) := authenticator_new rng in
  let! auth_data := auth_data auth RP_ID 65 0 in
  let att_obj := into_writer (CMap [(CText "fmt", CText "tpm"); (CText "attStmt", CMap []);
                                    (CText "authData", CBytes auth_data)]) in
  let '(rng, challenge) := new_challenge rng in let! challenge := expect challenge in
  let cdj := client_data_json "webauthn.create" ORIGIN (challenge_as_bytes challenge) in
  assert match ceremony cdj att_obj challenge Any with
         | Err (UnsupportedAttestationFormat fmt) => bool_decide (fmt = "tpm") | _ => false end.

Definition rp_id_incorrect_est_refuse : test :=
  let '(rng, auth) := authenticator_new rng in
  let '(rng, challenge) := new_challenge rng in let! challenge := expect challenge in
  let cdj := client_data_json "webauthn.create" ORIGIN (challenge_as_bytes challenge) in
  let! auth_data := auth_data auth "autre-domaine.example" 65 0 in
  let att_obj := attestation_object_none auth_data in
  let! e := unwrap_err (ceremony cdj att_obj challenge Any) in
  assert_eq e RpIdMismatch.

Definition user_present_absent_est_refuse : test :=
  let '(rng, auth) := authenticator_new rng in
  let '(rng, challenge) := new_challenge rng in let! challenge := expect challenge in
  let cdj := client_data_json "webauthn.create" ORIGIN (challenge_as_bytes challenge) in
  let! auth_data := auth_data auth RP_ID 64 0 in
  let att_obj := attestation_object_none auth_data in
  let! e := unwrap_err (ceremony cdj att_obj challenge Any) in
  assert_eq e UserNotPresent.

Definition signature_attestation_packed_invalide_est_refusee : test :=
  let '(rng, auth) := authenticator_new rng in
  let '(rng, autre_auth) := authenticator_new rng in
  let '(rng, challenge) := new_challenge rng in let! challenge := expect challenge in
  let cdj := client_data_json "webauthn.create" ORIGIN (challenge_as_bytes challenge) in
  let! auth_data := auth_data auth RP_ID 65 0 in
  let att_obj := attestation_object_packed auth_data cdj autre_auth in
  let! e := unwrap_err (ceremony cdj att_obj challenge Any) in
  assert_eq e InvalidAttestationSignature.

Definition registration_tests : list test :=
  [enregistrement_none_avec_politique_any_est_accepte;
   enregistrement_packed_auto_attestation_est_accepte; challenge_rejoue_est_refuse;
   origin_incorrecte_est_refusee; attestation_absente_alors_quexigee_est_refusee;
   format_attestation_non_supporte_est_refuse_explicitement; rp_id_incorrect_est_refuse;
   user_present_absent_est_refuse; signature_attestation_packed_invalide_est_refusee].
End tests.

Example registration_unit_tests_pass :
  map passes (cose_tests ++ registration_tests 1) = replicate 13 true.
Proof. vm_compute. reflexivity. Qed.
