(* ===== verification/UnitServices.v ===== *)
(** * The unit tests of the services and of the session pool

    The test modules of [apps/audit-sealer/src/lib.rs], [apps/identity-provider/src/lib.rs]
    and [httpapi.rs], [apps/policy-engine/src/lib.rs] and [crates/zs-hsm/src/pool.rs], on
    the models of those files.  Left out is the one test whose input is ten mebibytes long
    ([security_b64_decode_refuse_une_chaine_extremement_longue_sans_paniquer]): that
    [b64_decode] does not panic is in its type. *)

From S2P Require Import Prelude.
From S2P Require Import Json.
From S2P Require Import JsonCodec.
From S2P Require Import Aws.
From S2P Require Import Common.
From S2P Require Import Signer.
From S2P Require Import IdentityAssertion.
From S2P Require Import ClientData.
From S2P Require Import Calendar.
From S2P Require Import AuditSeal.
From S2P Require Import AuditProto.
From S2P Require Import AuditSealerApp.
From S2P Require Import IdpGrpc.
From S2P Require Import IdpHttp.
From S2P Require Import Pool.
From S2P Require Import PolicyProto.
From S2P Require Import PolicyEngine.
From S2P Require Import Base64Url.
From S2P Require Import TestKit.

#[export] Instance hsm_error_eq_dec : EqDecision HsmError.
Proof. solve_decision. Defined.

(** ** [apps/audit-sealer/src/lib.rs] *)

Definition civil_from_days_epoch_est_1970_01_01 : test :=
  assert_eq (AuditSealerApp.civil_from_days 0) (1970, 1, 1).

Definition event_type_inconnu_est_refuse : test :=
  let! _ := assert (bool_decide (event_type_from_str "access.requested" = None)) in
  assert (bool_decide (event_type_from_str "n_importe_quoi" = None)).

Definition event_type_connu_est_accepte : test :=
  let! _ := assert (bool_decide (is_Some (event_type_from_str "quorum.operation"))) in
  let! _ := assert (bool_decide (is_Some (event_type_from_str "authentication.succeeded"))) in
  let! _ := assert (bool_decide (is_Some (event_type_from_str "policy.decided"))) in
  assert (bool_decide (is_Some (event_type_from_str "credential.issued"))).

Definition sample_actor : ProtoActor :=
  {| pa_subject_id := "subject-1"; pa_kind := "human"; pa_aal := None; pa_auth_method := None |}.

Definition sample_decision : ProtoDecision := {|
  pd_request_id := "f47ac10b-58cc-4372-a567-0e02b2c3d479";
  pd_decision_hash := replicate 32 (u8_of 205);
  pd_policy_version := "db.connect@1";
  pd_reasons := ["db-connect-production"];
  pd_granted_ttl_seconds := Some 900;
  pd_decision_signature := Some (replicate 64 (u8_of 239));
  pd_decision_signature_key_id := Some "decision-key-1";
|}.

(** The request of the tests: they differ in these four fields. *)
Definition seal_request (prev_hash : bytes) (authority_domain event_type : string)
    (decision : option ProtoDecision) : SealRequest := {|
  sr_event_id := "0198e6c1-0000-7000-8000-000000000000";
  sr_sequence := 0;
  sr_prev_hash := prev_hash;
  sr_occurred_at := Some {| seconds := 1777000000; nanos := 0 |};
  sr_authority_domain := authority_domain;
  sr_event_type := event_type;
  sr_actor := Some sample_actor;
  sr_target := None;
  sr_outcome := "success";
  sr_context := None;
  sr_decision := decision;
|}.

(** [match r { Err(reason) => assert_eq!(reason, why), Ok(_) => panic!(..) }] *)
Definition refused_as {A} (r : res A string) (why : string) : test :=
  match r with Err reason => assert_eq reason why | _ => Panic end.

Definition fields_from_request_refuse_un_prev_hash_de_mauvaise_longueur : test :=
  let req := seal_request (replicate 31 (u8_of 0)) "identity-provider" "quorum.operation" None in
  refused_as (fields_from_request req) "prev_hash_doit_faire_32_octets".

Definition fields_from_request_refuse_un_event_type_non_supporte : test :=
  let req := seal_request (replicate 32 (u8_of 0)) "identity-provider" "access.requested" None in
  refused_as (fields_from_request req) "event_type_inconnu_ou_non_supporte".

Definition fields_from_request_accepte_policy_decided_avec_decision : test :=
  let req := seal_request (replicate 32 (u8_of 0)) "access-broker" "policy.decided"
               (Some sample_decision) in
  assert (is_ok (fields_from_request req)).

Definition fields_from_request_refuse_policy_decided_sans_decision : test :=
  let req := seal_request (replicate 32 (u8_of 0)) "access-broker" "policy.decided" None in
  let! fields := expect (fields_from_request req) in
  assert match AuditSeal.decision fields with None => true | Some _ => false end.

Definition fields_from_request_accepte_credential_issued_avec_decision : test :=
  let req := seal_request (replicate 32 (u8_of 0)) "credential-issuer" "credential.issued"
               (Some sample_decision) in
  assert (is_ok (fields_from_request req)).

Definition decision_from_proto_refuse_un_decision_hash_de_mauvaise_longueur : test :=
  let d := sample_decision in
  let decision := {|
    pd_request_id := pd_request_id d; pd_decision_hash := replicate 31 (u8_of 0);
    pd_policy_version := pd_policy_version d; pd_reasons := pd_reasons d;
    pd_granted_ttl_seconds := pd_granted_ttl_seconds d; pd_decision_signature := pd_decision_signature d;
    pd_decision_signature_key_id := pd_decision_signature_key_id d |} in
  refused_as (decision_from_proto decision) "decision_hash_doit_faire_32_octets".

Definition audit_sealer_tests : list test :=
  [civil_from_days_epoch_est_1970_01_01; event_type_inconnu_est_refuse; event_type_connu_est_accepte;
   fields_from_request_refuse_un_prev_hash_de_mauvaise_longueur;
   fields_from_request_refuse_un_event_type_non_supporte;
   fields_from_request_accepte_policy_decided_avec_decision;
   fields_from_request_refuse_policy_decided_sans_decision;
   fields_from_request_accepte_credential_issued_avec_decision;
   decision_from_proto_refuse_un_decision_hash_de_mauvaise_longueur].

(** ** [apps/identity-provider/src/lib.rs] *)

Definition idp_civil_from_days_epoch_est_1970_01_01 : test :=
  assert_eq (IdpGrpc.civil_from_days 0) (1970, 1, 1).

Definition civil_from_days_est_correct_sur_une_date_connue : test :=
  assert_eq (IdpGrpc.civil_from_days 20688) (2026, 8, 23).

(** [clock]: the time at which the test runs. *)
Definition rfc3339_now_respecte_le_format_attendu_par_timestamp (clock : Z) : test :=
  let! s := IdpGrpc.rfc3339_now clock in
  assert (is_ok (Timestamp_new s)).

(** ** [apps/policy-engine/src/lib.rs] *)

Definition rfc3339_aller_retour_est_stable (clock : Z) : test :=
  let! s := PolicyEngine.rfc3339_now clock in
  let! seconds := request_time_from_rfc3339 s in
  assert_eq (Calendar.rfc3339_from_seconds seconds) s.

(** [DecisionResponse::default()] *)
Definition default_response : DecisionResponse := {|
  effect := 0; reasons := []; max_ttl := None; constraints := []; decision_hash := [];
  policy_version := ""; issued_at := None; decision_signature := [];
  decision_signature_key_id := "" |}.

Definition decision_fields_refuse_annee_hors_plage_au_lieu_de_paniquer : test :=
  let response := default_response in
  assert (forallb (λ seconds,
    let issued_at_str := Calendar.rfc3339_from_seconds seconds in
    is_err (decision_fields response issued_at_str)) [i64_max; i64_min]).

Definition clock_tests (clock : Z) : list test :=
  [idp_civil_from_days_epoch_est_1970_01_01; civil_from_days_est_correct_sur_une_date_connue;
   rfc3339_now_respecte_le_format_attendu_par_timestamp clock;
   rfc3339_aller_retour_est_stable clock;
   decision_fields_refuse_annee_hors_plage_au_lieu_de_paniquer].

(** ** [crates/zs-hsm/src/pool.rs] *)

(** [std::iter::once(0x04u8).chain(0u8..64)] *)
Definition ec_point : bytes := u8_of 4 :: map (λ n, u8_of (Z.of_nat n)) (seq 0 64).

Definition point_ec_forme_courte_est_decode : test :=
  let der := [u8_of 4; u8_of 65] ++ ec_point in
  let! p := expect (decode_ec_point der) in assert_eq p ec_point.

Definition point_ec_forme_longue_est_decode : test :=
  let der := [u8_of 4; u8_of 129; u8_of (len ec_point)] ++ ec_point in
  let! p := expect (decode_ec_point der) in assert_eq p ec_point.

(** [assert!(matches!(decode_ec_point(der), Err(HsmError::DeviceError)))] *)
Definition refuses_point (der : list Z) : test :=
  assert match decode_ec_point (map u8_of der) with Err DeviceError => true | _ => false end.

Definition tag_octet_string_incorrect_est_refuse : test := refuses_point [2; 65].
Definition longueur_annoncee_superieure_au_contenu_reel_est_refusee : test :=
  refuses_point [4; 65; 4; 0].
Definition entree_vide_est_refusee : test := refuses_point [].

Definition pool_tests : list test :=
  [point_ec_forme_courte_est_decode; point_ec_forme_longue_est_decode;
   tag_octet_string_incorrect_est_refuse;
   longueur_annoncee_superieure_au_contenu_reel_est_refusee; entree_vide_est_refusee].

(** ** [apps/identity-provider/src/httpapi.rs] *)

Section http.
Context `{SerdeJson, Base64}.

Definition b64_round_trip_preserve_les_octets : test :=
  let original := map u8_of [0; 1; 254; 255] ++ as_bytes "-webauthn-" in
  let encoded := b64_encode original in
  let! _ := assert (negb (contains (as_bytes "+") (as_bytes encoded)) &&
                    negb (contains (as_bytes "/") (as_bytes encoded)) &&
                    negb (contains (as_bytes "=") (as_bytes encoded))) in
  let! decoded := expect (b64_decode "champ" encoded) in assert_eq decoded original.

Definition b64_decode_refuse_un_encodage_standard_avec_padding : test :=
  assert (is_err (b64_decode "champ" "AAA=")).

Definition presented_challenge_bytes_extrait_le_challenge_du_json : test :=
  let challenge := as_bytes "0123456789abcdef0123456789abcdef" in
  let encoded := b64_encode challenge in
  let cdj := to_vec (Object [("type", VString "webauthn.get"); ("challenge", VString encoded);
                             ("origin", VString "https://zero-secret.example")]) in
  let! presented := expect (presented_challenge_bytes cdj) in assert_eq presented challenge.

Definition presented_challenge_bytes_refuse_un_json_malforme : test :=
  assert (is_err (presented_challenge_bytes (as_bytes "{not json"))).

Definition presented_challenge_bytes_refuse_un_champ_challenge_manquant : test :=
  let cdj := to_vec (Object [("type", VString "webauthn.get"); ("origin", VString "x")]) in
  assert (is_err (presented_challenge_bytes cdj)).

Definition hex_encode_produit_des_paires_hexadecimales_minuscules : test :=
  assert_eq (IdpHttp.hex_encode (map u8_of [0; 171; 255])) "00abff".

Definition security_presented_challenge_bytes_refuse_un_champ_challenge_de_type_incorrect : test :=
  let cdj := to_vec (Object [("type", VString "webauthn.get"); ("challenge", jint 12345);
                             ("origin", VString "https://zero-secret.example")]) in
  assert (is_err (presented_challenge_bytes cdj)).

Definition security_presented_challenge_bytes_ignore_les_champs_supplementaires_sans_planter : test :=
  let cdj := to_vec (Object [
    ("type", VString "webauthn.get");
    ("challenge", VString "MDEyMzQ1Njc4OWFiY2RlZjAxMjM0NTY3ODlhYmNkZWY");
    ("origin", VString "https://zero-secret.example");
    ("crossOrigin", Bool false);
    ("tokenBinding", Object [("status", VString "supported")]);
    ("__proto__", Object [("admin", Bool true)])]) in
  assert (is_ok (presented_challenge_bytes cdj)).

Definition security_b64_decode_refuse_un_padding_standard_meme_partiel : test :=
  let! _ := assert (is_err (b64_decode "champ" "AA==")) in
  assert (is_err (b64_decode "champ" "AA=")).

Definition security_b64_decode_refuse_les_espaces_et_retours_a_la_ligne_injectes : test :=
  let saut_de_ligne := String (u8_of 10) "" in
  let! _ := assert (is_err (b64_decode "champ" "AA AA")) in
  assert (is_err (b64_decode "champ" ("AA" +:+ saut_de_ligne +:+ "AA"))).

Definition http_tests : list test :=
  [b64_round_trip_preserve_les_octets; b64_decode_refuse_un_encodage_standard_avec_padding;
   presented_challenge_bytes_extrait_le_challenge_du_json;
   presented_challenge_bytes_refuse_un_json_malforme;
   presented_challenge_bytes_refuse_un_champ_challenge_manquant;
   hex_encode_produit_des_paires_hexadecimales_minuscules;
   security_presented_challenge_bytes_refuse_un_champ_challenge_de_type_incorrect;
   security_presented_challenge_bytes_ignore_les_champs_supplementaires_sans_planter;
   security_b64_decode_refuse_un_padding_standard_meme_partiel;
   security_b64_decode_refuse_les_espaces_et_retours_a_la_ligne_injectes].
End http.

(** The tests that read the clock, at the first and the last second of its four-digit years
    and at one between. *)
Example service_unit_tests_pass :
  map passes (audit_sealer_tests ++ pool_tests ++ http_tests ++ clock_tests 0 ++
              clock_tests 1787500800 ++ clock_tests 253402300799) = replicate 39 true.
Proof. vm_compute. reflexivity. Qed.
