(* ===== verification/UnitPdp.v ===== *)
(** * The unit tests of [pdp.rs] and the cases of [policies/tests/db_connect]

    The seven tests of [crates/zs-policy/src/pdp.rs], and the twelve cases that
    [tools/cedar-test.sh] runs against the corpus, on the policies of [CedarPolicy].  The
    decision points of the tests are loaded, from a file system with the names of the
    corpus; that its two texts parse to [corpus] is in the Cedar of the tests. *)

From S2P Require Import Prelude.
From S2P Require Import Json.
From S2P Require Import JsonCodec.
From S2P Require Import Aws.
From S2P Require Import PolicyProto.
From S2P Require Import Pdp.
From S2P Require Import CedarPolicy.
From S2P Require Import TestKit.

(** The files that the tests load: the schema and the directory [policies/access]. *)
#[export] Instance corpus_fs : Fs := {|
  IoError := unit;
  read_to_string _ := inl "";
  read_dir _ := inl [inl (as_bytes "db_connect_guardrails.cedar"); inl (as_bytes "db_connect.cedar")];
|}.

Definition schema_path : bytes := as_bytes "contracts/cedar/schema.cedarschema.json".
Definition policies_dir : bytes := as_bytes "policies/access".

Definition ts (seconds : Z) : proto_time := {| seconds := seconds; nanos := 0 |}.

Definition nominal_request : DecisionRequest :=
  let attrs := [("environment", "production")] in {|
  request_id := "req-1";
  principal := Some {| subject_id := "sub-6b2f9c"; aal := 3; auth_method := "webauthn/device-bound";
    authenticated_at := Some (ts 1787500680); roles := ["dba"]; pr_authority_domain := "corp.eu-west" |};
  action := Some {| verb := "db.connect" |};
  resource := Some {| rtype := "Database"; rid := "db-billing-prod";
    rs_authority_domain := "corp.eu-west"; attributes := attrs |};
  context := Some {| requested_at := Some (ts 1787500800); source_network := "10.42.0.0/16";
    posture := Some {| managed := true; disk_encrypted := true; agent_version := "2.4.1";
      evaluated_at := Some (ts 1787499000) |};
    ticket_ref := "INC-482913"; justification := "Correctif de données sur incident de facturation";
    approvals := [{| approver_id := "sub-a1f2e8"; approved_at := Some (ts 1787500200); ap_signature := [] |}] |};
  dr_policy_version := "" |}.

(** The nominal request with another principal, resource, context or version. *)
Definition with_principal (f : Principal → option Principal) (r : DecisionRequest) : DecisionRequest := {|
  request_id := request_id r; principal := principal r ≫= f; action := action r; resource := resource r;
  context := context r; dr_policy_version := dr_policy_version r |}.
Definition with_resource (f : Resource → Resource) (r : DecisionRequest) : DecisionRequest := {|
  request_id := request_id r; principal := principal r; action := action r; resource := f <$> resource r;
  context := context r; dr_policy_version := dr_policy_version r |}.
Definition with_context (f : Context → Context) (r : DecisionRequest) : DecisionRequest := {|
  request_id := request_id r; principal := principal r; action := action r; resource := resource r;
  context := f <$> context r; dr_policy_version := dr_policy_version r |}.
Definition with_version (v : string) (r : DecisionRequest) : DecisionRequest := {|
  request_id := request_id r; principal := principal r; action := action r; resource := resource r;
  context := context r; dr_policy_version := v |}.

(** [Pdp::load(&schema_path(), &policies_dir()).expect(..)] and [pdp.decide(&req)] *)
Definition load_pdp : res Pdp unit := expect (load schema_path policies_dir).
Definition answer (pdp : Pdp) (r : DecisionRequest) : res DecisionResponse unit := Pdp.decide pdp r.

Definition requete_nominale_est_autorisee : test :=
  let! pdp := load_pdp in
  let! response := answer pdp nominal_request in
  let! _ := assert_eq (effect response) (effect_i32 Allow) in
  let! _ := assert (bool_decide ("db-connect-production" ∈ reasons response)) in
  let! _ := assert_eq (len (decision_hash response)) 32 in
  assert_eq (policy_version response) (get_policy_version pdp).

Definition requete_aal2_est_refusee : test :=
  let! pdp := load_pdp in
  let req := with_principal (λ p, Some {| subject_id := subject_id p; aal := 2;
    auth_method := auth_method p; authenticated_at := authenticated_at p; roles := roles p;
    pr_authority_domain := pr_authority_domain p |}) nominal_request in
  let! response := answer pdp req in
  assert_eq (effect response) (effect_i32 Deny).

Definition type_de_ressource_inconnu_est_refuse_avant_evaluation_cedar : test :=
  let! pdp := load_pdp in
  let req := with_resource (λ x, {| rtype := "SshHost"; rid := rid x;
    rs_authority_domain := rs_authority_domain x; attributes := attributes x |}) nominal_request in
  let! response := answer pdp req in
  let! _ := assert_eq (effect response) (effect_i32 Deny) in
  let! first := index (reasons response) 0 in
  assert (bool_decide (is_Some (strip_prefix (as_bytes "resource_type_inconnu") (as_bytes first)))).

Definition attribut_environment_manquant_est_refuse : test :=
  let! pdp := load_pdp in
  let req := with_resource (λ x, {| rtype := rtype x; rid := rid x;
    rs_authority_domain := rs_authority_domain x; attributes := [] |}) nominal_request in
  let! response := answer pdp req in
  assert_eq (effect response) (effect_i32 Deny).

Definition principal_absent_est_refuse : test :=
  let! pdp := load_pdp in
  let! response := answer pdp (with_principal (λ _, None) nominal_request) in
  let! _ := assert_eq (effect response) (effect_i32 Deny) in
  assert_eq (reasons response) ["principal_absent"].

Definition policy_version_demandee_indisponible_est_refusee : test :=
  let! pdp := load_pdp in
  let req := with_version
    "decision-binding/v1:0000000000000000000000000000000000000000000000000000000000000000"
    nominal_request in
  let! response := answer pdp req in
  let! _ := assert_eq (effect response) (effect_i32 Deny) in
  let! _ := assert_eq (reasons response) ["policy_version_indisponible"] in
  assert_eq (policy_version response) (get_policy_version pdp).

Definition deux_instances_distinctes_produisent_le_meme_decision_hash : test :=
  let! pdp_a := load_pdp in
  let! pdp_b := load_pdp in
  let! response_a := answer pdp_a nominal_request in
  let! response_b := answer pdp_b nominal_request in
  let! _ := assert_eq (decision_hash response_a) (decision_hash response_b) in
  let! _ := assert_eq (policy_version response_a) (policy_version response_b) in
  assert_eq (effect response_a) (effect response_b).

Definition pdp_tests : list test :=
  [requete_nominale_est_autorisee; requete_aal2_est_refusee;
   type_de_ressource_inconnu_est_refuse_avant_evaluation_cedar;
   attribut_environment_manquant_est_refuse; principal_absent_est_refuse;
   policy_version_demandee_indisponible_est_refusee;
   deux_instances_distinctes_produisent_le_meme_decision_hash].

Example pdp_unit_tests_pass : map passes pdp_tests = replicate 7 true.
Proof. vm_compute. reflexivity. Qed.

(** ** [policies/tests/db_connect/cases.json] *)

Definition case_principal (id aal domain : string) : uid * gmap string cvalue :=
  (("ZeroSecret::Principal", id), list_to_map [
     ("subject_id", CvString id); ("aal", CvString aal); ("auth_method", CvString "webauthn/device-bound");
     ("authenticated_at", CvLong 1787500680); ("roles", CvSet [CvString "dba"]);
     ("authority_domain", CvString domain)]).
Definition case_database (id domain environment : string) : uid * gmap string cvalue :=
  (("ZeroSecret::Database", id), list_to_map [
     ("authority_domain", CvString domain); ("environment", CvString environment)]).

(** The entities beside every case: the file repeats them. *)
Definition case_entities : gmap uid (gmap string cvalue) := list_to_map [
  case_principal "sub-6b2f9c" "AAL3" "corp.eu-west"; case_principal "sub-4d81ae" "AAL2" "corp.eu-west";
  case_principal "sub-91c07d" "AAL1" "corp.eu-west"; case_principal "sub-0e5a33" "" "corp.eu-west";
  case_principal "sub-c73b40" "AAL3" "corp.eu-west-2";
  case_database "db-billing-prod" "corp.eu-west" "production";
  case_database "db-billing-staging" "corp.eu-west" "staging";
  case_database "db-billing-prod-eu-west-2" "corp.eu-west-2" "production"].

Definition case_context (evaluated_at : Z) (ticket : string) (approved : bool) : list (string * cvalue) :=
  [("requested_at", CvLong 1787500800); ("source_network", CvString "10.42.0.0/16");
   ("posture", CvRecord [("managed", CvBool true); ("disk_encrypted", CvBool true);
                         ("agent_version", CvString "2.4.1"); ("evaluated_at", CvLong evaluated_at)]);
   ("ticket_ref", CvString ticket);
   ("justification", CvString "Correctif de donnees sur incident de facturation");
   ("approvals", CvSet (if approved
      then [CvRecord [("approver_id", CvString "sub-a1f2e8"); ("approved_at", CvLong 1787500200)]]
      else []))].

(** A case: principal, database, posture, ticket and approval, with the decision and the
    reasons that the file expects. *)
Record policy_case := {
  pc_principal : string; pc_database : string; pc_evaluated_at : Z; pc_ticket : string; pc_approved : bool;
  pc_decision : CedarDecision; pc_reasons : list string;
}.

Definition run_case (c : policy_case) : CedarDecision * list string :=
  let q := (("ZeroSecret::Principal", pc_principal c), ("ZeroSecret::Action", "db.connect"),
            ("ZeroSecret::Database", pc_database c),
            case_context (pc_evaluated_at c) (pc_ticket c) (pc_approved c)) in
  let '(d, ids) := is_authorized q corpus case_entities in
  (d, map (reason_of corpus) (elements ids)).

Definition fresh : Z := 1787499000.
Definition ticket : string := "INC-482913".

Definition cases : list policy_case := [
  (* nominal-aal3-ticket-approbation-posture-fraiche *)
  Build_policy_case "sub-6b2f9c" "db-billing-prod" fresh ticket true CedarAllow ["db-connect-production"];
  (* refus-a-principal-legitime-en-aal2, refus-a-aal-non-renseigne *)
  Build_policy_case "sub-4d81ae" "db-billing-prod" fresh ticket true CedarDeny ["guardrail-production-requires-aal3"];
  Build_policy_case "sub-0e5a33" "db-billing-prod" fresh ticket true CedarDeny ["guardrail-production-requires-aal3"];
  (* refus-b-principal-voisin-autre-domaine-autorite *)
  Build_policy_case "sub-c73b40" "db-billing-prod" fresh ticket true CedarDeny ["guardrail-authority-domain-isolation"];
  (* refus-c: three escalations *)
  Build_policy_case "sub-6b2f9c" "db-billing-prod" fresh "" false CedarDeny ["guardrail-production-requires-ticket-and-approval"];
  Build_policy_case "sub-91c07d" "db-billing-prod" fresh ticket true CedarDeny ["guardrail-production-requires-aal3"];
  Build_policy_case "sub-6b2f9c" "db-billing-prod" fresh ticket false CedarDeny ["guardrail-production-requires-ticket-and-approval"];
  (* refus-d-requete-partielle-ticket-vide *)
  Build_policy_case "sub-6b2f9c" "db-billing-prod" fresh "" true CedarDeny ["guardrail-production-requires-ticket-and-approval"];
  (* refus-e: out of scope, neighbouring domain *)
  Build_policy_case "sub-6b2f9c" "db-billing-staging" fresh ticket true CedarDeny [];
  Build_policy_case "sub-6b2f9c" "db-billing-prod-eu-west-2" fresh ticket true CedarDeny ["guardrail-authority-domain-isolation"];
  (* refus-f: stale posture, posture of the future *)
  Build_policy_case "sub-6b2f9c" "db-billing-prod" 1787496000 ticket true CedarDeny [];
  Build_policy_case "sub-6b2f9c" "db-billing-prod" 1787501400 ticket true CedarDeny []].

Example policy_cases_pass : map run_case cases = map (λ c, (pc_decision c, pc_reasons c)) cases.
Proof. vm_compute. reflexivity. Qed.

(** Who approves is not looked at: the nominal request approved by its own principal is
    allowed. *)
Definition self_approved : DecisionRequest :=
  with_context (λ c, {| requested_at := requested_at c; source_network := source_network c;
    posture := posture c; ticket_ref := ticket_ref c; justification := justification c;
    approvals := [{| approver_id := "sub-6b2f9c"; approved_at := Some (ts 1787500200); ap_signature := [] |}] |})
    nominal_request.

Example self_approval_is_allowed :
  passes (let! pdp := load_pdp in
          let! response := answer pdp self_approved in
          assert_eq (effect response) (effect_i32 Allow)) = true.
Proof. vm_compute. reflexivity. Qed.
