(* ===== verification/UnitVectors.v ===== *)
(** * The frozen audit chain

    [tests/vectors/audit-seal-v1/chain.json], and the two tests that compare the code with
    it: sealing the same fields gives the recorded bytes
    ([vecteurs_de_chainage_correspondent_au_fichier_fige] of [audit_seal.rs]), and the
    recorded bytes verify and are a chain ([crates/zs-audit/tests/chain_vectors.rs]).  The
    digest is SHA-256; ECDSA is not modelled: the signer answers the recorded signature to a
    recorded digest, and nothing to any other, so a byte of difference in a signed message
    fails the tests. *)

From S2P Require Import Prelude.
From S2P Require Import Sha256.
From S2P Require Import Json.
From S2P Require Import JsonCodec.
From S2P Require Import Aws.
From S2P Require Import Common.
From S2P Require Import Suite.
From S2P Require Import AuditSeal.
From S2P Require Import Chain.
From S2P Require Import AuditChain.
From S2P Require Import TestKit.
From S2P Require Import UnitEvent.

(** The file, with apostrophes for its double quotes. *)
Definition chain_json : string := dq
"{
  'events_hex': [
    '7b226163746f72223a7b2261616c223a2241414c32222c22617574685f6d6574686f64223a22776562617574686e2f6465766963652d626f756e64222c226b696e64223a2268756d616e222c227375626a6563745f6964223a227375626a6563742d31227d2c22617574686f726974795f646f6d61696e223a226964656e746974792d70726f7669646572222c226576656e745f6964223a2230313938653663312d303030302d373030302d383030302d303030303030303030303030222c226576656e745f74797065223a2261757468656e7469636174696f6e2e737563636565646564222c226f636375727265645f6174223a22323032362d30382d32335431303a30303a30305a222c226f7574636f6d65223a2273756363657373222c22707265765f68617368223a2230303030303030303030303030303030303030303030303030303030303030303030303030303030303030303030303030303030303030303030303030303030222c22736368656d615f76657273696f6e223a312c2273657175656e6365223a302c227369676e6174757265223a7b22636f6d706f6e656e7473223a5b7b22636f6d706f6e656e74223a2265636473612d70323536222c226b65795f6964223a2237323732333538393235373564633638222c2276616c7565223a223363616136366336393436396365393066626463613234353536653364333034366337313864373931323163656266663232363465646461613430653266633235613537626638616265366639646438643661626664306461663766373662326637656661313934653631313734633836393663663638333933646434336666227d5d2c227375697465223a2261756469742d7365616c2f7631227d7d',
    '7b226163746f72223a7b2261616c223a2241414c32222c22617574685f6d6574686f64223a22776562617574686e2f6465766963652d626f756e64222c226b696e64223a2268756d616e222c227375626a6563745f6964223a227375626a6563742d31227d2c22617574686f726974795f646f6d61696e223a226964656e746974792d70726f7669646572222c226576656e745f6964223a2230313938653663312d303030302d373030302d383030302d303030303030303030303030222c226576656e745f74797065223a2261757468656e7469636174696f6e2e737563636565646564222c226f636375727265645f6174223a22323032362d30382d32335431303a30303a30305a222c226f7574636f6d65223a2273756363657373222c22707265765f68617368223a2232643033363261663236376265343533643734326232613831313036383933626433633337653932383036663032316532393631356631386233366139383862222c22736368656d615f76657273696f6e223a312c2273657175656e6365223a312c227369676e6174757265223a7b22636f6d706f6e656e7473223a5b7b22636f6d706f6e656e74223a2265636473612d70323536222c226b65795f6964223a2237323732333538393235373564633638222c2276616c7565223a223830633361356634323638313062663964623432396431343865393835373463393736613363643038343635636334333833333439666166653463323333323437623138643261646366333965616130383834623038363366393633343435623633613066666135356236663065656461306266353137316661656162613432227d5d2c227375697465223a2261756469742d7365616c2f7631227d7d',
    '7b226163746f72223a7b2261616c223a2241414c32222c22617574685f6d6574686f64223a22776562617574686e2f6465766963652d626f756e64222c226b696e64223a2268756d616e222c227375626a6563745f6964223a227375626a6563742d31227d2c22617574686f726974795f646f6d61696e223a226964656e746974792d70726f7669646572222c226576656e745f6964223a2230313938653663312d303030302d373030302d383030302d303030303030303030303030222c226576656e745f74797065223a2261757468656e7469636174696f6e2e737563636565646564222c226f636375727265645f6174223a22323032362d30382d32335431303a30303a30305a222c226f7574636f6d65223a2273756363657373222c22707265765f68617368223a2238333362643438383530633962356365363433616536633265383364346637373833646131613031316165383932656433343530663331313131656535386238222c22736368656d615f76657273696f6e223a312c2273657175656e6365223a322c227369676e6174757265223a7b22636f6d706f6e656e7473223a5b7b22636f6d706f6e656e74223a2265636473612d70323536222c226b65795f6964223a2237323732333538393235373564633638222c2276616c7565223a223432653835613164643662333836663763653633643937336264383834383165353964653765643336366231653132313736663032353064653066623361643831373063343036663331393863393839396363646639383264623734616633643533386131333431316331303236653233343539636131653061323335636364227d5d2c227375697465223a2261756469742d7365616c2f7631227d7d'
  ],
  'key_id': '727235892575dc68',
  'public_key_sec1_hex': '0451a7580833898ea1b183cbd7350a4099078c6ef1c1e18e970cd7683035f25e7d0110522712b0b5a7cff081685486984a94e6831edac46e7360fa9d834a7a81a1',
  'suite': 'audit-seal/v1'
}".

(** ** The recorded signatures *)

(** The digests of the three signed messages, and the signatures of the file: those of the
    key whose 32 bytes are 51. *)
Definition recorded : list (Z * Z) :=
  [(0xb567168f308c2b96a4835e2de440fc257a7c651c48d0d8c27c2153e47d727ae4,
    0x3caa66c69469ce90fbdca24556e3d3046c718d79121cebff2264eddaa40e2fc25a57bf8abe6f9dd8d6abfd0daf7f76b2f7efa194e61174c8696cf68393dd43ff);
   (0xdd55c0bfd6c523ac35366c3031d34b08d39a9a7ade8c2cca1f5a67ee6eb15a83,
    0x80c3a5f426810bf9db429d148e98574c976a3cd08465cc4383349fafe4c233247b18d2adcf39eaa0884b0863f963445b63a0ffa55b6f0eeda0bf5171faeaba42);
   (0xbbeb848aac9905e78ae97d423bd3f64b2c9e0213bfd51a9423f1646132e633a9,
    0x42e85a1dd6b386f7ce63d973bd88481e59de7ed366b1e12176f0250de0fb3ad8170c406f3198c9899ccdf982db74af3d538a13411c1026e23459ca1e0a235ccd)].

Definition recorded_signature (digest : bytes) : bytes :=
  match filter (λ r, r.1 = from_be_bytes digest) recorded with
  | r :: _ => to_be_bytes 64 r.2
  | [] => []
  end.

Definition recorded_key : bytes :=
  to_be_bytes 65 0x0451a7580833898ea1b183cbd7350a4099078c6ef1c1e18e970cd7683035f25e7d0110522712b0b5a7cff081685486984a94e6831edac46e7360fa9d834a7a81a1.

#[local] Program Instance vector_aws : AwsLc := {|
  sha256_digest := Sha256.sha256;
  p256_verify key message sig :=
    bool_decide (key = recorded_key) && negb (bool_decide (sig = [])) &&
    bool_decide (sig = recorded_signature (Sha256.sha256 message));
  ed25519_verify _ _ _ := false;
|}.
Next Obligation. apply Sha256.length_sha256. Qed.

#[local] Instance vector_p256 : P256Crate := {|
  encoded_point k := if bool_decide (k = replicate 32 (u8_of 51)) then recorded_key else [];
  sign_prehash _ digest := recorded_signature digest;
|}.

(** ** Reading the file *)

Section vectors.
Context `{SerdeJson, AwsLc, P256Crate}.

(** [&vector["k"]], [as_str] and [as_array] with [unwrap] *)
Definition get_member (v : value) (k : string) : value :=
  match v with Object m => default Null (map_get k m) | _ => Null end.
Definition as_str (v : value) : res string unit := match v with VString s => Ok s | _ => Panic end.
Definition as_array (v : value) : res (list value) unit := match v with Array l => Ok l | _ => Panic end.
Definition read_vector : res value unit := unwrap (from_slice (as_bytes chain_json)).
Definition events_hex (vector : value) : res (list string) unit :=
  let! l := as_array (get_member vector "events_hex") in try_map as_str l.

(** ** [audit_seal.rs] *)

Definition build_chain : res (UnitEvent.MockSigner * list SealedAuditEvent) unit :=
  let signer := UnitEvent.mock_new 51 in
  let! e0 := sealed_by signer (sample_fields 0 (replicate 32 (u8_of 0))) in
  let h0 := sha256 (event_as_bytes e0) in
  let! e1 := sealed_by signer (sample_fields 1 h0) in
  let h1 := sha256 (event_as_bytes e1) in
  let! e2 := sealed_by signer (sample_fields 2 h1) in
  Ok (signer, [e0; e1; e2]).

Definition vecteurs_de_chainage_correspondent_au_fichier_fige : test :=
  let! chain := build_chain in
  let '(_, events) := chain in
  let! vector := read_vector in
  let! expected := events_hex vector in
  let actual := map (λ e, Common.hex_encode (event_as_bytes e)) events in
  assert_eq actual expected.

(** ** [zs-audit/tests/chain_vectors.rs] *)

(** [u8::from_str_radix(&s[i..i + 2], 16)]: a leading plus sign is skipped. *)
Definition from_str_radix_16 (a b : ascii) : option u8 :=
  n ← hex_digit_value b;
  if bool_decide (a = "+"%char) then Some (u8_of n)
  else h ← hex_digit_value a; Some (u8_of (h * 16 + n)).

(** ... with [unwrap], every two characters. *)
Fixpoint hex_pairs_unwrap (l : bytes) : res bytes unit :=
  match l with
  | [] => Ok []
  | a :: b :: l' =>
      let! v := unwrap (from_str_radix_16 a b) in
      let! rest := hex_pairs_unwrap l' in
      Ok (v :: rest)
  | [_] => Panic
  end.
Definition hex_decode (s : string) : res bytes unit := hex_pairs_unwrap (as_bytes s).

(** One turn of the loop over the recorded events. *)
Definition chain_entry (key : AcceptedVerifyingKey) (policy : AcceptancePolicy) (hex : string) :
    res ChainEntry unit :=
  let! bytes := hex_decode hex in
  let! verified := expect (AuditSeal.verify [key] bytes policy) in
  Ok (entry_of bytes verified).

Definition vecteurs_figes_verifient_signature_et_chainage : test :=
  let! vector := read_vector in
  let! suite := as_str (get_member vector "suite") in
  let! key_id := as_str (get_member vector "key_id") in
  let! public_key_hex := as_str (get_member vector "public_key_sec1_hex") in
  let! public_key := hex_decode public_key_hex in
  let! key := expect (AuditSeal.accept_verifying_key suite key_id public_key) in
  let! events_hex := events_hex vector in
  let policy := {| accepted_suites := [AuditSeal.SUITE_V1];
                   expected_authority_domain := "identity-provider" |} in
  let! chain_entries := try_map (chain_entry key policy) events_hex in
  expect (verify_chain chain_entries).

Definition vector_tests : list test :=
  [vecteurs_de_chainage_correspondent_au_fichier_fige; vecteurs_figes_verifient_signature_et_chainage].
End vectors.

Example frozen_chain_tests_pass : map passes vector_tests = [true; true].
Proof. vm_compute. reflexivity. Qed.

(** The key identifier of the file is the one that the code derives from its key. *)
Example recorded_key_id : key_id_from_public_key recorded_key = "727235892575dc68".
Proof. vm_compute. reflexivity. Qed.
