(* ===== verification/UnitIntegration.v ===== *)
(** * The integration tests of the identity provider and of the policy engine

    [apps/identity-provider/tests/verify_assertion_integration.rs],
    [apps/identity-provider/tests/http_ceremony.rs] and
    [apps/policy-engine/tests/decide_integration.rs].  The tests start the services and call
    them over sockets, an HSM and a database; here the handlers are called directly, over
    the tables of [IdpStore] ([IdpRun.oneshot]), with a software signer.  JSON bodies are the
    records that the extractor of axum makes of them.  So these are the programs of the
    services run from end to end: a registration and then a login, by an authenticator whose
    keys and CBOR are those of [WebauthnKit]. *)

From S2P Require Import Prelude.
From S2P Require Import Effects.
From S2P Require Import Json.
From S2P Require Import JsonCodec.
From S2P Require Import Aws.
From S2P Require Import Common.
From S2P Require Import Signer.
From S2P Require Import Suite.
From S2P Require Import IdentityAssertion.
From S2P Require Import AuditSeal.
From S2P Require Import DecisionSeal.
From S2P Require Import Chain.
From S2P Require Import AuthProof.
From S2P Require Import ClientData.
From S2P Require Import Cose.
From S2P Require Import Registration.
From S2P Require Import PolicyProto.
From S2P Require Import Pdp.
From S2P Require Import PolicyEngine.
From S2P Require Import CedarPolicy.
From S2P Require Import IdpStore.
From S2P Require Import IdpGrpc.
From S2P Require Import IdpHttp.
From S2P Require Import IdpJournal.
From S2P Require Import IdpEnrol.
From S2P Require Import IdpRun.
From S2P Require Import IdpSystem.
From S2P Require Import TestKit.
From S2P Require Import Base64Url.
From S2P Require Import WebauthnKit.
From S2P Require Import UnitPdp.

(** ** [verify_assertion_integration.rs] *)

Definition DOMAIN_PREFIX : string := "zero-secret/identity-assertion/v1".
Definition AUTHORITY_DOMAIN : string := "identity-provider".

Section assertion_tests.
Context `{SerdeJson, AwsLc, P256Crate}.

Record TestSigner := { signing_key : bytes }.

Definition test_signer_new : TestSigner := {| signing_key := replicate 32 (u8_of 17) |}.
Definition public_key_sec1 (self : TestSigner) : bytes := encoded_point (signing_key self).

(** [hex_encode] with [format!("{b:02x}")]. *)
Definition hex_encode (bs : bytes) : string := IdpHttp.hex_encode bs.

Definition test_key_id (self : TestSigner) : string :=
  hex_encode (take 8 (sha256 (public_key_sec1 self))).

(** [BTreeMap::insert]: the members stay in the order of their names. *)
Fixpoint btree_insert {A} (k : string) (v : A) (m : list (string * A)) : list (string * A) :=
  match m with
  | [] => [(k, v)]
  | (k', v') :: m' =>
      match String.compare k k' with
      | Lt => (k, v) :: m
      | Eq => (k, v) :: m'
      | Gt => (k', v') :: btree_insert k v m'
      end
  end.

Definition canonical_bytes (fields : list (string * value)) : bytes :=
  to_vec (Object (fold_left (λ m e, map_insert e.1 e.2 m) fields [])).

Definition seal_test_assertion (signer : TestSigner) (subject_id issued_at expires_at : string) : bytes :=
  let unsigned := [] in
  let unsigned := btree_insert "schema_version" (jint 1) unsigned in
  let unsigned := btree_insert "suite" (VString "identity-assertion/v1") unsigned in
  let unsigned := btree_insert "authority_domain" (VString AUTHORITY_DOMAIN) unsigned in
  let unsigned := btree_insert "subject_id" (VString subject_id) unsigned in
  let unsigned := btree_insert "aal" (VString "AAL2") unsigned in
  let unsigned := btree_insert "auth_method" (VString "webauthn/device-bound") unsigned in
  let unsigned := btree_insert "audience" (VString "policy-engine") unsigned in
  let unsigned := btree_insert "issued_at" (VString issued_at) unsigned in
  let unsigned := btree_insert "expires_at" (VString expires_at) unsigned in
  let unsigned := btree_insert "audit_event_id" (VString "0198e6c1-0000-7000-8000-000000000000") unsigned in
  let unsigned_bytes := canonical_bytes unsigned in
  let message := as_bytes DOMAIN_PREFIX ++ u8_of 0 :: unsigned_bytes in
  let signature := sign_prehash (signing_key signer) (sha256 message) in
  let full := btree_insert "signatures"
    (Array [Object [("component", VString "ecdsa-p256"); ("key_id", VString (test_key_id signer));
                    ("value", VString (hex_encode signature))]]) unsigned in
  canonical_bytes full.

(** The service that [spawn_server] starts. *)
Definition spawn_server (signer : TestSigner) : res AssertionVerifier unit :=
  let! key := expect (IdentityAssertion.accept_verifying_key IdentityAssertion.SUITE_V1
                        (test_key_id signer) (public_key_sec1 signer)) in
  Ok {| verifier_key := key |}.

(** [client.verify_assertion(..).await.expect("appel gRPC")], at second [clock]. *)
Definition call_verify (server : AssertionVerifier) (clock : Z) (assertion : bytes) (domain : string) :
    res VerifyAssertionResponse unit :=
  expect (verify_assertion server clock
            {| rq_assertion := assertion; rq_expected_authority_domain := domain |}).

Variable clock : Z.

Definition assertion_valide_est_verifiee_de_bout_en_bout : test :=
  let signer := test_signer_new in
  let! server := spawn_server signer in
  let assertion := seal_test_assertion signer "sub-approbateur-1"
                     "2020-01-01T00:00:00Z" "2999-01-01T00:00:00Z" in
  let! response := call_verify server clock assertion AUTHORITY_DOMAIN in
  let! _ := assert (IdpGrpc.valid response) in
  let! _ := assert_eq (rs_subject_id response) "sub-approbateur-1" in
  let! _ := assert_eq (rs_aal response) "AAL2" in
  assert_eq (IdpGrpc.reason response) "".

Definition signature_alteree_est_refusee : test :=
  let signer := test_signer_new in
  let! server := spawn_server signer in
  let assertion := seal_test_assertion signer "sub-approbateur-2"
                     "2026-08-23T10:00:00Z" "2999-01-01T00:00:00Z" in
  let mid := (length assertion / 2)%nat in
  let assertion := alter (λ b, u8_of (Z.lxor (u8_val b) 255)) mid assertion in
  let! response := call_verify server clock assertion AUTHORITY_DOMAIN in
  let! _ := assert (negb (IdpGrpc.valid response)) in
  let! _ := assert_ne (IdpGrpc.reason response) "" in
  assert_eq (rs_subject_id response) "".

Definition assertion_expiree_est_refusee : test :=
  let signer := test_signer_new in
  let! server := spawn_server signer in
  let assertion := seal_test_assertion signer "sub-approbateur-3"
                     "2020-01-01T00:00:00Z" "2020-01-01T00:02:00Z" in
  let! response := call_verify server clock assertion AUTHORITY_DOMAIN in
  let! _ := assert (negb (IdpGrpc.valid response)) in
  assert_eq (IdpGrpc.reason response) "expiree_ou_pas_encore_valide".

Definition domaine_dautorite_inattendu_est_refuse : test :=
  let signer := test_signer_new in
  let! server := spawn_server signer in
  let assertion := seal_test_assertion signer "sub-approbateur-4"
                     "2026-08-23T10:00:00Z" "2999-01-01T00:00:00Z" in
  let! response := call_verify server clock assertion "un-autre-domaine" in
  let! _ := assert (negb (IdpGrpc.valid response)) in
  assert_eq (IdpGrpc.reason response) "domaine_dautorite_inattendu".

Definition verify_assertion_tests : list test :=
  [assertion_valide_est_verifiee_de_bout_en_bout; signature_alteree_est_refusee;
   assertion_expiree_est_refusee; domaine_dautorite_inattendu_est_refuse].
End assertion_tests.

(** On the day of the assertions of the tests, and at the last second of 2998. *)
Example verify_assertion_tests_pass :
  map passes (verify_assertion_tests 1787500800 ++ verify_assertion_tests 32472143999) = replicate 8 true.
Proof. vm_compute. reflexivity. Qed.

(** ** [decide_integration.rs] *)

Section decide_tests.
Context `{Cedar, SerdeJson, AwsLc, SetOrder, Fs} {P : Type} `{HsmSigner P}.
(** [open_sealer(key_label)], and what [load_pdp] loads. *)
Variable open_sealer : string → DecisionSealer P.
Variables (pdp_schema pdp_policies : bytes) (clock : Z).

(** The request of the unit tests of the decision point, under its own identifier. *)
Definition integration_request : DecisionRequest := {|
  request_id := "req-integration-1"; principal := principal nominal_request;
  action := action nominal_request; resource := resource nominal_request;
  context := context nominal_request; dr_policy_version := "" |}.

Definition spawn_engine (key_label : string) : res (PolicyEngine P) unit :=
  let! pdp := expect (load pdp_schema pdp_policies) in
  let sealer := open_sealer key_label in
  PolicyEngine.serve pdp sealer.

(** [client.decide(..).await.expect("appel gRPC")] *)
Definition call_decide (server : PolicyEngine P) (r : DecisionRequest) : res DecisionResponse unit :=
  expect (PolicyEngine.decide server (DecisionSeal.pool (sealer server)) clock r).2.

Definition deux_instances_distinctes_du_service_produisent_la_meme_decision : test :=
  let! client_a := spawn_engine "zs-decision-seal-v1-test-a" in
  let! client_b := spawn_engine "zs-decision-seal-v1-test-a" in
  let! response_a := call_decide client_a integration_request in
  let! response_b := call_decide client_b integration_request in
  let! _ := assert_eq (effect response_a) (effect_i32 Allow) in
  let! _ := assert_eq (effect response_a) (effect response_b) in
  let! _ := assert_eq (decision_hash response_a) (decision_hash response_b) in
  let! _ := assert_eq (policy_version response_a) (policy_version response_b) in
  let! _ := assert_eq (reasons response_a) (reasons response_b) in
  assert (bool_decide ("db-connect-production" ∈ reasons response_a)).

Definition requete_refusee_sur_le_reseau_reste_une_reponse_normale_pas_une_erreur_grpc : test :=
  let! client := spawn_engine "zs-decision-seal-v1-test-b" in
  let req := with_principal (λ p, Some {| subject_id := subject_id p; aal := 2;
    auth_method := auth_method p; authenticated_at := authenticated_at p; roles := roles p;
    pr_authority_domain := pr_authority_domain p |}) integration_request in
  let! response := call_decide client req in
  assert_eq (effect response) (effect_i32 Deny).

Definition decide_tests : list test :=
  [deux_instances_distinctes_du_service_produisent_la_meme_decision;
   requete_refusee_sur_le_reseau_reste_une_reponse_normale_pas_une_erreur_grpc].
End decide_tests.

(** A token in software, for these tests: its state counts the signatures made, and a key is
    the digest of its label. *)
Definition token_public_key (key : KeyRef) : bytes := encoded_point (light_digest (as_bytes (Signer.label key))).

#[local] Instance light_token : HsmSigner nat := {|
  sign_digest n key _ digest :=
    (S n, Ok {| sig_bytes := sign_prehash (light_digest (as_bytes (Signer.label key))) digest |});
  Signer.public_key n key := (n, Ok {| pk_bytes := token_public_key key |});
|}.

Lemma light_token_signs key : signs_for (P := nat) key (token_public_key key).
Proof.
  intros n n' m sig [= <- <-]. set (secret := light_digest (as_bytes (Signer.label key))).
  assert (length secret = 32%nat) as Hl by apply length_to_be_bytes. split.
  - change (len (light_digest m ++ secret) = 64). unfold len. rewrite length_app, Hl.
    unfold light_digest. rewrite length_to_be_bytes. done.
  - apply bool_decide_eq_true_2. change (token_public_key key) with (u8_of 4 :: secret ++ secret).
    change (light_digest m ++ secret = light_digest m ++ take 32 (secret ++ secret)).
    rewrite take_app_le by lia. by rewrite take_ge by lia.
Qed.

Definition light_decision_sealer (key_label : string) : DecisionSealer nat :=
  let key := {| Signer.label := key_label |} in
  {| DecisionSeal.pool := 0%nat; DecisionSeal.key := key;
     DecisionSeal.key_id := key_id_from_public_key (token_public_key key);
     DecisionSeal.public_key_sec1 := token_public_key key |}.

Example decide_tests_pass :
  map passes (decide_tests light_decision_sealer schema_path policies_dir 1787500800) = [true; true].
Proof. vm_compute. reflexivity. Qed.

(** ** [http_ceremony.rs] *)

Section http_tests.
Context `{SerdeJson, Base64, AwsLc, Ciborium, Coset, ScanOrder, PgConversions, UuidCrate}.
Context {P R : Type} `{HsmSigner P, Csprng R, EcdsaKeyPair R, CborWriter}.
(** The sealers that [build_state] opens, and what surrounds the service. *)
Variables (assertion_sealer : AssertionSealer P) (audit_sealer : AuditSealer P).
Variable start : world P R.

Definition build_state (unique_suffix : string) : AppState := {|
  rp_id := RP_ID; st_origin := ORIGIN;
  st_authority_domain := "identity-provider-test-" +:+ unique_suffix;
  st_audience := "test-audience"; challenge_ttl_seconds := 120; assertion_ttl_seconds := 120 |}.

(** The router, with the sealers of the tests. *)
Definition post (state : AppState) (w : world P R) (r : ApiRequest) : world P R * res ApiResponse ApiError :=
  oneshot state assertion_sealer audit_sealer w r.

(** [b64_field]: the bytes of a member of the answer. *)
Definition b64_field (text : string) : res bytes unit := unwrap (url_safe_decode text).

Definition ceremony_cose_key (self : TestAuthenticator) : res bytes unit :=
  let raw := public_key_raw self in
  let! x := slice raw 1 33 in
  let! y := slice raw 33 65 in
  Ok (cose_to_vec ES256 (new_ec2_pub_key P_256 x y)).

Definition ceremony_auth_data (self : TestAuthenticator) (rp_id : string) (flags sign_count : Z)
    (credential_id : bytes) : res bytes unit :=
  let data := sha256 (as_bytes rp_id) ++ u8_of flags :: to_be_bytes 4 sign_count in
  if negb (Z.land flags 64 =? 0) then
    let! key := ceremony_cose_key self in
    Ok (data ++ replicate 16 (u8_of 170) ++ to_be_bytes 2 (len credential_id) ++ credential_id ++ key)
  else Ok data.

Definition ceremony_attestation_none (auth_data : bytes) : bytes :=
  into_writer (CMap [(CText "fmt", CText "none"); (CText "attStmt", CMap []);
                     (CText "authData", CBytes auth_data)]).

Definition ceremony_attestation_packed (self : TestAuthenticator) (auth_data client_data_json : bytes) : bytes :=
  let client_data_hash := sha256 client_data_json in
  let signed_message := auth_data ++ client_data_hash in
  let sig := authenticator_sign self signed_message in
  let att_stmt := CMap [(CText "alg", CInteger (-7)); (CText "sig", CBytes sig)] in
  into_writer (CMap [(CText "fmt", CText "packed"); (CText "attStmt", att_stmt);
                     (CText "authData", CBytes auth_data)]).

(** [TestAuthenticator::new()]: the generator of the tests is that of the service. *)
Definition new_authenticator (w : world P R) : world P R * TestAuthenticator :=
  let '(r, auth) := authenticator_new (w_rng w) in (with_rng w r, auth).

(** [format!("subject-{}", Uuid::now_v7())] *)
Definition new_subject (w : world P R) : world P R * string :=
  (next_uuid w, "subject-" +:+ now_v7 (w_uuids w)).

(** An answer of status 200, and of the kind its route gives. *)
Definition registration_challenged (r : res ApiResponse ApiError) : res ChallengeResponse unit :=
  match r with Ok (RegistrationChallenged x) => Ok x | _ => Panic end.
Definition authentication_challenged (r : res ApiResponse ApiError) : res AuthenticationChallengeResponse unit :=
  match r with Ok (AuthenticationChallenged x) => Ok x | _ => Panic end.
Definition authenticated (r : res ApiResponse ApiError) : res AuthenticationVerifyResponse unit :=
  match r with Ok (AuthenticationVerified x) => Ok x | _ => Panic end.
Definition registered (r : res ApiResponse ApiError) : bool :=
  match r with Ok (RegistrationVerified _) => true | _ => false end.

(** The whole ceremony; with its assertion and what surrounds the service at the end. *)
Definition nominal_ceremony : res (world P R * string) unit :=
  let state := build_state "nominal" in
  let '(w, subject_id) := new_subject start in
  let '(w, r) := post state w (RegistrationChallenge {| rcr_subject_id := subject_id |}) in
  let! challenge_resp := registration_challenged r in
  let! challenge := b64_field (cres_challenge challenge_resp) in
  let '(w, auth) := new_authenticator w in
  let credential_id := as_bytes "integration-test-credential" in
  let cdj := client_data_json "webauthn.create" ORIGIN challenge in
  let! auth_data := ceremony_auth_data auth RP_ID 65 0 credential_id in
  let attestation_object := ceremony_attestation_none auth_data in
  let '(w, r) := post state w (RegistrationVerify {|
    rv_client_data_json := url_safe_encode cdj;
    rv_attestation_object := url_safe_encode attestation_object |}) in
  let! _ := assert (registered r) in
  let '(w, r) := post state w (AuthenticationChallenge {| acr_subject_id := subject_id |}) in
  let! auth_challenge_resp := authentication_challenged r in
  let! _ := assert_eq (length (ares_allow_credentials auth_challenge_resp)) 1%nat in
  let! auth_challenge := b64_field (ares_challenge auth_challenge_resp) in
  let auth_cdj := client_data_json "webauthn.get" ORIGIN auth_challenge in
  let! auth_auth_data := ceremony_auth_data auth RP_ID 5 1 credential_id in
  let client_data_hash := sha256 auth_cdj in
  let signed_message := auth_auth_data ++ client_data_hash in
  let signature := authenticator_sign auth signed_message in
  let '(w, r) := post state w (AuthenticationVerify {|
    av_credential_id := url_safe_encode credential_id;
    av_client_data_json := url_safe_encode auth_cdj;
    av_authenticator_data := url_safe_encode auth_auth_data;
    av_signature := url_safe_encode signature |}) in
  let! auth_verify_resp := authenticated r in
  Ok (w, avr_assertion auth_verify_resp).

Definition enregistrement_puis_authentification_bout_en_bout : test :=
  let! _ := nominal_ceremony in Ok tt.

Definition rejeu_du_meme_challenge_est_refuse : test :=
  let state := build_state "rejeu" in
  let '(w, subject_id) := new_subject start in
  let '(w, r) := post state w (RegistrationChallenge {| rcr_subject_id := subject_id |}) in
  let! challenge_resp := registration_challenged r in
  let! challenge := b64_field (cres_challenge challenge_resp) in
  let '(w, auth) := new_authenticator w in
  let credential_id := as_bytes "replay-test-credential" in
  let cdj := client_data_json "webauthn.create" ORIGIN challenge in
  let! auth_data := ceremony_auth_data auth RP_ID 65 0 credential_id in
  let attestation_object := ceremony_attestation_none auth_data in
  let body := RegistrationVerify {| rv_client_data_json := url_safe_encode cdj;
                                    rv_attestation_object := url_safe_encode attestation_object |} in
  let '(w, status_1) := post state w body in
  let! _ := assert (registered status_1) in
  let '(w, status_2) := post state w body in
  assert (negb (is_ok status_2)).

Definition http_signature_invalide_est_refusee : test :=
  let state := build_state "signature-invalide" in
  let '(w, subject_id) := new_subject start in
  let '(w, r) := post state w (RegistrationChallenge {| rcr_subject_id := subject_id |}) in
  let! challenge_resp := registration_challenged r in
  let! challenge := b64_field (cres_challenge challenge_resp) in
  let '(w, auth) := new_authenticator w in
  let credential_id := as_bytes "bad-signature-credential" in
  let cdj := client_data_json "webauthn.create" ORIGIN challenge in
  let! auth_data := ceremony_auth_data auth RP_ID 65 0 credential_id in
  let '(w, autre_auth) := new_authenticator w in
  let bad_attestation := ceremony_attestation_packed autre_auth auth_data cdj in
  let '(w, r) := post state w (RegistrationVerify {|
    rv_client_data_json := url_safe_encode cdj;
    rv_attestation_object := url_safe_encode bad_attestation |}) in
  assert match r with Err e => status e =? 401 | _ => false end.

Definition ceremony_tests : list test :=
  [enregistrement_puis_authentification_bout_en_bout; rejeu_du_meme_challenge_est_refuse;
   http_signature_invalide_est_refusee].
End http_tests.

(** A server that reads texts as the columns need them and scans in the order of the map, and
    identifiers that end with their count. *)
#[local] Program Instance light_scan : ScanOrder := {| scan := map_to_list |}.
Next Obligation. done. Qed.
#[local] Instance light_conversions : PgConversions := {|
  text_to_uuid := uuid_ok true; text_to_timestamptz := timestamp_ok |}.

Definition uuid_text (n : Z) : string :=
  from_utf8_bytes (as_bytes "0198e6c1-0000-7000-8000-" ++
                   concat (map hex_byte (to_be_bytes 6 (n mod 2 ^ 48)))).

Lemma uuid_text_ok n : uuid_ok true (uuid_text n) = true.
Proof.
  unfold uuid_text. pose proof (hex_bytes_hexdigit (to_be_bytes 6 (n mod 2 ^ 48))) as Hd. revert Hd.
  assert (length (concat (map hex_byte (to_be_bytes 6 (n mod 2 ^ 48)))) = 12%nat) as Hl by done.
  revert Hl. generalize (concat (map hex_byte (to_be_bytes 6 (n mod 2 ^ 48)))). intros ds Hl Hd.
  do 12 (destruct ds as [|? ds]; [done|]). destruct ds; [|done].
  cbn [forallb] in Hd. bool_simp. unfold uuid_ok. rewrite as_bytes_of.
  cbn. repeat match goal with H : is_ascii_hexdigit _ = true |- _ => rewrite H end. done.
Qed.

#[local] Instance light_uuid : UuidCrate := {| now_v7 := uuid_text; now_v7_ok := uuid_text_ok |}.

Definition light_assertion_sealer : AssertionSealer nat :=
  let key := {| Signer.label := "zs-identity-assertion-v1" |} in
  {| IdentityAssertion.pool := 0%nat; IdentityAssertion.key := key;
     IdentityAssertion.key_id := key_id_from_public_key (token_public_key key) |}.
Definition light_audit_sealer : AuditSealer nat :=
  let key := {| Signer.label := "zs-audit-seal-v1" |} in
  {| AuditSeal.pool := 0%nat; AuditSeal.key := key;
     AuditSeal.key_id := key_id_from_public_key (token_public_key key) |}.

(** A new database, and a service on the day of the other tests. *)
Definition new_world : world nat Z := {|
  w_db := empty_db; w_rng := 1; w_assertion_pool := 0%nat; w_audit_pool := 0%nat;
  w_clock := 1787500800; w_pg_now := 1787500800000000; w_uuids := 0 |}.

Example ceremony_tests_pass :
  map passes (ceremony_tests light_assertion_sealer light_audit_sealer new_world) = replicate 3 true.
Proof. vm_compute. reflexivity. Qed.

(** What the nominal ceremony leaves behind: two events, which verify with the key of the
    audit sealer and are a chain; an assertion that the assertion verification service
    accepts until its two minutes have passed; a credential whose counter has advanced. *)
Definition event_accepted (row : event_row) : bool :=
  let key := {| avk_key_id := AuditSeal.key_id light_audit_sealer;
                avk_raw := token_public_key (AuditSeal.key light_audit_sealer) |} in
  is_ok (AuditSeal.verify [key] (er_sealed_bytes row) {|
    AuditSeal.accepted_suites := [AuditSeal.SUITE_V1];
    AuditSeal.expected_authority_domain := "identity-provider-test-nominal" |}).

Definition assertion_valid (assertion : bytes) (clock : Z) : bool :=
  let key := {| avk_key_id := IdentityAssertion.key_id light_assertion_sealer;
                avk_raw := token_public_key (IdentityAssertion.key light_assertion_sealer) |} in
  match verify_assertion {| verifier_key := key |} clock
          {| rq_assertion := assertion;
             rq_expected_authority_domain := "identity-provider-test-nominal" |} with
  | Ok response => IdpGrpc.valid response
  | _ => false
  end.

Definition nominal_end : option (list string * bool * bool * list Z * list bool) :=
  match nominal_ceremony light_assertion_sealer light_audit_sealer new_world with
  | Ok (w, text) =>
      assertion ← url_safe_decode text;
      Some (map er_event_type (events (w_db w)), forallb event_accepted (events (w_db w)),
            is_ok (verify_chain (map journal_entry (events (w_db w)))),
            map (λ r, ar_sign_count r.2) (map_to_list (authenticators (w_db w))),
            map (assertion_valid assertion) [1787500799; 1787500800; 1787500919; 1787500920])
  | _ => None
  end.

Example nominal_ceremony_leaves :
  nominal_end = Some (["authenticator.registered"; "authentication.succeeded"], true, true, [1],
                      [false; true; true; false]).
Proof. vm_compute. reflexivity. Qed.

(** ** A registration and a login of the system *)

(** The four requests of an enrolment and a login, in a system whose generator draws [1] and
    then [2] for its challenges. *)
Definition enrolment_requests : res (list ApiRequest) unit :=
  let auth := {| key_pair := replicate 32 (u8_of 200) |} in
  let credential_id := as_bytes "enrolled-credential" in
  let cdj := client_data_json "webauthn.create" ORIGIN (replicate 32 (u8_of 1)) in
  let! auth_data := ceremony_auth_data auth RP_ID 65 0 credential_id in
  let auth_cdj := client_data_json "webauthn.get" ORIGIN (replicate 32 (u8_of 2)) in
  let! auth_auth_data := ceremony_auth_data auth RP_ID 5 1 credential_id in
  Ok [RegistrationChallenge {| rcr_subject_id := "alice" |};
      RegistrationVerify {|
        rv_client_data_json := url_safe_encode cdj;
        rv_attestation_object := url_safe_encode (ceremony_attestation_none auth_data) |};
      AuthenticationChallenge {| acr_subject_id := "alice" |};
      AuthenticationVerify {|
        av_credential_id := url_safe_encode credential_id;
        av_client_data_json := url_safe_encode auth_cdj;
        av_authenticator_data := url_safe_encode auth_auth_data;
        av_signature := url_safe_encode (authenticator_sign auth (auth_auth_data ++ sha256 auth_cdj)) |}].

Definition enrolled_requests : list ApiRequest :=
  match enrolment_requests with Ok l => l | _ => [] end.
Definition light_state : AppState := build_state "enrolment".

Lemma light_answers :
  ∃ req resp lreq lresp,
    let answers := (sequence light_state light_assertion_sealer light_audit_sealer new_world enrolled_requests).2 in
    enrolled_requests !! 1%nat = Some (RegistrationVerify req) ∧
    answers !! 1%nat = Some (Ok (RegistrationVerified resp)) ∧
    enrolled_requests !! 3%nat = Some (AuthenticationVerify lreq) ∧
    answers !! 3%nat = Some (Ok (AuthenticationVerified lresp)) ∧
    url_safe_decode (av_credential_id lreq) = url_safe_decode (rvr_credential_id resp).
Proof. vm_compute. do 4 eexists. split_and!; reflexivity. Qed.

Abbreviation light_reachable s :=
  (IdpSystem.reachable (R := Z) light_state light_assertion_sealer light_audit_sealer empty_db s).

Lemma light_enrolled :
  ∃ s req resp lreq lresp, light_reachable s ∧
    requests s !! 1%nat = Some (RegistrationVerify req) ∧
    threads s !! 1%nat = Some (Ret (Ok (RegistrationVerified resp))) ∧
    requests s !! 3%nat = Some (AuthenticationVerify lreq) ∧
    threads s !! 3%nat = Some (Ret (Ok (AuthenticationVerified lresp))) ∧
    url_safe_decode (av_credential_id lreq) = url_safe_decode (rvr_credential_id resp).
Proof.
  destruct (sequence_reachable light_state light_assertion_sealer light_audit_sealer enrolled_requests new_world)
    as (s & Hs & _ & Hreq & Hth).
  destruct light_answers as (req & resp & lreq & lresp & H1 & H2 & H3 & H4 & H5).
  exists s, req, resp, lreq, lresp. split; [exact Hs|].
  rewrite Hreq, Hth, !list_lookup_fmap, H2, H4. by split_and!.
Qed.

Lemma registration_binds_witness :
  ∃ s row c, light_reachable s ∧ row ∈ events (db s) ∧ er_event_type row = "authenticator.registered" ∧
    er_actor row = actor_json (cr_subject_id c).
Proof.
  destruct light_enrolled as (s & req & resp & lreq & lresp & Hs & Hreq & Hth & _).
  destruct (registration_binds light_state light_assertion_sealer light_audit_sealer empty_db s 1%nat req resp
    Hs Hreq Hth) as (ch & out & c & r & _ & _ & row & f & Hin & _ & Hty & _ & Hact).
  exists s, row, c. exact (conj Hs (conj Hin (conj Hty Hact))).
Defined.

Lemma login_is_of_the_registered_witness :
  ∃ s lresp claims sealed c, light_reachable s ∧
    threads s !! 3%nat = Some (Ret (Ok (AuthenticationVerified lresp))) ∧
    avr_assertion lresp = url_safe_encode (IdentityAssertion.bytes_of sealed) ∧
    as_str (IdentityAssertion.subject_id claims) = cr_subject_id c.
Proof.
  destruct light_enrolled as (s & req & resp & lreq & lresp & Hs & Hreq & Hth & Hlreq & Hlth & Hsame).
  destruct (login_is_of_the_registered light_state light_assertion_sealer light_audit_sealer empty_db s
    1%nat 3%nat req resp lreq lresp Hs Hreq Hth Hlreq Hlth Hsame)
    as (ch & out & c & r & claims & sealed & p & p' & _ & Ha & _ & Hsub & _).
  exists s, lresp, claims, sealed, c. exact (conj Hs (conj Hlth (conj Ha Hsub))).
Defined.
